(** * BMP decoder (bmp.hpp): shallow embedding and verified properties

    The decoder [bmp::Reader::parse] and its private helpers are embedded
    as Rocq functions over a byte buffer.  C++ fixed-width arithmetic is
    written out: [uint32_t] and [size_t] results are reduced modulo 2^32
    and 2^64, signed reinterpretations are explicit.  Every access through
    a raw pointer ([p_[i]], [pix[i]], [memcpy]) and every indexed store
    into [img.pixels] is checked against the extent of the object it
    touches; an access outside it ends the run with [Undefined], which is
    a third outcome next to a returned [Image] and a thrown [ParseError].
    A request for the pixel vector that [std::vector] refuses ends the run
    with [Thrown], the fourth outcome; the allocator is a parameter of the
    decoders.

    Loops recurse on a fuel argument.  A loop whose fuel runs out while its
    condition still holds ends with [Undefined IterationBound]; that fault
    is not a behaviour of the program, and [parse_finishes] shows that
    [parse] never produces it. *)

From Stdlib Require Import ZArith Lia List String Bool.
From Stdlib Require Import Strings.Byte.
From Stdlib Require Import FunInd Recdef.
From stdpp Require Import base list.
Import ListNotations.
Local Open Scope Z_scope.

(** ** Outcomes *)

Inductive fault : Type :=
| OutOfBoundsRead
| OutOfBoundsWrite
| SignedOverflow
| ShiftOutOfRange
| IterationBound.

(** The exceptions of [std::vector] when it is asked for storage. *)
Inductive std_exception : Type :=
| length_error
| bad_alloc.

Inductive result (A : Type) : Type :=
| Ok (a : A)
| ParseError (msg : string)
| Thrown (e : std_exception)
| Undefined (f : fault).
Arguments Ok {A} a.
Arguments ParseError {A} msg.
Arguments Thrown {A} e.
Arguments Undefined {A} f.

Definition bind {A B : Type} (r : result A) (k : A -> result B) : result B :=
  match r with
  | Ok a => k a
  | ParseError msg => ParseError msg
  | Thrown e => Thrown e
  | Undefined f => Undefined f
  end.

#[global] Instance result_bind : MBind result := fun A B k r => bind r k.
#[global] Instance result_ret : MRet result := fun A a => Ok a.
#[global] Instance result_fmap : FMap result :=
  fun A B f r => bind r (fun a => Ok (f a)).

Definition is_parse_error {A : Type} (r : result A) : Prop :=
  exists msg, r = ParseError msg.

(** ** Fixed-width integers *)

Definition u8 (z : Z) : Z := z mod 2 ^ 8.
Definition u16 (z : Z) : Z := z mod 2 ^ 16.
Definition u32 (z : Z) : Z := z mod 2 ^ 32.
Definition size_t (z : Z) : Z := z mod 2 ^ 64.

(** [int16_t(x)] and [int32_t(x)] of an unsigned value of the same width. *)
Definition s16 (z : Z) : Z := if z <? 2 ^ 15 then z else z - 2 ^ 16.
Definition s32 (z : Z) : Z := if z <? 2 ^ 31 then z else z - 2 ^ 32.

(** ** Bytes and the input buffer *)

Definition b2z (b : byte) : Z := Z.of_N (Byte.to_N b).

Definition z2b (z : Z) : byte :=
  match Byte.of_N (Z.to_N (z mod 256)) with
  | Some b => b
  | None => x00
  end.

(** [p[i]] for a buffer of [length p] bytes, as a byte and as the integer
    it is promoted to. *)
Definition rdb (p : list byte) (i : Z) : result byte :=
  if i <? 0 then Undefined OutOfBoundsRead
  else match p !! Z.to_nat i with
       | Some b => Ok b
       | None => Undefined OutOfBoundsRead
       end.

Definition rd (p : list byte) (i : Z) : result Z :=
  b ← rdb p i; Ok (b2z b).

(** [v[i] = b] for a vector of [length v] bytes. *)
Definition wr (v : list byte) (i : Z) (b : byte) : result (list byte) :=
  if (i <? 0) || (Z.of_nat (length v) <=? i) then Undefined OutOfBoundsWrite
  else Ok (<[Z.to_nat i := b]> v).

Definition le16 (p : list byte) (off : Z) : result Z :=
  b0 ← rd p off;
  b1 ← rd p (off + 1);
  Ok (u16 (Z.lor b0 (Z.shiftl b1 8))).

Definition le32 (p : list byte) (off : Z) : result Z :=
  b0 ← rd p off;
  b1 ← rd p (off + 1);
  b2 ← rd p (off + 2);
  b3 ← rd p (off + 3);
  Ok (u32 (Z.lor (Z.lor (Z.lor b0 (Z.shiftl b1 8)) (Z.shiftl b2 16))
                 (Z.shiftl b3 24))).

(** ** Data model *)

Inductive DIBType : Type :=
| CORE_OS2_V1 | OS2_V2 | INFO | V2 | V3 | V4 | V5.

(** [enum class Compression : uint32_t]; the header word is cast to it
    unchecked, so any 32-bit value can occur. *)
Definition Compression : Type := Z.
Definition BI_RGB : Compression := 0.
Definition BI_RLE8 : Compression := 1.
Definition BI_RLE4 : Compression := 2.
Definition BI_BITFIELDS : Compression := 3.
Definition BI_JPEG : Compression := 4.
Definition BI_PNG : Compression := 5.
Definition BI_ALPHABITFIELDS : Compression := 6.
Definition BI_CMYK : Compression := 11.
Definition BI_CMYKRLE8 : Compression := 12.
Definition BI_CMYKRLE4 : Compression := 13.

Definition ColorSpaceType : Type := Z.
Definition LCS_CALIBRATED_RGB : ColorSpaceType := 0x00000000.
Definition LCS_sRGB : ColorSpaceType := 0x73524742.
Definition LCS_WINDOWS_COLOR_SPACE : ColorSpaceType := 0x57696E20.
Definition PROFILE_LINKED : ColorSpaceType := 0x4C494E4B.
Definition PROFILE_EMBEDDED : ColorSpaceType := 0x4D424544.

Inductive RenderingIntent : Type :=
| LCS_GM_ABS_COLORIMETRIC | LCS_GM_BUSINESS | LCS_GM_GRAPHICS | LCS_GM_IMAGES.

Inductive PixelFormat : Type :=
| RGBA8 | BGRA8 | BGR8 | Gray8 | RawBitfields.

Record Bitmasks : Type := mkBitmasks
  { mask_r : Z; mask_g : Z; mask_b : Z; mask_a : Z }.

Record CIEXYZ : Type := mkCIEXYZ { cie_x : Z; cie_y : Z; cie_z : Z }.
Record CIEXYZTRIPLE : Type := mkTriple
  { end_r : CIEXYZ; end_g : CIEXYZ; end_b : CIEXYZ }.

Record Metadata : Type := mkMetadata
  { dib_type : DIBType;
    width : Z;
    height : Z;
    planes : Z;
    bpp : Z;
    compression : Compression;
    image_size : Z;
    ppm_x : Z;
    ppm_y : Z;
    color_used : Z;
    color_important : Z;
    has_masks : bool;
    masks : Bitmasks;
    cstype : ColorSpaceType;
    endpoints : CIEXYZTRIPLE;
    gamma_red : Z;
    gamma_green : Z;
    gamma_blue : Z;
    intent : RenderingIntent;
    embedded_profile : list byte;
    file_offset_pixels : Z;
    header_size : Z;
    file_size : Z }.

Definition top_down (m : Metadata) : bool := height m <? 0.

(** [uint32_t(-int64_t(height))]: the negation is done in 64 bits. *)
Definition abs_height (m : Metadata) : Z :=
  if height m <? 0 then u32 (- height m) else u32 (height m).

Record PaletteEntry : Type := mkPaletteEntry
  { pe_b : byte; pe_g : byte; pe_r : byte; pe_a : byte }.

Record Image : Type := mkImage
  { meta : Metadata;
    format : PixelFormat;
    pixels : list byte;
    palette : list PaletteEntry;
    raw_masks : Bitmasks;
    raw_bits_per_pixel : Z }.

Definition zero_masks : Bitmasks := mkBitmasks 0 0 0 0.
Definition zero_xyz : CIEXYZ := mkCIEXYZ 0 0 0.

(** [Metadata m{}] : members without an initializer are zeroed, the
    others take their default member initializer. *)
Definition Metadata_init : Metadata :=
  {| dib_type := CORE_OS2_V1; width := 0; height := 0; planes := 1; bpp := 0;
     compression := BI_RGB; image_size := 0; ppm_x := 0; ppm_y := 0;
     color_used := 0; color_important := 0;
     has_masks := false; masks := zero_masks;
     cstype := LCS_sRGB;
     endpoints := mkTriple zero_xyz zero_xyz zero_xyz;
     gamma_red := 0; gamma_green := 0; gamma_blue := 0;
     intent := LCS_GM_IMAGES; embedded_profile := [];
     file_offset_pixels := 0; header_size := 0; file_size := 0 |}.

(** Field assignments, grouped the way [parse] performs them. *)

Definition set_offsets (m : Metadata) (off hs fs : Z) : Metadata :=
  {| dib_type := dib_type m; width := width m; height := height m;
     planes := planes m; bpp := bpp m; compression := compression m;
     image_size := image_size m; ppm_x := ppm_x m; ppm_y := ppm_y m;
     color_used := color_used m; color_important := color_important m;
     has_masks := has_masks m; masks := masks m; cstype := cstype m;
     endpoints := endpoints m; gamma_red := gamma_red m;
     gamma_green := gamma_green m; gamma_blue := gamma_blue m;
     intent := intent m; embedded_profile := embedded_profile m;
     file_offset_pixels := off; header_size := hs; file_size := fs |}.

Definition set_dib_type (m : Metadata) (t : DIBType) : Metadata :=
  {| dib_type := t; width := width m; height := height m;
     planes := planes m; bpp := bpp m; compression := compression m;
     image_size := image_size m; ppm_x := ppm_x m; ppm_y := ppm_y m;
     color_used := color_used m; color_important := color_important m;
     has_masks := has_masks m; masks := masks m; cstype := cstype m;
     endpoints := endpoints m; gamma_red := gamma_red m;
     gamma_green := gamma_green m; gamma_blue := gamma_blue m;
     intent := intent m; embedded_profile := embedded_profile m;
     file_offset_pixels := file_offset_pixels m;
     header_size := header_size m; file_size := file_size m |}.

Definition set_dims (m : Metadata) (w h pl bp : Z) : Metadata :=
  {| dib_type := dib_type m; width := w; height := h;
     planes := pl; bpp := bp; compression := compression m;
     image_size := image_size m; ppm_x := ppm_x m; ppm_y := ppm_y m;
     color_used := color_used m; color_important := color_important m;
     has_masks := has_masks m; masks := masks m; cstype := cstype m;
     endpoints := endpoints m; gamma_red := gamma_red m;
     gamma_green := gamma_green m; gamma_blue := gamma_blue m;
     intent := intent m; embedded_profile := embedded_profile m;
     file_offset_pixels := file_offset_pixels m;
     header_size := header_size m; file_size := file_size m |}.

Definition set_info (m : Metadata) (c isz px py cu ci : Z) : Metadata :=
  {| dib_type := dib_type m; width := width m; height := height m;
     planes := planes m; bpp := bpp m; compression := c;
     image_size := isz; ppm_x := px; ppm_y := py;
     color_used := cu; color_important := ci;
     has_masks := has_masks m; masks := masks m; cstype := cstype m;
     endpoints := endpoints m; gamma_red := gamma_red m;
     gamma_green := gamma_green m; gamma_blue := gamma_blue m;
     intent := intent m; embedded_profile := embedded_profile m;
     file_offset_pixels := file_offset_pixels m;
     header_size := header_size m; file_size := file_size m |}.

Definition set_masks (m : Metadata) (hm : bool) (k : Bitmasks) : Metadata :=
  {| dib_type := dib_type m; width := width m; height := height m;
     planes := planes m; bpp := bpp m; compression := compression m;
     image_size := image_size m; ppm_x := ppm_x m; ppm_y := ppm_y m;
     color_used := color_used m; color_important := color_important m;
     has_masks := hm; masks := k; cstype := cstype m;
     endpoints := endpoints m; gamma_red := gamma_red m;
     gamma_green := gamma_green m; gamma_blue := gamma_blue m;
     intent := intent m; embedded_profile := embedded_profile m;
     file_offset_pixels := file_offset_pixels m;
     header_size := header_size m; file_size := file_size m |}.

Definition set_colorspace (m : Metadata) (cs : ColorSpaceType)
    (e : CIEXYZTRIPLE) (gr gg gb : Z) : Metadata :=
  {| dib_type := dib_type m; width := width m; height := height m;
     planes := planes m; bpp := bpp m; compression := compression m;
     image_size := image_size m; ppm_x := ppm_x m; ppm_y := ppm_y m;
     color_used := color_used m; color_important := color_important m;
     has_masks := has_masks m; masks := masks m; cstype := cs;
     endpoints := e; gamma_red := gr;
     gamma_green := gg; gamma_blue := gb;
     intent := intent m; embedded_profile := embedded_profile m;
     file_offset_pixels := file_offset_pixels m;
     header_size := header_size m; file_size := file_size m |}.

Definition set_v5 (m : Metadata) (i : RenderingIntent) (prof : list byte)
    : Metadata :=
  {| dib_type := dib_type m; width := width m; height := height m;
     planes := planes m; bpp := bpp m; compression := compression m;
     image_size := image_size m; ppm_x := ppm_x m; ppm_y := ppm_y m;
     color_used := color_used m; color_important := color_important m;
     has_masks := has_masks m; masks := masks m; cstype := cstype m;
     endpoints := endpoints m; gamma_red := gamma_red m;
     gamma_green := gamma_green m; gamma_blue := gamma_blue m;
     intent := i; embedded_profile := prof;
     file_offset_pixels := file_offset_pixels m;
     header_size := header_size m; file_size := file_size m |}.

(** ** Loops

    [for (k = lo; k < stop; k += step)] whose body may [break], and
    [while (cond)] whose body may [break]. *)

Inductive ctl (S : Type) : Type :=
| Next (s : S)
| Break (s : S).
Arguments Next {S} s.
Arguments Break {S} s.

Fixpoint for_loop {S : Type} (fuel : nat) (k step stop : Z)
    (body : Z -> S -> result (ctl S)) (s : S) : result S :=
  match fuel with
  | O => if k <? stop then Undefined IterationBound else Ok s
  | Datatypes.S fuel' =>
      if k <? stop then
        c ← body k s;
        match c with
        | Next s' => for_loop fuel' (k + step) step stop body s'
        | Break s' => Ok s'
        end
      else Ok s
  end.

Definition for_range {S : Type} (lo stop step : Z)
    (body : Z -> S -> result (ctl S)) (s : S) : result S :=
  for_loop (Z.to_nat (stop - lo)) lo step stop body s.

Fixpoint while_loop {S : Type} (fuel : nat) (cond : S -> bool)
    (body : S -> result (ctl S)) (s : S) : result S :=
  match fuel with
  | O => if cond s then Undefined IterationBound else Ok s
  | Datatypes.S fuel' =>
      if cond s then
        c ← body s;
        match c with
        | Next s' => while_loop fuel' cond body s'
        | Break s' => Ok s'
        end
      else Ok s
  end.

(** ** Header parsing: [Reader::parse], lines 184-347 *)

Definition slice (p : list byte) (start len : Z) : list byte :=
  take (Z.to_nat len) (drop (Z.to_nat start) p).

(** [dib + k] is the buffer offset [14 + k]. *)
Definition dib (k : Z) : Z := 14 + k.

Definition read_dims32 (p : list byte) (m : Metadata) : result Metadata :=
  w ← le32 p (dib 4);
  h ← le32 p (dib 8);
  pl ← le16 p (dib 12);
  bp ← le16 p (dib 14);
  Ok (set_dims m (s32 w) (s32 h) pl bp).

Definition read_info (p : list byte) (m : Metadata) : result Metadata :=
  c ← le32 p (dib 16);
  isz ← le32 p (dib 20);
  px ← le32 p (dib 24);
  py ← le32 p (dib 28);
  cu ← le32 p (dib 32);
  ci ← le32 p (dib 36);
  Ok (set_info m c isz px py cu ci).

Definition info_dib_type (m : Metadata) (dib_size : Z) : Metadata :=
  if dib_size =? 40 then set_dib_type m INFO
  else if dib_size =? 52 then set_dib_type m V2
  else if dib_size =? 56 then set_dib_type m V3
  else if dib_size =? 108 then set_dib_type m V4
  else if dib_size =? 124 then set_dib_type m V5
  else m.

Definition read_rgb_masks (p : list byte) (m : Metadata) : result Metadata :=
  r ← le32 p (dib 40 + 0);
  g ← le32 p (dib 40 + 4);
  b ← le32 p (dib 40 + 8);
  Ok (set_masks m true (mkBitmasks r g b (mask_a (masks m)))).

Definition read_alpha_mask (p : list byte) (m : Metadata) : result Metadata :=
  a ← le32 p (dib 40 + 12);
  Ok (set_masks m (has_masks m)
        (mkBitmasks (mask_r (masks m)) (mask_g (masks m)) (mask_b (masks m)) a)).

Definition read_masks (p : list byte) (n dib_size : Z) (m : Metadata)
    : result Metadata :=
  if (compression m =? BI_BITFIELDS) || (compression m =? BI_ALPHABITFIELDS)
  then
    if dib_size >=? 52 then
      m1 ← read_rgb_masks p m;
      if dib_size >=? 56 then read_alpha_mask p m1 else Ok m1
    else
      if u32 (14 + dib_size + 12) <=? n then
        m1 ← read_rgb_masks p m;
        if (compression m1 =? BI_ALPHABITFIELDS)
           && (u32 (14 + dib_size + 16) <=? n)
        then read_alpha_mask p m1 else Ok m1
      else Ok m
  else Ok m.

Definition read_xyz (p : list byte) (off : Z) : result CIEXYZ :=
  x ← le32 p off;
  y ← le32 p (off + 4);
  z ← le32 p (off + 8);
  Ok (mkCIEXYZ (s32 x) (s32 y) (s32 z)).

Definition read_v4 (p : list byte) (dib_size : Z) (m : Metadata)
    : result Metadata :=
  if dib_size >=? 108 then
    cs ← le32 p (dib 40);
    er ← read_xyz p (dib 44);
    eg ← read_xyz p (dib 56);
    eb ← read_xyz p (dib 68);
    gr ← le32 p (dib 80);
    gg ← le32 p (dib 84);
    gb ← le32 p (dib 88);
    Ok (set_colorspace m cs (mkTriple er eg eb) gr gg gb)
  else Ok m.

Definition intent_of (w : Z) : RenderingIntent :=
  if w =? 1 then LCS_GM_BUSINESS
  else if w =? 2 then LCS_GM_GRAPHICS
  else if w =? 4 then LCS_GM_IMAGES
  else if w =? 8 then LCS_GM_ABS_COLORIMETRIC
  else LCS_GM_IMAGES.

Definition read_v5 (p : list byte) (n dib_size : Z) (m : Metadata)
    : result Metadata :=
  if dib_size >=? 124 then
    iw ← le32 p (dib 92);
    profile_data ← le32 p (dib 112);
    profile_size ← le32 p (dib 116);
    let prof :=
      if (cstype m =? PROFILE_EMBEDDED) && (profile_size >? 0) then
        let start := size_t (14 + profile_data) in
        let stop := size_t (start + profile_size) in
        if (start <=? n) && (stop <=? n) && (stop >=? start)
        then slice p start (stop - start)
        else embedded_profile m
      else embedded_profile m in
    Ok (set_v5 m (intent_of iw) prof)
  else Ok m.

(** The file header and the DIB header, up to the point where the fields
    are validated. *)
Definition parse_dib (p : list byte) : result Metadata :=
  let n := Z.of_nat (length p) in
  if n <? 14 then ParseError "Truncated BMP header" else
  c0 ← rd p 0;
  c1 ← rd p 1;
  if negb (c0 =? 66) || negb (c1 =? 77)
  then ParseError "Not a BMP (missing 'BM')" else
  fsz ← le32 p 2;
  reserved ← le32 p 6;
  off_bits ← le32 p 10;
  if off_bits >? n then ParseError "Pixel data offset beyond file size" else
  if n <? 18 then ParseError "Missing DIB header size" else
  dib_size ← le32 p (dib 0);
  if u32 (dib_size + 14) >? n then ParseError "Truncated DIB header" else
  let m := set_offsets Metadata_init off_bits dib_size fsz in
  if dib_size =? 12 then
    w ← le16 p (dib 4);
    h ← le16 p (dib 6);
    pl ← le16 p (dib 8);
    bp ← le16 p (dib 10);
    Ok (set_dims (set_dib_type m CORE_OS2_V1) (s16 w) (s16 h) pl bp)
  else if (dib_size =? 16) || (dib_size =? 64) then
    if dib_size =? 64 then
      m1 ← read_dims32 p (set_dib_type m OS2_V2);
      read_info p m1
    else
      read_dims32 p (set_dib_type m OS2_V2)
  else if (dib_size =? 40) || (dib_size =? 52) || (dib_size =? 56)
          || (dib_size =? 108) || (dib_size =? 124) then
    m1 ← read_dims32 p m;
    m2 ← read_info p m1;
    let m3 := info_dib_type m2 dib_size in
    m4 ← read_masks p n dib_size m3;
    m5 ← read_v4 p dib_size m4;
    read_v5 p n dib_size m5
  else ParseError "Unsupported or corrupt DIB header size".

(** ** Palette: [Reader::parse], lines 349-399 *)

Definition default_palette_entries (m : Metadata) : Z :=
  match dib_type m with
  | CORE_OS2_V1 =>
      if bpp m <=? 8 then u32 (Z.shiftl 1 (bpp m)) else 0
  | _ =>
      if bpp m <=? 8 then
        if negb (color_used m =? 0) then color_used m
        else u32 (Z.shiftl 1 (bpp m))
      else color_used m
  end.

(** The two [for] loops that push [k] entries of [esize] bytes read at [q];
    a three-byte entry gets alpha 0. *)
Fixpoint read_entries (p : list byte) (k : nat) (q esize : Z)
    : result (list PaletteEntry) :=
  match k with
  | O => Ok []
  | Datatypes.S k' =>
      b ← rdb p q;
      g ← rdb p (q + 1);
      r ← rdb p (q + 2);
      a ← (if esize =? 4 then rdb p (q + 3) else Ok x00);
      rest ← read_entries p k' (q + esize) esize;
      Ok (mkPaletteEntry b g r a :: rest)
  end.

Definition palette_entry_size (m : Metadata) : Z :=
  match dib_type m with CORE_OS2_V1 => 3 | _ => 4 end.

Definition read_palette (p : list byte) (m : Metadata)
    : result (list PaletteEntry) :=
  let palette_offset := size_t (u32 (14 + header_size m)) in
  let palette_entries := default_palette_entries m in
  let bytes_available_for_palette :=
    if file_offset_pixels m >? palette_offset
    then size_t (file_offset_pixels m - palette_offset) else 0 in
  if (palette_entries >? 0) && (bytes_available_for_palette >? 0) then
    let esize := palette_entry_size m in
    let cnt := Z.min (u32 (bytes_available_for_palette / esize))
                     (default_palette_entries m) in
    read_entries p (Z.to_nat cnt) palette_offset esize
  else Ok [].

(** ** Pixel region: [Reader::parse], lines 401-407 *)

Definition pix_region_size (m : Metadata) (n : Z) : Z :=
  let pix_size := size_t (n - file_offset_pixels m) in
  if negb (image_size m =? 0) && (image_size m <=? pix_size)
  then image_size m else pix_size.

(** ** Helpers shared by the decoders *)

(** [m.width < 0 ? uint32_t(-m.width) : uint32_t(m.width)]: the negation
    is an [int] operation, undefined at [INT_MIN]. *)
Definition abs_width (m : Metadata) : result Z :=
  if width m <? 0 then
    if width m =? - 2 ^ 31 then Undefined SignedOverflow
    else Ok (u32 (- width m))
  else Ok (u32 (width m)).

Definition row_stride_aligned (width bpp : Z) : Z :=
  let bits := (width * bpp) mod 2 ^ 64 in
  let bytes := u32 ((bits + 7) / 8) in
  Z.land (u32 (bytes + 3)) (u32 (Z.lnot 3)).

(** The contents of the pixel vector once [v.assign(n, 0)], or
    [v.resize(n)] on the empty vector of a fresh [Image], has been given
    its storage. *)
Definition zeroed (n : Z) : list byte := replicate (Z.to_nat n) x00.

(** ** The allocator

    [img.pixels.assign(n, 0)], [img.pixels.resize(n)] and
    [img.pixels.assign(first, last)] ask [std::vector] for [n] bytes.  The
    vector throws [std::length_error] when [n] exceeds [max_size()], which
    is [PTRDIFF_MAX] for a vector of bytes with a 64-bit [size_t], and
    [std::bad_alloc] when the heap cannot serve the request.  The decoders
    take the allocator as a parameter: [vector_alloc avail] is the vector
    on a heap that serves requests of up to [avail] bytes, [granted] the
    allocator that serves every request.  A decoder named as in the
    source is the run on [granted]; the name with the suffix [_on] is the
    decoder on any allocator, and [parse_on_cases] relates the two.  The
    two small vectors of the parser, the palette and the embedded
    profile, are filled from bytes of the buffer and are bounded by its
    length; they are not requests of the model. *)
Definition allocator : Type := Z -> result (list byte).

Definition max_size : Z := 2 ^ 63 - 1.

Definition vector_alloc (avail : Z) : allocator := fun n =>
  if n >? max_size then Thrown length_error
  else if n >? avail then Thrown bad_alloc
  else Ok (zeroed n).

Definition granted : allocator := fun n => Ok (zeroed n).

Definition memcpy (dst : list byte) (d : Z) (src : list byte) (s len : Z)
    : result (list byte) :=
  if s + len >? Z.of_nat (length src) then Undefined OutOfBoundsRead
  else if d + len >? Z.of_nat (length dst) then Undefined OutOfBoundsWrite
  else Ok (take (Z.to_nat d) dst ++ slice src s len
             ++ drop (Z.to_nat (d + len)) dst).

Definition set_decoded (img : Image) (f : PixelFormat) (px : list byte)
    : Image :=
  {| meta := meta img; format := f; pixels := px; palette := palette img;
     raw_masks := raw_masks img;
     raw_bits_per_pixel := raw_bits_per_pixel img |}.

Definition set_raw (img : Image) (px : list byte) (k : Bitmasks) (bits : Z)
    : Image :=
  {| meta := meta img; format := RawBitfields; pixels := px;
     palette := palette img; raw_masks := k; raw_bits_per_pixel := bits |}.

Definition set_meta (img : Image) (m : Metadata) : Image :=
  {| meta := m; format := format img; pixels := pixels img;
     palette := palette img; raw_masks := raw_masks img;
     raw_bits_per_pixel := raw_bits_per_pixel img |}.

(** The body shared by the lambdas [put_px] and [put], after the clipping
    test of the latter: remap the index, fetch the entry, store B, G, R, A
    at [(y * W + x) * 4]. *)
Definition store_px (W : Z) (pal : list PaletteEntry) (x y idx : Z)
    (px : list byte) : result (list byte) :=
  let idx := if idx >=? Z.of_nat (length pal) then 0 else idx in
  match pal !! Z.to_nat idx with
  | None => Undefined OutOfBoundsRead
  | Some pe =>
      let off := size_t ((y * W + x) * 4) in
      px ← wr px (off + 0) (pe_b pe);
      px ← wr px (off + 1) (pe_g pe);
      px ← wr px (off + 2) (pe_r pe);
      wr px (off + 3) (pe_a pe)
  end.

Definition is_empty {T : Type} (l : list T) : bool :=
  match l with [] => true | _ => false end.

(** ** [Reader::decode_indexed_uncompressed] *)

Definition indexed_row (pix : list byte) (pal : list PaletteEntry)
    (W bits src y : Z) (px : list byte) : result (list byte) :=
  let put_px := store_px W pal in
  if bits =? 8 then
    for_range 0 W 1 (fun x px =>
      idx ← rd pix (src + x);
      Next <$> put_px x y idx px) px
  else if bits =? 4 then
    for_range 0 W 2 (fun x px =>
      byte ← rd pix (src + x / 2);
      let hi := Z.land (Z.shiftr byte 4) 0xF in
      let lo := Z.land byte 0xF in
      px ← put_px x y hi px;
      Next <$> (if u32 (x + 1) <? W then put_px (u32 (x + 1)) y lo px
                else Ok px)) px
  else if bits =? 2 then
    for_range 0 W 4 (fun x px =>
      byte ← rd pix (src + x / 4);
      let i0 := Z.land (Z.shiftr byte 6) 3 in
      let i1 := Z.land (Z.shiftr byte 4) 3 in
      let i2 := Z.land (Z.shiftr byte 2) 3 in
      let i3 := Z.land byte 3 in
      px ← put_px x y i0 px;
      px ← (if u32 (x + 1) <? W then put_px (u32 (x + 1)) y i1 px
            else Ok px);
      px ← (if u32 (x + 2) <? W then put_px (u32 (x + 2)) y i2 px
            else Ok px);
      Next <$> (if u32 (x + 3) <? W then put_px (u32 (x + 3)) y i3 px
                else Ok px)) px
  else if bits =? 1 then
    for_range 0 W 8 (fun x px =>
      byte ← rd pix (src + x / 8);
      Next <$> for_range 0 8 1 (fun j px =>
        let b := 7 - j in
        let xx := u32 (x + (7 - b)) in
        Next <$> (if xx <? W
                  then put_px xx y (Z.land (Z.shiftr byte b) 1) px
                  else Ok px)) px) px
  else Ok px.

Definition decode_indexed_uncompressed_on (alloc : allocator)
    (pix : list byte) (pix_size : Z) (img : Image) : result Image :=
  let m := meta img in
  if is_empty (palette img)
  then ParseError "Missing palette for indexed BMP" else
  W ← abs_width m;
  let H := abs_height m in
  let stride := row_stride_aligned W (bpp m) in
  let needed := size_t (stride * H) in
  if needed >? pix_size then ParseError "Pixel data truncated" else
  out ← alloc (size_t (W * H * 4));
  px ← for_range 0 H 1 (fun row px =>
          let src := size_t (row * stride) in
          let y := if top_down m then row else u32 (H - 1 - row) in
          Next <$> indexed_row pix (palette img) W (bpp m) src y px) out;
  Ok (set_decoded img BGRA8 px).

Definition decode_indexed_uncompressed (pix : list byte) (pix_size : Z)
    (img : Image) : result Image :=
  decode_indexed_uncompressed_on granted pix pix_size img.

(** ** [Reader::decode_rle8] and [Reader::decode_rle4]

    The loops reach the output only through the lambda [put]; they are
    written over an abstract output [A] and the stores [store] that [put]
    performs once a pixel has passed its clipping test.  The decoders
    instantiate [A] with the pixel vector and [store] with [store_px]. *)

Record rle_state (A : Type) : Type := mkRle
  { rle_x : Z; rle_y : Z; rle_i : Z; rle_out : A }.
Arguments mkRle {A} _ _ _ _.
Arguments rle_x {A} _.
Arguments rle_y {A} _.
Arguments rle_i {A} _.
Arguments rle_out {A} _.

Section RLE.
Context {A : Type}.
Variable store : Z -> Z -> Z -> A -> result A.
Variables (pix : list byte) (pix_size W H : Z) (td : bool).

Definition put (x y idx : Z) (out : A) : result A :=
  if (x >=? W) || (y >=? H) then Ok out else store x y idx out.

(** [put(x++, yy, idx)] followed by the row advance and its [break]. *)
Definition emit (idx : Z) (st : rle_state A) : result (ctl (rle_state A)) :=
  let yy := if td then rle_y st else u32 (H - 1 - rle_y st) in
  out ← put (rle_x st) yy idx (rle_out st);
  let x := u32 (rle_x st + 1) in
  if x >=? W then
    let y := u32 (rle_y st + 1) in
    if y >=? H then Ok (Break (mkRle 0 y (rle_i st) out))
    else Ok (Next (mkRle 0 y (rle_i st) out))
  else Ok (Next (mkRle x (rle_y st) (rle_i st) out)).

Definition set_i (st : rle_state A) (i : Z) : rle_state A :=
  mkRle (rle_x st) (rle_y st) i (rle_out st).

(** The delta escape of [decode_rle8], lines 621-632. *)
Definition rle8_delta (st : rle_state A) (i : Z)
    : result (ctl (rle_state A)) :=
  if size_t (i + 1) >=? pix_size then Ok (Break (set_i st i)) else
  dx ← rd pix i;
  dy ← rd pix (i + 1);
  let x := u32 (rle_x st + dx) in
  let y := u32 (rle_y st + dy) in
  let x := if x >=? W then W else x in
  let y := if y >=? H then H else y in
  Ok (Next (mkRle x y (i + 2) (rle_out st))).

(** One iteration of the [while] loop of [decode_rle8]. *)
Definition rle8_step (st : rle_state A) : result (ctl (rle_state A)) :=
  let i := rle_i st in
  if size_t (i + 1) >? pix_size then Ok (Break st) else
  count ← rd pix i;
  let i := i + 1 in
  if negb (count =? 0) then
    if i >=? pix_size then Ok (Break (set_i st i)) else
    val ← rd pix i;
    let i := i + 1 in
    Next <$> for_range 0 count 1 (fun _ s => emit val s) (set_i st i)
  else
    if i >=? pix_size then Ok (Break (set_i st i)) else
    cmd ← rd pix i;
    let i := i + 1 in
    if cmd =? 0 then
      Ok (Next (mkRle 0 (u32 (rle_y st + 1)) i (rle_out st)))
    else if cmd =? 1 then Ok (Break (set_i st i))
    else if cmd =? 2 then rle8_delta st i
    else
      let n := cmd in
      if size_t (i + n) >? pix_size then Ok (Break (set_i st i)) else
      st' ← for_range 0 n 1 (fun _ s =>
               b ← rd pix (rle_i s);
               emit b (set_i s (rle_i s + 1))) (set_i st i);
      let i := rle_i st' in
      Ok (Next (set_i st' (if negb (Z.land n 1 =? 0) && (i <? pix_size)
                           then i + 1 else i))).

(** The delta escape of [decode_rle4], lines 716-722. *)
Definition rle4_delta (st : rle_state A) (i : Z)
    : result (ctl (rle_state A)) :=
  if size_t (i + 1) >=? pix_size then Ok (Break (set_i st i)) else
  dx ← rd pix i;
  dy ← rd pix (i + 1);
  Ok (Next (mkRle (u32 (rle_x st + dx)) (u32 (rle_y st + dy)) (i + 2)
                  (rle_out st))).

(** One iteration of the [while] loop of [decode_rle4]. *)
Definition rle4_step (st : rle_state A) : result (ctl (rle_state A)) :=
  let i := rle_i st in
  count ← rd pix i;
  let i := i + 1 in
  if negb (count =? 0) then
    if i >=? pix_size then Ok (Break (set_i st i)) else
    byte ← rd pix i;
    let i := i + 1 in
    let hi := Z.land (Z.shiftr byte 4) 0xF in
    let lo := Z.land byte 0xF in
    Next <$> for_range 0 count 1 (fun k s =>
               emit (if negb (Z.land k 1 =? 0) then lo else hi) s)
             (set_i st i)
  else
    if i >=? pix_size then Ok (Break (set_i st i)) else
    cmd ← rd pix i;
    let i := i + 1 in
    if cmd =? 0 then
      Ok (Next (mkRle 0 (u32 (rle_y st + 1)) i (rle_out st)))
    else if cmd =? 1 then Ok (Break (set_i st i))
    else if cmd =? 2 then rle4_delta st i
    else
      let n := cmd in
      let bytes := (n + 1) / 2 in
      if size_t (i + bytes) >? pix_size then Ok (Break (set_i st i)) else
      st' ← for_range 0 n 1 (fun k s =>
               b ← rd pix (size_t (i + k / 2));
               emit (if negb (Z.land k 1 =? 0) then Z.land b 0xF
                     else Z.land (Z.shiftr b 4) 0xF) s) (set_i st i);
      let i := size_t (i + bytes) in
      Ok (Next (set_i st' (if negb (Z.land bytes 1 =? 0) && (i <? pix_size)
                           then i + 1 else i))).

Definition rle_cond (st : rle_state A) : bool :=
  (rle_i st <? pix_size) && (rle_y st <? H).

Definition rle8_loop (st : rle_state A) : result (rle_state A) :=
  while_loop (Z.to_nat pix_size) rle_cond rle8_step st.

Definition rle4_loop (st : rle_state A) : result (rle_state A) :=
  while_loop (Z.to_nat pix_size) rle_cond rle4_step st.
End RLE.

Definition decode_rle8_on (alloc : allocator) (pix : list byte)
    (pix_size : Z) (img : Image) : result Image :=
  let m := meta img in
  if is_empty (palette img) then ParseError "Missing palette for RLE8" else
  W ← abs_width m;
  let H := abs_height m in
  out ← alloc (size_t (W * H * 4));
  st ← rle8_loop (store_px W (palette img)) pix pix_size W H (top_down m)
         (mkRle 0 0 0 out);
  Ok (set_decoded img BGRA8 (rle_out st)).

Definition decode_rle8 (pix : list byte) (pix_size : Z) (img : Image)
    : result Image :=
  decode_rle8_on granted pix pix_size img.

Definition decode_rle4_on (alloc : allocator) (pix : list byte)
    (pix_size : Z) (img : Image) : result Image :=
  let m := meta img in
  if is_empty (palette img) then ParseError "Missing palette for RLE4" else
  W ← abs_width m;
  let H := abs_height m in
  out ← alloc (size_t (W * H * 4));
  st ← rle4_loop (store_px W (palette img)) pix pix_size W H (top_down m)
         (mkRle 0 0 0 out);
  Ok (set_decoded img BGRA8 (rle_out st)).

Definition decode_rle4 (pix : list byte) (pix_size : Z) (img : Image)
    : result Image :=
  decode_rle4_on granted pix pix_size img.

(** ** [Reader::decode_bgr24] *)

Definition copy_rows (pix : list byte) (W H stride bytes_per_pixel : Z)
    (td : bool) (px : list byte) : result (list byte) :=
  for_range 0 H 1 (fun row px =>
    let src := size_t (row * stride) in
    let y := if td then row else u32 (H - 1 - row) in
    Next <$> memcpy px (size_t (y * W * bytes_per_pixel)) pix src
               (size_t (W * bytes_per_pixel))) px.

Definition decode_bgr24_on (alloc : allocator) (pix : list byte)
    (pix_size : Z) (img : Image) : result Image :=
  let m := meta img in
  W ← abs_width m;
  let H := abs_height m in
  let stride := row_stride_aligned W 24 in
  let needed := size_t (stride * H) in
  if needed >? pix_size then ParseError "Pixel data truncated" else
  out ← alloc (size_t (W * H * 3));
  px ← copy_rows pix W H stride 3 (top_down m) out;
  Ok (set_decoded img BGR8 px).

Definition decode_bgr24 (pix : list byte) (pix_size : Z) (img : Image)
    : result Image :=
  decode_bgr24_on granted pix pix_size img.

(** ** [Reader::bit_extract_norm] *)

(** [while (((mask >> shift) & 1u) == 0u) ++shift;] on a 32-bit [mask]:
    a shift count of 32 or more is undefined. *)
Definition shift_scan (mask : Z) : result Z :=
  while_loop 33
    (fun shift => Z.land (Z.shiftr mask shift) 1 =? 0)
    (fun shift => if 31 <=? shift then Undefined ShiftOutOfRange
                  else Ok (Next (shift + 1)))
    0.

(** [while (m & 1u) { ++width; m >>= 1; }] *)
Definition width_scan (m : Z) : result (Z * Z) :=
  while_loop 33
    (fun s => negb (Z.land (snd s) 1 =? 0))
    (fun s => Ok (Next (u32 (fst s + 1), Z.shiftr (snd s) 1)))
    (0, m).

(** [while (width < 8) { x = (x << width) | comp; width <<= 1; }] *)
Definition replicate_bits (comp width : Z) : result (Z * Z) :=
  while_loop 8
    (fun s => snd s <? 8)
    (fun s => Ok (Next (u32 (Z.lor (Z.shiftl (fst s) (snd s)) comp),
                        u32 (Z.shiftl (snd s) 1))))
    (comp, width).

Definition bit_extract_norm (v mask : Z) : result Z :=
  if mask =? 0 then Ok 0 else
  shift ← shift_scan mask;
  wm ← width_scan (Z.shiftr mask shift);
  let width := fst wm in
  let comp := Z.shiftr (Z.land v mask) shift in
  if width >=? 8 then Ok (u8 (Z.shiftr comp (width - 8)))
  else if width =? 0 then Ok 0
  else
    xw ← replicate_bits comp width;
    Ok (u8 (Z.land (fst xw) 0xFF)).

(** ** [Reader::decode_bitfields] *)

Definition default_masks32 : Bitmasks :=
  mkBitmasks 0x00FF0000 0x0000FF00 0x000000FF 0xFF000000.

Definition default_masks16 : Bitmasks :=
  mkBitmasks 0x7C00 0x03E0 0x001F 0.

Definition looks8 (k : Bitmasks) : bool :=
  (Z.lor (Z.lor (Z.lor (mask_r k) (mask_g k)) (mask_b k)) (mask_a k)
     <=? 0xFFFFFFFF)
  && (((mask_r k =? 0x00FF0000) && (mask_g k =? 0x0000FF00)
         && (mask_b k =? 0x000000FF))
      || ((mask_r k =? 0x000000FF) && (mask_g k =? 0x0000FF00)
            && (mask_b k =? 0x00FF0000))).

(** The body of the inner loop of the BGRA8 branch, lines 833-846. *)
Definition bitfield_pixel (pix : list byte) (k : Bitmasks)
    (bytes_per_pixel W src y x : Z) (px : list byte) : result (list byte) :=
  v ← (if bytes_per_pixel =? 2 then le16 pix (src + u32 (x * 2))
       else le32 pix (src + u32 (x * 4)));
  B ← bit_extract_norm v (mask_b k);
  G ← bit_extract_norm v (mask_g k);
  R ← bit_extract_norm v (mask_r k);
  A ← (if negb (mask_a k =? 0) then bit_extract_norm v (mask_a k)
       else Ok 255);
  let off := size_t ((y * W + x) * 4) in
  px ← wr px off (z2b B);
  px ← wr px (off + 1) (z2b G);
  px ← wr px (off + 2) (z2b R);
  wr px (off + 3) (z2b A).

Definition bitfield_rows (pix : list byte) (k : Bitmasks)
    (bytes_per_pixel W H stride : Z) (td : bool) (px : list byte)
    : result (list byte) :=
  for_range 0 H 1 (fun row px =>
    let src := size_t (row * stride) in
    let y := if td then row else u32 (H - 1 - row) in
    Next <$> for_range 0 W 1 (fun x px =>
               Next <$> bitfield_pixel pix k bytes_per_pixel W src y x px)
             px) px.

Definition decode_bitfields_on (alloc : allocator) (pix : list byte)
    (pix_size : Z) (img : Image) (bytes_per_pixel : Z) : result Image :=
  let m := meta img in
  W ← abs_width m;
  let H := abs_height m in
  let stride := row_stride_aligned W (u16 (u32 (bytes_per_pixel * 8))) in
  let needed := size_t (stride * H) in
  if needed >? pix_size then ParseError "Pixel data truncated" else
  let k := if has_masks m then masks m else default_masks32 in
  if looks8 k then
    out ← alloc (size_t (W * H * 4));
    px ← bitfield_rows pix k bytes_per_pixel W H stride (top_down m) out;
    Ok (set_decoded img BGRA8 px)
  else
    out ← alloc (size_t (W * H * bytes_per_pixel));
    px ← copy_rows pix W H stride bytes_per_pixel (top_down m) out;
    Ok (set_raw img px k (u8 (u32 (bytes_per_pixel * 8)))).

Definition decode_bitfields (pix : list byte) (pix_size : Z) (img : Image)
    (bytes_per_pixel : Z) : result Image :=
  decode_bitfields_on granted pix pix_size img bytes_per_pixel.

(** ** [Reader::expose_embedded_stream] *)

(** [v.assign(pix, pix + pix_size)] reads [pix_size] bytes at [pix]. *)
Definition read_range (pix : list byte) (len : Z) : result (list byte) :=
  if len >? Z.of_nat (length pix) then Undefined OutOfBoundsRead
  else Ok (slice pix 0 len).

(** The range [pix, pix + pix_size) is formed by the caller; the vector
    then asks for [pix_size] bytes and copies the range into them. *)
Definition expose_embedded_stream_on (alloc : allocator) (pix : list byte)
    (pix_size : Z) (img : Image) : result Image :=
  px ← read_range pix pix_size;
  _ ← alloc pix_size;
  Ok (set_raw img px zero_masks 0).

Definition expose_embedded_stream (pix : list byte) (pix_size : Z)
    (img : Image) : result Image :=
  expose_embedded_stream_on granted pix pix_size img.

(** ** The dispatch on [(bpp, compression)]: [Reader::parse], lines 413-474 *)

Definition is_embedded (c : Compression) : bool :=
  (c =? BI_PNG) || (c =? BI_JPEG).

Definition is_bitfields (c : Compression) : bool :=
  (c =? BI_BITFIELDS) || (c =? BI_ALPHABITFIELDS).

Definition decode_pixels_on (alloc : allocator) (pix : list byte)
    (pix_size : Z) (img : Image) : result Image :=
  let m := meta img in
  let c := compression m in
  if (bpp m =? 1) || (bpp m =? 2) || (bpp m =? 4) || (bpp m =? 8) then
    if c =? BI_RGB then decode_indexed_uncompressed_on alloc pix pix_size img
    else if (c =? BI_RLE8) && (bpp m =? 8)
    then decode_rle8_on alloc pix pix_size img
    else if (c =? BI_RLE4) && (bpp m =? 4)
    then decode_rle4_on alloc pix pix_size img
    else if is_embedded c
    then expose_embedded_stream_on alloc pix pix_size img
    else ParseError "Unsupported compression for indexed BMP"
  else if bpp m =? 16 then
    if c =? BI_RGB then
      decode_bitfields_on alloc pix pix_size
        (set_meta img (set_masks m true default_masks16)) 2
    else if is_bitfields c then decode_bitfields_on alloc pix pix_size img 2
    else if is_embedded c
    then expose_embedded_stream_on alloc pix pix_size img
    else ParseError "Unsupported compression for 16bpp"
  else if bpp m =? 24 then
    if c =? BI_RGB then decode_bgr24_on alloc pix pix_size img
    else if is_embedded c
    then expose_embedded_stream_on alloc pix pix_size img
    else ParseError "Unsupported compression for 24bpp"
  else if bpp m =? 32 then
    if c =? BI_RGB then
      decode_bitfields_on alloc pix pix_size
        (set_meta img (set_masks m true default_masks32)) 4
    else if is_bitfields c then decode_bitfields_on alloc pix pix_size img 4
    else if is_embedded c
    then expose_embedded_stream_on alloc pix pix_size img
    else ParseError "Unsupported compression for 32bpp"
  else ParseError "Unsupported bits-per-pixel".

Definition decode_pixels (pix : list byte) (pix_size : Z) (img : Image)
    : result Image :=
  decode_pixels_on granted pix pix_size img.

(** ** [Reader::parse] and [load_from_memory] *)

(** [Image img{}] with [meta] and [palette] assigned. *)
Definition Image_init (m : Metadata) (pal : list PaletteEntry) : Image :=
  {| meta := m; format := RGBA8; pixels := []; palette := pal;
     raw_masks := zero_masks; raw_bits_per_pixel := 0 |}.

Definition validate (m : Metadata) : result Metadata :=
  if planes m =? 0 then ParseError "Invalid planes"
  else if bpp m =? 0 then ParseError "Invalid bits-per-pixel"
  else if (width m =? 0) || (height m =? 0) then ParseError "Zero dimensions"
  else Ok m.

Definition parse_on (alloc : allocator) (p : list byte) : result Image :=
  let n := Z.of_nat (length p) in
  m ← parse_dib p;
  m ← validate m;
  pal ← read_palette p m;
  if file_offset_pixels m >? n
  then ParseError "Pixel array offset beyond data" else
  let pix := drop (Z.to_nat (file_offset_pixels m)) p in
  let pix_size := pix_region_size m n in
  decode_pixels_on alloc pix pix_size (Image_init m pal).

Definition parse (p : list byte) : result Image := parse_on granted p.

Definition load_from_memory (data : list byte) : result Image := parse data.

(** ** Test inputs *)

Definition bytes_of (l : list Z) : list byte := map z2b l.

(** Little-endian encodings used to lay out headers. *)
Definition enc16 (z : Z) : list Z := [z mod 256; (z / 256) mod 256].
Definition enc32 (z : Z) : list Z :=
  [z mod 256; (z / 2 ^ 8) mod 256; (z / 2 ^ 16) mod 256; (z / 2 ^ 24) mod 256].

(** A file with a 40-byte INFO header; [extra] follows the header (masks,
    palette) and [data] starts at [off_bits = 54 + length extra]. *)
Definition info_file (w h pl bits c isz cu : Z) (extra data : list byte)
    : list byte :=
  bytes_of ([66; 77]
            ++ enc32 (54 + Z.of_nat (length extra) + Z.of_nat (length data))
            ++ enc32 0
            ++ enc32 (54 + Z.of_nat (length extra))
            ++ enc32 40 ++ enc32 w ++ enc32 h ++ enc16 pl ++ enc16 bits
            ++ enc32 c ++ enc32 isz ++ enc32 0 ++ enc32 0 ++ enc32 cu
            ++ enc32 0)
  ++ extra ++ data.

(** ** The channel normalisation in the words of the specification

    Section 4.8 of the specification: [shift] is the number of trailing
    zero bits of the mask, [width] the number of contiguous set bits from
    there, [c = (v & M) >> shift]; a component of 8 bits or more is shifted
    down, a narrower one is replicated into itself until 8 bits are
    filled. *)

Fixpoint low_zeros (p : positive) : Z :=
  match p with
  | xO q => Z.succ (low_zeros q)
  | _ => 0
  end.

Fixpoint low_ones (p : positive) : Z :=
  match p with
  | xI q => Z.succ (low_ones q)
  | xH => 1
  | xO _ => 0
  end.

Definition norm_shift (M : Z) : Z :=
  match M with Zpos p => low_zeros p | _ => 0 end.

Definition norm_width (M : Z) : Z :=
  match Z.shiftr M (norm_shift M) with Zpos p => low_ones p | _ => 0 end.

(** [x = (x << width) | c], doubling [width], until [width >= 8]. *)
Function norm_replicate (c x w : Z) {measure (fun w => Z.to_nat (8 - w)) w}
    : Z :=
  if (0 <? w) && (w <? 8)
  then norm_replicate c (Z.lor (Z.shiftl x w) c) (Z.shiftl w 1)
  else x.
Proof.
  intros c x w H. apply andb_prop in H as [H1 H2].
  apply Z.ltb_lt in H1, H2. rewrite Z.shiftl_mul_pow2 by lia. lia.
Defined.

(** The normalisation as the specification states it. *)
Definition norm_stated (v M : Z) : Z :=
  let shift := norm_shift M in
  let width := norm_width M in
  let c := Z.shiftr (Z.land v M) shift in
  if 8 <=? width then Z.shiftr c (width - 8)
  else Z.land (norm_replicate c c width) 0xFF.

(** The same with the wide branch cut to its low 8 bits, which is what a
    function returning [uint8_t] delivers. *)
Definition norm_low8 (v M : Z) : Z :=
  let shift := norm_shift M in
  let width := norm_width M in
  let c := Z.shiftr (Z.land v M) shift in
  if 8 <=? width then Z.land (Z.shiftr c (width - 8)) 0xFF
  else Z.land (norm_replicate c c width) 0xFF.

(** The set bits of [M] form one run. *)
Definition contiguous (M : Z) : Prop :=
  Z.shiftr M (norm_shift M) = Z.ones (norm_width M).

(** ** The pixels an RLE decoder stores to

    Running the RLE loops with an output that only records the coordinates
    handed to the stores of [put] gives the list of pixels the stream
    writes, latest first. *)

Definition log_store (x y idx : Z) (log : list (Z * Z))
    : result (list (Z * Z)) :=
  Ok ((x, y) :: log).

Definition rle8_written (pix : list byte) (pix_size W H : Z) (td : bool)
    : result (list (Z * Z)) :=
  rle_out <$> rle8_loop log_store pix pix_size W H td (mkRle 0 0 0 []).

Definition rle4_written (pix : list byte) (pix_size W H : Z) (td : bool)
    : result (list (Z * Z)) :=
  rle_out <$> rle4_loop log_store pix pix_size W H td (mkRle 0 0 0 []).

(** Byte [c] of pixel [(x, y)] in a BGRA8 buffer of width [W]. *)
Definition byte_at (W : Z) (px : list byte) (x y c : Z) : option byte :=
  px !! Z.to_nat ((y * W + x) * 4 + c).

(** Two runs that end the same way, with related values. *)
Definition rel_result {A B : Type} (R : A -> B -> Prop)
    (r1 : result A) (r2 : result B) : Prop :=
  match r1, r2 with
  | Ok a, Ok b => R a b
  | ParseError m1, ParseError m2 => m1 = m2
  | Thrown e1, Thrown e2 => e1 = e2
  | Undefined f1, Undefined f2 => f1 = f2
  | _, _ => False
  end.

Definition rel_ctl {S1 S2 : Type} (R : S1 -> S2 -> Prop)
    (c1 : ctl S1) (c2 : ctl S2) : Prop :=
  match c1, c2 with
  | Next a, Next b => R a b
  | Break a, Break b => R a b
  | _, _ => False
  end.

(** Every pixel of a [W] x [H] BGRA8 buffer that is not in [log] holds
    four zero bytes. *)
Definition untouched_zero (W H : Z) (px : list byte) (log : list (Z * Z))
    : Prop :=
  Z.of_nat (length px) = W * H * 4
  /\ forall x y, 0 <= x < W -> 0 <= y < H -> (x, y) ∉ log ->
       forall c, 0 <= c < 4 -> byte_at W px x y c = Some x00.

(** ** Test inputs and auxiliary predicates *)

(** A file of width -1: one 24-bpp pixel. *)
Definition negative_width_file : list byte :=
  info_file (2 ^ 32 - 1) 1 1 24 BI_RGB 0 0 [] (bytes_of [1; 2; 3; 0]).

Definition zero_width_file : list byte :=
  info_file 0 1 1 24 BI_RGB 0 0 [] (bytes_of [1; 2; 3; 0]).

(** A file whose planes field is 2: one 24-bpp pixel. *)
Definition two_planes_file : list byte :=
  info_file 1 1 2 24 BI_RGB 0 0 [] (bytes_of [1; 2; 3; 0]).

Definition zero_planes_file : list byte :=
  info_file 1 1 0 24 BI_RGB 0 0 [] (bytes_of [1; 2; 3; 0]).

(** A 54-byte file: INFO header announcing a 32-bpp BI_RGB image of width
    2^30 and height 1, and no pixel data at all. *)
Definition huge_width_file : list byte :=
  info_file (2 ^ 30) 1 1 32 BI_RGB 0 0 [] [].

(** 1 x 1, 16 bpp, BI_BITFIELDS, masks 5-6-5 after the INFO header, the
    pixel 0xFFFF padded to a 4-byte row. *)
Definition rgb565_file : list byte :=
  info_file 1 1 1 16 BI_BITFIELDS 0 0
    (bytes_of (enc32 0xF800 ++ enc32 0x07E0 ++ enc32 0x001F))
    (bytes_of [0xFF; 0xFF; 0; 0]).

(** 1 x 1, 16 bpp, BI_RGB (default 5-5-5 masks), the pixel 0xFFFF. *)
Definition rgb555_file : list byte :=
  info_file 1 1 1 16 BI_RGB 0 0 [] (bytes_of [0xFF; 0xFF; 0; 0]).

(** The stream [00 02 05 00]: a delta escape with dx = 5, dy = 0. *)
Definition delta_stream : list byte := bytes_of [0; 2; 5; 0].

Definition one_entry_palette : list PaletteEntry :=
  [mkPaletteEntry x00 x00 x00 x00].

(** Width 3, height 1, 8 bpp, BI_RLE8, two palette entries, and the stream
    [00 03 00 01 00 00 01]. *)
Definition rle8_odd_run_file (e0 e1 : PaletteEntry) : list byte :=
  info_file 3 1 1 8 BI_RLE8 0 2
    [pe_b e0; pe_g e0; pe_r e0; pe_a e0; pe_b e1; pe_g e1; pe_r e1; pe_a e1]
    (bytes_of [0; 3; 0; 1; 0; 0; 1]).

Definition bgra (e : PaletteEntry) : list byte :=
  [pe_b e; pe_g e; pe_r e; pe_a e].

(** What the optional parts of the header leave untouched. *)
Definition same_core (m m' : Metadata) : Prop :=
  width m' = width m /\ height m' = height m
  /\ planes m' = planes m /\ bpp m' = bpp m
  /\ compression m' = compression m /\ image_size m' = image_size m
  /\ color_used m' = color_used m
  /\ file_offset_pixels m' = file_offset_pixels m
  /\ header_size m' = header_size m.

Record dib_facts (n : Z) (m : Metadata) : Prop := mkDibFacts
  { df_off : 0 <= file_offset_pixels m <= n;
    df_off32 : file_offset_pixels m < 2 ^ 32;
    df_isz : 0 <= image_size m < 2 ^ 32;
    df_w : - 2 ^ 31 <= width m < 2 ^ 31;
    df_h : - 2 ^ 31 <= height m < 2 ^ 31;
    df_bpp : 0 <= bpp m < 2 ^ 16;
    df_masks : header_size m = 40 -> n < 66 -> has_masks m = false }.

(** A 1 x 1, 8-bpp BI_PNG file announcing image_size = 3 in front of five
    payload bytes. *)
Definition png_file : list byte :=
  info_file 1 1 1 8 BI_PNG 3 0 [] (bytes_of [10; 20; 30; 40; 50]).

(** What is left of [p] once its trailing zeros are gone. *)
Fixpoint odd_part (p : positive) : positive :=
  match p with
  | xO q => odd_part q
  | _ => p
  end.

Definition ctl_state {S : Type} (c : ctl S) : S :=
  match c with Next s => s | Break s => s end.

(** A BGRA8 buffer of [n] bytes whose red and alpha bytes are all zero. *)
Definition red_alpha_zero (n : nat) (px : list byte) : Prop :=
  length px = n
  /\ forall p : nat,
       (p < n)%nat ->
       Z.of_nat p mod 4 = 2 \/ Z.of_nat p mod 4 = 3 ->
       px !! p = Some x00.

(** 1 x 1, 16 bpp, BI_BITFIELDS, a 40-byte header and one padded row
    [AB CD 00 00]: 58 bytes, so no mask bytes can be read. *)
Definition maskless16_file : list byte :=
  info_file 1 1 1 16 BI_BITFIELDS 0 0 [] (bytes_of [0xAB; 0xCD; 0; 0]).

(** A 2 x 2 RLE8 stream: delta (1, 1), one pixel of index 1, end of
    bitmap; only pixel (1, 0) of the output is stored to. *)
Definition delta_run_stream : list byte :=
  bytes_of [0; 2; 1; 1; 1; 1; 0; 1].

Definition delta_run_image : Image :=
  Image_init (set_dims Metadata_init 2 2 1 8)
    [mkPaletteEntry x00 x00 x00 x00; mkPaletteEntry x11 x22 x33 x44].

(** Two decoder states that agree on the cursor, lie at nonnegative
    coordinates, and whose outputs are related by [Rout]. *)
Definition Rst {A B : Type} (Rout : A -> B -> Prop)
    (s1 : rle_state A) (s2 : rle_state B) : Prop :=
  rle_x s1 = rle_x s2 /\ rle_y s1 = rle_y s2 /\ rle_i s1 = rle_i s2
  /\ 0 <= rle_x s1 /\ 0 <= rle_y s1
  /\ Rout (rle_out s1) (rle_out s2).

(** A run that does not stop on the iteration bound of the model. *)
Definition finishes {A : Type} (r : result A) : Prop :=
  r <> Undefined IterationBound.

(** The four masks are 32-bit values. *)
Definition masks32 (k : Bitmasks) : Prop :=
  0 <= mask_r k < 2 ^ 32 /\ 0 <= mask_g k < 2 ^ 32
  /\ 0 <= mask_b k < 2 ^ 32 /\ 0 <= mask_a k < 2 ^ 32.

(** * Further definitions *)
(** ** Further source functions *)

(** [le64]: two 32-bit reads. *)
Definition le64 (p : list byte) (off : Z) : result Z :=
  lo ← le32 p off;
  hi ← le32 p (off + 4);
  Ok (Z.lor lo (Z.shiftl hi 32) mod 2 ^ 64).

(** ** Predicates used by the further properties *)

(** A run that ends with an image or a thrown [ParseError]. *)
Definition safe {A : Type} (r : result A) : Prop :=
  match r with Ok _ | ParseError _ => True | _ => False end.

(** The DIB header sizes that [parse] accepts. *)
Definition supported_dib_size (d : Z) : Prop :=
  d = 12 \/ d = 16 \/ d = 40 \/ d = 52 \/ d = 56 \/ d = 64 \/ d = 108
  \/ d = 124.

(** The variant tag that goes with a DIB header size. *)
Definition dib_type_of_size (d : Z) : DIBType :=
  if d =? 12 then CORE_OS2_V1
  else if (d =? 16) || (d =? 64) then OS2_V2
  else if d =? 40 then INFO
  else if d =? 52 then V2
  else if d =? 56 then V3
  else if d =? 108 then V4
  else V5.

(** What the optional parts of the header leave untouched, variant tag
    and planes included. *)
Definition same_fixed (m m' : Metadata) : Prop :=
  dib_type m' = dib_type m /\ file_size m' = file_size m
  /\ ppm_x m' = ppm_x m /\ ppm_y m' = ppm_y m
  /\ color_important m' = color_important m.

(** The fields of a header of 16 bytes or more, at their offsets. *)
Definition dims32_at (buf : list byte) (m : Metadata) : Prop :=
  (exists w, le32 buf 18 = Ok w /\ width m = s32 w)
  /\ (exists h, le32 buf 22 = Ok h /\ height m = s32 h)
  /\ le16 buf 26 = Ok (planes m)
  /\ le16 buf 28 = Ok (bpp m).

(** The fields of a header of 40 bytes or more, at their offsets. *)
Definition info_at (buf : list byte) (m : Metadata) : Prop :=
  le32 buf 30 = Ok (compression m)
  /\ le32 buf 34 = Ok (image_size m)
  /\ le32 buf 38 = Ok (ppm_x m)
  /\ le32 buf 42 = Ok (ppm_y m)
  /\ le32 buf 46 = Ok (color_used m)
  /\ le32 buf 50 = Ok (color_important m).

(** The fields of a 12-byte core header, and the defaults of the others. *)
Definition core_at (buf : list byte) (m : Metadata) : Prop :=
  (exists w, le16 buf 18 = Ok w /\ width m = s16 w)
  /\ (exists h, le16 buf 20 = Ok h /\ height m = s16 h)
  /\ le16 buf 22 = Ok (planes m)
  /\ le16 buf 24 = Ok (bpp m).

Definition info_defaults (m : Metadata) : Prop :=
  compression m = BI_RGB /\ image_size m = 0 /\ color_used m = 0
  /\ color_important m = 0 /\ ppm_x m = 0 /\ ppm_y m = 0.

(** Entry [j] of a palette of [esize]-byte entries stored at [q]. *)
Definition entry_at (p : list byte) (q esize : Z) (j : nat)
    : option PaletteEntry :=
  let o := q + Z.of_nat j * esize in
  match p !! Z.to_nat o, p !! Z.to_nat (o + 1), p !! Z.to_nat (o + 2) with
  | Some b, Some g, Some r =>
      if esize =? 4 then
        match p !! Z.to_nat (o + 3) with
        | Some a => Some (mkPaletteEntry b g r a)
        | None => None
        end
      else Some (mkPaletteEntry b g r x00)
  | _, _, _ => None
  end.

(** The number of entries [parse] reads for a header [m]. *)
Definition palette_count (m : Metadata) : Z :=
  let po := 14 + header_size m in
  let avail := if file_offset_pixels m >? po
               then file_offset_pixels m - po else 0 in
  if (default_palette_entries m >? 0) && (avail >? 0)
  then Z.min (avail / palette_entry_size m) (default_palette_entries m)
  else 0.

(** The output row that source row [row] lands in. *)
Definition dest_row (td : bool) (H row : Z) : Z :=
  if td then row else H - 1 - row.

(** What [bit_extract_norm] returns on a 32-bit mask. *)
Definition norm8 (v M : Z) : Z := if M =? 0 then 0 else norm_low8 v M.

(** The four bytes the BGRA8 branch stores for the pixel value [v]. *)
Definition bitfield_bytes (k : Bitmasks) (v : Z) : list byte :=
  [ z2b (norm8 v (mask_b k)); z2b (norm8 v (mask_g k));
    z2b (norm8 v (mask_r k));
    z2b (if mask_a k =? 0 then 255 else norm8 v (mask_a k)) ].

(** The masks of the decoder: the header's, or the 32-bit defaults. *)
Definition effective_masks (m : Metadata) : Bitmasks :=
  if has_masks m then masks m else default_masks32.

(** The 32-bit word at [off], 0 where the bytes are not all there. *)
Definition word32_at (pix : list byte) (off : Z) : Z :=
  match le32 pix off with Ok v => v | _ => 0 end.

(** A run that returns a value satisfying [P]; the iteration bound of the
    model is left to [finishes]. *)
Definition returns {A : Type} (P : A -> Prop) (r : result A) : Prop :=
  match r with
  | Ok a => P a
  | ParseError _ => False
  | Thrown _ => False
  | Undefined f => f = IterationBound
  end.

Definition ctl_post {S : Type} (J P : S -> Prop) (c : ctl S) : Prop :=
  match c with Next s => J s | Break s => P s end.

(** The state of an RLE decoder between two stores: the cursor and the
    position are not negative and the output has its [N] bytes. *)
Definition rle_inv (N : Z) (st : rle_state (list byte)) : Prop :=
  0 <= rle_i st /\ 0 <= rle_x st /\ 0 <= rle_y st
  /\ Z.of_nat (length (rle_out st)) = N.

(** The palette index of pixel [x] inside the byte that holds it: the
    pixels of a byte are stored from its high bits down. *)
Definition pixel_index (bits byte x : Z) : Z :=
  Z.land (Z.shiftr byte (8 - bits - (x * bits) mod 8)) (2 ^ bits - 1).

(** The entry [put_px] uses for an index: entry 0 when the index is past
    the end of the palette. *)
Definition palette_pick (pal : list PaletteEntry) (idx : Z)
    : option PaletteEntry :=
  pal !! Z.to_nat (if idx >=? Z.of_nat (length pal) then 0 else idx).

Definition entry_bytes (pe : PaletteEntry) : list byte :=
  [pe_b pe; pe_g pe; pe_r pe; pe_a pe].

(** Output pixel [(x, y)] of [s] holds the palette entry selected by pixel
    [x] of the source row that starts at [src]. *)
Definition indexed_pixel_ok (pix : list byte) (pal : list PaletteEntry)
    (W bits src y x : Z) (s : list byte) : Prop :=
  exists b pe,
    pix !! Z.to_nat (src + x * bits / 8) = Some b
    /\ palette_pick pal (pixel_index bits (b2z b) x) = Some pe
    /\ forall c, 0 <= c < 4 ->
         s !! Z.to_nat ((y * W + x) * 4 + c)
         = entry_bytes pe !! Z.to_nat c.

(** While a row is decoded: the pixels of the row before [k] are stored
    and the bytes outside the row are those of [s0]. *)
Definition row_done (pix : list byte) (pal : list PaletteEntry)
    (W bits src y : Z) (s0 : list byte) (k : Z) (s : list byte) : Prop :=
  length s = length s0
  /\ (forall x, 0 <= x < k -> x < W ->
        indexed_pixel_ok pix pal W bits src y x s)
  /\ (forall p, 0 <= p -> p < y * W * 4 \/ (y * W + W) * 4 <= p ->
        s !! Z.to_nat p = s0 !! Z.to_nat p).

(** A run that ends with a value satisfying [P] or with a thrown
    [ParseError], and with nothing else. *)
Definition outcome {A : Type} (P : A -> Prop) (r : result A) : Prop :=
  match r with
  | Ok a => P a
  | ParseError _ => True
  | Thrown _ => False
  | Undefined _ => False
  end.

(** The width can be negated and a row of whole-byte pixels, padded,
    has a length that fits the 32-bit stride. *)
Definition row_fits_32 (m : Metadata) : Prop :=
  - 2 ^ 31 < width m /\ bpp m / 8 * Z.abs (width m) + 3 < 2 ^ 32.

Definition supported_bpp (b : Z) : Prop :=
  b = 1 \/ b = 2 \/ b = 4 \/ b = 8 \/ b = 16 \/ b = 24 \/ b = 32.

(** The pixel format and the pixel byte count of a decoded image, by the
    header [m] it was decoded from. *)
Definition image_shape (m : Metadata) (pix_size : Z) (img : Image) : Prop :=
  let W := Z.abs (width m) in
  let H := Z.abs (height m) in
  let n := Z.of_nat (length (pixels img)) in
  if is_embedded (compression m) then
    format img = RawBitfields /\ n = pix_size
  else if bpp m <=? 8 then format img = BGRA8 /\ n = W * H * 4
  else if bpp m =? 24 then format img = BGR8 /\ n = W * H * 3
  else if looks8 (effective_masks (meta img)) then
    format img = BGRA8 /\ n = W * H * 4
  else
    format img = RawBitfields /\ n = W * H * (bpp m / 8)
    /\ raw_bits_per_pixel img = bpp m
    /\ raw_masks img = effective_masks (meta img).

(** The pixel value the BGRA8 branch reads at [off]. *)
Definition pixel_word (pix : list byte) (b off : Z) : Z :=
  match (if b =? 2 then le16 pix off else le32 pix off) with
  | Ok v => v
  | _ => 0
  end.

(** What decoding leaves of the header: all but the masks, which the
    16- and 32-bit BI_RGB branches fill in. *)
Definition meta_kept (m m' : Metadata) : Prop :=
  width m' = width m /\ height m' = height m /\ planes m' = planes m
  /\ bpp m' = bpp m /\ compression m' = compression m.

(** The mask of [w] adjacent bits from bit [s] up. *)
Definition run_mask (s w : Z) : Z := Z.shiftl (Z.ones w) s.

(** [0; 1; ...; n - 1] *)
Definition zrange (n : nat) : list Z := map Z.of_nat (seq 0 n).

Definition run_mask_scans : bool :=
  forallb (fun s =>
    forallb (fun w =>
      (w =? 0) || (32 <? s + w)
      || ((norm_shift (run_mask s w) =? s)
          && (norm_width (run_mask s w) =? w)))
      (zrange 33))
    (zrange 32).

Definition narrow_runs_replicate : bool :=
  forallb (fun w =>
    (w =? 0)
    || ((Z.land (norm_replicate 0 0 w) 0xFF =? 0)
        && (Z.land (norm_replicate (2 ^ w - 1) (2 ^ w - 1) w) 0xFF
            =? (if w =? 1 then 209 else if w =? 2 then 243
                else if w =? 3 then 199 else 255))))
    (zrange 8).

Definition nibble_replicates : bool :=
  forallb (fun c => Z.land (norm_replicate c c 4) 0xFF =? 17 * c)
    (zrange 16).

(** ** [main]: the conversion to RGBA for display, main.cpp lines 45-85 *)

(** [int] arithmetic: a value outside the range of [int] is undefined. *)
Definition int_op (z : Z) : result Z :=
  if (z <? - 2 ^ 31) || (2 ^ 31 <=? z) then Undefined SignedOverflow
  else Ok z.

(** [imgdata[d] = img.pixels.data()[s];]: the right operand first. *)
Definition copy_byte (img : Image) (s d : Z) (out : list byte)
    : result (list byte) :=
  s ← int_op s;
  b ← rdb (pixels img) s;
  d ← int_op d;
  wr out d b.

(** [imgdata[d] = 255;] *)
Definition opaque_byte (d : Z) (out : list byte) : result (list byte) :=
  d ← int_op d;
  wr out d xff.

(** The body of the inner loop; [Break] with the flag set stands for the
    [return 0] of the last branch. *)
Definition convert_pixel (img : Image) (imindex bufindex j : Z)
    (out : list byte) : result (ctl (bool * list byte)) :=
  pix ← int_op (imindex + j);
  bufsum ← int_op (bufindex + j);
  bufpix ← int_op (bufsum * 4);
  match format img with
  | BGRA8 =>
      pix ← int_op (pix * 4);
      out ← copy_byte img (pix + 2) bufpix out;
      out ← copy_byte img (pix + 1) (bufpix + 1) out;
      out ← copy_byte img pix (bufpix + 2) out;
      out ← copy_byte img (pix + 3) (bufpix + 3) out;
      Ok (Next (false, out))
  | BGR8 =>
      pix ← int_op (pix * 3);
      out ← copy_byte img (pix + 2) bufpix out;
      out ← copy_byte img (pix + 1) (bufpix + 1) out;
      out ← copy_byte img pix (bufpix + 2) out;
      out ← opaque_byte (bufpix + 3) out;
      Ok (Next (false, out))
  | RGBA8 =>
      pix ← int_op (pix * 4);
      out ← copy_byte img pix bufpix out;
      out ← copy_byte img (pix + 1) (bufpix + 1) out;
      out ← copy_byte img (pix + 2) (bufpix + 2) out;
      out ← copy_byte img (pix + 3) (bufpix + 3) out;
      Ok (Next (false, out))
  | Gray8 =>
      out ← copy_byte img pix bufpix out;
      out ← copy_byte img pix (bufpix + 1) out;
      out ← copy_byte img pix (bufpix + 2) out;
      out ← opaque_byte (bufpix + 3) out;
      Ok (Next (false, out))
  | RawBitfields => Ok (Break (true, out))
  end.

(** After the inner loop: leave the outer loop too when it returned. *)
Definition after_row (st : bool * list byte)
    : result (ctl (bool * list byte)) :=
  if fst st then Ok (Break st) else Ok (Next st).

(** The two loops over the buffer that [malloc] returned, taken to have
    succeeded; the result is the flag of the early [return] and the
    buffer handed to the viewer. *)
Definition convert_image (img : Image) : result (bool * list byte) :=
  let w := width (meta img) in
  let h := height (meta img) in
  let imgdata := zeroed (size_t (size_t (size_t h * size_t w) * 4)) in
  for_range 0 h 1 (fun (i : Z) (st : bool * list byte) =>
    rows ← int_op (h - i);
    imindex ← int_op (w * rows);
    bufindex ← int_op (w * i);
    st ← for_range 0 w 1 (fun (j : Z) (st : bool * list byte) =>
            convert_pixel img imindex bufindex j (snd st)) st;
    after_row st) (false, imgdata).

(** Bytes per pixel of a decoded format. *)
Definition channels (f : PixelFormat) : Z :=
  match f with
  | RGBA8 | BGRA8 => 4
  | BGR8 => 3
  | Gray8 => 1
  | RawBitfields => 0
  end.

(** A run that ends in undefined behaviour. *)
Definition faults {A : Type} (r : result A) : Prop :=
  exists f, r = Undefined f.

(** ** The optional parts of the header, at their offsets *)

Definition masks_at (buf : list byte) (m : Metadata) : Prop :=
  le32 buf 54 = Ok (mask_r (masks m))
  /\ le32 buf 58 = Ok (mask_g (masks m))
  /\ le32 buf 62 = Ok (mask_b (masks m)).

(** The headers whose alpha mask is read. *)
Definition alpha_read (n : Z) (m : Metadata) : Prop :=
  header_size m = 56 \/ header_size m = 108 \/ header_size m = 124
  \/ (header_size m = 40 /\ compression m = BI_ALPHABITFIELDS /\ 70 <= n).

Definition masks_layout (buf : list byte) (n : Z) (m : Metadata) : Prop :=
  let hs := header_size m in
  (has_masks m = true <->
     is_bitfields (compression m) = true
     /\ (hs = 52 \/ hs = 56 \/ hs = 108 \/ hs = 124
         \/ (hs = 40 /\ 66 <= n)))
  /\ (has_masks m = true -> masks_at buf m)
  /\ (has_masks m = true -> alpha_read n m ->
        le32 buf 66 = Ok (mask_a (masks m)))
  /\ (has_masks m = true -> ~ alpha_read n m -> mask_a (masks m) = 0)
  /\ (has_masks m = false -> masks m = zero_masks).

Definition xyz_at (buf : list byte) (off : Z) (e : CIEXYZ) : Prop :=
  (exists x, le32 buf off = Ok x /\ cie_x e = s32 x)
  /\ (exists y, le32 buf (off + 4) = Ok y /\ cie_y e = s32 y)
  /\ (exists z, le32 buf (off + 8) = Ok z /\ cie_z e = s32 z).

Definition colorspace_layout (buf : list byte) (m : Metadata) : Prop :=
  let hs := header_size m in
  (hs = 108 \/ hs = 124 ->
     le32 buf 54 = Ok (cstype m)
     /\ xyz_at buf 58 (end_r (endpoints m))
     /\ xyz_at buf 70 (end_g (endpoints m))
     /\ xyz_at buf 82 (end_b (endpoints m))
     /\ le32 buf 94 = Ok (gamma_red m)
     /\ le32 buf 98 = Ok (gamma_green m)
     /\ le32 buf 102 = Ok (gamma_blue m))
  /\ (hs <> 108 -> hs <> 124 ->
        cstype m = LCS_sRGB
        /\ endpoints m = mkTriple zero_xyz zero_xyz zero_xyz
        /\ gamma_red m = 0 /\ gamma_green m = 0 /\ gamma_blue m = 0).

Definition v5_layout (buf : list byte) (n : Z) (m : Metadata) : Prop :=
  (header_size m = 124 ->
     exists iw pd ps,
       le32 buf 106 = Ok iw /\ le32 buf 126 = Ok pd /\ le32 buf 130 = Ok ps
       /\ intent m = intent_of iw
       /\ embedded_profile m
          = if (cstype m =? PROFILE_EMBEDDED) && (0 <? ps)
               && (14 + pd + ps <=? n)
            then slice buf (14 + pd) ps else [])
  /\ (header_size m <> 124 ->
        intent m = LCS_GM_IMAGES /\ embedded_profile m = []).

(** The fields the optional parts of the header fill in. *)
Definition same_optional (m m' : Metadata) : Prop :=
  has_masks m' = has_masks m /\ masks m' = masks m
  /\ cstype m' = cstype m /\ endpoints m' = endpoints m
  /\ gamma_red m' = gamma_red m /\ gamma_green m' = gamma_green m
  /\ gamma_blue m' = gamma_blue m
  /\ intent m' = intent m /\ embedded_profile m' = embedded_profile m.

(** ** Encoded-mode RLE8 streams *)

(** The stream of the encoded runs [(count, index)]. *)
Fixpoint encode_runs (runs : list (Z * Z)) : list byte :=
  match runs with
  | [] => []
  | (c, v) :: rest => z2b c :: z2b v :: encode_runs rest
  end.

(** The palette indices the runs stand for, in scan order. *)
Fixpoint expand_runs (runs : list (Z * Z)) : list Z :=
  match runs with
  | [] => []
  | (c, v) :: rest => replicate (Z.to_nat c) v ++ expand_runs rest
  end.

Definition run_ok (r : Z * Z) : Prop :=
  1 <= fst r <= 255 /\ 0 <= snd r <= 255.

(** The number of pixels before run [j]. *)
Definition run_start (runs : list (Z * Z)) (j : nat) : Z :=
  Z.of_nat (length (expand_runs (take j runs))).

Definition pixel_is (W : Z) (px : list byte) (x y : Z) (bs : list byte)
    : Prop :=
  forall c, 0 <= c < 4 ->
    px !! Z.to_nat ((y * W + x) * 4 + c) = bs !! Z.to_nat c.

(** The first [K] pixels in the order of the stream, left to right and
    decoded row after decoded row, hold the entries of their indices; the
    others are zero. *)
Definition scan_written (W H : Z) (td : bool) (pal : list PaletteEntry)
    (idxs : list Z) (K : Z) (px : list byte) : Prop :=
  Z.of_nat (length px) = W * H * 4
  /\ forall x y, 0 <= x < W -> 0 <= y < H ->
       if y * W + x <? K then
         exists v pe,
           idxs !! Z.to_nat (y * W + x) = Some v
           /\ palette_pick pal v = Some pe
           /\ pixel_is W px x (dest_row td H y) (entry_bytes pe)
       else pixel_is W px x (dest_row td H y) [x00; x00; x00; x00].

(** The decoder stands before pixel [K] of the scan. *)
Definition scan_pos (W K : Z) (st : rle_state (list byte)) : Prop :=
  K = rle_y st * W + rle_x st /\ 0 <= rle_x st < W /\ 0 <= rle_y st.

(** Between two runs: [j] runs are consumed and their pixels, up to the
    end of the image, are stored. *)
Definition runs_done (W H : Z) (td : bool) (pal : list PaletteEntry)
    (runs : list (Z * Z)) (st : rle_state (list byte)) : Prop :=
  exists j : nat,
    (j <= length runs)%nat
    /\ rle_i st = 2 * Z.of_nat j
    /\ scan_pos W (Z.min (run_start runs j) (W * H)) st
    /\ rle_y st <= H
    /\ scan_written W H td pal (expand_runs runs)
         (Z.min (run_start runs j) (W * H)) (rle_out st).

(** ** Encoded-mode RLE4 streams *)

(** The stream of the encoded runs [(count, high nibble, low nibble)]. *)
Fixpoint encode_runs4 (runs : list (Z * Z * Z)) : list byte :=
  match runs with
  | [] => []
  | (c, hi, lo) :: rest => z2b c :: z2b (16 * hi + lo) :: encode_runs4 rest
  end.

(** [count] indices that alternate between the two nibbles, the high
    one first. *)
Definition nibble_run (c hi lo : Z) : list Z :=
  map (fun t => if Z.even t then hi else lo) (zrange (Z.to_nat c)).

Fixpoint expand_runs4 (runs : list (Z * Z * Z)) : list Z :=
  match runs with
  | [] => []
  | (c, hi, lo) :: rest => nibble_run c hi lo ++ expand_runs4 rest
  end.

Definition run4_ok (r : Z * Z * Z) : Prop :=
  1 <= fst (fst r) <= 255 /\ 0 <= snd (fst r) < 16 /\ 0 <= snd r < 16.

Definition run4_start (runs : list (Z * Z * Z)) (j : nat) : Z :=
  Z.of_nat (length (expand_runs4 (take j runs))).

Definition runs4_done (W H : Z) (td : bool) (pal : list PaletteEntry)
    (runs : list (Z * Z * Z)) (st : rle_state (list byte)) : Prop :=
  exists j : nat,
    (j <= length runs)%nat
    /\ rle_i st = 2 * Z.of_nat j
    /\ scan_pos W (Z.min (run4_start runs j) (W * H)) st
    /\ rle_y st <= H
    /\ scan_written W H td pal (expand_runs4 runs)
         (Z.min (run4_start runs j) (W * H)) (rle_out st).

(** ** Requests for the pixel vector *)

(** What [std::vector] does with a request: it is served with zeroed
    storage, or it ends in an exception. *)
Definition serves_or_throws (alloc : allocator) : Prop :=
  forall n, alloc n = Ok (zeroed n) \/ exists e, alloc n = Thrown e.

(** The masks with which the dispatch calls [decode_bitfields]: the
    defaults of the depth for BI_RGB, else the header's. *)
Definition decoder_masks (m : Metadata) : Bitmasks :=
  if compression m =? BI_RGB
  then (if bpp m =? 16 then default_masks16 else default_masks32)
  else effective_masks m.

(** The bytes that the decoder of the header [m] asks the vector for,
    once the header, the palette and the length of the pixel data have
    passed its tests. *)
Definition pixel_request (m : Metadata) (pix_size : Z) : Z :=
  let W := Z.abs (width m) in
  let H := Z.abs (height m) in
  if is_embedded (compression m) then pix_size
  else if bpp m <=? 8 then W * H * 4
  else if bpp m =? 24 then W * H * 3
  else if looks8 (decoder_masks m) then W * H * 4
  else W * H * (bpp m / 8).

(** A 62-byte file: INFO header announcing a 32-bpp BI_RGB image of width
    2^30 and height 1 with image_size = 4, in front of eight bytes. *)
Definition region_wrap_file : list byte :=
  info_file (2 ^ 30) 1 1 32 BI_RGB 4 0 []
    (bytes_of [1; 2; 3; 4; 5; 6; 7; 8]).

(** Two buffers that hold the same [n] bytes at their start. *)
Definition same_region (n : Z) (p q : list byte) : Prop :=
  n <= Z.of_nat (length p) /\ n <= Z.of_nat (length q)
  /\ forall i, 0 <= i < n -> p !! Z.to_nat i = q !! Z.to_nat i.

(** Two 60-byte files with the same header, a 1 x 1 24-bpp BI_RGB image
    with image_size = 4, and the same four bytes of pixel data; they
    differ in the two bytes after the region. *)
Definition region_file (tail : list Z) : list byte :=
  info_file 1 1 1 24 BI_RGB 4 0 [] (bytes_of ([1; 2; 3; 0] ++ tail)).

(** * Properties *)

(** ** Reasoning about outcomes *)

Lemma bind_unfold {A B : Type} (r : result A) (k : A -> result B) :
  (r ≫= k) = bind r k.
Proof. reflexivity. Qed.

Lemma fmap_unfold {A B : Type} (f : A -> B) (r : result A) :
  (f <$> r) = bind r (fun a => Ok (f a)).
Proof. reflexivity. Qed.

Lemma bind_Ok {A B : Type} (r : result A) (k : A -> result B) (b : B) :
  bind r k = Ok b -> exists a, r = Ok a /\ k a = Ok b.
Proof. destruct r as [a| | |]; simpl; intros E; try discriminate. eauto. Qed.

(** Split every successful sequencing in hypothesis [H]. *)
Ltac inv_bind H :=
  repeat rewrite ?bind_unfold, ?fmap_unfold in H;
  let a := fresh "v" in
  let E := fresh "E" in
  apply bind_Ok in H; destruct H as (a & E & H).

(** ** The decoders on [granted]

    On the allocator that serves every request the pixel vector is
    [zeroed n] at once; these are the decoders as they unfold there. *)

Lemma decode_indexed_uncompressed_eq (pix : list byte) (pix_size : Z)
    (img : Image) :
  decode_indexed_uncompressed pix pix_size img
  = (let m := meta img in
     if is_empty (palette img)
     then ParseError "Missing palette for indexed BMP" else
     W ← abs_width m;
     let H := abs_height m in
     let stride := row_stride_aligned W (bpp m) in
     let needed := size_t (stride * H) in
     if needed >? pix_size then ParseError "Pixel data truncated" else
     px ← for_range 0 H 1 (fun row px =>
             let src := size_t (row * stride) in
             let y := if top_down m then row else u32 (H - 1 - row) in
             Next <$> indexed_row pix (palette img) W (bpp m) src y px)
           (zeroed (size_t (W * H * 4)));
     Ok (set_decoded img BGRA8 px)).
Proof. reflexivity. Qed.

Lemma decode_rle8_eq (pix : list byte) (pix_size : Z) (img : Image) :
  decode_rle8 pix pix_size img
  = (let m := meta img in
     if is_empty (palette img) then ParseError "Missing palette for RLE8" else
     W ← abs_width m;
     let H := abs_height m in
     st ← rle8_loop (store_px W (palette img)) pix pix_size W H (top_down m)
            (mkRle 0 0 0 (zeroed (size_t (W * H * 4))));
     Ok (set_decoded img BGRA8 (rle_out st))).
Proof. reflexivity. Qed.

Lemma decode_rle4_eq (pix : list byte) (pix_size : Z) (img : Image) :
  decode_rle4 pix pix_size img
  = (let m := meta img in
     if is_empty (palette img) then ParseError "Missing palette for RLE4" else
     W ← abs_width m;
     let H := abs_height m in
     st ← rle4_loop (store_px W (palette img)) pix pix_size W H (top_down m)
            (mkRle 0 0 0 (zeroed (size_t (W * H * 4))));
     Ok (set_decoded img BGRA8 (rle_out st))).
Proof. reflexivity. Qed.

Lemma decode_bgr24_eq (pix : list byte) (pix_size : Z) (img : Image) :
  decode_bgr24 pix pix_size img
  = (let m := meta img in
     W ← abs_width m;
     let H := abs_height m in
     let stride := row_stride_aligned W 24 in
     let needed := size_t (stride * H) in
     if needed >? pix_size then ParseError "Pixel data truncated" else
     px ← copy_rows pix W H stride 3 (top_down m)
            (zeroed (size_t (W * H * 3)));
     Ok (set_decoded img BGR8 px)).
Proof. reflexivity. Qed.

Lemma decode_bitfields_eq (pix : list byte) (pix_size : Z) (img : Image)
    (bytes_per_pixel : Z) :
  decode_bitfields pix pix_size img bytes_per_pixel
  = (let m := meta img in
     W ← abs_width m;
     let H := abs_height m in
     let stride := row_stride_aligned W (u16 (u32 (bytes_per_pixel * 8))) in
     let needed := size_t (stride * H) in
     if needed >? pix_size then ParseError "Pixel data truncated" else
     let k := if has_masks m then masks m else default_masks32 in
     if looks8 k then
       px ← bitfield_rows pix k bytes_per_pixel W H stride (top_down m)
              (zeroed (size_t (W * H * 4)));
       Ok (set_decoded img BGRA8 px)
     else
       px ← copy_rows pix W H stride bytes_per_pixel (top_down m)
              (zeroed (size_t (W * H * bytes_per_pixel)));
       Ok (set_raw img px k (u8 (u32 (bytes_per_pixel * 8))))).
Proof. reflexivity. Qed.

Lemma expose_embedded_stream_eq (pix : list byte) (pix_size : Z) (img : Image) :
  expose_embedded_stream pix pix_size img
  = (px ← read_range pix pix_size;
     Ok (set_raw img px zero_masks 0)).
Proof. reflexivity. Qed.

Lemma decode_pixels_eq (pix : list byte) (pix_size : Z) (img : Image) :
  decode_pixels pix pix_size img
  = (let m := meta img in
     let c := compression m in
     if (bpp m =? 1) || (bpp m =? 2) || (bpp m =? 4) || (bpp m =? 8) then
       if c =? BI_RGB then decode_indexed_uncompressed pix pix_size img
       else if (c =? BI_RLE8) && (bpp m =? 8)
       then decode_rle8 pix pix_size img
       else if (c =? BI_RLE4) && (bpp m =? 4)
       then decode_rle4 pix pix_size img
       else if is_embedded c then expose_embedded_stream pix pix_size img
       else ParseError "Unsupported compression for indexed BMP"
     else if bpp m =? 16 then
       if c =? BI_RGB then
         decode_bitfields pix pix_size
           (set_meta img (set_masks m true default_masks16)) 2
       else if is_bitfields c then decode_bitfields pix pix_size img 2
       else if is_embedded c then expose_embedded_stream pix pix_size img
       else ParseError "Unsupported compression for 16bpp"
     else if bpp m =? 24 then
       if c =? BI_RGB then decode_bgr24 pix pix_size img
       else if is_embedded c then expose_embedded_stream pix pix_size img
       else ParseError "Unsupported compression for 24bpp"
     else if bpp m =? 32 then
       if c =? BI_RGB then
         decode_bitfields pix pix_size
           (set_meta img (set_masks m true default_masks32)) 4
       else if is_bitfields c then decode_bitfields pix pix_size img 4
       else if is_embedded c then expose_embedded_stream pix pix_size img
       else ParseError "Unsupported compression for 32bpp"
     else ParseError "Unsupported bits-per-pixel").
Proof. reflexivity. Qed.

Lemma parse_eq (p : list byte) :
  parse p
  = (let n := Z.of_nat (length p) in
     m ← parse_dib p;
     m ← validate m;
     pal ← read_palette p m;
     if file_offset_pixels m >? n
     then ParseError "Pixel array offset beyond data" else
     let pix := drop (Z.to_nat (file_offset_pixels m)) p in
     let pix_size := pix_region_size m n in
     decode_pixels pix pix_size (Image_init m pal)).
Proof. reflexivity. Qed.

(** Replace a decoder by its run on [granted], as [unfold] would. *)
Ltac granted_eq E := rewrite E; cbv beta iota zeta.
Ltac granted_eq_in E H := rewrite E in H; cbv beta iota zeta in H.

(** ** Validation of the header fields (C3, C4) *)

Lemma validate_Ok (m m' : Metadata) :
  validate m = Ok m' ->
  m' = m /\ planes m <> 0 /\ bpp m <> 0 /\ width m <> 0 /\ height m <> 0.
Proof.
  unfold validate.
  destruct (planes m =? 0) eqn:Ep; [discriminate|].
  destruct (bpp m =? 0) eqn:Eb; [discriminate|].
  destruct (width m =? 0) eqn:Ew; [discriminate|].
  destruct (height m =? 0) eqn:Eh; [discriminate|].
  simpl. intros [= <-]. repeat split; lia.
Qed.

Lemma validate_rejects (m : Metadata) :
  planes m = 0 \/ bpp m = 0 \/ width m = 0 \/ height m = 0 ->
  is_parse_error (validate m).
Proof.
  intros H. destruct (validate m) as [m'|msg|e|f] eqn:E.
  - apply validate_Ok in E. lia.
  - exists msg. reflexivity.
  - unfold validate in E.
    repeat match type of E with
           | (if ?c then _ else _) = _ => destruct c; try discriminate
           end.
  - unfold validate in E.
    repeat match type of E with
           | (if ?c then _ else _) = _ => destruct c; try discriminate
           end.
Qed.

(** C3, as stated, fails: the header of [negative_width_file] parses with
    width -1, and [parse] returns an image instead of a parse error. *)
Lemma negative_width_accepted :
  ~ (forall buf m, parse_dib buf = Ok m -> width m < 0 ->
                   is_parse_error (parse buf)).
Proof.
  intros H. pose proof (H negative_width_file) as H'.
  vm_compute in H'.
  destruct (H' _ eq_refl eq_refl) as [msg Hmsg]. discriminate.
Qed.

(** C3 (amended): an input whose parsed width field is zero is rejected
    with a parse error and no image is returned. *)
Theorem zero_width_rejected (buf : list byte) (m : Metadata) :
  parse_dib buf = Ok m -> width m = 0 -> is_parse_error (parse buf).
Proof.
  intros Hd Hw. granted_eq parse_eq. rewrite Hd. simpl.
  destruct (validate_rejects m) as [msg Hmsg]; [tauto|].
  rewrite bind_unfold, Hmsg. exists msg. reflexivity.
Qed.

Lemma zero_width_rejected_witness :
  exists m, parse_dib zero_width_file = Ok m /\ width m = 0
            /\ is_parse_error (parse zero_width_file).
Proof.
  eexists. split; [vm_compute; reflexivity|]. split; [reflexivity|].
  eapply zero_width_rejected; [vm_compute; reflexivity | reflexivity].
Defined.

(** C4, as stated, fails: the header of [two_planes_file] parses with
    planes = 2, and [parse] decodes the image. *)
Lemma two_planes_accepted :
  ~ (forall buf m, parse_dib buf = Ok m -> planes m <> 1 ->
                   is_parse_error (parse buf)).
Proof.
  intros H. pose proof (H two_planes_file) as H'.
  vm_compute in H'.
  destruct (H' _ eq_refl) as [msg Hmsg]; [discriminate | discriminate].
Qed.

(** C4 (amended): an input whose parsed planes field is zero is rejected
    with a parse error rather than decoded. *)
Theorem zero_planes_rejected (buf : list byte) (m : Metadata) :
  parse_dib buf = Ok m -> planes m = 0 -> is_parse_error (parse buf).
Proof.
  intros Hd Hp. granted_eq parse_eq. rewrite Hd. simpl.
  destruct (validate_rejects m) as [msg Hmsg]; [tauto|].
  rewrite bind_unfold, Hmsg. exists msg. reflexivity.
Qed.

Lemma zero_planes_rejected_witness :
  exists m, parse_dib zero_planes_file = Ok m /\ planes m = 0
            /\ is_parse_error (parse zero_planes_file).
Proof.
  eexists. split; [vm_compute; reflexivity|]. split; [reflexivity|].
  eapply zero_planes_rejected; [vm_compute; reflexivity | reflexivity].
Defined.

(** ** Row stride and out-of-bounds reads (C1) *)

(** C1 fails on [huge_width_file]: the row stride of 2^30 pixels of 32 bits
    is 2^32 bytes and wraps to 0 in [row_stride_aligned], the truncation test
    [needed > pix_size] compares 0 with 0 and passes, and the first pixel is
    read past the end of the buffer. *)
Theorem stride_wrap_reads_out_of_bounds :
  Z.of_nat (length huge_width_file) = 54
  /\ 2 ^ 30 * 32 / 8 = 2 ^ 32
  /\ row_stride_aligned (2 ^ 30) 32 = 0
  /\ parse huge_width_file = Undefined OutOfBoundsRead.
Proof.
  split; [reflexivity|]. split; [reflexivity|]. split; [reflexivity|].
  lazy. reflexivity.
Qed.

(** ** Sub-8-bit masks at 16 bpp (C2) *)

Lemma looks8_sub8 :
  looks8 (mkBitmasks 0xF800 0x07E0 0x001F 0) = false
  /\ looks8 default_masks16 = false.
Proof. split; reflexivity. Qed.

(** Whatever [decode_bitfields] returns, its format is decided by
    [looks8] alone. *)
Lemma decode_bitfields_format pix pix_size img bytes_per_pixel img' :
  decode_bitfields pix pix_size img bytes_per_pixel = Ok img' ->
  format img' =
    if looks8 (if has_masks (meta img) then masks (meta img)
               else default_masks32)
    then BGRA8 else RawBitfields.
Proof.
  granted_eq decode_bitfields_eq. intros H. inv_bind H.
  destruct (_ >? pix_size); [discriminate|].
  destruct (looks8 _); inv_bind H; injection H as <-; reflexivity.
Qed.

(** C2 fails on the code: for both inputs [parse] returns format
    RawBitfields with the two source bytes FF FF and the masks kept, not
    BGRA8 with FF FF FF FF. *)
Theorem sub8_masks_yield_raw_bitfields :
  (exists img, parse rgb565_file = Ok img
     /\ format img = RawBitfields
     /\ pixels img = [xff; xff]
     /\ raw_masks img = mkBitmasks 0xF800 0x07E0 0x001F 0
     /\ raw_bits_per_pixel img = 16)
  /\ (exists img, parse rgb555_file = Ok img
        /\ format img = RawBitfields
        /\ pixels img = [xff; xff]
        /\ raw_masks img = default_masks16
        /\ raw_bits_per_pixel img = 16).
Proof.
  split; eexists; (split; [vm_compute; reflexivity|]);
    repeat split; reflexivity.
Qed.

(** ** The delta escape (C5) *)

Section Delta.
Context {A : Type}.
Variable store : Z -> Z -> Z -> A -> result A.
Variables (pix : list byte) (pix_size W H : Z) (td : bool).

(** In [decode_rle8] a delta step leaves [x <= W] and [y <= H]. *)
Lemma rle8_delta_clamps (st st' : rle_state A) (i : Z) :
  rle8_delta pix pix_size W H st i = Ok (Next st') ->
  rle_x st' <= W /\ rle_y st' <= H.
Proof.
  unfold rle8_delta. destruct (_ >=? pix_size); [discriminate|].
  intros E. inv_bind E. inv_bind E. injection E as <-. simpl.
  split; match goal with |- context [if ?c then _ else _] =>
                   destruct c eqn:C end; lia.
Qed.

(** In [decode_rle4] it adds the two bytes and nothing else. *)
Lemma rle4_delta_adds (st st' : rle_state A) (i : Z) :
  rle4_delta pix pix_size st i = Ok (Next st') ->
  exists dx dy, rd pix i = Ok dx /\ rd pix (i + 1) = Ok dy
    /\ rle_x st' = u32 (rle_x st + dx) /\ rle_y st' = u32 (rle_y st + dy).
Proof.
  unfold rle4_delta. destruct (_ >=? pix_size); [discriminate|].
  intros E. inv_bind E. inv_bind E. injection E as <-. simpl.
  do 2 eexists. repeat split; eassumption.
Qed.
End Delta.

(** C5 fails for RLE4: on a 2 x 2 image the delta escape of [delta_stream]
    leaves the RLE4 decoder at x = 5 > width, where the RLE8 decoder on the
    same bytes clamps to x = 2. *)
Theorem rle4_delta_not_clamped :
  let start := mkRle 0 0 0 (zeroed 16) in
  rle4_step (store_px 2 one_entry_palette) delta_stream 4 2 2 false start
    = Ok (Next (mkRle 5 0 4 (zeroed 16)))
  /\ rle8_step (store_px 2 one_entry_palette) delta_stream 4 2 2 false start
       = Ok (Next (mkRle 2 0 4 (zeroed 16))).
Proof. split; vm_compute; reflexivity. Qed.

(** ** RLE8 absolute mode with an odd run (C7) *)

(** The run fills the only row: the loop skips the padding byte and stops
    on [y >= H] at input index 6, before the last byte of the stream. *)
Lemma rle8_odd_run_stops_after_padding (e0 e1 : PaletteEntry) :
  rle8_loop (store_px 3 [e0; e1]) (bytes_of [0; 3; 0; 1; 0; 0; 1]) 7 3 1
    false (mkRle 0 0 0 (zeroed 12))
  = Ok (mkRle 0 1 6 (bgra e0 ++ bgra e1 ++ bgra e0)).
Proof. destruct e0, e1. vm_compute. reflexivity. Qed.

(** C7: whatever the two palette entries are, [parse] returns a BGRA8 image
    whose three pixels are entries 0, 1 and 0. *)
Theorem rle8_odd_absolute_run (e0 e1 : PaletteEntry) :
  exists img, parse (rle8_odd_run_file e0 e1) = Ok img
    /\ format img = BGRA8
    /\ palette img = [e0; e1]
    /\ pixels img = bgra e0 ++ bgra e1 ++ bgra e0.
Proof.
  destruct e0 as [b0 g0 r0 a0], e1 as [b1 g1 r1 a1].
  eexists. split; [vm_compute; reflexivity|].
  repeat split; reflexivity.
Qed.
(** ** Facts about a parsed header *)

Lemma u32_range (z : Z) : 0 <= u32 z < 2 ^ 32.
Proof. unfold u32. apply Z.mod_pos_bound. lia. Qed.

Lemma u16_range (z : Z) : 0 <= u16 z < 2 ^ 16.
Proof. unfold u16. apply Z.mod_pos_bound. lia. Qed.

Lemma le32_range (p : list byte) (off v : Z) :
  le32 p off = Ok v -> 0 <= v < 2 ^ 32.
Proof.
  unfold le32. intros H. do 4 inv_bind H. injection H as <-.
  apply u32_range.
Qed.

Lemma le16_range (p : list byte) (off v : Z) :
  le16 p off = Ok v -> 0 <= v < 2 ^ 16.
Proof.
  unfold le16. intros H. do 2 inv_bind H. injection H as <-.
  apply u16_range.
Qed.

Lemma s32_range (z : Z) : 0 <= z < 2 ^ 32 -> - 2 ^ 31 <= s32 z < 2 ^ 31.
Proof. unfold s32. destruct (z <? 2 ^ 31) eqn:E; lia. Qed.

Lemma s16_range (z : Z) : 0 <= z < 2 ^ 16 -> - 2 ^ 31 <= s16 z < 2 ^ 31.
Proof. unfold s16. destruct (z <? 2 ^ 15) eqn:E; lia. Qed.

(** Split one successful sequencing in [H], naming the value and its
    equation. *)
Ltac inv_bind_as H a E :=
  repeat rewrite ?bind_unfold, ?fmap_unfold in H;
  apply bind_Ok in H; destruct H as (a & E & H).

(** Turn boolean tests in the context into propositions. *)
Ltac zb :=
  repeat match goal with
  | H : (_ || _) = false |- _ => apply orb_false_elim in H; destruct H
  | H : (_ && _) = true |- _ => apply andb_prop in H; destruct H
  | H : negb _ = true |- _ => apply negb_true_iff in H
  | H : negb _ = false |- _ => apply negb_false_iff in H
  | H : (_ >? _) = _ |- _ => rewrite Z.gtb_ltb in H
  | H : (_ >=? _) = _ |- _ => rewrite Z.geb_leb in H
  | H : (_ <? _) = true |- _ => apply Z.ltb_lt in H
  | H : (_ <? _) = false |- _ => apply Z.ltb_ge in H
  | H : (_ <=? _) = true |- _ => apply Z.leb_le in H
  | H : (_ <=? _) = false |- _ => apply Z.leb_gt in H
  | H : (_ =? _) = true |- _ => apply Z.eqb_eq in H
  | H : (_ =? _) = false |- _ => apply Z.eqb_neq in H
  end.

(** Destruct the test of the outermost conditional of hypothesis [H]. *)
Ltac case_if H :=
  match type of H with
  | (if ?c then _ else _) = _ => destruct c eqn:?; try discriminate H
  end.

Lemma read_dims32_Ok (p : list byte) (m m' : Metadata) :
  read_dims32 p m = Ok m' ->
  exists w h pl bp,
    le32 p (dib 4) = Ok w /\ le32 p (dib 8) = Ok h
    /\ le16 p (dib 12) = Ok pl /\ le16 p (dib 14) = Ok bp
    /\ m' = set_dims m (s32 w) (s32 h) pl bp.
Proof.
  unfold read_dims32. intros H. do 4 inv_bind H. injection H as <-.
  do 4 eexists. repeat split; eassumption.
Qed.

Lemma read_info_Ok (p : list byte) (m m' : Metadata) :
  read_info p m = Ok m' ->
  exists c isz px py cu ci,
    le32 p (dib 16) = Ok c /\ le32 p (dib 20) = Ok isz
    /\ m' = set_info m c isz px py cu ci.
Proof.
  unfold read_info. intros H. do 6 inv_bind H. injection H as <-.
  do 6 eexists. repeat split; eassumption.
Qed.

Lemma same_core_refl (m : Metadata) : same_core m m.
Proof. repeat split. Qed.

Lemma same_core_trans (a b c : Metadata) :
  same_core a b -> same_core b c -> same_core a c.
Proof. unfold same_core. intuition congruence. Qed.

Lemma read_rgb_masks_Ok (p : list byte) (m m' : Metadata) :
  read_rgb_masks p m = Ok m' -> same_core m m' /\ has_masks m' = true.
Proof.
  unfold read_rgb_masks. intros H. do 3 inv_bind H. injection H as <-.
  split; [repeat split | reflexivity].
Qed.

Lemma read_alpha_mask_Ok (p : list byte) (m m' : Metadata) :
  read_alpha_mask p m = Ok m' ->
  same_core m m' /\ has_masks m' = has_masks m.
Proof.
  unfold read_alpha_mask. intros H. inv_bind H. injection H as <-.
  split; [repeat split | reflexivity].
Qed.

Lemma read_masks_Ok (p : list byte) (n dib_size : Z) (m m' : Metadata) :
  read_masks p n dib_size m = Ok m' ->
  same_core m m'
  /\ (dib_size = 40 -> n < 66 -> has_masks m' = has_masks m).
Proof.
  unfold read_masks. intros H. case_if H.
  - case_if H.
    + inv_bind H. apply read_rgb_masks_Ok in E as [Hc _].
      split; [|intros ->; discriminate]. case_if H.
      * apply read_alpha_mask_Ok in H as [Hc' _].
        eapply same_core_trans; eassumption.
      * injection H as <-. assumption.
    + case_if H.
      * split.
        -- inv_bind H. apply read_rgb_masks_Ok in E as [Hc _]. case_if H.
           ++ apply read_alpha_mask_Ok in H as [Hc' _].
              eapply same_core_trans; eassumption.
           ++ injection H as <-. assumption.
        -- intros -> Hn. apply Z.leb_le in Heqb1.
           change (u32 (14 + 40 + 12)) with 66 in Heqb1. lia.
      * injection H as <-. split; [apply same_core_refl | reflexivity].
  - injection H as <-. split; [apply same_core_refl | reflexivity].
Qed.

Lemma read_v4_Ok (p : list byte) (dib_size : Z) (m m' : Metadata) :
  read_v4 p dib_size m = Ok m' ->
  same_core m m' /\ has_masks m' = has_masks m.
Proof.
  unfold read_v4. intros H. case_if H.
  - do 7 inv_bind H. injection H as <-.
    split; [repeat split | reflexivity].
  - injection H as <-. split; [apply same_core_refl | reflexivity].
Qed.

Lemma read_v5_Ok (p : list byte) (n dib_size : Z) (m m' : Metadata) :
  read_v5 p n dib_size m = Ok m' ->
  same_core m m' /\ has_masks m' = has_masks m.
Proof.
  unfold read_v5. intros H. case_if H.
  - do 3 inv_bind H. injection H as <-.
    split; [repeat split | reflexivity].
  - injection H as <-. split; [apply same_core_refl | reflexivity].
Qed.

Lemma parse_dib_facts (buf : list byte) (m : Metadata) :
  parse_dib buf = Ok m -> dib_facts (Z.of_nat (length buf)) m.
Proof.
  unfold parse_dib. set (n := Z.of_nat (length buf)). intros H.
  case_if H. do 2 inv_bind H. case_if H.
  inv_bind H. inv_bind H. inv_bind H.
  match goal with E : le32 buf 10 = Ok ?o |- _ =>
    pose proof (le32_range _ _ _ E) as Hoff end.
  case_if H. case_if H. inv_bind H. case_if H.
  case_if H; [|case_if H; [|case_if H]].
  - do 4 inv_bind H. injection H as <-.
    repeat match goal with E : le16 _ _ = Ok _ |- _ =>
      apply le16_range in E end.
    zb. split; simpl; try lia; try (apply s16_range; lia).
  - case_if H.
    + inv_bind_as H m1 R1.
      apply read_dims32_Ok in R1 as (w & h & pl & bp & Hw & Hh & _ & Hb & ->).
      apply read_info_Ok in H as (c & isz & px & py & cu & ci & _ & Hi & ->).
      apply le32_range in Hw, Hh, Hi. apply le16_range in Hb.
      zb. split; simpl; try lia; try (apply s32_range; lia).
    + apply read_dims32_Ok in H as (w & h & pl & bp & Hw & Hh & _ & Hb & ->).
      apply le32_range in Hw, Hh. apply le16_range in Hb.
      zb. split; simpl; try lia; try (apply s32_range; lia).
  - inv_bind_as H m1 R1.
    apply read_dims32_Ok in R1 as (w & h & pl & bp & Hw & Hh & _ & Hb & ->).
    inv_bind_as H m2 R2.
    apply read_info_Ok in R2 as (c & isz & px & py & cu & ci & _ & Hi & ->).
    inv_bind_as H m4 R4. apply read_masks_Ok in R4 as [C4 M4].
    inv_bind_as H m5 R5. apply read_v4_Ok in R5 as [C5 M5].
    apply read_v5_Ok in H as [C6 M6].
    apply le32_range in Hw, Hh, Hi. apply le16_range in Hb.
    pose proof (same_core_trans _ _ _ (same_core_trans _ _ _ C4 C5) C6) as C.
    destruct C as (Cw & Ch & _ & Cb & _ & Ci & _ & Co & Chs).
    assert (Hcore : forall d k, same_core k (info_dib_type k d)
                                /\ has_masks (info_dib_type k d) = has_masks k).
    { intros d k. unfold info_dib_type.
      repeat match goal with |- context [if ?c then _ else _] =>
        destruct c end; split; repeat split. }
    match type of Cw with _ = width (info_dib_type ?k ?d) =>
      destruct (Hcore d k) as [(Dw & Dh & _ & Db & _ & Di & _ & Do & Dhs) Dm]
    end.
    zb. split; rewrite ?Cw, ?Ch, ?Ci, ?Co, ?Cb, ?Chs, ?Dw, ?Dh, ?Di, ?Do, ?Db, ?Dhs;
      simpl; try lia; try (apply s32_range; lia).
    intros -> Hn. rewrite M6, M5, M4 by (reflexivity || assumption).
    rewrite Dm. reflexivity.
Qed.

(** ** The pixel region *)

Lemma pix_region_size_spec (m : Metadata) (n : Z) :
  0 <= file_offset_pixels m <= n -> n < 2 ^ 64 ->
  let rest := n - file_offset_pixels m in
  (image_size m <> 0 -> image_size m <= rest ->
     pix_region_size m n = image_size m)
  /\ (image_size m = 0 \/ rest < image_size m -> pix_region_size m n = rest).
Proof.
  intros Ho Hn rest. unfold pix_region_size.
  assert (Hs : size_t (n - file_offset_pixels m) = rest).
  { unfold size_t. apply Z.mod_small. subst rest. lia. }
  rewrite Hs. split.
  - intros H0 Hle.
    destruct (image_size m =? 0) eqn:E0; zb; [lia|].
    destruct (image_size m <=? rest) eqn:E1; zb; [reflexivity | lia].
  - intros H.
    destruct (image_size m =? 0) eqn:E0; zb; [reflexivity|].
    destruct (image_size m <=? rest) eqn:E1; zb; [lia | reflexivity].
Qed.

Lemma expose_embedded_stream_Ok (pix : list byte) (pix_size : Z)
    (img img' : Image) :
  0 <= pix_size ->
  expose_embedded_stream pix pix_size img = Ok img' ->
  pixels img' = take (Z.to_nat pix_size) pix
  /\ Z.of_nat (length (pixels img')) = pix_size
  /\ format img' = RawBitfields.
Proof.
  granted_eq expose_embedded_stream_eq. unfold read_range. intros Hp H.
  inv_bind_as H px E. injection H as <-. case_if E. injection E as <-.
  zb. unfold slice. simpl. rewrite drop_0. repeat split.
  rewrite length_take. lia.
Qed.

Lemma decode_pixels_embedded (pix : list byte) (pix_size : Z)
    (img img' : Image) :
  is_embedded (compression (meta img)) = true ->
  decode_pixels pix pix_size img = Ok img' ->
  expose_embedded_stream pix pix_size img = Ok img'.
Proof.
  granted_eq decode_pixels_eq. unfold is_embedded, is_bitfields.
  intros Hc H.
  assert (Hc' : compression (meta img) = 5 \/ compression (meta img) = 4).
  { apply orb_true_iff in Hc as [Hc|Hc]; apply Z.eqb_eq in Hc;
      [left|right]; exact Hc. }
  unfold BI_RGB, BI_RLE8, BI_RLE4, BI_BITFIELDS, BI_ALPHABITFIELDS,
    BI_PNG, BI_JPEG in *.
  destruct Hc' as [E|E]; rewrite E in H; simpl in H;
    repeat case_if H; exact H.
Qed.

(** X17: the size of the pixel region that [parse] hands to the dispatch
    is [image_size] when that field is nonzero and no greater than the
    bytes left after [file_offset_pixels], and all those bytes otherwise;
    for BI_JPEG and BI_PNG the returned pixels are exactly the bytes of
    that region. *)
Theorem pixel_region_is_image_size (buf : list byte) (m : Metadata)
    (img : Image) :
  Z.of_nat (length buf) < 2 ^ 64 ->
  parse_dib buf = Ok m ->
  parse buf = Ok img ->
  let n := Z.of_nat (length buf) in
  let off := file_offset_pixels m in
  let rest := n - off in
  let region := pix_region_size m n in
  0 <= off <= n
  /\ (exists pal, read_palette buf m = Ok pal
        /\ decode_pixels (drop (Z.to_nat off) buf) region (Image_init m pal)
           = Ok img)
  /\ (image_size m <> 0 -> image_size m <= rest -> region = image_size m)
  /\ (image_size m = 0 \/ rest < image_size m -> region = rest)
  /\ (is_embedded (compression m) = true ->
        pixels img = take (Z.to_nat region) (drop (Z.to_nat off) buf)
        /\ Z.of_nat (length (pixels img)) = region).
Proof.
  intros Hn Hd Hp n off rest region.
  destruct (parse_dib_facts _ _ Hd) as [Ho _ Hi _ _ _ _].
  destruct (pix_region_size_spec m n Ho Hn) as [R1 R2].
  granted_eq_in parse_eq Hp. rewrite Hd in Hp. simpl in Hp.
  inv_bind_as Hp m' Ev. apply validate_Ok in Ev as [-> _].
  inv_bind_as Hp pal Epal. case_if Hp.
  split; [exact Ho|]. split; [exists pal; split; assumption|].
  split; [exact R1|]. split; [exact R2|].
  intros Hc. apply decode_pixels_embedded in Hp; [|exact Hc].
  apply expose_embedded_stream_Ok in Hp.
  - destruct Hp as (P1 & P2 & _). split; assumption.
  - fold n. fold region.
    destruct (Z.eq_dec (image_size m) 0) as [Z0|Z0].
    + subst region. rewrite R2 by (left; exact Z0). subst rest off. lia.
    + destruct (Z_le_gt_dec (image_size m) rest) as [L|L].
      * subst region. rewrite R1 by assumption. lia.
      * subst region. rewrite R2 by (right; lia). subst rest off. lia.
Qed.

Lemma pixel_region_is_image_size_witness :
  exists m img,
    parse_dib png_file = Ok m /\ parse png_file = Ok img
    /\ image_size m = 3
    /\ pixels img = bytes_of [10; 20; 30]
    /\ pix_region_size m (Z.of_nat (length png_file)) = image_size m.
Proof.
  do 2 eexists.
  split; [vm_compute; reflexivity|].
  split; [vm_compute; reflexivity|].
  split; [reflexivity|].
  split; [reflexivity|].
  refine (proj1 (proj2 (proj2 (pixel_region_is_image_size png_file _ _
            _ _ _))) _ _).
  - vm_compute. reflexivity.
  - vm_compute. reflexivity.
  - vm_compute. reflexivity.
  - vm_compute. discriminate.
  - vm_compute. discriminate.
Defined.

(** ** Channel normalisation (C6) *)

Lemma low_zeros_nonneg (p : positive) : 0 <= low_zeros p.
Proof. induction p; simpl; lia. Qed.

Lemma low_ones_nonneg (p : positive) : 0 <= low_ones p.
Proof. induction p; simpl; lia. Qed.

Lemma low_zeros_bound (p : positive) : 2 ^ low_zeros p <= Zpos p.
Proof.
  induction p as [q IH|q IH|]; simpl; try lia.
  rewrite Z.pow_succ_r by apply low_zeros_nonneg. lia.
Qed.

Lemma low_ones_bound (p : positive) : 2 ^ low_ones p <= Zpos p + 1.
Proof.
  induction p as [q IH|q IH|]; simpl; try lia.
  rewrite Z.pow_succ_r by apply low_ones_nonneg. lia.
Qed.

Lemma pow2_le_inv (a b : Z) : 0 <= a -> 0 <= b -> 2 ^ a <= 2 ^ b -> a <= b.
Proof.
  intros Ha Hb H. destruct (Z_le_gt_dec a b) as [L|G]; [exact L|].
  assert (2 ^ b < 2 ^ a) by (apply Z.pow_lt_mono_r; lia). lia.
Qed.

Lemma pow2_lt_inv (a b : Z) : 0 <= a -> 0 <= b -> 2 ^ a < 2 ^ b -> a < b.
Proof.
  intros Ha Hb H. destruct (Z_lt_le_dec a b) as [L|G]; [exact L|].
  assert (2 ^ b <= 2 ^ a) by (apply Z.pow_le_mono_r; lia). lia.
Qed.

Lemma shiftr_low_zeros (p : positive) :
  Z.shiftr (Zpos p) (low_zeros p) = Zpos (odd_part p).
Proof.
  induction p as [q IH|q IH|]; simpl; try reflexivity.
  rewrite <- Z.add_1_l, <- Z.shiftr_shiftr by apply low_zeros_nonneg.
  exact IH.
Qed.

Lemma low_ones_odd_part (p : positive) : 1 <= low_ones (odd_part p).
Proof.
  induction p as [q IH|q IH|]; simpl; try lia.
  pose proof (low_ones_nonneg q). lia.
Qed.

Lemma odd_part_le (p : positive) : Zpos (odd_part p) <= Zpos p.
Proof. induction p; simpl; lia. Qed.

(** The scan for the lowest set bit finds [low_zeros]. *)
Lemma shift_scan_from (M : Z) (q : positive) :
  forall (fuel : nat) (s : Z),
    0 <= s -> Z.shiftr M s = Zpos q -> s + low_zeros q <= 31 ->
    low_zeros q < Z.of_nat fuel ->
    while_loop fuel
      (fun shift => Z.land (Z.shiftr M shift) 1 =? 0)
      (fun shift => if 31 <=? shift then Undefined ShiftOutOfRange
                    else Ok (Next (shift + 1)))
      s = Ok (s + low_zeros q).
Proof.
  induction q as [q IH|q IH|]; intros fuel s Hs Hq Hb Hf.
  - destruct fuel as [|fuel]; [simpl in Hf; lia|].
    simpl while_loop. rewrite Hq. simpl. f_equal. lia.
  - pose proof (low_zeros_nonneg q). simpl low_zeros in *.
    destruct fuel as [|fuel]; [simpl in Hf; lia|].
    simpl while_loop. rewrite Hq.
    change (Z.land (Z.pos q~0) 1) with 0. simpl (0 =? 0). cbn iota.
    destruct (31 <=? s) eqn:E; zb; [lia|].
    rewrite bind_unfold. simpl bind.
    rewrite IH; [f_equal; lia | lia | | lia | lia].
    rewrite <- Z.shiftr_shiftr, Hq by lia. reflexivity.
  - destruct fuel as [|fuel]; [simpl in Hf; lia|].
    simpl while_loop. rewrite Hq. simpl. f_equal. lia.
Qed.

Lemma shift_scan_spec (M : Z) :
  0 < M < 2 ^ 32 -> shift_scan M = Ok (norm_shift M).
Proof.
  intros HM. destruct M as [|p|p]; try lia. unfold shift_scan, norm_shift.
  pose proof (low_zeros_bound p). pose proof (low_zeros_nonneg p).
  assert (low_zeros p < 32) by (apply pow2_lt_inv; lia).
  change (low_zeros p) with (0 + low_zeros p) at 1.
  rewrite (shift_scan_from (Zpos p) p); [reflexivity | lia | reflexivity | lia | ].
  change (Z.of_nat 33) with 33. lia.
Qed.

Lemma u32_small (z : Z) : 0 <= z < 2 ^ 32 -> u32 z = z.
Proof. intros H. unfold u32. apply Z.mod_small. exact H. Qed.

(** The scan over the run of set bits counts [low_ones]. *)
Lemma width_scan_from (q : positive) :
  forall (fuel : nat) (w : Z),
    0 <= w -> w + low_ones q < 2 ^ 32 ->
    low_ones q < Z.of_nat fuel ->
    exists rest,
      while_loop fuel
        (fun s => negb (Z.land (snd s) 1 =? 0))
        (fun s => Ok (Next (u32 (fst s + 1), Z.shiftr (snd s) 1)))
        (w, Zpos q) = Ok (w + low_ones q, rest).
Proof.
  induction q as [q IH|q IH|]; intros fuel w Hw Hb Hf.
  - pose proof (low_ones_nonneg q). simpl low_ones in *.
    destruct fuel as [|fuel]; [simpl in Hf; lia|].
    simpl while_loop.
    change (Z.land (Z.pos q~1) 1) with 1. simpl (negb (1 =? 0)). cbn iota.
    change (Z.shiftr (Z.pos q~1) 1) with (Zpos q).
    rewrite u32_small by lia.
    destruct (IH fuel (w + 1)) as [rest Hr]; [lia | lia | lia |].
    exists rest. rewrite Hr. f_equal. f_equal. lia.
  - destruct fuel as [|fuel]; [simpl in Hf; lia|].
    simpl. eexists. f_equal. f_equal. lia.
  - simpl low_ones in *.
    destruct fuel as [|[|fuel]]; [simpl in Hf; lia | simpl in Hf; lia |].
    simpl while_loop. change (Z.land 1 1) with 1. simpl (negb (1 =? 0)).
    cbn iota. change (Z.shiftr 1 1) with 0. change (Z.land 0 1) with 0.
    simpl (negb (0 =? 0)). cbn iota.
    rewrite u32_small by lia. eexists. reflexivity.
Qed.

Lemma width_scan_spec (M : Z) :
  0 < M < 2 ^ 32 ->
  exists rest,
    width_scan (Z.shiftr M (norm_shift M)) = Ok (norm_width M, rest).
Proof.
  intros HM. destruct M as [|p|p]; try lia.
  unfold width_scan, norm_width, norm_shift.
  rewrite shiftr_low_zeros.
  pose proof (odd_part_le p). pose proof (low_ones_bound (odd_part p)).
  pose proof (low_ones_nonneg (odd_part p)).
  assert (low_ones (odd_part p) < 33) by (apply pow2_lt_inv; lia).
  destruct (width_scan_from (odd_part p) 33 0) as [rest Hr];
    [lia | lia | change (Z.of_nat 33) with 33; lia |].
  exists rest. exact Hr.
Qed.

(** Bits below 32 do not see the wrap of the intermediate values. *)
Lemma u32_testbit (z i : Z) :
  Z.testbit (u32 z) i = (i <? 32) && Z.testbit z i.
Proof.
  unfold u32. destruct (Z_lt_le_dec i 0) as [N|N].
  - rewrite !Z.testbit_neg_r by lia. rewrite andb_false_r. reflexivity.
  - destruct (i <? 32) eqn:E; zb.
    + rewrite Z.mod_pow2_bits_low by lia. reflexivity.
    + rewrite Z.mod_pow2_bits_high by lia. reflexivity.
Qed.

Lemma u32_idem_replicate (x w c : Z) :
  0 <= w ->
  u32 (Z.lor (Z.shiftl (u32 x) w) c) = u32 (Z.lor (Z.shiftl x w) c).
Proof.
  intros Hw. apply Z.bits_inj'. intros i Hi.
  rewrite !u32_testbit, !Z.lor_spec, !Z.shiftl_spec by lia.
  rewrite u32_testbit.
  destruct (i <? 32) eqn:E; [|reflexivity]. zb.
  destruct (Z_lt_le_dec (i - w) 0) as [N|N].
  - rewrite !Z.testbit_neg_r by lia. rewrite andb_false_r. reflexivity.
  - assert (E' : (i - w <? 32) = true) by (apply Z.ltb_lt; lia).
    rewrite E'. reflexivity.
Qed.

(** The replication loop computes [norm_replicate] modulo 2^32. *)
Lemma replicate_bits_from (c : Z) :
  forall (fuel : nat) (x x' w : Z),
    0 < w -> x = u32 x' -> 8 - w < Z.of_nat fuel ->
    exists w',
      while_loop fuel
        (fun s => snd s <? 8)
        (fun s => Ok (Next (u32 (Z.lor (Z.shiftl (fst s) (snd s)) c),
                            u32 (Z.shiftl (snd s) 1))))
        (x, w) = Ok (u32 (norm_replicate c x' w), w').
Proof.
  induction fuel as [|fuel IH]; intros x x' w Hw Hx Hf.
  - simpl in Hf. rewrite norm_replicate_equation.
    assert (E : (w <? 8) = false) by (apply Z.ltb_ge; lia).
    simpl. rewrite E, andb_false_r. exists w. congruence.
  - simpl while_loop. rewrite norm_replicate_equation.
    destruct (w <? 8) eqn:E; zb.
    + assert (E0 : (0 <? w) = true) by (apply Z.ltb_lt; lia).
      rewrite E0. simpl andb. cbn iota.
      assert (Hs : Z.shiftl w 1 = 2 * w)
        by (rewrite Z.shiftl_mul_pow2 by lia; lia).
      rewrite Hs. rewrite (u32_small (2 * w)) by lia.
      apply IH; [lia | | lia].
      subst x. apply u32_idem_replicate. lia.
    + rewrite andb_false_r. exists w. subst x. reflexivity.
Qed.

Lemma replicate_bits_spec (c w : Z) :
  0 < w -> 0 <= c < 2 ^ 32 ->
  exists w',
    replicate_bits c w = Ok (u32 (norm_replicate c c w), w').
Proof.
  intros Hw Hc. unfold replicate_bits.
  apply replicate_bits_from; [exact Hw | | change (Z.of_nat 8) with 8; lia].
  symmetry. apply u32_small. exact Hc.
Qed.

Lemma low8_of_u32 (z : Z) : Z.land (u32 z) 0xFF = Z.land z 0xFF.
Proof.
  apply Z.bits_inj'. intros i Hi.
  rewrite !Z.land_spec, u32_testbit.
  destruct (i <? 32) eqn:E; [reflexivity|]. zb.
  change 0xFF with (Z.ones 8). rewrite Z.ones_spec_high by lia.
  rewrite !andb_false_r. reflexivity.
Qed.

Lemma u8_land (z : Z) : u8 z = Z.land z 0xFF.
Proof.
  unfold u8. change 0xFF with (Z.ones 8). rewrite Z.land_ones by lia.
  reflexivity.
Qed.

Lemma land_ff_idem (z : Z) : Z.land (Z.land z 0xFF) 0xFF = Z.land z 0xFF.
Proof. rewrite <- Z.land_assoc. reflexivity. Qed.

Lemma testbit_above (b n i : Z) :
  0 <= b < 2 ^ n -> n <= i -> Z.testbit b i = false.
Proof.
  intros Hb Hi. destruct (Z.eq_dec b 0) as [->|Ne].
  - apply Z.bits_0.
  - apply Z.bits_above_log2; [lia|].
    assert (Z.log2 b < n) by (apply Z.log2_lt_pow2; lia). lia.
Qed.

Lemma land_lt_pow2 (a b n : Z) :
  0 <= n -> 0 <= b < 2 ^ n -> 0 <= Z.land a b < 2 ^ n.
Proof.
  intros Hn Hb.
  assert (E : Z.land a b = Z.land a b mod 2 ^ n).
  { apply Z.bits_inj'. intros i Hi.
    destruct (Z_lt_le_dec i n) as [L|G].
    - rewrite Z.mod_pow2_bits_low by lia. reflexivity.
    - rewrite Z.mod_pow2_bits_high by lia.
      rewrite Z.land_spec, (testbit_above b n i) by lia.
      apply andb_false_r. }
  rewrite E. apply Z.mod_pos_bound. lia.
Qed.

Lemma shiftr_land_range (v M s : Z) :
  0 <= M < 2 ^ 32 -> 0 <= s ->
  0 <= Z.shiftr (Z.land v M) s < 2 ^ 32.
Proof.
  intros HM Hs.
  pose proof (land_lt_pow2 v M 32 ltac:(lia) HM) as H.
  rewrite Z.shiftr_div_pow2 by lia.
  assert (1 <= 2 ^ s) by (apply (Z.pow_le_mono_r 2 0 s); lia).
  split.
  - apply Z.div_pos; lia.
  - apply Z.div_lt_upper_bound; [lia|]. nia.
Qed.

Lemma norm_shift_range (M : Z) : 0 < M < 2 ^ 32 -> 0 <= norm_shift M < 32.
Proof.
  intros HM. destruct M as [|p|p]; try lia. simpl.
  pose proof (low_zeros_bound p). pose proof (low_zeros_nonneg p).
  split; [lia|]. apply pow2_lt_inv; lia.
Qed.

Lemma norm_width_range (M : Z) : 0 < M < 2 ^ 32 -> 1 <= norm_width M <= 32.
Proof.
  intros HM. destruct M as [|p|p]; try lia.
  unfold norm_width, norm_shift. rewrite shiftr_low_zeros.
  pose proof (odd_part_le p). pose proof (low_ones_bound (odd_part p)).
  pose proof (low_ones_nonneg (odd_part p)).
  split; [apply low_ones_odd_part|].
  assert (low_ones (odd_part p) < 33) by (apply pow2_lt_inv; lia). lia.
Qed.

(** On every 32-bit mask but 0 the code returns, and what it returns is
    the specified value cut to 8 bits. *)
Lemma bit_extract_norm_low8 (v M : Z) :
  0 < M < 2 ^ 32 -> bit_extract_norm v M = Ok (norm_low8 v M).
Proof.
  intros HM. unfold bit_extract_norm, norm_low8.
  assert (E0 : (M =? 0) = false) by (apply Z.eqb_neq; lia).
  rewrite E0, shift_scan_spec by exact HM.
  rewrite bind_unfold. simpl bind.
  destruct (width_scan_spec M HM) as [rest Hw]. rewrite Hw.
  rewrite bind_unfold. simpl bind. simpl fst.
  pose proof (norm_width_range M HM) as Hr.
  pose proof (norm_shift_range M HM) as Hs.
  rewrite Z.geb_leb.
  destruct (8 <=? norm_width M) eqn:E8.
  - rewrite u8_land. reflexivity.
  - zb. assert (Ez : (norm_width M =? 0) = false) by (apply Z.eqb_neq; lia).
    rewrite Ez.
    destruct (replicate_bits_spec (Z.shiftr (Z.land v M) (norm_shift M))
                (norm_width M)) as [w' Hrep];
      [lia | apply shiftr_land_range; lia |].
    rewrite Hrep. rewrite bind_unfold. simpl bind. simpl fst.
    rewrite u8_land, land_ff_idem, low8_of_u32. reflexivity.
Qed.

(** When the set bits of the mask are contiguous the component has at most
    [width] bits, and cutting the wide branch to 8 bits changes nothing. *)
Lemma norm_low8_contiguous (v M : Z) :
  0 < M < 2 ^ 32 -> contiguous M -> norm_low8 v M = norm_stated v M.
Proof.
  intros HM HC. unfold norm_low8, norm_stated.
  pose proof (norm_width_range M HM) as Hr.
  pose proof (norm_shift_range M HM) as Hs.
  destruct (8 <=? norm_width M) eqn:E8; [|reflexivity]. zb.
  unfold contiguous in HC.
  set (s := norm_shift M) in *. set (w := norm_width M) in *.
  rewrite Z.shiftr_land, HC.
  change 0xFF with (Z.ones 8).
  apply Z.bits_inj'. intros i Hi.
  rewrite Z.land_spec, !Z.shiftr_spec, Z.land_spec by lia.
  destruct (Z_lt_le_dec i 8) as [L|G].
  - rewrite (Z.ones_spec_low 8 i) by lia. apply andb_true_r.
  - rewrite (Z.ones_spec_high w (i + (w - 8))) by lia.
    rewrite !andb_false_r. reflexivity.
Qed.

(** C6, as stated, fails on a mask whose set bits are not contiguous: for
    M = v = 0x100FF the run of ones has width 8, the component is 0x100FF,
    and the code returns its low byte 0xFF instead of [c >> 0]. *)
Lemma wide_component_is_truncated :
  ~ (forall v M, 0 <= v < 2 ^ 32 -> 0 < M < 2 ^ 32 ->
                 bit_extract_norm v M = Ok (norm_stated v M)).
Proof.
  intros H. specialize (H 0x100FF 0x100FF ltac:(lia) ltac:(lia)).
  vm_compute in H. discriminate.
Qed.

(** C6 (amended): for every 32-bit pixel value and nonzero 32-bit mask the
    code returns the low 8 bits of [c >> (width - 8)] when [width >= 8]
    (which is [c >> (width - 8)] itself for a contiguous mask) and the low 8
    bits of the replicated component otherwise; a maximal 5-bit component
    maps to 0xFF. *)
Theorem bit_extract_norm_refines (v M : Z) :
  0 <= v < 2 ^ 32 -> 0 < M < 2 ^ 32 ->
  bit_extract_norm v M = Ok (norm_low8 v M)
  /\ (contiguous M -> bit_extract_norm v M = Ok (norm_stated v M))
  /\ bit_extract_norm 0x1F 0x1F = Ok 0xFF.
Proof.
  intros Hv HM. split; [apply bit_extract_norm_low8; exact HM|].
  split; [|reflexivity].
  intros HC. rewrite <- norm_low8_contiguous by assumption.
  apply bit_extract_norm_low8. exact HM.
Qed.

Lemma bit_extract_norm_refines_witness :
  bit_extract_norm 0xFFFF 0x07E0 = Ok (norm_low8 0xFFFF 0x07E0)
  /\ norm_low8 0xFFFF 0x07E0 = 0xFF.
Proof.
  split; [|reflexivity].
  apply (proj1 (bit_extract_norm_refines 0xFFFF 0x07E0
                  ltac:(lia) ltac:(lia))).
Defined.

(** ** Loop invariants *)

Lemma for_loop_inv {S : Type} (I : S -> Prop)
    (body : Z -> S -> result (ctl S)) :
  (forall k s c, I s -> body k s = Ok c -> I (ctl_state c)) ->
  forall (fuel : nat) (k step stop : Z) (s r : S),
    I s -> for_loop fuel k step stop body s = Ok r -> I r.
Proof.
  intros Hbody. induction fuel as [|fuel IH]; intros k step stop s r Hs H.
  - simpl in H. case_if H. injection H as <-. exact Hs.
  - simpl in H. case_if H.
    + inv_bind_as H c Ec. apply Hbody in Ec; [|exact Hs].
      destruct c as [s'|s']; simpl in Ec.
      * eapply IH; eassumption.
      * injection H as <-. exact Ec.
    + injection H as <-. exact Hs.
Qed.

Lemma for_range_inv {S : Type} (I : S -> Prop)
    (body : Z -> S -> result (ctl S)) (lo stop step : Z) (s r : S) :
  (forall k s c, I s -> body k s = Ok c -> I (ctl_state c)) ->
  I s -> for_range lo stop step body s = Ok r -> I r.
Proof. intros Hb Hs H. eapply for_loop_inv; eassumption. Qed.

Lemma fmap_Next_Ok {S : Type} (r : result S) (c : ctl S) :
  (Next <$> r) = Ok c -> r = Ok (ctl_state c).
Proof.
  rewrite fmap_unfold. destruct r as [s| | |]; simpl; intros H;
    try discriminate. injection H as <-. reflexivity.
Qed.

Lemma wr_Ok (v v' : list byte) (i : Z) (b : byte) :
  wr v i b = Ok v' ->
  0 <= i < Z.of_nat (length v) /\ v' = <[Z.to_nat i := b]> v.
Proof.
  unfold wr. intros H. case_if H. injection H as <-. zb. split; [lia|].
  reflexivity.
Qed.

(** ** Ranges of the decoded dimensions *)

Lemma abs_width_range (m : Metadata) (W : Z) :
  - 2 ^ 31 <= width m < 2 ^ 31 -> abs_width m = Ok W ->
  0 <= W < 2 ^ 31 /\ W = Z.abs (width m).
Proof.
  unfold abs_width. intros Hw H. case_if H.
  - case_if H. injection H as <-. zb.
    rewrite u32_small by lia. lia.
  - injection H as <-. zb. rewrite u32_small by lia. lia.
Qed.

Lemma abs_height_range (m : Metadata) :
  - 2 ^ 31 <= height m < 2 ^ 31 ->
  0 <= abs_height m <= 2 ^ 31 /\ abs_height m = Z.abs (height m).
Proof.
  unfold abs_height. intros Hh.
  destruct (height m <? 0) eqn:E; zb; rewrite u32_small by lia; lia.
Qed.

Lemma size_t_small (z : Z) : 0 <= z < 2 ^ 64 -> size_t z = z.
Proof. intros H. unfold size_t. apply Z.mod_small. exact H. Qed.

Lemma size_t_mul4 (z : Z) : size_t (z * 4) mod 4 = 0.
Proof.
  unfold size_t. apply Z.mod_divide; [lia|].
  pose proof (Z.div_mod (z * 4) (2 ^ 64) ltac:(lia)) as E.
  exists (z - 2 ^ 62 * (z * 4 / 2 ^ 64)). lia.
Qed.

(** ** 16-bpp BI_BITFIELDS without mask bytes (C10) *)

Lemma land_high_half (v a : Z) :
  0 <= v < 2 ^ 16 -> Z.land v (Z.shiftl a 16) = 0.
Proof.
  intros Hv. apply Z.bits_inj'. intros i Hi.
  rewrite Z.land_spec, Z.bits_0.
  destruct (Z_lt_le_dec i 16) as [L|G].
  - rewrite Z.shiftl_spec_low by lia. apply andb_false_r.
  - rewrite (testbit_above v 16 i) by lia. reflexivity.
Qed.

Lemma red_of_16bit_word (v : Z) :
  0 <= v < 2 ^ 16 -> bit_extract_norm v 0x00FF0000 = Ok 0.
Proof.
  intros Hv. rewrite bit_extract_norm_low8 by lia.
  unfold norm_low8. change 0x00FF0000 with (Z.shiftl 0xFF 16).
  rewrite land_high_half by exact Hv. reflexivity.
Qed.

Lemma alpha_of_16bit_word (v : Z) :
  0 <= v < 2 ^ 16 -> bit_extract_norm v 0xFF000000 = Ok 0.
Proof.
  intros Hv. rewrite bit_extract_norm_low8 by lia.
  unfold norm_low8. change 0xFF000000 with (Z.shiftl 0xFF00 16).
  rewrite land_high_half by exact Hv. reflexivity.
Qed.

Lemma red_alpha_zero_zeroed (n : Z) :
  red_alpha_zero (Z.to_nat n) (zeroed n).
Proof.
  unfold red_alpha_zero, zeroed. split; [apply length_replicate|].
  intros p Hp _. apply lookup_replicate. split; [reflexivity | exact Hp].
Qed.

Lemma red_alpha_zero_store (n : nat) (px px' : list byte) (off : Z)
    (b : byte) :
  red_alpha_zero n px ->
  (off mod 4 = 2 \/ off mod 4 = 3 -> b = x00) ->
  wr px off b = Ok px' ->
  red_alpha_zero n px'.
Proof.
  intros [Hl Hz] Hb H. apply wr_Ok in H as [Hr ->]. split.
  - rewrite length_insert. exact Hl.
  - intros p Hp Hm.
    destruct (Nat.eq_dec (Z.to_nat off) p) as [<-|Ne].
    + rewrite list_lookup_insert_eq by lia. f_equal. apply Hb.
      rewrite Z2Nat.id in Hm by lia. exact Hm.
    + rewrite list_lookup_insert_ne by exact Ne. apply Hz; assumption.
Qed.

Lemma bitfield_pixel_red_alpha (n : nat) (pix : list byte) (W src y x : Z)
    (px px' : list byte) :
  red_alpha_zero n px ->
  bitfield_pixel pix default_masks32 2 W src y x px = Ok px' ->
  red_alpha_zero n px'.
Proof.
  intros HI H. unfold bitfield_pixel in H.
  change (2 =? 2) with true in H. cbn iota in H.
  inv_bind_as H v Ev. apply le16_range in Ev.
  inv_bind_as H B EB. inv_bind_as H G EG.
  inv_bind_as H R ER. inv_bind_as H A EA.
  simpl in ER, EA.
  rewrite red_of_16bit_word in ER by exact Ev. injection ER as <-.
  rewrite alpha_of_16bit_word in EA by exact Ev. injection EA as <-.
  pose proof (size_t_mul4 (y * W + x)) as Hoff.
  set (off := size_t ((y * W + x) * 4)) in *. clearbody off.
  inv_bind_as H p1 E1. inv_bind_as H p2 E2. inv_bind_as H p3 E3.
  eapply red_alpha_zero_store in E1; [|exact HI|intros; exfalso; lia].
  eapply red_alpha_zero_store in E2;
    [|exact E1|intros; exfalso; Z.div_mod_to_equations; lia].
  eapply red_alpha_zero_store in E3; [|exact E2|reflexivity].
  eapply red_alpha_zero_store in H; [exact H|exact E3|reflexivity].
Qed.

Lemma bitfield_rows_red_alpha (n : nat) (pix : list byte)
    (W H stride : Z) (td : bool) (px px' : list byte) :
  red_alpha_zero n px ->
  bitfield_rows pix default_masks32 2 W H stride td px = Ok px' ->
  red_alpha_zero n px'.
Proof.
  intros HI Hr. unfold bitfield_rows in Hr.
  eapply (for_range_inv (red_alpha_zero n)); [|exact HI|exact Hr].
  intros row s c Hs Hc. apply fmap_Next_Ok in Hc.
  eapply (for_range_inv (red_alpha_zero n)); [|exact Hs|exact Hc].
  intros x s' c' Hs' Hc'. apply fmap_Next_Ok in Hc'.
  eapply bitfield_pixel_red_alpha; eassumption.
Qed.

(** C10: a 16-bpp BI_BITFIELDS file whose 40-byte INFO header is followed
    by fewer than 12 bytes parses with [has_masks = false]; whenever it
    decodes, the rows were converted with the 32-bpp default masks, the
    format is BGRA8, and the red and alpha byte of every pixel is 0. *)
Theorem bitfields16_without_masks (buf : list byte) (m : Metadata) :
  parse_dib buf = Ok m ->
  header_size m = 40 -> bpp m = 16 -> compression m = BI_BITFIELDS ->
  Z.of_nat (length buf) < 66 ->
  has_masks m = false
  /\ forall img, parse buf = Ok img ->
       has_masks (meta img) = false
       /\ format img = BGRA8
       /\ exists W,
            abs_width m = Ok W
            /\ Z.of_nat (length (pixels img)) = W * abs_height m * 4
            /\ bitfield_rows
                 (drop (Z.to_nat (file_offset_pixels m)) buf)
                 default_masks32 2 W (abs_height m)
                 (row_stride_aligned W 16) (top_down m)
                 (zeroed (W * abs_height m * 4)) = Ok (pixels img)
            /\ forall j, 0 <= j < W * abs_height m ->
                 pixels img !! Z.to_nat (4 * j + 2) = Some x00
                 /\ pixels img !! Z.to_nat (4 * j + 3) = Some x00.
Proof.
  intros Hd Hs Hb Hc Hn.
  destruct (parse_dib_facts _ _ Hd) as [Ho _ _ Hw Hh _ Hm].
  specialize (Hm Hs Hn). split; [exact Hm|].
  intros img Hp. granted_eq_in parse_eq Hp. rewrite Hd in Hp. simpl in Hp.
  inv_bind_as Hp m' Ev. apply validate_Ok in Ev as [-> _].
  inv_bind_as Hp pal Epal. case_if Hp.
  granted_eq_in decode_pixels_eq Hp. simpl meta in Hp.
  rewrite Hb, Hc in Hp. simpl in Hp.
  granted_eq_in decode_bitfields_eq Hp. simpl meta in Hp.
  inv_bind_as Hp W EW. case_if Hp. rewrite Hm in Hp.
  change (looks8 default_masks32) with true in Hp. cbn iota in Hp.
  inv_bind_as Hp px Epx. injection Hp as <-. simpl.
  destruct (abs_width_range m W Hw EW) as [HW _].
  destruct (abs_height_range m Hh) as [HH _].
  assert (Hsz : size_t (W * abs_height m * 4) = W * abs_height m * 4)
    by (apply size_t_small; nia).
  rewrite Hsz in Epx.
  split; [exact Hm|]. split; [reflexivity|]. exists W.
  pose proof (bitfield_rows_red_alpha _ _ _ _ _ _ _ _
                (red_alpha_zero_zeroed _) Epx) as [Hl Hz].
  split; [exact EW|]. split; [rewrite Hl; lia|].
  split; [exact Epx|].
  intros j Hj. split; apply Hz; try lia.
  - left. rewrite Z2Nat.id by lia.
    rewrite Z.add_comm, Z.mul_comm, Z.mod_add by lia. reflexivity.
  - right. rewrite Z2Nat.id by lia.
    rewrite Z.add_comm, Z.mul_comm, Z.mod_add by lia. reflexivity.
Qed.

Lemma bitfields16_without_masks_witness :
  exists m img,
    parse_dib maskless16_file = Ok m
    /\ parse maskless16_file = Ok img
    /\ pixels img = bytes_of [0xAB; 0xCD; 0; 0]
    /\ has_masks m = false.
Proof.
  do 2 eexists.
  split; [vm_compute; reflexivity|].
  split; [vm_compute; reflexivity|].
  split; [reflexivity|].
  refine (proj1 (bitfields16_without_masks maskless16_file _ _ _ _ _ _)).
  - vm_compute. reflexivity.
  - reflexivity.
  - reflexivity.
  - reflexivity.
  - vm_compute. reflexivity.
Defined.

(** ** Relating two runs of a loop *)

Lemma rel_bind {A B A' B' : Type} (R : A -> B -> Prop)
    (R' : A' -> B' -> Prop) (r1 : result A) (r2 : result B)
    (k1 : A -> result A') (k2 : B -> result B') :
  rel_result R r1 r2 ->
  (forall a b, R a b -> rel_result R' (k1 a) (k2 b)) ->
  rel_result R' (bind r1 k1) (bind r2 k2).
Proof.
  destruct r1, r2; simpl; intros H Hk; try contradiction; auto.
Qed.

Lemma rel_same {A B A' : Type} (R : A -> B -> Prop) (r : result A')
    (k1 : A' -> result A) (k2 : A' -> result B) :
  (forall a, r = Ok a -> rel_result R (k1 a) (k2 a)) ->
  rel_result R (bind r k1) (bind r k2).
Proof. destruct r; simpl; intros H; auto. Qed.

Lemma rel_fmap_Next {S1 S2 : Type} (R : S1 -> S2 -> Prop)
    (r1 : result S1) (r2 : result S2) :
  rel_result R r1 r2 -> rel_result (rel_ctl R) (Next <$> r1) (Next <$> r2).
Proof.
  rewrite !fmap_unfold. intros H. eapply rel_bind; [exact H|].
  intros a b Hab. exact Hab.
Qed.

Lemma for_loop_rel {S1 S2 : Type} (R : S1 -> S2 -> Prop)
    (body1 : Z -> S1 -> result (ctl S1))
    (body2 : Z -> S2 -> result (ctl S2)) :
  (forall k s1 s2, R s1 s2 ->
                   rel_result (rel_ctl R) (body1 k s1) (body2 k s2)) ->
  forall (fuel : nat) (k step stop : Z) (s1 : S1) (s2 : S2),
    R s1 s2 ->
    rel_result R (for_loop fuel k step stop body1 s1)
                 (for_loop fuel k step stop body2 s2).
Proof.
  intros Hb. induction fuel as [|fuel IH]; intros k step stop s1 s2 Hs.
  - simpl. destruct (k <? stop); [reflexivity | exact Hs].
  - simpl. destruct (k <? stop); [|exact Hs].
    rewrite !bind_unfold. eapply rel_bind; [apply Hb; exact Hs|].
    intros [a|a] [b|b] Hab; simpl in Hab; try contradiction.
    + apply IH. exact Hab.
    + exact Hab.
Qed.

Lemma while_loop_rel {S1 S2 : Type} (R : S1 -> S2 -> Prop)
    (cond1 : S1 -> bool) (cond2 : S2 -> bool)
    (body1 : S1 -> result (ctl S1)) (body2 : S2 -> result (ctl S2)) :
  (forall s1 s2, R s1 s2 -> cond1 s1 = cond2 s2) ->
  (forall s1 s2, R s1 s2 ->
                 rel_result (rel_ctl R) (body1 s1) (body2 s2)) ->
  forall (fuel : nat) (s1 : S1) (s2 : S2),
    R s1 s2 ->
    rel_result R (while_loop fuel cond1 body1 s1)
                 (while_loop fuel cond2 body2 s2).
Proof.
  intros Hc Hb. induction fuel as [|fuel IH]; intros s1 s2 Hs.
  - simpl. rewrite <- (Hc s1 s2 Hs).
    destruct (cond1 s1); [reflexivity | exact Hs].
  - simpl. rewrite <- (Hc s1 s2 Hs). destruct (cond1 s1); [|exact Hs].
    rewrite !bind_unfold. eapply rel_bind; [apply Hb; exact Hs|].
    intros [a|a] [b|b] Hab; simpl in Hab; try contradiction.
    + apply IH. exact Hab.
    + exact Hab.
Qed.

(** Both runs perform the same read and go on with its value. *)
Ltac same_read x :=
  rewrite ?bind_unfold; apply rel_same; intros x _; cbv beta.

(** ** Two runs of the RLE loops over related outputs *)

Section RLE_Rel.
Context {A B : Type}.
Variable storeA : Z -> Z -> Z -> A -> result A.
Variable storeB : Z -> Z -> Z -> B -> result B.
Variables (pix : list byte) (pix_size W H : Z) (td : bool).
Variable Rout : A -> B -> Prop.
Hypothesis W_nonneg : 0 <= W.
Hypothesis H_nonneg : 0 <= H.
Hypothesis store_rel :
  forall x y idx a b,
    0 <= x < W -> 0 <= y < H -> Rout a b ->
    rel_result Rout (storeA x y idx a) (storeB x y idx b).

Lemma Rst_set_i (s1 : rle_state A) (s2 : rle_state B) (i : Z) :
  Rst Rout s1 s2 -> Rst Rout (set_i s1 i) (set_i s2 i).
Proof. unfold Rst. simpl. tauto. Qed.

Lemma put_rel (x y idx : Z) (a : A) (b : B) :
  0 <= x -> 0 <= y -> Rout a b ->
  rel_result Rout (put storeA W H x y idx a) (put storeB W H x y idx b).
Proof.
  intros Hx Hy Hab. unfold put.
  destruct ((x >=? W) || (y >=? H)) eqn:E; [exact Hab|].
  zb. apply store_rel; [lia | lia | exact Hab].
Qed.

Lemma emit_rel (idx : Z) (s1 : rle_state A) (s2 : rle_state B) :
  Rst Rout s1 s2 ->
  rel_result (rel_ctl (Rst Rout)) (emit storeA W H td idx s1)
                           (emit storeB W H td idx s2).
Proof.
  intros (Hx & Hy & Hi & Hx0 & Hy0 & Ho). unfold emit.
  rewrite <- Hx, <- Hy, <- Hi. rewrite !bind_unfold.
  eapply rel_bind.
  - apply put_rel; [exact Hx0 | | exact Ho].
    destruct td; [exact Hy0 | apply u32_range].
  - intros a b Hab.
    pose proof (u32_range (rle_x s1 + 1)).
    pose proof (u32_range (rle_y s1 + 1)).
    destruct (u32 (rle_x s1 + 1) >=? W).
    + destruct (u32 (rle_y s1 + 1) >=? H); simpl;
        unfold Rst; simpl; repeat split; (lia || assumption).
    + simpl. unfold Rst. simpl. repeat split; (lia || assumption).
Qed.

Lemma rle8_delta_rel (s1 : rle_state A) (s2 : rle_state B) (i : Z) :
  Rst Rout s1 s2 ->
  rel_result (rel_ctl (Rst Rout)) (rle8_delta pix pix_size W H s1 i)
                           (rle8_delta pix pix_size W H s2 i).
Proof.
  intros Hs. pose proof Hs as (Hx & Hy & Hi & Hx0 & Hy0 & Ho).
  unfold rle8_delta.
  destruct (size_t (i + 1) >=? pix_size);
    [simpl; apply Rst_set_i; exact Hs|].
  same_read dx.
  same_read dy. simpl. rewrite <- Hx, <- Hy.
  pose proof (u32_range (rle_x s1 + dx)).
  pose proof (u32_range (rle_y s1 + dy)).
  unfold Rst. simpl. repeat split; try assumption.
  - destruct (_ >=? W); lia.
  - destruct (_ >=? H); lia.
Qed.

Lemma rle4_delta_rel (s1 : rle_state A) (s2 : rle_state B) (i : Z) :
  Rst Rout s1 s2 ->
  rel_result (rel_ctl (Rst Rout)) (rle4_delta pix pix_size s1 i)
                           (rle4_delta pix pix_size s2 i).
Proof.
  intros Hs. pose proof Hs as (Hx & Hy & Hi & Hx0 & Hy0 & Ho).
  unfold rle4_delta.
  destruct (size_t (i + 1) >=? pix_size);
    [simpl; apply Rst_set_i; exact Hs|].
  same_read dx.
  same_read dy. simpl. rewrite <- Hx, <- Hy.
  unfold Rst. simpl. repeat split; try assumption; apply u32_range.
Qed.

Lemma end_of_line_rel (s1 : rle_state A) (s2 : rle_state B) (i : Z) :
  Rst Rout s1 s2 ->
  Rst Rout (mkRle 0 (u32 (rle_y s1 + 1)) i (rle_out s1))
      (mkRle 0 (u32 (rle_y s2 + 1)) i (rle_out s2)).
Proof.
  intros (Hx & Hy & Hi & Hx0 & Hy0 & Ho). rewrite <- Hy.
  unfold Rst. simpl. repeat split; try assumption; try lia.
  apply u32_range.
Qed.

Lemma rle8_step_rel (s1 : rle_state A) (s2 : rle_state B) :
  Rst Rout s1 s2 ->
  rel_result (rel_ctl (Rst Rout)) (rle8_step storeA pix pix_size W H td s1)
                           (rle8_step storeB pix pix_size W H td s2).
Proof.
  intros Hs. pose proof Hs as (Hx & Hy & Hi & Hx0 & Hy0 & Ho).
  unfold rle8_step. rewrite <- Hi.
  destruct (size_t (rle_i s1 + 1) >? pix_size); [exact Hs|].
  same_read count.
  destruct (negb (count =? 0)).
  - destruct (rle_i s1 + 1 >=? pix_size);
      [simpl; apply Rst_set_i; exact Hs|].
    same_read val.
    apply rel_fmap_Next. apply for_loop_rel.
    + intros k t1 t2 Ht. apply emit_rel. exact Ht.
    + apply Rst_set_i. exact Hs.
  - destruct (rle_i s1 + 1 >=? pix_size);
      [simpl; apply Rst_set_i; exact Hs|].
    same_read cmd.
    destruct (cmd =? 0); [simpl; apply end_of_line_rel; exact Hs|].
    destruct (cmd =? 1); [simpl; apply Rst_set_i; exact Hs|].
    destruct (cmd =? 2); [apply rle8_delta_rel; exact Hs|].
    destruct (size_t (rle_i s1 + 1 + 1 + cmd) >? pix_size);
      [simpl; apply Rst_set_i; exact Hs|].
    rewrite !bind_unfold.
    eapply rel_bind with (R := Rst Rout).
    + apply for_loop_rel.
      * intros k t1 t2 Ht. pose proof Ht as (_ & _ & Hti & _).
        rewrite <- Hti. same_read b. apply emit_rel. apply Rst_set_i. exact Ht.
      * apply Rst_set_i. exact Hs.
    + intros t1 t2 Ht. pose proof Ht as (_ & _ & Hti & _).
      simpl. rewrite <- Hti. apply Rst_set_i. exact Ht.
Qed.

Lemma rle4_step_rel (s1 : rle_state A) (s2 : rle_state B) :
  Rst Rout s1 s2 ->
  rel_result (rel_ctl (Rst Rout)) (rle4_step storeA pix pix_size W H td s1)
                           (rle4_step storeB pix pix_size W H td s2).
Proof.
  intros Hs. pose proof Hs as (Hx & Hy & Hi & Hx0 & Hy0 & Ho).
  unfold rle4_step. rewrite <- Hi.
  same_read count.
  destruct (negb (count =? 0)).
  - destruct (rle_i s1 + 1 >=? pix_size);
      [simpl; apply Rst_set_i; exact Hs|].
    same_read val.
    apply rel_fmap_Next. apply for_loop_rel.
    + intros k t1 t2 Ht. apply emit_rel. exact Ht.
    + apply Rst_set_i. exact Hs.
  - destruct (rle_i s1 + 1 >=? pix_size);
      [simpl; apply Rst_set_i; exact Hs|].
    same_read cmd.
    destruct (cmd =? 0); [simpl; apply end_of_line_rel; exact Hs|].
    destruct (cmd =? 1); [simpl; apply Rst_set_i; exact Hs|].
    destruct (cmd =? 2); [apply rle4_delta_rel; exact Hs|].
    destruct (size_t (rle_i s1 + 1 + 1 + (cmd + 1) / 2) >? pix_size);
      [simpl; apply Rst_set_i; exact Hs|].
    rewrite !bind_unfold.
    eapply rel_bind with (R := Rst Rout).
    + apply for_loop_rel.
      * intros k t1 t2 Ht. same_read b. apply emit_rel. exact Ht.
      * apply Rst_set_i. exact Hs.
    + intros t1 t2 Ht. simpl. apply Rst_set_i. exact Ht.
Qed.

Lemma rle_cond_rel (s1 : rle_state A) (s2 : rle_state B) :
  Rst Rout s1 s2 -> rle_cond pix_size H s1 = rle_cond pix_size H s2.
Proof.
  intros (Hx & Hy & Hi & _). unfold rle_cond. rewrite Hy, Hi. reflexivity.
Qed.

Lemma rle8_loop_rel (s1 : rle_state A) (s2 : rle_state B) :
  Rst Rout s1 s2 ->
  rel_result (Rst Rout) (rle8_loop storeA pix pix_size W H td s1)
                 (rle8_loop storeB pix pix_size W H td s2).
Proof.
  intros Hs. unfold rle8_loop. apply while_loop_rel.
  - apply rle_cond_rel.
  - apply rle8_step_rel.
  - exact Hs.
Qed.

Lemma rle4_loop_rel (s1 : rle_state A) (s2 : rle_state B) :
  Rst Rout s1 s2 ->
  rel_result (Rst Rout) (rle4_loop storeA pix pix_size W H td s1)
                 (rle4_loop storeB pix pix_size W H td s2).
Proof.
  intros Hs. unfold rle4_loop. apply while_loop_rel.
  - apply rle_cond_rel.
  - apply rle4_step_rel.
  - exact Hs.
Qed.
End RLE_Rel.

(** ** Pixels the RLE stream never writes (C9) *)

Lemma pixel_index_inj (W x y x' y' : Z) :
  0 <= x < W -> 0 <= x' < W -> y * W + x = y' * W + x' ->
  x = x' /\ y = y'.
Proof.
  intros Hx Hx' E.
  assert (Hy : y = y').
  { destruct (Z.lt_trichotomy y y') as [L|[L|L]]; [|exact L|]; nia. }
  subst y'. lia.
Qed.

Lemma wr_in_range (v : list byte) (i : Z) (b : byte) :
  0 <= i < Z.of_nat (length v) ->
  wr v i b = Ok (<[Z.to_nat i := b]> v).
Proof.
  intros Hi. unfold wr.
  destruct (i <? 0) eqn:E1; zb; [lia|].
  destruct (Z.of_nat (length v) <=? i) eqn:E2; zb; [lia|]. reflexivity.
Qed.

Section Unwritten.
Variables (W H : Z) (pal : list PaletteEntry).
Hypothesis W_range : 0 <= W < 2 ^ 31.
Hypothesis H_range : 0 <= H <= 2 ^ 31.
Hypothesis pal_nonempty : is_empty pal = false.

Lemma untouched_zero_init :
  untouched_zero W H (zeroed (size_t (W * H * 4))) [].
Proof.
  rewrite size_t_small by nia. unfold untouched_zero, zeroed, byte_at.
  rewrite length_replicate. split; [nia|].
  intros x y Hx Hy _ c Hc. apply lookup_replicate.
  split; [reflexivity|]. nia.
Qed.

Lemma palette_lookup (idx : Z) :
  exists pe,
    pal !! Z.to_nat (if idx >=? Z.of_nat (length pal) then 0 else idx)
      = Some pe.
Proof.
  apply lookup_lt_is_Some.
  destruct pal as [|e rest]; [discriminate|]. simpl length.
  destruct (idx >=? _) eqn:E; zb; lia.
Qed.

(** One store of [put] keeps every other pixel as it was. *)
Lemma store_px_untouched (x y idx : Z) (px : list byte)
    (log : list (Z * Z)) :
  0 <= x < W -> 0 <= y < H ->
  untouched_zero W H px log ->
  rel_result (untouched_zero W H) (store_px W pal x y idx px)
                                  (log_store x y idx log).
Proof.
  intros Hx Hy [Hl Hz]. unfold store_px, log_store.
  destruct (palette_lookup idx) as [pe ->].
  assert (Hp : 0 <= y * W + x < W * H) by nia.
  rewrite size_t_small by nia.
  set (p := y * W + x) in *.
  rewrite wr_in_range by lia.
  rewrite bind_unfold. simpl bind.
  rewrite wr_in_range by (rewrite !length_insert; lia).
  rewrite bind_unfold. simpl bind.
  rewrite wr_in_range by (rewrite !length_insert; lia).
  rewrite bind_unfold. simpl bind.
  rewrite wr_in_range by (rewrite !length_insert; lia). simpl.
  split; [rewrite !length_insert; exact Hl|].
  intros x' y' Hx' Hy' Hlog c Hc.
  apply not_elem_of_cons in Hlog as [Hne Hlog].
  assert (Hpp : y' * W + x' <> p).
  { intros E. apply pixel_index_inj in E as [-> ->]; [|lia|lia].
    apply Hne. reflexivity. }
  assert (Hp' : 0 <= y' * W + x') by nia.
  unfold byte_at. rewrite !list_lookup_insert_ne by lia.
  apply Hz; assumption.
Qed.

Lemma initial_states_related :
  Rst (untouched_zero W H)
    (mkRle 0 0 0 (zeroed (size_t (W * H * 4)))) (mkRle 0 0 0 []).
Proof.
  unfold Rst. simpl. repeat split; try lia;
    apply untouched_zero_init.
Qed.

Lemma rle8_untouched (pix : list byte) (pix_size : Z) (td : bool)
    (st : rle_state (list byte)) :
  rle8_loop (store_px W pal) pix pix_size W H td
    (mkRle 0 0 0 (zeroed (size_t (W * H * 4)))) = Ok st ->
  exists log,
    rle8_written pix pix_size W H td = Ok log
    /\ untouched_zero W H (rle_out st) log.
Proof.
  intros E.
  pose proof (rle8_loop_rel (store_px W pal) log_store pix pix_size W H td
                (untouched_zero W H) ltac:(lia) ltac:(lia)
                store_px_untouched _ _ initial_states_related) as R.
  rewrite E in R. unfold rle8_written.
  destruct (rle8_loop log_store _ _ _ _ _ _) as [st2| | |];
    simpl in R; try contradiction.
  exists (rle_out st2). split; [reflexivity|].
  destruct R as (_ & _ & _ & _ & _ & Ho). exact Ho.
Qed.

Lemma rle4_untouched (pix : list byte) (pix_size : Z) (td : bool)
    (st : rle_state (list byte)) :
  rle4_loop (store_px W pal) pix pix_size W H td
    (mkRle 0 0 0 (zeroed (size_t (W * H * 4)))) = Ok st ->
  exists log,
    rle4_written pix pix_size W H td = Ok log
    /\ untouched_zero W H (rle_out st) log.
Proof.
  intros E.
  pose proof (rle4_loop_rel (store_px W pal) log_store pix pix_size W H td
                (untouched_zero W H)
                store_px_untouched _ _ initial_states_related) as R.
  rewrite E in R. unfold rle4_written.
  destruct (rle4_loop log_store _ _ _ _ _ _) as [st2| | |];
    simpl in R; try contradiction.
  exists (rle_out st2). split; [reflexivity|].
  destruct R as (_ & _ & _ & _ & _ & Ho). exact Ho.
Qed.
End Unwritten.

(** C9: both RLE decoders start from a zeroed buffer of
    [W * abs_height * 4] bytes, and in the image they return every pixel
    that the stream did not store to still holds (0, 0, 0, 0), whatever the
    stream contains and wherever it ends. *)
Theorem rle_unwritten_pixels_are_zero (pix : list byte) (pix_size : Z)
    (img : Image) :
  - 2 ^ 31 <= width (meta img) < 2 ^ 31 ->
  - 2 ^ 31 <= height (meta img) < 2 ^ 31 ->
  let H := abs_height (meta img) in
  let td := top_down (meta img) in
  (forall img', decode_rle8 pix pix_size img = Ok img' ->
     exists W log,
       abs_width (meta img) = Ok W
       /\ rle8_written pix pix_size W H td = Ok log
       /\ untouched_zero W H (pixels img') log)
  /\ (forall img', decode_rle4 pix pix_size img = Ok img' ->
        exists W log,
          abs_width (meta img) = Ok W
          /\ rle4_written pix pix_size W H td = Ok log
          /\ untouched_zero W H (pixels img') log).
Proof.
  intros Hw Hh H td.
  destruct (abs_height_range _ Hh) as [HH _]. fold H in HH.
  split; intros img' D.
  - granted_eq_in decode_rle8_eq D. case_if D.
    inv_bind_as D W EW. inv_bind_as D st Est. injection D as <-.
    destruct (abs_width_range _ _ Hw EW) as [HW _].
    destruct (rle8_untouched W H (palette img) HW HH ltac:(assumption)
                _ _ _ _ Est) as (log & L1 & L2).
    exists W, log. repeat split; try assumption; apply L2.
  - granted_eq_in decode_rle4_eq D. case_if D.
    inv_bind_as D W EW. inv_bind_as D st Est. injection D as <-.
    destruct (abs_width_range _ _ Hw EW) as [HW _].
    destruct (rle4_untouched W H (palette img) HW HH ltac:(assumption)
                _ _ _ _ Est) as (log & L1 & L2).
    exists W, log. repeat split; try assumption; apply L2.
Qed.

Lemma rle_unwritten_pixels_are_zero_witness :
  exists img',
    decode_rle8 delta_run_stream 8 delta_run_image = Ok img'
    /\ pixels img' = bytes_of [0; 0; 0; 0; 0x11; 0x22; 0x33; 0x44;
                               0; 0; 0; 0; 0; 0; 0; 0]
    /\ exists W log,
         abs_width (meta delta_run_image) = Ok W
         /\ rle8_written delta_run_stream 8 W 2 false = Ok log
         /\ untouched_zero W 2 (pixels img') log.
Proof.
  eexists. split; [vm_compute; reflexivity|]. split; [reflexivity|].
  apply (proj1 (rle_unwritten_pixels_are_zero delta_run_stream 8
                  delta_run_image ltac:(simpl; lia) ltac:(simpl; lia))).
  vm_compute. reflexivity.
Defined.

(** ** The iteration bound is never reached *)

Lemma finishes_Ok {A : Type} (a : A) : finishes (Ok a).
Proof. discriminate. Qed.

Lemma finishes_ParseError {A : Type} (msg : string) :
  finishes (@ParseError A msg).
Proof. discriminate. Qed.

Lemma finishes_bind {A B : Type} (r : result A) (k : A -> result B) :
  finishes r -> (forall a, r = Ok a -> finishes (k a)) ->
  finishes (r ≫= k).
Proof.
  rewrite bind_unfold. unfold finishes.
  destruct r as [a|msg|e|f]; simpl; intros Hr Hk.
  - apply Hk. reflexivity.
  - discriminate.
  - discriminate.
  - intros E. apply Hr. injection E as ->. reflexivity.
Qed.

Lemma finishes_fmap {A B : Type} (f : A -> B) (r : result A) :
  finishes r -> finishes (f <$> r).
Proof.
  rewrite fmap_unfold. unfold finishes.
  destruct r as [a|msg|e|x]; simpl; intros Hr; try discriminate.
  intros E. apply Hr. injection E as ->. reflexivity.
Qed.

Lemma rdb_finishes (p : list byte) (i : Z) : finishes (rdb p i).
Proof.
  unfold rdb. destruct (i <? 0); [discriminate|].
  destruct (p !! Z.to_nat i); discriminate.
Qed.

Lemma rd_finishes (p : list byte) (i : Z) : finishes (rd p i).
Proof.
  unfold rd. apply finishes_bind; [apply rdb_finishes|].
  intros; apply finishes_Ok.
Qed.

Lemma rd_range (p : list byte) (i v : Z) : rd p i = Ok v -> 0 <= v < 256.
Proof.
  unfold rd. intros H. inv_bind_as H b E. injection H as <-.
  unfold b2z. pose proof (Byte.to_N_bounded b). lia.
Qed.

(** Close a goal [finishes r] by walking through the sequencing of [r]. *)
Ltac fin_with leaf :=
  repeat first
    [ solve [unfold finishes; discriminate]
    | leaf
    | apply rd_finishes
    | apply rdb_finishes
    | assumption
    | apply finishes_fmap
    | apply finishes_bind; [|intros ? ?]
    | match goal with
      | |- finishes (if ?c then _ else _) => destruct c
      | |- finishes (match ?x with _ => _ end) => destruct x
      end ].

Ltac fin := fin_with fail.

Lemma le16_finishes (p : list byte) (off : Z) : finishes (le16 p off).
Proof. unfold le16. fin. Qed.

Lemma le32_finishes (p : list byte) (off : Z) : finishes (le32 p off).
Proof. unfold le32. fin. Qed.

Lemma wr_finishes (v : list byte) (i : Z) (b : byte) : finishes (wr v i b).
Proof. unfold wr. fin. Qed.

Lemma memcpy_finishes (dst : list byte) (d : Z) (src : list byte)
    (s len : Z) : finishes (memcpy dst d src s len).
Proof. unfold memcpy. fin. Qed.

Lemma store_px_finishes (W : Z) (pal : list PaletteEntry) (x y idx : Z)
    (px : list byte) : finishes (store_px W pal x y idx px).
Proof.
  unfold store_px. destruct (pal !! _); [|discriminate].
  repeat (apply finishes_bind; [apply wr_finishes|intros ? ?]).
  apply wr_finishes.
Qed.

Lemma for_loop_finishes {S : Type} (body : Z -> S -> result (ctl S))
    (step stop : Z) :
  0 < step ->
  (forall k s, finishes (body k s)) ->
  forall (fuel : nat) (k : Z) (s : S),
    stop - k <= Z.of_nat fuel ->
    finishes (for_loop fuel k step stop body s).
Proof.
  intros Hstep Hb. induction fuel as [|fuel IH]; intros k s Hf.
  - simpl. destruct (k <? stop) eqn:E; zb; [simpl in Hf; lia|].
    apply finishes_Ok.
  - simpl. destruct (k <? stop) eqn:E; [|apply finishes_Ok].
    apply finishes_bind; [apply Hb|].
    intros [s'|s'] _; [|apply finishes_Ok]. apply IH. lia.
Qed.

Lemma for_range_finishes {S : Type} (body : Z -> S -> result (ctl S))
    (lo stop step : Z) (s : S) :
  0 < step ->
  (forall k s, finishes (body k s)) ->
  finishes (for_range lo stop step body s).
Proof.
  intros Hstep Hb. unfold for_range. apply for_loop_finishes; try assumption.
  lia.
Qed.

(** A [while] loop finishes within [mu] iterations when [mu] is positive
    as long as the loop runs and every iteration decreases it; [Inv] is an
    invariant the argument may rest on. *)
Lemma while_loop_finishes {S : Type} (Inv : S -> Prop) (mu : S -> Z)
    (cond : S -> bool) (body : S -> result (ctl S)) :
  (forall s, cond s = true -> 0 < mu s) ->
  (forall s s', Inv s -> cond s = true -> body s = Ok (Next s') ->
                Inv s' /\ mu s' < mu s) ->
  (forall s, finishes (body s)) ->
  forall (fuel : nat) (s : S),
    Inv s -> mu s <= Z.of_nat fuel ->
    finishes (while_loop fuel cond body s).
Proof.
  intros Hpos Hdec Hb. induction fuel as [|fuel IH]; intros s Hi Hf.
  - simpl. destruct (cond s) eqn:E; [|apply finishes_Ok].
    apply Hpos in E. simpl in Hf. lia.
  - simpl. destruct (cond s) eqn:E; [|apply finishes_Ok].
    apply finishes_bind; [apply Hb|].
    intros [s'|s'] Hs; [|apply finishes_Ok].
    destruct (Hdec s s' Hi E Hs) as [Hi' Hlt]. apply IH; [exact Hi'|lia].
Qed.

Lemma bit_extract_norm_finishes (v mask : Z) :
  0 <= mask < 2 ^ 32 -> finishes (bit_extract_norm v mask).
Proof.
  intros Hm. destruct (Z.eq_dec mask 0) as [->|Ne].
  - apply finishes_Ok.
  - rewrite bit_extract_norm_low8 by lia. apply finishes_Ok.
Qed.

Section RLE_Finishes.
Context {A : Type}.
Variable store : Z -> Z -> Z -> A -> result A.
Variables (pix : list byte) (pix_size W H : Z) (td : bool).
Hypothesis store_finishes : forall x y idx a, finishes (store x y idx a).
Hypothesis pix_size_range : 0 <= pix_size < 2 ^ 63.

Lemma emit_finishes (idx : Z) (s : rle_state A) :
  finishes (emit store W H td idx s).
Proof. unfold emit, put. fin. apply store_finishes. Qed.

Lemma emit_keeps_i (idx : Z) (s : rle_state A) (c : ctl (rle_state A)) :
  emit store W H td idx s = Ok c -> rle_i (ctl_state c) = rle_i s.
Proof.
  unfold emit. intros E. inv_bind_as E out Eo.
  repeat case_if E; injection E as <-; reflexivity.
Qed.

Lemma rle8_step_finishes (st : rle_state A) :
  finishes (rle8_step store pix pix_size W H td st).
Proof.
  unfold rle8_step, rle8_delta. fin;
    apply for_range_finishes; try lia; intros;
    fin_with ltac:(apply emit_finishes).
Qed.

Lemma rle4_step_finishes (st : rle_state A) :
  finishes (rle4_step store pix pix_size W H td st).
Proof.
  unfold rle4_step, rle4_delta. fin;
    apply for_range_finishes; try lia; intros;
    fin_with ltac:(apply emit_finishes).
Qed.

(** Every iteration that goes on has consumed input. *)
Lemma rle8_step_advances (st st' : rle_state A) :
  0 <= rle_i st ->
  rle_cond pix_size H st = true ->
  rle8_step store pix pix_size W H td st = Ok (Next st') ->
  0 <= rle_i st' /\ pix_size - rle_i st' < pix_size - rle_i st.
Proof.
  intros Hi Hc E. unfold rle_cond in Hc. zb.
  assert (G : rle_i st + 2 <= rle_i st'); [|lia].
  unfold rle8_step in E. case_if E. inv_bind_as E count Ec.
  case_if E.
  - case_if E. inv_bind_as E val Ev. apply fmap_Next_Ok in E. simpl in E.
    eapply (for_range_inv (fun s => rle_i st + 2 <= rle_i s)) in E;
      [exact E | | simpl; lia].
    intros k s c Hs Hb. apply emit_keeps_i in Hb. lia.
  - case_if E. inv_bind_as E cmd Ecmd.
    case_if E; [injection E as <-; simpl; lia|].
    case_if E. case_if E.
    + unfold rle8_delta in E. case_if E.
      inv_bind_as E dx Edx. inv_bind_as E dy Edy.
      injection E as <-. simpl. lia.
    + case_if E. inv_bind_as E s1 Es. injection E as <-.
      eapply (for_range_inv (fun s => rle_i st + 2 <= rle_i s)) in Es;
        [ | | simpl; lia].
      * simpl. destruct (_ && _); lia.
      * intros k s c Hs Hb. inv_bind_as Hb b Eb.
        apply emit_keeps_i in Hb. simpl in Hb. lia.
Qed.

Lemma rle4_step_advances (st st' : rle_state A) :
  0 <= rle_i st ->
  rle_cond pix_size H st = true ->
  rle4_step store pix pix_size W H td st = Ok (Next st') ->
  0 <= rle_i st' /\ pix_size - rle_i st' < pix_size - rle_i st.
Proof.
  intros Hi Hc E. unfold rle_cond in Hc. zb.
  assert (G : rle_i st + 2 <= rle_i st'); [|lia].
  unfold rle4_step in E. inv_bind_as E count Ec.
  case_if E.
  - case_if E. inv_bind_as E val Ev. apply fmap_Next_Ok in E. simpl in E.
    eapply (for_range_inv (fun s => rle_i st + 2 <= rle_i s)) in E;
      [exact E | | simpl; lia].
    intros k s c Hs Hb. apply emit_keeps_i in Hb. lia.
  - case_if E. inv_bind_as E cmd Ecmd. apply rd_range in Ecmd.
    case_if E; [injection E as <-; simpl; lia|].
    case_if E. case_if E.
    + unfold rle4_delta in E. case_if E.
      inv_bind_as E dx Edx. inv_bind_as E dy Edy.
      injection E as <-. simpl. lia.
    + case_if E. inv_bind_as E s1 Es. injection E as <-. simpl.
      assert (Hb : 0 <= (cmd + 1) / 2 <= 128).
      { split; [apply Z.div_pos; lia|].
        apply Z.div_le_upper_bound; lia. }
      rewrite size_t_small by lia.
      destruct (_ && _); lia.
Qed.

Lemma rle8_loop_finishes (st : rle_state A) :
  0 <= rle_i st ->
  finishes (rle8_loop store pix pix_size W H td st).
Proof.
  intros Hi. unfold rle8_loop.
  apply (while_loop_finishes (fun s => 0 <= rle_i s)
           (fun s => pix_size - rle_i s)).
  - intros s Hc. unfold rle_cond in Hc. zb. lia.
  - intros s s' Hs Hc Hb. eapply rle8_step_advances; eassumption.
  - apply rle8_step_finishes.
  - exact Hi.
  - lia.
Qed.

Lemma rle4_loop_finishes (st : rle_state A) :
  0 <= rle_i st ->
  finishes (rle4_loop store pix pix_size W H td st).
Proof.
  intros Hi. unfold rle4_loop.
  apply (while_loop_finishes (fun s => 0 <= rle_i s)
           (fun s => pix_size - rle_i s)).
  - intros s Hc. unfold rle_cond in Hc. zb. lia.
  - intros s s' Hs Hc Hb. eapply rle4_step_advances; eassumption.
  - apply rle4_step_finishes.
  - exact Hi.
  - lia.
Qed.
End RLE_Finishes.

Lemma read_entries_finishes (p : list byte) (k : nat) (q esize : Z) :
  finishes (read_entries p k q esize).
Proof.
  revert q. induction k as [|k IH]; intros q; simpl; [apply finishes_Ok|].
  fin_with ltac:(apply IH).
Qed.

Lemma read_palette_finishes (p : list byte) (m : Metadata) :
  finishes (read_palette p m).
Proof.
  unfold read_palette. fin_with ltac:(apply read_entries_finishes).
Qed.

Lemma parse_dib_finishes (p : list byte) : finishes (parse_dib p).
Proof.
  unfold parse_dib, read_dims32, read_info, read_masks, read_rgb_masks,
    read_alpha_mask, read_v4, read_v5, read_xyz.
  fin_with ltac:(apply le32_finishes || apply le16_finishes).
Qed.

Lemma indexed_row_finishes (pix : list byte) (pal : list PaletteEntry)
    (W bits src y : Z) (px : list byte) :
  finishes (indexed_row pix pal W bits src y px).
Proof.
  unfold indexed_row.
  repeat match goal with
         | |- finishes (if ?c then _ else _) => destruct c
         end; try apply finishes_Ok;
    apply for_range_finishes; try lia; intros;
    fin_with ltac:(apply store_px_finishes);
    apply for_range_finishes; try lia; intros;
    fin_with ltac:(apply store_px_finishes).
Qed.

Lemma abs_width_finishes (m : Metadata) : finishes (abs_width m).
Proof. unfold abs_width. fin. Qed.

Lemma decode_indexed_finishes (pix : list byte) (pix_size : Z)
    (img : Image) :
  finishes (decode_indexed_uncompressed pix pix_size img).
Proof.
  granted_eq decode_indexed_uncompressed_eq.
  fin_with ltac:(apply abs_width_finishes).
  apply for_range_finishes; [lia|]. intros.
  fin_with ltac:(apply indexed_row_finishes).
Qed.

Lemma copy_rows_finishes (pix : list byte) (W H stride bytes_per_pixel : Z)
    (td : bool) (px : list byte) :
  finishes (copy_rows pix W H stride bytes_per_pixel td px).
Proof.
  unfold copy_rows. apply for_range_finishes; [lia|]. intros.
  fin_with ltac:(apply memcpy_finishes).
Qed.

Lemma decode_bgr24_finishes (pix : list byte) (pix_size : Z) (img : Image) :
  finishes (decode_bgr24 pix pix_size img).
Proof.
  granted_eq decode_bgr24_eq.
  fin_with ltac:(apply abs_width_finishes || apply copy_rows_finishes).
Qed.

Lemma bitfield_rows_finishes (pix : list byte) (k : Bitmasks)
    (bytes_per_pixel W H stride : Z) (td : bool) (px : list byte) :
  masks32 k ->
  finishes (bitfield_rows pix k bytes_per_pixel W H stride td px).
Proof.
  intros (Hr & Hg & Hb & Ha). unfold bitfield_rows.
  apply for_range_finishes; [lia|]. intros. apply finishes_fmap.
  apply for_range_finishes; [lia|]. intros. apply finishes_fmap.
  unfold bitfield_pixel.
  fin_with ltac:(first [ apply le16_finishes | apply le32_finishes
                       | apply wr_finishes
                       | apply bit_extract_norm_finishes; assumption ]).
Qed.

Lemma decode_bitfields_finishes (pix : list byte) (pix_size : Z)
    (img : Image) (bytes_per_pixel : Z) :
  masks32 (masks (meta img)) ->
  finishes (decode_bitfields pix pix_size img bytes_per_pixel).
Proof.
  intros Hm. granted_eq decode_bitfields_eq.
  apply finishes_bind; [apply abs_width_finishes|]. intros W _.
  destruct (_ >? pix_size); [apply finishes_ParseError|].
  assert (Hk : masks32 (if has_masks (meta img) then masks (meta img)
                        else default_masks32)).
  { destruct (has_masks (meta img)); [exact Hm|].
    unfold masks32. simpl. lia. }
  destruct (looks8 _).
  - fin_with ltac:(apply bitfield_rows_finishes; exact Hk).
  - fin_with ltac:(apply copy_rows_finishes).
Qed.

Lemma expose_finishes (pix : list byte) (pix_size : Z) (img : Image) :
  finishes (expose_embedded_stream pix pix_size img).
Proof. granted_eq expose_embedded_stream_eq. unfold read_range. fin. Qed.

Lemma decode_rle8_finishes (pix : list byte) (pix_size : Z) (img : Image) :
  0 <= pix_size < 2 ^ 63 -> finishes (decode_rle8 pix pix_size img).
Proof.
  intros Hp. granted_eq decode_rle8_eq.
  fin_with ltac:(apply abs_width_finishes).
  apply rle8_loop_finishes; [intros; apply store_px_finishes|].
  simpl. lia.
Qed.

Lemma decode_rle4_finishes (pix : list byte) (pix_size : Z) (img : Image) :
  0 <= pix_size < 2 ^ 63 -> finishes (decode_rle4 pix pix_size img).
Proof.
  intros Hp. granted_eq decode_rle4_eq.
  fin_with ltac:(apply abs_width_finishes).
  apply rle4_loop_finishes; [intros; apply store_px_finishes | exact Hp |].
  simpl. lia.
Qed.

Lemma decode_pixels_finishes (pix : list byte) (pix_size : Z) (img : Image) :
  0 <= pix_size < 2 ^ 63 -> masks32 (masks (meta img)) ->
  finishes (decode_pixels pix pix_size img).
Proof.
  intros Hp Hm. granted_eq decode_pixels_eq.
  assert (D16 : masks32 default_masks16) by (unfold masks32; simpl; lia).
  assert (D32 : masks32 default_masks32) by (unfold masks32; simpl; lia).
  fin_with ltac:(first
    [ apply decode_indexed_finishes
    | apply decode_rle8_finishes; exact Hp
    | apply decode_rle4_finishes; exact Hp
    | apply expose_finishes
    | apply decode_bgr24_finishes
    | apply decode_bitfields_finishes; simpl; assumption ]).
Qed.

(** The masks of a parsed header are 32-bit values. *)
Lemma read_rgb_masks_masks32 (p : list byte) (m m' : Metadata) :
  masks32 (masks m) -> read_rgb_masks p m = Ok m' -> masks32 (masks m').
Proof.
  intros (_ & _ & _ & Ha) H. unfold read_rgb_masks in H.
  inv_bind_as H r Er. inv_bind_as H g Eg. inv_bind_as H b Eb.
  injection H as <-. apply le32_range in Er, Eg, Eb.
  unfold masks32. simpl. tauto.
Qed.

Lemma read_alpha_mask_masks32 (p : list byte) (m m' : Metadata) :
  masks32 (masks m) -> read_alpha_mask p m = Ok m' -> masks32 (masks m').
Proof.
  intros (Hr & Hg & Hb & _) H. unfold read_alpha_mask in H.
  inv_bind_as H a Ea. injection H as <-. apply le32_range in Ea.
  unfold masks32. simpl. tauto.
Qed.

Lemma read_masks_masks32 (p : list byte) (n dib_size : Z)
    (m m' : Metadata) :
  masks32 (masks m) -> read_masks p n dib_size m = Ok m' ->
  masks32 (masks m').
Proof.
  intros Hm H. unfold read_masks in H.
  case_if H; [|injection H as <-; exact Hm].
  case_if H.
  - inv_bind_as H m1 E1. apply read_rgb_masks_masks32 in E1; [|exact Hm].
    case_if H.
    + eapply read_alpha_mask_masks32; eassumption.
    + injection H as <-. exact E1.
  - case_if H; [|injection H as <-; exact Hm].
    inv_bind_as H m1 E1. apply read_rgb_masks_masks32 in E1; [|exact Hm].
    case_if H.
    + eapply read_alpha_mask_masks32; eassumption.
    + injection H as <-. exact E1.
Qed.

Lemma read_v4_masks (p : list byte) (dib_size : Z) (m m' : Metadata) :
  read_v4 p dib_size m = Ok m' -> masks m' = masks m.
Proof.
  unfold read_v4. intros H. case_if H.
  - do 7 inv_bind H. injection H as <-. reflexivity.
  - injection H as <-. reflexivity.
Qed.

Lemma read_v5_masks (p : list byte) (n dib_size : Z) (m m' : Metadata) :
  read_v5 p n dib_size m = Ok m' -> masks m' = masks m.
Proof.
  unfold read_v5. intros H. case_if H.
  - do 3 inv_bind H. injection H as <-. reflexivity.
  - injection H as <-. reflexivity.
Qed.

Lemma parse_dib_masks32 (buf : list byte) (m : Metadata) :
  parse_dib buf = Ok m -> masks32 (masks m).
Proof.
  assert (Z0 : masks32 zero_masks) by (unfold masks32; simpl; lia).
  unfold parse_dib. intros H.
  case_if H. do 2 inv_bind H. case_if H. do 3 inv_bind H.
  case_if H. case_if H. inv_bind H. case_if H.
  case_if H; [|case_if H; [|case_if H]].
  - do 4 inv_bind H. injection H as <-. exact Z0.
  - case_if H.
    + inv_bind_as H m1 R1.
      apply read_dims32_Ok in R1 as (w & h & pl & bp & _ & _ & _ & _ & ->).
      apply read_info_Ok in H as (c & isz & px & py & cu & ci & _ & _ & ->).
      exact Z0.
    + apply read_dims32_Ok in H as (w & h & pl & bp & _ & _ & _ & _ & ->).
      exact Z0.
  - inv_bind_as H m1 R1.
    apply read_dims32_Ok in R1 as (w & h & pl & bp & _ & _ & _ & _ & ->).
    inv_bind_as H m2 R2.
    apply read_info_Ok in R2 as (c & isz & px & py & cu & ci & _ & _ & ->).
    inv_bind_as H m4 R4. inv_bind_as H m5 R5.
    apply read_v4_masks in R5. apply read_v5_masks in H.
    rewrite H, R5. eapply read_masks_masks32; [|exact R4].
    unfold info_dib_type.
    repeat match goal with |- context [if ?c then _ else _] =>
      destruct c end; exact Z0.
Qed.

(** The model is adequate: on a buffer a program can hold, [parse] ends
    with an image, a parse error or a fault of the program, never on the
    iteration bound of the model. *)
Lemma parse_finishes (buf : list byte) :
  Z.of_nat (length buf) < 2 ^ 63 -> finishes (parse buf).
Proof.
  intros Hn. granted_eq parse_eq.
  apply finishes_bind; [apply parse_dib_finishes|]. intros m Hd.
  apply finishes_bind; [unfold validate; fin|]. intros m' Hv.
  apply validate_Ok in Hv as [-> _].
  apply finishes_bind; [apply read_palette_finishes|]. intros pal _.
  destruct (_ >? _); [apply finishes_ParseError|].
  destruct (parse_dib_facts _ _ Hd) as [Ho _ Hi _ _ _ _].
  apply decode_pixels_finishes.
  - unfold pix_region_size.
    rewrite (size_t_small (Z.of_nat (length buf) - file_offset_pixels m))
      by lia.
    destruct (_ && _); lia.
  - simpl. apply (parse_dib_masks32 _ _ Hd).
Qed.

(** * Further properties *)

(** ** Reads inside the buffer *)

Lemma safe_Ok {A : Type} (a : A) : safe (Ok a).
Proof. exact I. Qed.

Lemma safe_ParseError {A : Type} (msg : string) : safe (@ParseError A msg).
Proof. exact I. Qed.

Lemma safe_bind {A B : Type} (r : result A) (k : A -> result B) :
  safe r -> (forall a, r = Ok a -> safe (k a)) -> safe (r ≫= k).
Proof.
  rewrite bind_unfold. destruct r as [a|msg|e|f]; simpl; intros Hr Hk.
  - apply Hk. reflexivity.
  - exact I.
  - exact Hr.
  - exact Hr.
Qed.

Lemma rdb_in_range (p : list byte) (i : Z) :
  0 <= i < Z.of_nat (length p) -> exists b, rdb p i = Ok b.
Proof.
  intros Hi. unfold rdb.
  destruct (i <? 0) eqn:E; zb; [lia|].
  destruct (lookup_lt_is_Some_2 p (Z.to_nat i) ltac:(lia)) as [b ->].
  exists b. reflexivity.
Qed.

Lemma rdb_Ok (p : list byte) (i : Z) (b : byte) :
  rdb p i = Ok b ->
  0 <= i < Z.of_nat (length p) /\ p !! Z.to_nat i = Some b.
Proof.
  unfold rdb. intros H. case_if H.
  destruct (p !! Z.to_nat i) as [b'|] eqn:E; [|discriminate].
  injection H as <-. apply lookup_lt_Some in E as L. zb. split; [lia|].
  reflexivity.
Qed.

Lemma rd_in_range (p : list byte) (i : Z) :
  0 <= i < Z.of_nat (length p) -> exists v, rd p i = Ok v.
Proof.
  intros Hi. unfold rd. destruct (rdb_in_range p i Hi) as [b ->].
  eexists. reflexivity.
Qed.

Lemma le16_in_range (p : list byte) (off : Z) :
  0 <= off -> off + 2 <= Z.of_nat (length p) -> exists v, le16 p off = Ok v.
Proof.
  intros H0 H1. unfold le16.
  destruct (rd_in_range p off) as [b0 ->]; [lia|].
  destruct (rd_in_range p (off + 1)) as [b1 ->]; [lia|].
  eexists. reflexivity.
Qed.

Lemma le32_in_range (p : list byte) (off : Z) :
  0 <= off -> off + 4 <= Z.of_nat (length p) -> exists v, le32 p off = Ok v.
Proof.
  intros H0 H1. unfold le32.
  destruct (rd_in_range p off) as [b0 ->]; [lia|].
  destruct (rd_in_range p (off + 1)) as [b1 ->]; [lia|].
  destruct (rd_in_range p (off + 2)) as [b2 ->]; [lia|].
  destruct (rd_in_range p (off + 3)) as [b3 ->]; [lia|].
  eexists. reflexivity.
Qed.

Lemma le16_safe (p : list byte) (off : Z) :
  0 <= off -> off + 2 <= Z.of_nat (length p) -> safe (le16 p off).
Proof.
  intros H0 H1. destruct (le16_in_range p off H0 H1) as [v ->]. exact I.
Qed.

Lemma le32_safe (p : list byte) (off : Z) :
  0 <= off -> off + 4 <= Z.of_nat (length p) -> safe (le32 p off).
Proof.
  intros H0 H1. destruct (le32_in_range p off H0 H1) as [v ->]. exact I.
Qed.

(** Walk through a sequence of in-range reads. *)
Ltac safe_reads :=
  unfold dib in *;
  repeat first
    [ exact I
    | apply safe_Ok
    | apply safe_ParseError
    | apply le32_safe; lia
    | apply le16_safe; lia
    | apply safe_bind; [|intros ? ?] ].

Lemma read_dims32_safe (p : list byte) (m : Metadata) :
  30 <= Z.of_nat (length p) -> safe (read_dims32 p m).
Proof. intros Hn. unfold read_dims32. safe_reads. Qed.

Lemma read_info_safe (p : list byte) (m : Metadata) :
  54 <= Z.of_nat (length p) -> safe (read_info p m).
Proof. intros Hn. unfold read_info. safe_reads. Qed.

Lemma read_masks_safe (p : list byte) (d : Z) (m : Metadata) :
  40 <= d < 2 ^ 31 -> 14 + d <= Z.of_nat (length p) ->
  safe (read_masks p (Z.of_nat (length p)) d m).
Proof.
  intros Hd Hn. unfold read_masks, read_rgb_masks, read_alpha_mask.
  destruct (_ || _); [|exact I].
  destruct (d >=? 52) eqn:E52.
  - zb. apply safe_bind; [safe_reads|]. intros m1 _.
    destruct (d >=? 56) eqn:E56; [|exact I]. zb. safe_reads.
  - destruct (u32 (14 + d + 12) <=? _) eqn:E1; [|exact I]. zb.
    rewrite u32_small in E1 by lia.
    apply safe_bind; [safe_reads|]. intros m1 _.
    destruct (_ && _) eqn:E2; [|exact I]. zb.
    rewrite u32_small in * by lia. safe_reads.
Qed.

Lemma read_v4_safe (p : list byte) (d : Z) (m : Metadata) :
  14 + d <= Z.of_nat (length p) -> safe (read_v4 p d m).
Proof.
  intros Hn. unfold read_v4, read_xyz.
  destruct (d >=? 108) eqn:E; [|exact I]. zb. safe_reads.
Qed.

Lemma read_v5_safe (p : list byte) (d : Z) (m : Metadata) :
  14 + d <= Z.of_nat (length p) ->
  safe (read_v5 p (Z.of_nat (length p)) d m).
Proof.
  intros Hn. unfold read_v5.
  destruct (d >=? 124) eqn:E; [|exact I]. zb. safe_reads.
Qed.

Lemma parse_dib_no_fault (buf : list byte) : safe (parse_dib buf).
Proof.
  unfold parse_dib. set (n := Z.of_nat (length buf)).
  destruct (n <? 14) eqn:E14; [exact I|]. zb.
  apply safe_bind;
    [destruct (rd_in_range buf 0) as [c0 ->]; [lia|exact I]|].
  intros c0 _.
  apply safe_bind;
    [destruct (rd_in_range buf 1) as [c1 ->]; [lia|exact I]|].
  intros c1 _.
  destruct (_ || _); [exact I|].
  apply safe_bind; [apply le32_safe; lia|]. intros fsz _.
  apply safe_bind; [apply le32_safe; lia|]. intros rsv _.
  apply safe_bind; [apply le32_safe; lia|]. intros off _.
  destruct (off >? n); [exact I|].
  destruct (n <? 18) eqn:E18; [exact I|]. zb.
  apply safe_bind; [apply le32_safe; unfold dib; lia|]. intros d Ed.
  apply le32_range in Ed.
  destruct (u32 (d + 14) >? n) eqn:Efit; [exact I|]. zb.
  destruct (d =? 12) eqn:E12.
  { zb. subst d. rewrite u32_small in Efit by lia. safe_reads. }
  destruct ((d =? 16) || (d =? 64)) eqn:E16.
  { destruct (d =? 64) eqn:E64.
    - zb. subst d. rewrite u32_small in Efit by lia.
      apply safe_bind; [apply read_dims32_safe; fold n; lia|]. intros m1 _.
      apply read_info_safe. fold n. lia.
    - apply orb_true_iff in E16 as [E16|E16]; zb; [|lia]. subst d.
      rewrite u32_small in Efit by lia.
      apply read_dims32_safe. fold n. lia. }
  destruct ((d =? 40) || (d =? 52) || (d =? 56) || (d =? 108) || (d =? 124))
    eqn:Einfo; [|exact I].
  assert (Hd : 40 <= d <= 124).
  { repeat (apply orb_true_iff in Einfo as [Einfo|Einfo]); zb; lia. }
  rewrite u32_small in Efit by lia.
  apply safe_bind; [apply read_dims32_safe; fold n; lia|]. intros m1 _.
  apply safe_bind; [apply read_info_safe; fold n; lia|]. intros m2 _.
  apply safe_bind; [apply read_masks_safe; fold n; lia|]. intros m4 _.
  apply safe_bind; [apply read_v4_safe; fold n; lia|]. intros m5 _.
  apply read_v5_safe. fold n. lia.
Qed.

(** X1: the header parser never reads outside the buffer and never
    faults: on every buffer it returns the metadata or a parse error. *)
Theorem parse_dib_safe (buf : list byte) : safe (parse_dib buf).
Proof. exact (parse_dib_no_fault buf). Qed.

(** ** Layout of an accepted header *)

Lemma read_masks_fixed (p : list byte) (n d : Z) (m m' : Metadata) :
  read_masks p n d m = Ok m' -> same_fixed m m'.
Proof.
  unfold read_masks, read_rgb_masks, read_alpha_mask. intros H.
  repeat first
    [ match type of H with
      | (if ?c then _ else _) = _ => destruct c
      end
    | match type of H with
      | bind _ _ = Ok _ => apply bind_Ok in H; destruct H as (? & ? & H)
      | (_ ≫= _) = Ok _ => rewrite bind_unfold in H
      end ];
    injection H as <-;
    repeat match goal with
           | E : bind _ _ = Ok _ |- _ =>
               apply bind_Ok in E; destruct E as (? & ? & E)
           | E : (_ ≫= _) = Ok _ |- _ => rewrite bind_unfold in E
           | E : Ok _ = Ok _ |- _ => injection E as <-
           end;
    repeat split.
Qed.

Lemma read_v4_fixed (p : list byte) (d : Z) (m m' : Metadata) :
  read_v4 p d m = Ok m' -> same_fixed m m'.
Proof.
  unfold read_v4. intros H. case_if H.
  - do 7 inv_bind H. injection H as <-. repeat split.
  - injection H as <-. repeat split.
Qed.

Lemma read_v5_fixed (p : list byte) (n d : Z) (m m' : Metadata) :
  read_v5 p n d m = Ok m' -> same_fixed m m'.
Proof.
  unfold read_v5. intros H. case_if H.
  - do 3 inv_bind H. injection H as <-. repeat split.
  - injection H as <-. repeat split.
Qed.

Lemma info_dib_type_spec (m : Metadata) (d : Z) :
  d = 40 \/ d = 52 \/ d = 56 \/ d = 108 \/ d = 124 ->
  dib_type (info_dib_type m d) = dib_type_of_size d
  /\ same_core m (info_dib_type m d)
  /\ file_size (info_dib_type m d) = file_size m
  /\ ppm_x (info_dib_type m d) = ppm_x m
  /\ ppm_y (info_dib_type m d) = ppm_y m
  /\ color_important (info_dib_type m d) = color_important m.
Proof.
  intros [-> | [-> | [-> | [-> | ->]]]]; repeat split.
Qed.

Lemma read_info_at (p : list byte) (m m' : Metadata) :
  read_info p m = Ok m' ->
  exists c isz px py cu ci,
    le32 p 30 = Ok c /\ le32 p 34 = Ok isz /\ le32 p 38 = Ok px
    /\ le32 p 42 = Ok py /\ le32 p 46 = Ok cu /\ le32 p 50 = Ok ci
    /\ m' = set_info m c isz px py cu ci.
Proof.
  unfold read_info, dib. simpl Z.add. intros H.
  inv_bind_as H c Ec. inv_bind_as H isz Ei. inv_bind_as H px Ex.
  inv_bind_as H py Ey. inv_bind_as H cu Eu. inv_bind_as H ci Eci.
  injection H as <-. exists c, isz, px, py, cu, ci. repeat split; assumption.
Qed.

Lemma read_dims32_at (p : list byte) (m m' : Metadata) :
  read_dims32 p m = Ok m' ->
  exists w h pl bp,
    le32 p 18 = Ok w /\ le32 p 22 = Ok h /\ le16 p 26 = Ok pl
    /\ le16 p 28 = Ok bp /\ m' = set_dims m (s32 w) (s32 h) pl bp.
Proof.
  unfold read_dims32, dib. simpl Z.add. intros H.
  inv_bind_as H w Ew. inv_bind_as H h Eh. inv_bind_as H pl Ep.
  inv_bind_as H bp Eb. injection H as <-.
  exists w, h, pl, bp. repeat split; assumption.
Qed.

(** The layout of an accepted header, offset by offset. *)
Lemma parse_dib_layout (buf : list byte) (m : Metadata) :
  parse_dib buf = Ok m ->
  let n := Z.of_nat (length buf) in
  rd buf 0 = Ok 66 /\ rd buf 1 = Ok 77
  /\ le32 buf 2 = Ok (file_size m)
  /\ le32 buf 10 = Ok (file_offset_pixels m)
  /\ le32 buf 14 = Ok (header_size m)
  /\ supported_dib_size (header_size m)
  /\ 14 + header_size m <= n
  /\ file_offset_pixels m <= n
  /\ dib_type m = dib_type_of_size (header_size m)
  /\ (header_size m = 12 -> core_at buf m /\ info_defaults m)
  /\ (header_size m = 16 -> dims32_at buf m /\ info_defaults m)
  /\ (header_size m >= 40 -> dims32_at buf m /\ info_at buf m).
Proof.
  unfold parse_dib. set (n := Z.of_nat (length buf)). intros H.
  case_if H. inv_bind_as H c0 E0. inv_bind_as H c1 E1. case_if H.
  inv_bind_as H fsz Ef. inv_bind_as H rsv Er. inv_bind_as H off Eo.
  case_if H. case_if H. inv_bind_as H d Ed. case_if H.
  pose proof (le32_range _ _ _ Ed) as Hd.
  unfold dib in Ed. simpl Z.add in Ed.
  zb. subst c0 c1.
  case_if H; [|case_if H; [|case_if H]].
  - zb. subst d.
    match goal with F : u32 _ <= n |- _ => rewrite u32_small in F by lia end.
    unfold dib in H. simpl Z.add in H.
    inv_bind_as H w Ew. inv_bind_as H h Eh. inv_bind_as H pl Ep.
    inv_bind_as H bp Eb. injection H as <-. simpl.
    repeat split; try assumption; try lia; try discriminate;
      try (unfold supported_dib_size; lia).
    + exists w. split; [assumption|reflexivity].
    + exists h. split; [assumption|reflexivity].
  - case_if H.
    + zb. subst d.
      match goal with F : u32 _ <= n |- _ => rewrite u32_small in F by lia end.
      inv_bind_as H m1 R1.
      apply read_dims32_at in R1 as (w & h & pl & bp & Ew & Eh & Ep & Eb & ->).
      apply read_info_at in H
        as (c & isz & px & py & cu & ci & Ec & Ei & Ex & Ey & Eu & Eci & ->).
      simpl.
      repeat split; try assumption; try lia; try discriminate;
        try (unfold supported_dib_size; lia);
        try (eexists; split; [eassumption|reflexivity]).
    + match goal with
      | F : _ || _ = true |- _ => apply orb_true_iff in F as [F|F]
      end; zb; [|discriminate]. subst d.
      match goal with F : u32 _ <= n |- _ => rewrite u32_small in F by lia end.
      apply read_dims32_at in H as (w & h & pl & bp & Ew & Eh & Ep & Eb & ->).
      simpl.
      repeat split; try assumption; try lia; try discriminate;
        try (unfold supported_dib_size; lia);
        try (eexists; split; [eassumption|reflexivity]).
  - assert (Hs : d = 40 \/ d = 52 \/ d = 56 \/ d = 108 \/ d = 124).
    { match goal with
      | F : _ || _ = true |- _ =>
          repeat (apply orb_true_iff in F as [F|F]); zb; lia
      end. }
    match goal with F : u32 _ <= n |- _ => rewrite u32_small in F by lia end.
    inv_bind_as H m1 R1.
    apply read_dims32_at in R1 as (w & h & pl & bp & Ew & Eh & Ep & Eb & ->).
    inv_bind_as H m2 R2.
    apply read_info_at in R2
      as (c & isz & px & py & cu & ci & Ec & Ei & Ex & Ey & Eu & Eci & ->).
    inv_bind_as H m4 R4. inv_bind_as H m5 R5.
    pose proof (read_masks_Ok _ _ _ _ _ R4) as [C4 _].
    pose proof (read_v4_Ok _ _ _ _ R5) as [C5 _].
    pose proof (read_v5_Ok _ _ _ _ _ H) as [C6 _].
    pose proof (read_masks_fixed _ _ _ _ _ R4) as F4.
    pose proof (read_v4_fixed _ _ _ _ R5) as F5.
    pose proof (read_v5_fixed _ _ _ _ _ H) as F6.
    destruct (info_dib_type_spec
                (set_info (set_dims (set_offsets Metadata_init off d fsz)
                             (s32 w) (s32 h) pl bp) c isz px py cu ci) d Hs)
      as (T & C3 & Tf & Tx & Ty & Tc).
    pose proof (same_core_trans _ _ _
                  (same_core_trans _ _ _ (same_core_trans _ _ _ C3 C4) C5) C6)
      as (Cw & Ch & Cp & Cb & Cc & Ci & Cu & Co & Chs).
    destruct F4 as (G4 & Gf4 & Gx4 & Gy4 & Gc4).
    destruct F5 as (G5 & Gf5 & Gx5 & Gy5 & Gc5).
    destruct F6 as (G6 & Gf6 & Gx6 & Gy6 & Gc6).
    simpl in Cw, Ch, Cp, Cb, Cc, Ci, Cu, Co, Chs, Tf, Tx, Ty, Tc.
    rewrite Chs, Co, G6, G5, G4, T, Gf6, Gf5, Gf4, Tf.
    unfold dims32_at, info_at.
    rewrite Cw, Ch, Cp, Cb, Cc, Ci, Cu, Gx6, Gx5, Gx4, Tx, Gy6, Gy5, Gy4, Ty,
      Gc6, Gc5, Gc4, Tc.
    repeat split; try assumption; try lia;
      try (unfold supported_dib_size; lia);
      try (intros ->; lia);
      try (eexists; split; [eassumption|reflexivity]).
Qed.

(** X2: a header that [parse_dib] accepts starts with 'B' 'M', has one of
    the eight supported DIB sizes and lies wholly inside the buffer, as does
    the pixel offset; the metadata fields are the little-endian words at the
    fixed offsets of the variant, sign-extended for width and height, and a
    header too short to hold a field leaves it at its default. *)
Theorem accepted_header_layout (buf : list byte) (m : Metadata) :
  parse_dib buf = Ok m ->
  let n := Z.of_nat (length buf) in
  rd buf 0 = Ok 66 /\ rd buf 1 = Ok 77
  /\ le32 buf 2 = Ok (file_size m)
  /\ le32 buf 10 = Ok (file_offset_pixels m)
  /\ le32 buf 14 = Ok (header_size m)
  /\ supported_dib_size (header_size m)
  /\ 14 + header_size m <= n
  /\ file_offset_pixels m <= n
  /\ dib_type m = dib_type_of_size (header_size m)
  /\ (header_size m = 12 -> core_at buf m /\ info_defaults m)
  /\ (header_size m = 16 -> dims32_at buf m /\ info_defaults m)
  /\ (header_size m >= 40 -> dims32_at buf m /\ info_at buf m).
Proof. exact (parse_dib_layout buf m). Qed.

Lemma accepted_header_layout_witness :
  exists m,
    parse_dib png_file = Ok m
    /\ le32 png_file 14 = Ok (header_size m)
    /\ header_size m = 40
    /\ dims32_at png_file m.
Proof.
  eexists. split; [vm_compute; reflexivity|]. split; [reflexivity|].
  split; [reflexivity|].
  refine (proj1 (proj2 (proj2 (proj2 (proj2 (proj2 (proj2 (proj2 (proj2
            (proj2 (proj2 (proj2
               (accepted_header_layout png_file _ _))))))))))) _)).
  - vm_compute. reflexivity.
  - vm_compute. discriminate.
Defined.

(** ** Little-endian reads *)

Lemma b2z_range (b : byte) : 0 <= b2z b < 256.
Proof. unfold b2z. pose proof (Byte.to_N_bounded b). lia. Qed.

Lemma lor_shiftl_add (a b k : Z) :
  0 <= k -> 0 <= a < 2 ^ k -> Z.lor a (Z.shiftl b k) = a + b * 2 ^ k.
Proof.
  intros Hk Ha. rewrite <- Z.shiftl_mul_pow2 by lia.
  symmetry. apply Z.add_nocarry_lor.
  apply Z.bits_inj'. intros i Hi. rewrite Z.land_spec, Z.bits_0.
  destruct (Z_lt_le_dec i k) as [L|G].
  - rewrite Z.shiftl_spec_low by lia. apply andb_false_r.
  - rewrite (testbit_above a k i) by lia. reflexivity.
Qed.

Lemma u16_small (z : Z) : 0 <= z < 2 ^ 16 -> u16 z = z.
Proof. intros H. unfold u16. apply Z.mod_small. exact H. Qed.

Lemma rd_Ok (p : list byte) (i v : Z) :
  rd p i = Ok v ->
  exists b, p !! Z.to_nat i = Some b /\ v = b2z b
            /\ 0 <= i < Z.of_nat (length p).
Proof.
  unfold rd. intros H. inv_bind_as H b E. injection H as <-.
  apply rdb_Ok in E as [Hi Hb]. exists b. repeat split; assumption || lia.
Qed.

Lemma rd_lookup (p : list byte) (i : Z) (b : byte) :
  0 <= i -> p !! Z.to_nat i = Some b -> rd p i = Ok (b2z b).
Proof.
  intros Hi Hb. unfold rd, rdb.
  destruct (i <? 0) eqn:E; zb; [lia|]. rewrite Hb. reflexivity.
Qed.

Lemma le16_value (p : list byte) (off : Z) (b0 b1 : byte) :
  0 <= off ->
  p !! Z.to_nat off = Some b0 -> p !! Z.to_nat (off + 1) = Some b1 ->
  le16 p off = Ok (b2z b0 + 2 ^ 8 * b2z b1).
Proof.
  intros Ho H0 H1. unfold le16.
  rewrite (rd_lookup p off b0), (rd_lookup p (off + 1) b1) by (lia || assumption).
  rewrite !bind_unfold. simpl bind.
  pose proof (b2z_range b0). pose proof (b2z_range b1).
  rewrite lor_shiftl_add by lia. rewrite u16_small by lia. f_equal. lia.
Qed.

Lemma le32_value (p : list byte) (off : Z) (b0 b1 b2 b3 : byte) :
  0 <= off ->
  p !! Z.to_nat off = Some b0 -> p !! Z.to_nat (off + 1) = Some b1 ->
  p !! Z.to_nat (off + 2) = Some b2 -> p !! Z.to_nat (off + 3) = Some b3 ->
  le32 p off
  = Ok (b2z b0 + 2 ^ 8 * b2z b1 + 2 ^ 16 * b2z b2 + 2 ^ 24 * b2z b3).
Proof.
  intros Ho H0 H1 H2 H3. unfold le32.
  rewrite (rd_lookup p off b0), (rd_lookup p (off + 1) b1),
    (rd_lookup p (off + 2) b2), (rd_lookup p (off + 3) b3)
    by (lia || assumption).
  rewrite !bind_unfold. simpl bind.
  pose proof (b2z_range b0). pose proof (b2z_range b1).
  pose proof (b2z_range b2). pose proof (b2z_range b3).
  rewrite (lor_shiftl_add (b2z b0)) by lia.
  rewrite (lor_shiftl_add _ (b2z b2)) by lia.
  rewrite (lor_shiftl_add _ (b2z b3)) by lia.
  rewrite u32_small by lia. f_equal. lia.
Qed.

Lemma le32_Ok_bytes (p : list byte) (off v : Z) :
  le32 p off = Ok v ->
  exists b0 b1 b2 b3,
    0 <= off /\ off + 4 <= Z.of_nat (length p)
    /\ p !! Z.to_nat off = Some b0 /\ p !! Z.to_nat (off + 1) = Some b1
    /\ p !! Z.to_nat (off + 2) = Some b2
    /\ p !! Z.to_nat (off + 3) = Some b3
    /\ v = b2z b0 + 2 ^ 8 * b2z b1 + 2 ^ 16 * b2z b2 + 2 ^ 24 * b2z b3.
Proof.
  intros H. pose proof H as H'. unfold le32 in H.
  inv_bind_as H v0 E0. inv_bind_as H v1 E1. inv_bind_as H v2 E2.
  inv_bind_as H v3 E3.
  apply rd_Ok in E0 as (b0 & L0 & _ & R0).
  apply rd_Ok in E1 as (b1 & L1 & _ & R1).
  apply rd_Ok in E2 as (b2 & L2 & _ & R2).
  apply rd_Ok in E3 as (b3 & L3 & _ & R3).
  exists b0, b1, b2, b3.
  rewrite (le32_value p off b0 b1 b2 b3) in H' by (lia || assumption).
  injection H' as <-. repeat split; assumption || lia.
Qed.

Lemma le16_Ok_bytes (p : list byte) (off v : Z) :
  le16 p off = Ok v ->
  exists b0 b1,
    0 <= off /\ off + 2 <= Z.of_nat (length p)
    /\ p !! Z.to_nat off = Some b0 /\ p !! Z.to_nat (off + 1) = Some b1
    /\ v = b2z b0 + 2 ^ 8 * b2z b1.
Proof.
  intros H. pose proof H as H'. unfold le16 in H.
  inv_bind_as H v0 E0. inv_bind_as H v1 E1.
  apply rd_Ok in E0 as (b0 & L0 & _ & R0).
  apply rd_Ok in E1 as (b1 & L1 & _ & R1).
  exists b0, b1.
  rewrite (le16_value p off b0 b1) in H' by (lia || assumption).
  injection H' as <-. repeat split; assumption || lia.
Qed.

(** X3: the three readers return the little-endian value of the bytes at
    [off]: [le16] and [le32] succeed exactly on the bytes they name, and
    [le64] is the low word plus 2^32 times the high word. *)
Theorem little_endian_reads (p : list byte) (off : Z) :
  0 <= off ->
  (forall v, le16 p off = Ok v <->
     exists b0 b1,
       p !! Z.to_nat off = Some b0 /\ p !! Z.to_nat (off + 1) = Some b1
       /\ v = b2z b0 + 2 ^ 8 * b2z b1)
  /\ (forall v, le32 p off = Ok v <->
        exists b0 b1 b2 b3,
          p !! Z.to_nat off = Some b0 /\ p !! Z.to_nat (off + 1) = Some b1
          /\ p !! Z.to_nat (off + 2) = Some b2
          /\ p !! Z.to_nat (off + 3) = Some b3
          /\ v = b2z b0 + 2 ^ 8 * b2z b1 + 2 ^ 16 * b2z b2
                 + 2 ^ 24 * b2z b3)
  /\ (forall v, le64 p off = Ok v <->
        exists lo hi,
          le32 p off = Ok lo /\ le32 p (off + 4) = Ok hi
          /\ v = lo + 2 ^ 32 * hi).
Proof.
  intros Ho. split; [|split]; intros v; split.
  - intros H. apply le16_Ok_bytes in H as (b0 & b1 & _ & _ & L0 & L1 & ->).
    exists b0, b1. repeat split; assumption.
  - intros (b0 & b1 & L0 & L1 & ->). apply le16_value; assumption.
  - intros H.
    apply le32_Ok_bytes in H
      as (b0 & b1 & b2 & b3 & _ & _ & L0 & L1 & L2 & L3 & ->).
    exists b0, b1, b2, b3. repeat split; assumption.
  - intros (b0 & b1 & b2 & b3 & L0 & L1 & L2 & L3 & ->).
    apply le32_value; assumption.
  - unfold le64. intros H. inv_bind_as H lo El. inv_bind_as H hi Eh.
    injection H as <-. exists lo, hi.
    pose proof (le32_range _ _ _ El). pose proof (le32_range _ _ _ Eh).
    rewrite lor_shiftl_add by lia. rewrite Z.mod_small by lia.
    repeat split; try assumption. lia.
  - intros (lo & hi & El & Eh & ->). unfold le64. rewrite El, Eh.
    rewrite !bind_unfold. simpl bind.
    pose proof (le32_range _ _ _ El). pose proof (le32_range _ _ _ Eh).
    rewrite lor_shiftl_add by lia. rewrite Z.mod_small by lia.
    f_equal. lia.
Qed.

Lemma little_endian_reads_witness :
  le32 (bytes_of [0x78; 0x56; 0x34; 0x12]) 0 = Ok 0x12345678
  /\ le16 (bytes_of [0x34; 0x12]) 0 = Ok 0x1234.
Proof.
  split.
  - apply (proj2 (proj1 (proj2 (little_endian_reads
                   (bytes_of [0x78; 0x56; 0x34; 0x12]) 0 ltac:(lia)))
                   0x12345678)).
    exists x78, x56, x34, x12. repeat split; reflexivity.
  - apply (proj2 (proj1 (little_endian_reads (bytes_of [0x34; 0x12]) 0
                   ltac:(lia)) 0x1234)).
    exists x34, x12. repeat split; reflexivity.
Defined.

(** ** Row stride *)

Lemma land_align4 (x : Z) :
  0 <= x < 2 ^ 32 -> Z.land x (u32 (Z.lnot 3)) = 4 * (x / 4).
Proof.
  intros Hx. change (u32 (Z.lnot 3)) with (Z.shiftl (Z.ones 30) 2).
  replace (4 * (x / 4)) with (Z.shiftl (Z.shiftr x 2) 2)
    by (rewrite Z.shiftl_mul_pow2, Z.shiftr_div_pow2 by lia;
        change (2 ^ 2) with 4; lia).
  apply Z.bits_inj'. intros i Hi. rewrite Z.land_spec.
  destruct (Z_lt_le_dec i 2) as [L|G].
  - rewrite !Z.shiftl_spec_low by lia. apply andb_false_r.
  - rewrite !Z.shiftl_spec by lia. rewrite Z.shiftr_spec by lia.
    replace (i - 2 + 2) with i by lia.
    destruct (Z_lt_le_dec i 32) as [L|G'].
    + rewrite Z.ones_spec_low by lia. apply andb_true_r.
    + rewrite (testbit_above x 32 i) by lia. reflexivity.
Qed.

Lemma row_stride_aligned_no_wrap (w bits : Z) :
  0 <= w -> 0 <= bits -> w * bits < 2 ^ 64 ->
  (w * bits + 7) / 8 + 3 < 2 ^ 32 ->
  row_stride_aligned w bits = 4 * (((w * bits + 7) / 8 + 3) / 4).
Proof.
  intros Hw Hb H64 H32. unfold row_stride_aligned.
  assert (0 <= w * bits) by nia.
  rewrite (Z.mod_small (w * bits)) by lia.
  assert (0 <= (w * bits + 7) / 8) by (apply Z.div_pos; lia).
  rewrite (u32_small ((w * bits + 7) / 8)) by lia.
  rewrite u32_small by lia. apply land_align4. lia.
Qed.

(** X4: the row stride is always a multiple of 4 below 2^32; as long as
    the byte count of a row plus 3 fits 32 bits it is the byte count
    [ceil (w * bits / 8)] rounded up to the next multiple of 4. *)
Theorem row_stride_aligned_spec (w bits : Z) :
  0 <= w -> 0 <= bits -> w * bits < 2 ^ 64 ->
  let bytes := (w * bits + 7) / 8 in
  row_stride_aligned w bits mod 4 = 0
  /\ 0 <= row_stride_aligned w bits < 2 ^ 32
  /\ (bytes + 3 < 2 ^ 32 ->
        bytes <= row_stride_aligned w bits < bytes + 4
        /\ w * bits <= 8 * row_stride_aligned w bits).
Proof.
  intros Hw Hb H64 bytes.
  assert (Hs : exists x, 0 <= x < 2 ^ 32
                         /\ row_stride_aligned w bits = 4 * (x / 4)).
  { unfold row_stride_aligned.
    eexists. split; [apply u32_range|]. apply land_align4. apply u32_range. }
  destruct Hs as (x & Hx & Hs). split; [|split].
  - rewrite Hs. rewrite Z.mul_comm. apply Z.mod_mul. lia.
  - rewrite Hs. Z.div_mod_to_equations. lia.
  - intros Hfit. rewrite row_stride_aligned_no_wrap by assumption.
    fold bytes. assert (0 <= w * bits) by nia.
    assert (Hb8 : w * bits <= 8 * bytes).
    { subst bytes. Z.div_mod_to_equations. lia. }
    Z.div_mod_to_equations. lia.
Qed.

Lemma row_stride_aligned_spec_witness :
  row_stride_aligned 3 24 mod 4 = 0 /\ row_stride_aligned 3 24 = 12
  /\ row_stride_aligned 5 1 = 4.
Proof.
  split; [|split; reflexivity].
  apply (proj1 (row_stride_aligned_spec 3 24 ltac:(lia) ltac:(lia)
                  ltac:(lia))).
Defined.

(** ** The palette *)

Lemma read_entries_spec (p : list byte) (esize : Z) :
  esize = 3 \/ esize = 4 ->
  forall (k : nat) (q : Z),
    0 <= q -> q + Z.of_nat k * esize <= Z.of_nat (length p) ->
    exists pal,
      read_entries p k q esize = Ok pal
      /\ length pal = k
      /\ forall j, (j < k)%nat -> pal !! j = entry_at p q esize j.
Proof.
  intros He. induction k as [|k IH]; intros q Hq Hn.
  - exists []. repeat split. intros j Hj. lia.
  - simpl read_entries.
    destruct (rdb_in_range p q) as [b Eb]; [lia|].
    destruct (rdb_in_range p (q + 1)) as [g Eg]; [lia|].
    destruct (rdb_in_range p (q + 2)) as [r Er]; [lia|].
    assert (Ha : exists a,
               (if esize =? 4 then rdb p (q + 3) else Ok x00) = Ok a
               /\ (if esize =? 4
                   then match p !! Z.to_nat (q + 3) with
                        | Some a' => Some (mkPaletteEntry b g r a')
                        | None => None
                        end
                   else Some (mkPaletteEntry b g r x00))
                  = Some (mkPaletteEntry b g r a)).
    { destruct (esize =? 4) eqn:E4; zb.
      - destruct (rdb_in_range p (q + 3)) as [a Ea]; [lia|].
        exists a. split; [exact Ea|]. apply rdb_Ok in Ea as [_ ->].
        reflexivity.
      - exists x00. split; reflexivity. }
    destruct Ha as (a & Ea & Ha).
    destruct (IH (q + esize)) as (rest & Erest & Hlen & Hrest); [lia|lia|].
    rewrite Eb, Eg, Er. rewrite !bind_unfold. simpl bind.
    rewrite Ea. rewrite !bind_unfold. simpl bind.
    rewrite Erest. rewrite !bind_unfold. simpl bind.
    eexists. split; [reflexivity|]. split; [simpl; lia|].
    intros [|j] Hj.
    + simpl. unfold entry_at.
      replace (q + Z.of_nat 0 * esize) with q by lia.
      apply rdb_Ok in Eb as [_ ->]. apply rdb_Ok in Eg as [_ ->].
      apply rdb_Ok in Er as [_ ->]. symmetry. exact Ha.
    + simpl. rewrite Hrest by lia. unfold entry_at.
      replace (q + esize + Z.of_nat j * esize)
        with (q + Z.of_nat (S j) * esize) by lia.
      reflexivity.
Qed.

Lemma parse_dib_counts (buf : list byte) (m : Metadata) :
  parse_dib buf = Ok m ->
  0 <= color_used m < 2 ^ 32 /\ 0 <= bpp m < 2 ^ 16
  /\ 12 <= header_size m <= 124
  /\ 14 + header_size m <= Z.of_nat (length buf)
  /\ 0 <= file_offset_pixels m <= Z.of_nat (length buf)
  /\ file_offset_pixels m < 2 ^ 32.
Proof.
  intros H. pose proof (parse_dib_layout _ _ H) as L. simpl in L.
  destruct L as (_ & _ & _ & Eo & _ & Hs & Hfit & Hoff & _ & L12 & L16 & L40).
  apply le32_range in Eo.
  assert (Hc : 0 <= color_used m < 2 ^ 32 /\ 0 <= bpp m < 2 ^ 16).
  { unfold supported_dib_size in Hs.
    destruct (Z.eq_dec (header_size m) 12) as [E12|N12].
    - destruct (L12 E12) as [(_ & _ & _ & Eb) (_ & _ & -> & _)].
      apply le16_range in Eb. lia.
    - destruct (Z.eq_dec (header_size m) 16) as [E16|N16].
      + destruct (L16 E16) as [(_ & _ & _ & Eb) (_ & _ & -> & _)].
        apply le16_range in Eb. lia.
      + destruct L40 as [(_ & _ & _ & Eb) (_ & _ & _ & _ & Eu & _)]; [lia|].
        apply le16_range in Eb. apply le32_range in Eu. lia. }
  unfold supported_dib_size in Hs. repeat split; lia.
Qed.

Lemma default_palette_entries_range (m : Metadata) :
  0 <= color_used m < 2 ^ 32 ->
  0 <= default_palette_entries m < 2 ^ 32.
Proof.
  intros Hc. unfold default_palette_entries.
  destruct (dib_type m); repeat match goal with
    | |- context [if ?c then _ else _] => destruct c
    end; try apply u32_range; lia.
Qed.

Lemma read_palette_total (buf : list byte) (m : Metadata) :
  parse_dib buf = Ok m ->
  exists pal,
    read_palette buf m = Ok pal
    /\ Z.of_nat (length pal) = palette_count m
    /\ 14 + header_size m + palette_count m * palette_entry_size m
       <= Z.max (14 + header_size m) (file_offset_pixels m)
    /\ forall j, (j < length pal)%nat ->
         pal !! j = entry_at buf (14 + header_size m)
                      (palette_entry_size m) j.
Proof.
  intros H.
  destruct (parse_dib_counts _ _ H) as (Hc & Hb & Hs & Hfit & Ho & Ho32).
  pose proof (default_palette_entries_range m Hc) as Hd.
  unfold read_palette, palette_count.
  rewrite (u32_small (14 + header_size m)) by lia.
  rewrite (size_t_small (14 + header_size m)) by lia.
  set (po := 14 + header_size m) in *.
  assert (He : palette_entry_size m = 3 \/ palette_entry_size m = 4).
  { unfold palette_entry_size. destruct (dib_type m); lia. }
  destruct (file_offset_pixels m >? po) eqn:Eo; zb.
  - rewrite (size_t_small (file_offset_pixels m - po)) by lia.
    set (avail := file_offset_pixels m - po) in *.
    destruct ((default_palette_entries m >? 0) && (avail >? 0)) eqn:Ec.
    + assert (Hq : 0 <= avail / palette_entry_size m <= avail).
      { split; [apply Z.div_pos; lia|].
        apply Z.div_le_upper_bound; [lia|]. nia. }
      rewrite (u32_small (avail / palette_entry_size m)) by lia.
      set (cnt := Z.min (avail / palette_entry_size m)
                        (default_palette_entries m)).
      assert (Hcnt : 0 <= cnt /\ cnt * palette_entry_size m <= avail).
      { subst cnt. split; [lia|].
        assert (avail / palette_entry_size m * palette_entry_size m <= avail)
          by (rewrite Z.mul_comm; apply Z.mul_div_le; lia).
        nia. }
      destruct (read_entries_spec buf (palette_entry_size m) He
                  (Z.to_nat cnt) po) as (pal & Ep & Hl & Hp);
        [lia | rewrite Z2Nat.id by lia; lia |].
      exists pal. split; [exact Ep|]. split; [lia|]. split; [lia|].
      intros j Hj. apply Hp. lia.
    + exists []. repeat split; simpl; lia.
  - rewrite andb_false_r. exists []. repeat split; simpl; lia.
Qed.

(** X5: for a parsed header the palette reader never faults; it returns
    [palette_count] entries, the smaller of the default count and the
    whole entries that fit between the end of the header and the pixel
    offset, and entry [j] holds the bytes b, g, r (and the fourth byte, or 0
    for a core header) found at its place in the buffer. *)
Theorem palette_spec (buf : list byte) (m : Metadata) :
  parse_dib buf = Ok m ->
  exists pal,
    read_palette buf m = Ok pal
    /\ Z.of_nat (length pal) = palette_count m
    /\ 14 + header_size m + palette_count m * palette_entry_size m
       <= Z.max (14 + header_size m) (file_offset_pixels m)
    /\ forall j, (j < length pal)%nat ->
         pal !! j = entry_at buf (14 + header_size m)
                      (palette_entry_size m) j.
Proof. exact (read_palette_total buf m). Qed.

Lemma palette_spec_witness :
  let buf := rle8_odd_run_file (mkPaletteEntry x01 x02 x03 x04)
               (mkPaletteEntry x05 x06 x07 x08) in
  exists m pal,
    parse_dib buf = Ok m
    /\ read_palette buf m = Ok pal
    /\ pal = [mkPaletteEntry x01 x02 x03 x04; mkPaletteEntry x05 x06 x07 x08]
    /\ Z.of_nat (length pal) = palette_count m.
Proof.
  intros buf.
  destruct (parse_dib buf) as [m| | |] eqn:E;
    try (vm_compute in E; discriminate).
  destruct (palette_spec buf m E) as (pal & Ep & Hl & _).
  exists m, pal. split; [reflexivity|]. split; [exact Ep|].
  split; [|exact Hl].
  vm_compute in E. injection E as <-. vm_compute in Ep.
  injection Ep as <-. reflexivity.
Defined.

(** ** Loops that run to their end *)

Lemma for_loop_total {S : Type} (I : Z -> S -> Prop)
    (body : Z -> S -> result (ctl S)) (step stop : Z) :
  0 < step ->
  (forall k s, k < stop -> I k s ->
     exists s', body k s = Ok (Next s') /\ I (k + step) s') ->
  forall (fuel : nat) (k : Z) (s : S),
    stop - k <= Z.of_nat fuel -> I k s ->
    exists r k', for_loop fuel k step stop body s = Ok r
                 /\ stop <= k' /\ I k' r.
Proof.
  intros Hstep Hb. induction fuel as [|fuel IH]; intros k s Hf Hs.
  - simpl. destruct (k <? stop) eqn:E; zb; [simpl in Hf; lia|].
    exists s, k. repeat split; assumption.
  - simpl. destruct (k <? stop) eqn:E; zb.
    + destruct (Hb k s E Hs) as (s' & -> & Hs').
      rewrite bind_unfold. simpl bind. apply IH; [lia | exact Hs'].
    + exists s, k. repeat split; assumption.
Qed.

Lemma for_range_total {S : Type} (I : Z -> S -> Prop)
    (body : Z -> S -> result (ctl S)) (lo stop step : Z) (s : S) :
  0 < step ->
  (forall k s, k < stop -> I k s ->
     exists s', body k s = Ok (Next s') /\ I (k + step) s') ->
  I lo s ->
  exists r k', for_range lo stop step body s = Ok r
               /\ stop <= k' /\ I k' r.
Proof.
  intros Hstep Hb Hs. unfold for_range.
  apply (for_loop_total I body step stop Hstep Hb); [lia | exact Hs].
Qed.

(** ** [memcpy] and the row copies *)

Lemma memcpy_total (dst : list byte) (d : Z) (src : list byte) (s len : Z) :
  0 <= d -> 0 <= s -> 0 <= len ->
  s + len <= Z.of_nat (length src) -> d + len <= Z.of_nat (length dst) ->
  exists dst',
    memcpy dst d src s len = Ok dst'
    /\ length dst' = length dst
    /\ (forall j, 0 <= j < len ->
          dst' !! Z.to_nat (d + j) = src !! Z.to_nat (s + j))
    /\ (forall p, 0 <= p -> p < d \/ d + len <= p ->
          dst' !! Z.to_nat p = dst !! Z.to_nat p).
Proof.
  intros Hd Hs Hl Hsrc Hdst. unfold memcpy.
  destruct (s + len >? _) eqn:E1; zb; [lia|].
  destruct (d + len >? _) eqn:E2; zb; [lia|].
  eexists. split; [reflexivity|].
  assert (Lt : length (take (Z.to_nat d) dst) = Z.to_nat d)
    by (rewrite length_take; lia).
  assert (Ls : length (slice src s len) = Z.to_nat len)
    by (unfold slice; rewrite length_take, length_drop; lia).
  split; [|split].
  - rewrite !length_app, Lt, Ls, length_drop. lia.
  - intros j Hj. rewrite lookup_app_r by lia.
    rewrite lookup_app_l by lia. rewrite Lt. unfold slice.
    rewrite lookup_take_lt by lia. rewrite lookup_drop. f_equal. lia.
  - intros p Hp [L|G].
    + rewrite lookup_app_l by lia. apply lookup_take_lt. lia.
    + rewrite lookup_app_r by lia. rewrite lookup_app_r by lia.
      rewrite lookup_drop. f_equal. lia.
Qed.

Lemma dest_row_range (td : bool) (H row : Z) :
  0 <= row < H -> 0 <= dest_row td H row < H.
Proof. unfold dest_row. destruct td; lia. Qed.

Lemma dest_row_inj (td : bool) (H r1 r2 : Z) :
  dest_row td H r1 = dest_row td H r2 -> r1 = r2.
Proof. unfold dest_row. destruct td; lia. Qed.

Lemma dest_row_model (td : bool) (H row : Z) :
  0 <= row < H -> H <= 2 ^ 32 ->
  (if td then row else u32 (H - 1 - row)) = dest_row td H row.
Proof.
  intros Hr HH. unfold dest_row. destruct td; [reflexivity|].
  apply u32_small. lia.
Qed.

(** Distinct rows of [rb] bytes do not overlap. *)
Lemma rows_disjoint (rb y1 y2 j : Z) :
  0 <= rb -> 0 <= j < rb -> y1 <> y2 ->
  y1 * rb + j < y2 * rb \/ y2 * rb + rb <= y1 * rb + j.
Proof.
  intros Hrb Hj Hne.
  destruct (Z_lt_le_dec y1 y2) as [L|G]; [left|right]; nia.
Qed.

Lemma copy_rows_total (pix : list byte) (W H stride bytes_per_pixel : Z)
    (td : bool) (px : list byte) :
  0 <= W -> 0 <= H <= 2 ^ 32 -> 0 <= bytes_per_pixel ->
  W * bytes_per_pixel <= stride ->
  stride * H <= Z.of_nat (length pix) -> stride * H < 2 ^ 64 ->
  Z.of_nat (length px) = W * bytes_per_pixel * H ->
  exists px',
    copy_rows pix W H stride bytes_per_pixel td px = Ok px'
    /\ length px' = length px
    /\ forall row j,
         0 <= row < H -> 0 <= j < W * bytes_per_pixel ->
         px' !! Z.to_nat (dest_row td H row * (W * bytes_per_pixel) + j)
         = pix !! Z.to_nat (row * stride + j).
Proof.
  intros HW HH Hb Hrb Hpix H64 Hlen. set (rb := W * bytes_per_pixel) in *.
  assert (Hrb0 : 0 <= rb) by (subst rb; nia).
  unfold copy_rows.
  destruct (for_range_total
    (fun k s => 0 <= k <= H /\ length s = length px
       /\ forall row j, 0 <= row < k -> 0 <= j < rb ->
            s !! Z.to_nat (dest_row td H row * rb + j)
            = pix !! Z.to_nat (row * stride + j))
    (fun row px0 =>
       Next <$> memcpy px0
                  (size_t ((if td then row else u32 (H - 1 - row))
                           * W * bytes_per_pixel))
                  pix (size_t (row * stride))
                  (size_t (W * bytes_per_pixel)))
    0 H 1 px) as (r & k' & Er & Hk' & Hk & Hl & Hr); [lia | | |].
  - intros k s Hlt (Hk & Hl & Hinv).
    rewrite dest_row_model by lia.
    pose proof (dest_row_range td H k ltac:(lia)) as Hy.
    replace (dest_row td H k * W * bytes_per_pixel)
      with (dest_row td H k * rb) by (subst rb; lia).
    fold rb.
    assert (B1 : 0 <= dest_row td H k * rb /\ dest_row td H k * rb + rb <= rb * H)
      by nia.
    assert (B2 : 0 <= k * stride /\ k * stride + stride <= stride * H) by nia.
    assert (B3 : rb * H <= stride * H) by nia.
    rewrite (size_t_small (dest_row td H k * rb)) by lia.
    rewrite (size_t_small (k * stride)) by lia.
    rewrite (size_t_small rb) by lia.
    destruct (memcpy_total s (dest_row td H k * rb) pix (k * stride) rb)
      as (s' & -> & Hl' & Hnew & Hold); try lia.
    exists s'. split; [reflexivity|]. split; [lia|]. split; [lia|].
    intros row j Hrow Hj.
    destruct (Z.eq_dec row k) as [->|Ne].
    + apply Hnew. exact Hj.
    + pose proof (dest_row_range td H row ltac:(lia)) as Hy'.
      rewrite Hold; [apply Hinv; lia | nia |].
      apply rows_disjoint; [lia | lia |].
      intros E. apply dest_row_inj in E. lia.
  - split; [lia|]. split; [reflexivity|]. intros row j Hrow. lia.
  - exists r. split; [exact Er|]. split; [exact Hl|].
    intros row j Hrow Hj. apply Hr; lia.
Qed.

(** ** Uncompressed true-colour rows *)

Lemma row_stride_bytes (W b : Z) :
  0 <= W -> 0 <= b -> b * W + 3 < 2 ^ 32 ->
  row_stride_aligned W (8 * b) = 4 * ((b * W + 3) / 4)
  /\ b * W <= row_stride_aligned W (8 * b) < 2 ^ 32.
Proof.
  intros HW Hb Hno.
  assert (E : (W * (8 * b) + 7) / 8 = b * W).
  { assert (0 <= b * W) by nia.
    replace (W * (8 * b) + 7) with (b * W * 8 + 7) by lia.
    rewrite Z.div_add_l by lia. change (7 / 8) with 0. lia. }
  assert (0 <= b * W) by nia.
  assert (E2 : W * (8 * b) = 8 * (b * W)) by lia.
  rewrite row_stride_aligned_no_wrap by (rewrite ?E; lia).
  rewrite E. split; [reflexivity|].
  pose proof (Z.div_mod (b * W + 3) 4 ltac:(lia)) as D.
  pose proof (Z.mod_pos_bound (b * W + 3) 4 ltac:(lia)) as D2.
  split; [|lia].
  lia.
Qed.

Lemma abs_width_Ok (m : Metadata) :
  - 2 ^ 31 < width m < 2 ^ 31 -> abs_width m = Ok (Z.abs (width m)).
Proof.
  intros Hw. unfold abs_width.
  destruct (width m <? 0) eqn:E; zb.
  - destruct (width m =? - 2 ^ 31) eqn:E2; zb; [lia|].
    rewrite u32_small by lia. f_equal. lia.
  - rewrite u32_small by lia. f_equal. lia.
Qed.

Lemma length_zeroed (n : Z) : Z.of_nat (length (zeroed n)) = Z.max 0 n.
Proof. unfold zeroed. rewrite length_replicate. lia. Qed.

Lemma decode_bgr24_total (pix : list byte) (pix_size : Z) (img : Image) :
  let m := meta img in
  let W := Z.abs (width m) in
  let H := Z.abs (height m) in
  let stride := 4 * ((3 * W + 3) / 4) in
  - 2 ^ 31 < width m < 2 ^ 31 -> - 2 ^ 31 <= height m < 2 ^ 31 ->
  3 * W + 3 < 2 ^ 32 ->
  0 <= pix_size <= Z.of_nat (length pix) ->
  (pix_size < stride * H ->
     decode_bgr24 pix pix_size img = ParseError "Pixel data truncated")
  /\ (stride * H <= pix_size ->
        exists px,
          decode_bgr24 pix pix_size img = Ok (set_decoded img BGR8 px)
          /\ Z.of_nat (length px) = W * H * 3
          /\ forall row x c,
               0 <= row < H -> 0 <= x < W -> 0 <= c < 3 ->
               px !! Z.to_nat ((dest_row (top_down m) H row * W + x) * 3 + c)
               = pix !! Z.to_nat (row * stride + 3 * x + c)).
Proof.
  intros m W H stride Hw Hh Hno Hsz.
  pose proof (abs_height_range m Hh) as [HH EH]. fold H in EH.
  assert (HW : 0 <= W < 2 ^ 31) by (subst W; lia).
  destruct (row_stride_bytes W 3 ltac:(lia) ltac:(lia) Hno) as [Es Hs].
  change (8 * 3) with 24 in Es, Hs. fold stride in Es.
  granted_eq decode_bgr24_eq. fold m. rewrite abs_width_Ok by exact Hw. fold W.
  rewrite bind_unfold. simpl bind. rewrite EH, Es.
  rewrite Es in Hs.
  assert (B : 0 <= stride * H < 2 ^ 64) by nia.
  rewrite (size_t_small (stride * H)) by exact B.
  split; intros Hc.
  - destruct (stride * H >? pix_size) eqn:E; zb; [reflexivity | lia].
  - destruct (stride * H >? pix_size) eqn:E; zb; [lia|].
    assert (B2 : 0 <= W * H * 3 < 2 ^ 64) by nia.
    rewrite (size_t_small (W * H * 3)) by exact B2.
    destruct (copy_rows_total pix W H stride 3 (top_down m)
                (zeroed (W * H * 3)))
      as (px & -> & Hl & Hp); try lia.
    { rewrite length_zeroed. lia. }
    exists px. split; [reflexivity|]. split.
    { rewrite Hl, length_zeroed. lia. }
    intros row x c Hrow Hx Hcc.
    replace ((dest_row (top_down m) H row * W + x) * 3 + c)
      with (dest_row (top_down m) H row * (W * 3) + (3 * x + c)) by lia.
    rewrite Hp by lia. f_equal. lia.
Qed.

(** X6: a 24-bit image whose rows do not overflow the 32-bit stride is
    decoded without a fault: short pixel data are a parse error,
    otherwise every byte of every pixel is the byte of the file at its
    row and column, the rows in file order for a negative height and in
    reverse order for a positive one, the padding dropped. *)
Theorem decode_bgr24_spec (pix : list byte) (pix_size : Z) (img : Image) :
  let m := meta img in
  let W := Z.abs (width m) in
  let H := Z.abs (height m) in
  let stride := 4 * ((3 * W + 3) / 4) in
  - 2 ^ 31 < width m < 2 ^ 31 -> - 2 ^ 31 <= height m < 2 ^ 31 ->
  3 * W + 3 < 2 ^ 32 ->
  0 <= pix_size <= Z.of_nat (length pix) ->
  (pix_size < stride * H ->
     decode_bgr24 pix pix_size img = ParseError "Pixel data truncated")
  /\ (stride * H <= pix_size ->
        exists px,
          decode_bgr24 pix pix_size img = Ok (set_decoded img BGR8 px)
          /\ Z.of_nat (length px) = W * H * 3
          /\ forall row x c,
               0 <= row < H -> 0 <= x < W -> 0 <= c < 3 ->
               px !! Z.to_nat ((dest_row (top_down m) H row * W + x) * 3 + c)
               = pix !! Z.to_nat (row * stride + 3 * x + c)).
Proof. exact (decode_bgr24_total pix pix_size img). Qed.

Lemma decode_bgr24_spec_witness :
  decode_bgr24 (bytes_of [1; 2; 3; 0; 4; 5; 6; 0]) 7
    (Image_init (set_dims Metadata_init 1 2 1 24) [])
  = ParseError "Pixel data truncated".
Proof.
  apply (proj1 (decode_bgr24_spec (bytes_of [1; 2; 3; 0; 4; 5; 6; 0]) 7
                  (Image_init (set_dims Metadata_init 1 2 1 24) [])
                  ltac:(simpl; lia) ltac:(simpl; lia) ltac:(simpl; lia)
                  ltac:(simpl; lia))).
  vm_compute. reflexivity.
Defined.

(** ** The BGRA8 branch of [decode_bitfields] *)

Lemma bit_extract_norm_total (v M : Z) :
  0 <= M < 2 ^ 32 -> bit_extract_norm v M = Ok (norm8 v M).
Proof.
  intros HM. unfold norm8. destruct (M =? 0) eqn:E; zb.
  - subst M. reflexivity.
  - apply bit_extract_norm_low8. lia.
Qed.

Lemma insert4_spec (px : list byte) (off : Z) (b0 b1 b2 b3 : byte) :
  0 <= off -> off + 4 <= Z.of_nat (length px) ->
  let px' := <[Z.to_nat (off + 3) := b3]>
               (<[Z.to_nat (off + 2) := b2]>
                  (<[Z.to_nat (off + 1) := b1]>
                     (<[Z.to_nat off := b0]> px))) in
  length px' = length px
  /\ (forall c, 0 <= c < 4 ->
        px' !! Z.to_nat (off + c) = [b0; b1; b2; b3] !! Z.to_nat c)
  /\ (forall p, 0 <= p -> p < off \/ off + 4 <= p ->
        px' !! Z.to_nat p = px !! Z.to_nat p).
Proof.
  intros Ho Hl px'. subst px'. split; [|split].
  - rewrite !length_insert. reflexivity.
  - intros c Hc.
    assert (C : c = 0 \/ c = 1 \/ c = 2 \/ c = 3) by lia.
    destruct C as [-> | [-> | [-> | ->]]]; simpl;
      rewrite ?Z.add_0_r;
      repeat first
        [ rewrite list_lookup_insert_eq by (rewrite ?length_insert; lia)
        | rewrite list_lookup_insert_ne by lia ];
      reflexivity.
  - intros p Hp Hout.
    rewrite !list_lookup_insert_ne by lia. reflexivity.
Qed.

Lemma bitfield_pixel_total (pix : list byte) (k : Bitmasks)
    (b W src y x v : Z) (px : list byte) :
  masks32 k ->
  (if b =? 2 then le16 pix (src + u32 (x * 2))
   else le32 pix (src + u32 (x * 4))) = Ok v ->
  0 <= (y * W + x) * 4 < 2 ^ 64 ->
  (y * W + x) * 4 + 4 <= Z.of_nat (length px) ->
  exists px',
    bitfield_pixel pix k b W src y x px = Ok px'
    /\ length px' = length px
    /\ (forall c, 0 <= c < 4 ->
          px' !! Z.to_nat ((y * W + x) * 4 + c)
          = bitfield_bytes k v !! Z.to_nat c)
    /\ (forall p, 0 <= p ->
          p < (y * W + x) * 4 \/ (y * W + x) * 4 + 4 <= p ->
          px' !! Z.to_nat p = px !! Z.to_nat p).
Proof.
  intros (Hr & Hg & Hb & Ha) Hv Hoff Hlen. unfold bitfield_pixel.
  rewrite Hv. rewrite bind_unfold. simpl bind.
  rewrite (bit_extract_norm_total v (mask_b k)) by assumption.
  rewrite bind_unfold. simpl bind.
  rewrite (bit_extract_norm_total v (mask_g k)) by assumption.
  rewrite bind_unfold. simpl bind.
  rewrite (bit_extract_norm_total v (mask_r k)) by assumption.
  rewrite bind_unfold. simpl bind.
  assert (EA : (if negb (mask_a k =? 0) then bit_extract_norm v (mask_a k)
                else Ok 255)
               = Ok (if mask_a k =? 0 then 255 else norm8 v (mask_a k))).
  { destruct (mask_a k =? 0); simpl;
      [reflexivity | apply bit_extract_norm_total; assumption]. }
  rewrite EA. rewrite bind_unfold. simpl bind.
  rewrite size_t_small by exact Hoff.
  set (off := (y * W + x) * 4) in *.
  rewrite wr_in_range by lia. rewrite bind_unfold. simpl bind.
  rewrite wr_in_range by (rewrite ?length_insert; lia).
  rewrite bind_unfold. simpl bind.
  rewrite wr_in_range by (rewrite ?length_insert; lia).
  rewrite bind_unfold. simpl bind.
  rewrite wr_in_range by (rewrite ?length_insert; lia).
  eexists. split; [reflexivity|].
  apply insert4_spec; lia.
Qed.

Lemma pixel_slot_apart (W x y x' y' c : Z) :
  0 <= x < W -> 0 <= x' < W -> 0 <= c < 4 ->
  (x', y') <> (x, y) ->
  let p := (y' * W + x') * 4 + c in
  p < (y * W + x) * 4 \/ (y * W + x) * 4 + 4 <= p.
Proof.
  intros Hx Hx' Hc Hne p. subst p.
  destruct (Z.eq_dec (y' * W + x') (y * W + x)) as [E|N]; [|lia].
  exfalso. apply Hne.
  destruct (pixel_index_inj W x' y' x y Hx' Hx E) as [-> ->]. reflexivity.
Qed.

Lemma bitfield_rows_total (pix : list byte) (k : Bitmasks)
    (b W H stride : Z) (td : bool) (px : list byte) (val : Z -> Z -> Z) :
  masks32 k ->
  0 <= W -> 0 <= H <= 2 ^ 32 -> W * H * 4 < 2 ^ 64 ->
  Z.of_nat (length px) = W * H * 4 ->
  (forall row x, 0 <= row < H -> 0 <= x < W ->
     (if b =? 2 then le16 pix (size_t (row * stride) + u32 (x * 2))
      else le32 pix (size_t (row * stride) + u32 (x * 4)))
     = Ok (val row x)) ->
  exists px',
    bitfield_rows pix k b W H stride td px = Ok px'
    /\ length px' = length px
    /\ forall row x c,
         0 <= row < H -> 0 <= x < W -> 0 <= c < 4 ->
         px' !! Z.to_nat ((dest_row td H row * W + x) * 4 + c)
         = bitfield_bytes k (val row x) !! Z.to_nat c.
Proof.
  intros Hk HW HH H64 Hlen Hval. unfold bitfield_rows.
  set (done := fun (rows : Z) (s : list byte) =>
         forall row x c, 0 <= row < rows -> 0 <= x < W -> 0 <= c < 4 ->
           s !! Z.to_nat ((dest_row td H row * W + x) * 4 + c)
           = bitfield_bytes k (val row x) !! Z.to_nat c).
  destruct (for_range_total
    (fun r s => 0 <= r <= H /\ length s = length px /\ done r s)
    (fun row px0 =>
       Next <$> for_range 0 W 1 (fun x px1 =>
                  Next <$> bitfield_pixel pix k b W (size_t (row * stride))
                             (if td then row else u32 (H - 1 - row)) x px1)
                px0)
    0 H 1 px) as (r & k' & Er & Hk' & Hr & Hl & Hd); [lia | | |].
  - intros r s Hlt (Hr & Hl & Hd).
    rewrite dest_row_model by lia.
    pose proof (dest_row_range td H r ltac:(lia)) as Hy.
    set (y := dest_row td H r) in *.
    destruct (for_range_total
      (fun x t => 0 <= x <= W /\ length t = length px /\ done r t
         /\ forall x' c, 0 <= x' < x -> 0 <= c < 4 ->
              t !! Z.to_nat ((y * W + x') * 4 + c)
              = bitfield_bytes k (val r x') !! Z.to_nat c)
      (fun x px1 =>
         Next <$> bitfield_pixel pix k b W (size_t (r * stride)) y x px1)
      0 W 1 s) as (t & x' & Et & Hx' & Hx & Hlt' & Hdt & Hrow); [lia | | |].
    + intros x t Hxlt (Hx & Hlt' & Hdt & Hrow).
      assert (B : 0 <= (y * W + x) * 4 /\ (y * W + x) * 4 + 4 <= W * H * 4)
        by nia.
      destruct (bitfield_pixel_total pix k b W (size_t (r * stride)) y x
                  (val r x) t Hk)
        as (t' & -> & Hl' & Hnew & Hold); [apply Hval; lia | lia | lia |].
      exists t'. split; [reflexivity|].
      split; [lia|]. split; [lia|]. split.
      * intros row x0 c Hrow0 Hx0 Hc.
        pose proof (dest_row_range td H row ltac:(lia)) as Hy0.
        rewrite Hold; [apply Hdt; assumption | nia |].
        apply pixel_slot_apart; [lia | lia | lia |].
        intros E. injection E as _ E. apply dest_row_inj in E. lia.
      * intros x0 c Hx0 Hc.
        destruct (Z.eq_dec x0 x) as [->|Ne].
        -- apply Hnew. exact Hc.
        -- rewrite Hold; [apply Hrow; lia | nia |].
           apply pixel_slot_apart; [lia | lia | lia |].
           intros E. injection E as E. lia.
    + split; [lia|]. split; [exact Hl|]. split; [exact Hd|].
      intros x0 c Hx0. lia.
    + rewrite Et. exists t. split; [reflexivity|].
      split; [lia|]. split; [exact Hlt'|].
      intros row x c Hrow0 Hx0 Hc.
      destruct (Z.eq_dec row r) as [->|Ne].
      * apply Hrow; lia.
      * apply Hdt; lia.
  - split; [lia|]. split; [reflexivity|]. intros row x c Hrow. lia.
  - exists r. split; [exact Er|]. split; [exact Hl|].
    intros row x c Hrow Hx Hc. apply Hd; lia.
Qed.

Lemma z2b_b2z (b : byte) : z2b (b2z b) = b.
Proof.
  unfold z2b. pose proof (b2z_range b) as Hb.
  rewrite Z.mod_small by lia. unfold b2z. rewrite N2Z.id.
  rewrite Byte.of_to_N. reflexivity.
Qed.

Lemma land_byte_mask (v s : Z) :
  0 <= s ->
  Z.land (Z.shiftr (Z.shiftr (Z.land v (Z.shiftl 255 s)) s) 0) 255
  = (v / 2 ^ s) mod 256.
Proof.
  intros Hs. rewrite Z.shiftr_0_r, Z.shiftr_land.
  rewrite Z.shiftr_shiftl_l by lia. rewrite Z.sub_diag, Z.shiftl_0_r.
  rewrite <- Z.land_assoc, Z.land_diag.
  change 255 with (Z.ones 8). rewrite Z.land_ones by lia.
  rewrite Z.shiftr_div_pow2 by lia. reflexivity.
Qed.

Lemma norm8_byte (v j : Z) :
  0 <= j < 4 -> norm8 v (Z.shiftl 255 (8 * j)) = (v / 2 ^ (8 * j)) mod 256.
Proof.
  intros Hj. rewrite <- land_byte_mask by lia.
  assert (C : j = 0 \/ j = 1 \/ j = 2 \/ j = 3) by lia.
  destruct C as [-> | [-> | [-> | ->]]]; reflexivity.
Qed.

Lemma word_bytes (b0 b1 b2 b3 : byte) :
  let v := b2z b0 + 2 ^ 8 * b2z b1 + 2 ^ 16 * b2z b2 + 2 ^ 24 * b2z b3 in
  z2b (norm8 v 0xFF) = b0 /\ z2b (norm8 v 0xFF00) = b1
  /\ z2b (norm8 v 0xFF0000) = b2 /\ z2b (norm8 v 0xFF000000) = b3.
Proof.
  intros v.
  pose proof (b2z_range b0) as H0. pose proof (b2z_range b1) as H1.
  pose proof (b2z_range b2) as H2. pose proof (b2z_range b3) as H3.
  change 0xFF with (Z.shiftl 255 (8 * 0)).
  change 0xFF00 with (Z.shiftl 255 (8 * 1)).
  change 0xFF0000 with (Z.shiftl 255 (8 * 2)).
  change 0xFF000000 with (Z.shiftl 255 (8 * 3)).
  rewrite !norm8_byte by lia.
  change (2 ^ (8 * 0)) with 1. change (2 ^ (8 * 1)) with 256.
  change (2 ^ (8 * 2)) with 65536. change (2 ^ (8 * 3)) with 16777216.
  assert (E0 : (v / 1) mod 256 = b2z b0)
    by (subst v; change (2 ^ 8) with 256; change (2 ^ 16) with 65536;
        change (2 ^ 24) with 16777216; Z.div_mod_to_equations; lia).
  assert (E1 : (v / 256) mod 256 = b2z b1)
    by (subst v; change (2 ^ 8) with 256; change (2 ^ 16) with 65536;
        change (2 ^ 24) with 16777216; Z.div_mod_to_equations; lia).
  assert (E2 : (v / 65536) mod 256 = b2z b2)
    by (subst v; change (2 ^ 8) with 256; change (2 ^ 16) with 65536;
        change (2 ^ 24) with 16777216; Z.div_mod_to_equations; lia).
  assert (E3 : (v / 16777216) mod 256 = b2z b3)
    by (subst v; change (2 ^ 8) with 256; change (2 ^ 16) with 65536;
        change (2 ^ 24) with 16777216; Z.div_mod_to_equations; lia).
  rewrite E0, E1, E2, E3, !z2b_b2z. repeat split.
Qed.

Lemma word32_at_bytes (pix : list byte) (off : Z) :
  0 <= off -> off + 4 <= Z.of_nat (length pix) ->
  exists b0 b1 b2 b3,
    pix !! Z.to_nat off = Some b0 /\ pix !! Z.to_nat (off + 1) = Some b1
    /\ pix !! Z.to_nat (off + 2) = Some b2
    /\ pix !! Z.to_nat (off + 3) = Some b3
    /\ le32 pix off = Ok (word32_at pix off)
    /\ word32_at pix off
       = b2z b0 + 2 ^ 8 * b2z b1 + 2 ^ 16 * b2z b2 + 2 ^ 24 * b2z b3.
Proof.
  intros Ho Hl.
  destruct (lookup_lt_is_Some_2 pix (Z.to_nat off)) as [b0 E0]; [lia|].
  destruct (lookup_lt_is_Some_2 pix (Z.to_nat (off + 1))) as [b1 E1]; [lia|].
  destruct (lookup_lt_is_Some_2 pix (Z.to_nat (off + 2))) as [b2 E2]; [lia|].
  destruct (lookup_lt_is_Some_2 pix (Z.to_nat (off + 3))) as [b3 E3]; [lia|].
  exists b0, b1, b2, b3.
  pose proof (le32_value pix off b0 b1 b2 b3 Ho E0 E1 E2 E3) as E.
  unfold word32_at. rewrite E. repeat split; assumption.
Qed.

Lemma looks8_masks (k : Bitmasks) :
  looks8 k = true ->
  (mask_r k = 0x00FF0000 /\ mask_g k = 0x0000FF00 /\ mask_b k = 0x000000FF)
  \/ (mask_r k = 0x000000FF /\ mask_g k = 0x0000FF00
      /\ mask_b k = 0x00FF0000).
Proof.
  unfold looks8. intros E. apply andb_prop in E as [_ E].
  apply orb_prop in E as [E|E]; [left|right];
    apply andb_prop in E as [E E3]; apply andb_prop in E as [E1 E2];
    zb; repeat split; assumption.
Qed.

Lemma decode_bitfields_raw_total (pix : list byte) (pix_size : Z)
    (img : Image) (b : Z) :
  let m := meta img in
  let W := Z.abs (width m) in
  let H := Z.abs (height m) in
  let stride := 4 * ((b * W + 3) / 4) in
  let k := effective_masks m in
  b = 2 \/ b = 4 ->
  - 2 ^ 31 < width m < 2 ^ 31 -> - 2 ^ 31 <= height m < 2 ^ 31 ->
  b * W + 3 < 2 ^ 32 ->
  0 <= pix_size <= Z.of_nat (length pix) ->
  (pix_size < stride * H ->
     decode_bitfields pix pix_size img b
     = ParseError "Pixel data truncated")
  /\ (stride * H <= pix_size -> looks8 k = false ->
        exists px,
          decode_bitfields pix pix_size img b = Ok (set_raw img px k (8 * b))
          /\ Z.of_nat (length px) = W * H * b
          /\ forall row x c,
               0 <= row < H -> 0 <= x < W -> 0 <= c < b ->
               px !! Z.to_nat ((dest_row (top_down m) H row * W + x) * b + c)
               = pix !! Z.to_nat (row * stride + b * x + c)).
Proof.
  intros m W H stride k Hb Hw Hh Hno Hsz.
  pose proof (abs_height_range m Hh) as [HH EH]. fold H in EH.
  assert (HW : 0 <= W < 2 ^ 31) by (subst W; lia).
  destruct (row_stride_bytes W b ltac:(lia) ltac:(lia) Hno) as [Es Hs].
  fold stride in Es. rewrite Es in Hs.
  assert (Eb : u16 (u32 (b * 8)) = 8 * b /\ u8 (u32 (b * 8)) = 8 * b)
    by (destruct Hb as [-> | ->]; split; reflexivity).
  destruct Eb as [Eb Eb8].
  granted_eq decode_bitfields_eq. fold m.
  rewrite abs_width_Ok by exact Hw. fold W.
  rewrite bind_unfold. simpl bind. rewrite EH, Eb, Es, Eb8.
  assert (B : 0 <= stride * H < 2 ^ 64) by nia.
  rewrite (size_t_small (stride * H)) by exact B.
  split.
  - intros Hc. destruct (stride * H >? pix_size) eqn:E; zb;
      [reflexivity | lia].
  - intros Hc Hl8. destruct (stride * H >? pix_size) eqn:E; zb; [lia|].
    fold (effective_masks m). fold k. rewrite Hl8.
    assert (B2 : 0 <= W * H * b < 2 ^ 64) by nia.
    rewrite (size_t_small (W * H * b)) by exact B2.
    destruct (copy_rows_total pix W H stride b (top_down m)
                (zeroed (W * H * b)))
      as (px & -> & Hl & Hp); try lia.
    { rewrite length_zeroed. lia. }
    exists px. split; [reflexivity|]. split.
    { rewrite Hl, length_zeroed. lia. }
    intros row x c Hrow Hx Hcc.
    replace ((dest_row (top_down m) H row * W + x) * b + c)
      with (dest_row (top_down m) H row * (W * b) + (b * x + c)) by lia.
    rewrite Hp by nia. f_equal. lia.
Qed.

(** X7: masks that are not the two 8-bit layouts leave a 16- or 32-bit
    image undecoded: the rows are copied as they are, in top-down order
    and without padding, and the image records the masks and the pixel
    width. Short pixel data are a parse error whatever the masks. *)
Theorem decode_bitfields_raw_spec (pix : list byte) (pix_size : Z)
    (img : Image) (b : Z) :
  let m := meta img in
  let W := Z.abs (width m) in
  let H := Z.abs (height m) in
  let stride := 4 * ((b * W + 3) / 4) in
  let k := effective_masks m in
  b = 2 \/ b = 4 ->
  - 2 ^ 31 < width m < 2 ^ 31 -> - 2 ^ 31 <= height m < 2 ^ 31 ->
  b * W + 3 < 2 ^ 32 ->
  0 <= pix_size <= Z.of_nat (length pix) ->
  (pix_size < stride * H ->
     decode_bitfields pix pix_size img b
     = ParseError "Pixel data truncated")
  /\ (stride * H <= pix_size -> looks8 k = false ->
        exists px,
          decode_bitfields pix pix_size img b = Ok (set_raw img px k (8 * b))
          /\ Z.of_nat (length px) = W * H * b
          /\ forall row x c,
               0 <= row < H -> 0 <= x < W -> 0 <= c < b ->
               px !! Z.to_nat ((dest_row (top_down m) H row * W + x) * b + c)
               = pix !! Z.to_nat (row * stride + b * x + c)).
Proof. exact (decode_bitfields_raw_total pix pix_size img b). Qed.

Lemma decode_bitfields_raw_spec_witness :
  decode_bitfields (bytes_of [1; 2; 0; 0]) 3
    (Image_init (set_dims Metadata_init 1 1 1 16) []) 2
  = ParseError "Pixel data truncated".
Proof.
  apply (proj1 (decode_bitfields_raw_spec (bytes_of [1; 2; 0; 0]) 3
                  (Image_init (set_dims Metadata_init 1 1 1 16) []) 2
                  ltac:(left; reflexivity)
                  ltac:(simpl; lia) ltac:(simpl; lia) ltac:(simpl; lia)
                  ltac:(simpl; lia))).
  vm_compute. reflexivity.
Defined.

(** X8: a 32-bit image whose row length [4 * |width| + 3] fits in 32
    bits, whose pixel data are all there and whose colour masks are one
    of the two 8-bit layouts is decoded to BGRA8 without a fault, with
    every request for the pixel vector granted: blue, green and red of
    every pixel are the bytes of the file's pixel that the masks select
    (the first three in order, or with the first and third exchanged),
    alpha is 255 for an empty alpha mask and the pixel's fourth byte for
    the mask 0xFF000000; the rows come out top-down. *)
Theorem decode_bitfields32_bgra8 (pix : list byte) (pix_size : Z)
    (img : Image) :
  let m := meta img in
  let W := Z.abs (width m) in
  let H := Z.abs (height m) in
  let k := effective_masks m in
  - 2 ^ 31 < width m < 2 ^ 31 -> - 2 ^ 31 <= height m < 2 ^ 31 ->
  4 * W + 3 < 2 ^ 32 ->
  0 <= pix_size <= Z.of_nat (length pix) -> 4 * W * H <= pix_size ->
  looks8 k = true -> 0 <= mask_a k < 2 ^ 32 ->
  exists px,
    decode_bitfields pix pix_size img 4 = Ok (set_decoded img BGRA8 px)
    /\ Z.of_nat (length px) = W * H * 4
    /\ forall row x,
         0 <= row < H -> 0 <= x < W ->
         let s := (row * W + x) * 4 in
         let d := (dest_row (top_down m) H row * W + x) * 4 in
         let sw := if mask_b k =? 0xFF then 0 else 2 in
         px !! Z.to_nat d = pix !! Z.to_nat (s + sw)
         /\ px !! Z.to_nat (d + 1) = pix !! Z.to_nat (s + 1)
         /\ px !! Z.to_nat (d + 2) = pix !! Z.to_nat (s + 2 - sw)
         /\ (mask_a k = 0 -> px !! Z.to_nat (d + 3) = Some (z2b 255))
         /\ (mask_a k = 0xFF000000 ->
               px !! Z.to_nat (d + 3) = pix !! Z.to_nat (s + 3)).
Proof.
  intros m W H k Hw Hh Hno Hsz Hc Hl8 Ha.
  pose proof (abs_height_range m Hh) as [HH EH]. fold H in EH.
  assert (HW : 0 <= W < 2 ^ 31) by (subst W; lia).
  destruct (row_stride_bytes W 4 ltac:(lia) ltac:(lia) Hno) as [Es _].
  assert (E4 : 4 * ((4 * W + 3) / 4) = 4 * W)
    by (Z.div_mod_to_equations; lia).
  rewrite E4 in Es.
  assert (Hk : masks32 k).
  { destruct (looks8_masks k Hl8) as [(R & G & B)|(R & G & B)];
      unfold masks32; rewrite R, G, B; repeat split; lia. }
  granted_eq decode_bitfields_eq. fold m.
  rewrite abs_width_Ok by exact Hw. fold W.
  rewrite bind_unfold. simpl bind. rewrite EH.
  change (u16 (u32 (4 * 8))) with (8 * 4). rewrite Es.
  assert (B : 0 <= 4 * W * H < 2 ^ 64) by nia.
  rewrite (size_t_small (4 * W * H)) by exact B.
  destruct (4 * W * H >? pix_size) eqn:E; zb; [lia|].
  fold (effective_masks m). fold k. rewrite Hl8.
  assert (B2 : 0 <= W * H * 4 < 2 ^ 64) by nia.
  rewrite (size_t_small (W * H * 4)) by exact B2.
  assert (Hoff : forall row x, 0 <= row < H -> 0 <= x < W ->
            size_t (row * (4 * W)) + u32 (x * 4) = (row * W + x) * 4
            /\ 0 <= (row * W + x) * 4
            /\ (row * W + x) * 4 + 4 <= Z.of_nat (length pix)).
  { intros row x Hrow Hx.
    rewrite size_t_small by nia. rewrite u32_small by lia.
    split; [lia|]. nia. }
  destruct (bitfield_rows_total pix k 4 W H (4 * W) (top_down m)
              (zeroed (W * H * 4))
              (fun row x => word32_at pix ((row * W + x) * 4)) Hk)
    as (px & -> & Hl & Hp); try lia.
  { rewrite length_zeroed. lia. }
  { intros row x Hrow Hx. change (4 =? 2) with false. cbv iota.
    destruct (Hoff row x Hrow Hx) as (-> & Ho1 & Ho2).
    destruct (word32_at_bytes pix ((row * W + x) * 4) Ho1 Ho2)
      as (b0 & b1 & b2 & b3 & _ & _ & _ & _ & Ev & _). exact Ev. }
  exists px. split; [reflexivity|]. split.
  { rewrite Hl, length_zeroed. lia. }
  intros row x Hrow Hx. cbv zeta.
  set (s := (row * W + x) * 4).
  set (d := (dest_row (top_down m) H row * W + x) * 4).
  destruct (Hoff row x Hrow Hx) as (_ & Ho1 & Ho2). fold s in Ho1, Ho2.
  destruct (word32_at_bytes pix s Ho1 Ho2)
    as (b0 & b1 & b2 & b3 & E0 & E1 & E2 & E3 & _ & Ev).
  destruct (word_bytes b0 b1 b2 b3) as (N0 & N1 & N2 & N3).
  cbv zeta in N0, N1, N2, N3. rewrite <- Ev in N0, N1, N2, N3.
  pose proof (Hp row x 0 Hrow Hx ltac:(lia)) as P0.
  pose proof (Hp row x 1 Hrow Hx ltac:(lia)) as P1.
  pose proof (Hp row x 2 Hrow Hx ltac:(lia)) as P2.
  pose proof (Hp row x 3 Hrow Hx ltac:(lia)) as P3.
  fold s d in P0, P1, P2, P3. rewrite Z.add_0_r in P0.
  unfold bitfield_bytes in P0, P1, P2, P3.
  simpl lookup in P0, P1, P2, P3.
  rewrite P0, P1, P2, P3.
  destruct (looks8_masks k Hl8) as [(R & G & Bm)|(R & G & Bm)];
    rewrite ?R, ?G, ?Bm; simpl Z.eqb; cbv iota;
    rewrite ?Z.add_0_r, ?Z.sub_0_r;
    replace (s + 2 - 2) with s by lia;
    rewrite ?E0, ?E1, ?E2, ?E3, ?N0, ?N1, ?N2;
    (split; [reflexivity|]); (split; [reflexivity|]);
    (split; [reflexivity|]); split; intros Ea; rewrite Ea; simpl Z.eqb;
    cbv iota; rewrite ?N3; reflexivity.
Qed.

Lemma decode_bitfields32_bgra8_witness :
  exists px,
    decode_bitfields (bytes_of [10; 20; 30; 40]) 4
      (Image_init (set_dims Metadata_init 1 1 1 32) []) 4
    = Ok (set_decoded (Image_init (set_dims Metadata_init 1 1 1 32) [])
            BGRA8 px)
    /\ Z.of_nat (length px) = 4.
Proof.
  destruct (decode_bitfields32_bgra8 (bytes_of [10; 20; 30; 40]) 4
              (Image_init (set_dims Metadata_init 1 1 1 32) [])
              ltac:(simpl; lia) ltac:(simpl; lia) ltac:(simpl; lia)
              ltac:(simpl; lia) ltac:(simpl; lia) ltac:(reflexivity)
              ltac:(simpl; lia))
    as (px & E & L & _).
  exists px. split; [exact E | exact L].
Defined.

(** ** Runs that return *)

Lemma returns_bind {A B : Type} (Q : A -> Prop) (P : B -> Prop)
    (r : result A) (k : A -> result B) :
  returns Q r -> (forall a, r = Ok a -> Q a -> returns P (k a)) ->
  returns P (r ≫= k).
Proof.
  rewrite bind_unfold. destruct r as [a|msg|e|f]; simpl; intros Hr Hk.
  - apply Hk; [reflexivity | exact Hr].
  - exact Hr.
  - exact Hr.
  - exact Hr.
Qed.

Lemma returns_fmap {A B : Type} (P : B -> Prop) (f : A -> B)
    (r : result A) :
  returns (fun a => P (f a)) r -> returns P (f <$> r).
Proof. rewrite fmap_unfold. destruct r; simpl; intros H; exact H. Qed.

Lemma returns_weaken {A : Type} (P Q : A -> Prop) (r : result A) :
  returns P r -> (forall a, P a -> Q a) -> returns Q r.
Proof. destruct r; simpl; intros H HPQ; [apply HPQ| | |]; exact H. Qed.

Lemma returns_finishes {A : Type} (P : A -> Prop) (r : result A) :
  returns P r -> finishes r -> exists a, r = Ok a /\ P a.
Proof.
  unfold finishes. destruct r as [a|msg|e|f]; simpl; intros H F.
  - exists a. split; [reflexivity | exact H].
  - contradiction.
  - contradiction.
  - subst f. contradiction.
Qed.

Lemma for_loop_returns {S : Type} (J : Z -> S -> Prop) (P : S -> Prop)
    (body : Z -> S -> result (ctl S)) (step stop : Z) :
  (forall k s, k < stop -> J k s ->
     returns (ctl_post (J (k + step)) P) (body k s)) ->
  (forall k s, stop <= k -> J k s -> P s) ->
  forall (fuel : nat) (k : Z) (s : S),
    J k s -> returns P (for_loop fuel k step stop body s).
Proof.
  intros Hb Hend. induction fuel as [|fuel IH]; intros k s Hs; simpl.
  - destruct (k <? stop) eqn:E; zb; simpl; [reflexivity|].
    apply (Hend k); [lia | exact Hs].
  - destruct (k <? stop) eqn:E; zb; simpl.
    + apply (returns_bind (ctl_post (J (k + step)) P)); [apply Hb; assumption|].
      intros [s'|s'] _ Hc; simpl in Hc; [apply IH; exact Hc | exact Hc].
    + apply (Hend k); [lia | exact Hs].
Qed.

Lemma for_range_returns {S : Type} (J : Z -> S -> Prop) (P : S -> Prop)
    (body : Z -> S -> result (ctl S)) (lo stop step : Z) (s : S) :
  (forall k s, k < stop -> J k s ->
     returns (ctl_post (J (k + step)) P) (body k s)) ->
  (forall k s, stop <= k -> J k s -> P s) ->
  J lo s -> returns P (for_range lo stop step body s).
Proof. intros Hb He Hs. unfold for_range. apply (for_loop_returns J); assumption. Qed.

Lemma while_loop_returns {S : Type} (J P : S -> Prop) (cond : S -> bool)
    (body : S -> result (ctl S)) :
  (forall s, cond s = true -> J s -> returns (ctl_post J P) (body s)) ->
  (forall s, cond s = false -> J s -> P s) ->
  forall (fuel : nat) (s : S),
    J s -> returns P (while_loop fuel cond body s).
Proof.
  intros Hb Hend. induction fuel as [|fuel IH]; intros s Hs; simpl.
  - destruct (cond s) eqn:E; simpl; [reflexivity|]. apply Hend; assumption.
  - destruct (cond s) eqn:E; simpl; [|apply Hend; assumption].
    apply (returns_bind (ctl_post J P)); [apply Hb; assumption|].
    intros [s'|s'] _ Hc; simpl in Hc; [apply IH; exact Hc | exact Hc].
Qed.

Lemma rd_returns (p : list byte) (i : Z) :
  0 <= i < Z.of_nat (length p) -> returns (fun v => 0 <= v < 256) (rd p i).
Proof.
  intros Hi. destruct (rd_in_range p i Hi) as [v E]. rewrite E. simpl.
  eapply rd_range. exact E.
Qed.

(** ** The stores of the indexed decoders *)

Lemma store_px_total (W H : Z) (pal : list PaletteEntry) (x y idx : Z)
    (px : list byte) :
  pal <> [] -> 0 <= idx ->
  0 <= x < W -> 0 <= y < H -> W * H * 4 < 2 ^ 64 ->
  Z.of_nat (length px) = W * H * 4 ->
  exists px' pe,
    store_px W pal x y idx px = Ok px'
    /\ pal !! Z.to_nat (if idx >=? Z.of_nat (length pal) then 0 else idx)
       = Some pe
    /\ length px' = length px
    /\ (forall c, 0 <= c < 4 ->
          px' !! Z.to_nat ((y * W + x) * 4 + c)
          = [pe_b pe; pe_g pe; pe_r pe; pe_a pe] !! Z.to_nat c)
    /\ (forall p, 0 <= p ->
          p < (y * W + x) * 4 \/ (y * W + x) * 4 + 4 <= p ->
          px' !! Z.to_nat p = px !! Z.to_nat p).
Proof.
  intros Hpal Hidx Hx Hy H64 Hlen. unfold store_px.
  set (j := if idx >=? Z.of_nat (length pal) then 0 else idx).
  assert (Hj : 0 <= j < Z.of_nat (length pal)).
  { assert (0 < Z.of_nat (length pal)).
    { destruct pal as [|e pal]; [contradiction|].
      rewrite length_cons, Nat2Z.inj_succ. lia. }
    subst j. destruct (idx >=? _) eqn:E; zb; lia. }
  destruct (lookup_lt_is_Some_2 pal (Z.to_nat j) ltac:(lia)) as [pe Epe].
  rewrite Epe.
  assert (B : 0 <= (y * W + x) * 4 /\ (y * W + x) * 4 + 4 <= W * H * 4)
    by nia.
  rewrite size_t_small by lia.
  set (off := (y * W + x) * 4) in *. rewrite Z.add_0_r.
  rewrite wr_in_range by lia. rewrite bind_unfold. simpl bind.
  rewrite wr_in_range by (rewrite ?length_insert; lia).
  rewrite bind_unfold. simpl bind.
  rewrite wr_in_range by (rewrite ?length_insert; lia).
  rewrite bind_unfold. simpl bind.
  rewrite wr_in_range by (rewrite ?length_insert; lia).
  eexists. exists pe. split; [reflexivity|]. split; [reflexivity|].
  apply insert4_spec; lia.
Qed.

(** ** The RLE decoders return *)

Section RLE_Returns.
Variables (pix : list byte) (pix_size W H : Z) (td : bool).
Variable pal : list PaletteEntry.
Hypothesis pal_nonempty : pal <> [].
Hypothesis W_range : 0 <= W < 2 ^ 31.
Hypothesis H_range : 0 <= H <= 2 ^ 31.
Hypothesis pix_size_le : 0 <= pix_size <= Z.of_nat (length pix).
Hypothesis pix_size_lt : pix_size < 2 ^ 63.

Lemma put_returns (x y idx : Z) (out : list byte) :
  0 <= idx -> 0 <= x -> 0 <= y ->
  Z.of_nat (length out) = W * H * 4 ->
  returns (fun o => Z.of_nat (length o) = W * H * 4)
    (put (store_px W pal) W H x y idx out).
Proof.
  intros Hidx Hx Hy Hl. unfold put.
  destruct ((x >=? W) || (y >=? H)) eqn:E; [exact Hl|]. zb.
  destruct (store_px_total W H pal x y idx out)
    as (o & pe & -> & _ & Hl' & _); try assumption; try lia; [nia|].
  simpl. lia.
Qed.

Lemma emit_returns (idx : Z) (st : rle_state (list byte)) :
  0 <= idx -> rle_inv (W * H * 4) st -> rle_y st < H ->
  returns
    (ctl_post
       (fun s => rle_inv (W * H * 4) s /\ rle_y s < H
                 /\ rle_i s = rle_i st)
       (fun s => rle_inv (W * H * 4) s /\ rle_i s = rle_i st))
    (emit (store_px W pal) W H td idx st).
Proof.
  intros Hidx (Hi & Hx & Hy & Hl) HyH. unfold emit.
  rewrite dest_row_model by lia.
  pose proof (dest_row_range td H (rle_y st) ltac:(lia)) as Hd.
  apply (returns_bind (fun o => Z.of_nat (length o) = W * H * 4));
    [apply put_returns; assumption || lia|].
  intros out _ Ho.
  assert (Hu : 0 <= u32 (rle_x st + 1))
    by (unfold u32; apply Z.mod_pos_bound; lia).
  rewrite (u32_small (rle_y st + 1)) by lia.
  destruct (u32 (rle_x st + 1) >=? W) eqn:E1; zb.
  - destruct (rle_y st + 1 >=? H) eqn:E2; zb; simpl; unfold rle_inv; simpl;
      repeat split; lia.
  - simpl. unfold rle_inv. simpl. repeat split; lia.
Qed.

Lemma rle_inv_set_i (st : rle_state (list byte)) (i : Z) :
  rle_inv (W * H * 4) st -> 0 <= i -> rle_inv (W * H * 4) (set_i st i).
Proof.
  intros (Hi & Hx & Hy & Hl) H0. unfold rle_inv, set_i. simpl.
  repeat split; assumption.
Qed.

Lemma u32_nonneg (z : Z) : 0 <= u32 z.
Proof. unfold u32. apply Z.mod_pos_bound. lia. Qed.

Lemma rle8_step_returns (st : rle_state (list byte)) :
  rle_cond pix_size H st = true -> rle_inv (W * H * 4) st ->
  returns (ctl_post (rle_inv (W * H * 4)) (rle_inv (W * H * 4)))
    (rle8_step (store_px W pal) pix pix_size W H td st).
Proof.
  intros Hc Hinv. unfold rle_cond in Hc. zb.
  pose proof Hinv as (Hi & Hx & Hy & Hl).
  unfold rle8_step. rewrite size_t_small by lia.
  destruct (rle_i st + 1 >? pix_size) eqn:E0; zb; [exact Hinv|].
  apply (returns_bind (fun v => 0 <= v < 256)); [apply rd_returns; lia|].
  intros count _ Hcount.
  destruct (negb (count =? 0)) eqn:Ez; zb.
  - destruct (rle_i st + 1 >=? pix_size) eqn:E1; zb;
      [apply rle_inv_set_i; [assumption | lia]|].
    apply (returns_bind (fun v => 0 <= v < 256)); [apply rd_returns; lia|].
    intros val _ Hval. apply returns_fmap.
    apply (for_range_returns
             (fun _ s => rle_inv (W * H * 4) s /\ rle_y s < H)).
    + intros k s Hk [Hs Hys].
      eapply returns_weaken; [apply emit_returns; assumption || lia|].
      intros [s'|s']; simpl; intros Hp; tauto.
    + intros k s _ [Hs _]. exact Hs.
    + split; [apply rle_inv_set_i; [assumption | lia] | exact H1].
  - destruct (rle_i st + 1 >=? pix_size) eqn:E1; zb;
      [apply rle_inv_set_i; [assumption | lia]|].
    apply (returns_bind (fun v => 0 <= v < 256)); [apply rd_returns; lia|].
    intros cmd _ Hcmd.
    destruct (cmd =? 0) eqn:C0; zb.
    { simpl. unfold rle_inv. simpl.
      pose proof (u32_nonneg (rle_y st + 1)). repeat split; lia. }
    destruct (cmd =? 1) eqn:C1; zb;
      [apply rle_inv_set_i; [assumption | lia]|].
    destruct (cmd =? 2) eqn:C2; zb.
    { unfold rle8_delta. rewrite size_t_small by lia.
      destruct (rle_i st + 1 + 1 + 1 >=? pix_size) eqn:E2; zb;
        [apply rle_inv_set_i; [assumption | lia]|].
      apply (returns_bind (fun v => 0 <= v < 256)); [apply rd_returns; lia|].
      intros dx _ Hdx.
      apply (returns_bind (fun v => 0 <= v < 256)); [apply rd_returns; lia|].
      intros dy _ Hdy. simpl. unfold rle_inv. simpl.
      pose proof (u32_nonneg (rle_x st + dx)).
      pose proof (u32_nonneg (rle_y st + dy)).
      repeat split; try lia.
      - destruct (_ >=? W); lia.
      - destruct (_ >=? H); lia. }
    rewrite size_t_small by lia.
    destruct (rle_i st + 1 + 1 + cmd >? pix_size) eqn:E2; zb;
      [apply rle_inv_set_i; [assumption | lia]|].
    apply (returns_bind (fun s => rle_inv (W * H * 4) s)).
    + apply (for_range_returns
               (fun k s => rle_inv (W * H * 4) s /\ rle_y s < H
                           /\ 0 <= k /\ rle_i s = rle_i st + 1 + 1 + k)).
      * intros k s Hk (Hs & Hys & Hk0 & His).
        apply (returns_bind (fun v => 0 <= v < 256));
          [apply rd_returns; lia|].
        intros b _ Hb.
        eapply returns_weaken;
          [apply emit_returns;
             [lia | apply rle_inv_set_i; [exact Hs | lia] | exact Hys]|].
        intros [s'|s']; simpl; intros Hp; [|tauto].
        destruct Hp as (Hs' & Hy' & Hi'). simpl in Hi'.
        split; [exact Hs'|]. split; [exact Hy'|]. split; lia.
      * intros k s _ (Hs & _). exact Hs.
      * split; [apply rle_inv_set_i; [assumption | lia]|].
        simpl. repeat split; lia.
    + intros st' _ Hs'. simpl. apply rle_inv_set_i; [exact Hs'|].
      destruct Hs' as (Hi' & _). destruct (_ && _); lia.
Qed.

Lemma nibble_nonneg (b : Z) :
  0 <= Z.land b 0xF /\ 0 <= Z.land (Z.shiftr b 4) 0xF.
Proof. split; apply Z.land_nonneg; right; lia. Qed.

Lemma rle4_step_returns (st : rle_state (list byte)) :
  rle_cond pix_size H st = true -> rle_inv (W * H * 4) st ->
  returns (ctl_post (rle_inv (W * H * 4)) (rle_inv (W * H * 4)))
    (rle4_step (store_px W pal) pix pix_size W H td st).
Proof.
  intros Hc Hinv. unfold rle_cond in Hc. zb.
  pose proof Hinv as (Hi & Hx & Hy & Hl).
  unfold rle4_step.
  apply (returns_bind (fun v => 0 <= v < 256)); [apply rd_returns; lia|].
  intros count _ Hcount.
  destruct (negb (count =? 0)) eqn:Ez; zb.
  - destruct (rle_i st + 1 >=? pix_size) eqn:E1; zb;
      [apply rle_inv_set_i; [assumption | lia]|].
    apply (returns_bind (fun v => 0 <= v < 256)); [apply rd_returns; lia|].
    intros byte _ Hbyte. apply returns_fmap.
    pose proof (nibble_nonneg byte) as [Hlo Hhi].
    apply (for_range_returns
             (fun _ s => rle_inv (W * H * 4) s /\ rle_y s < H)).
    + intros k s Hk [Hs Hys].
      eapply returns_weaken;
        [apply emit_returns;
           [destruct (negb _); assumption | exact Hs | exact Hys]|].
      intros [s'|s']; simpl; intros Hp; tauto.
    + intros k s _ [Hs _]. exact Hs.
    + split; [apply rle_inv_set_i; [assumption | lia] | exact H1].
  - destruct (rle_i st + 1 >=? pix_size) eqn:E1; zb;
      [apply rle_inv_set_i; [assumption | lia]|].
    apply (returns_bind (fun v => 0 <= v < 256)); [apply rd_returns; lia|].
    intros cmd _ Hcmd.
    destruct (cmd =? 0) eqn:C0; zb.
    { simpl. unfold rle_inv. simpl.
      pose proof (u32_nonneg (rle_y st + 1)). repeat split; lia. }
    destruct (cmd =? 1) eqn:C1; zb;
      [apply rle_inv_set_i; [assumption | lia]|].
    destruct (cmd =? 2) eqn:C2; zb.
    { unfold rle4_delta. rewrite size_t_small by lia.
      destruct (rle_i st + 1 + 1 + 1 >=? pix_size) eqn:E2; zb;
        [apply rle_inv_set_i; [assumption | lia]|].
      apply (returns_bind (fun v => 0 <= v < 256)); [apply rd_returns; lia|].
      intros dx _ Hdx.
      apply (returns_bind (fun v => 0 <= v < 256)); [apply rd_returns; lia|].
      intros dy _ Hdy. simpl. unfold rle_inv. simpl.
      pose proof (u32_nonneg (rle_x st + dx)).
      pose proof (u32_nonneg (rle_y st + dy)).
      repeat split; lia. }
    assert (Hbytes : 1 <= (cmd + 1) / 2 <= 128)
      by (Z.div_mod_to_equations; lia).
    cbv zeta. rewrite (size_t_small (rle_i st + 1 + 1 + (cmd + 1) / 2)) by lia.
    destruct (rle_i st + 1 + 1 + (cmd + 1) / 2 >? pix_size) eqn:E2; zb;
      [apply rle_inv_set_i; [assumption | lia]|].
    apply (returns_bind (fun s => rle_inv (W * H * 4) s)).
    + apply (for_range_returns
               (fun k s => rle_inv (W * H * 4) s /\ rle_y s < H /\ 0 <= k)).
      * intros k s Hk (Hs & Hys & Hk0).
        assert (Hk2 : 0 <= k / 2 < (cmd + 1) / 2)
          by (Z.div_mod_to_equations; lia).
        rewrite size_t_small by lia.
        apply (returns_bind (fun v => 0 <= v < 256));
          [apply rd_returns; lia|].
        intros b _ Hb. pose proof (nibble_nonneg b) as [Hlo Hhi].
        eapply returns_weaken;
          [apply emit_returns;
             [destruct (negb _); assumption | exact Hs | exact Hys]|].
        intros [s'|s']; simpl; intros Hp; [|tauto].
        destruct Hp as (Hs' & Hy' & Hi').
        split; [exact Hs'|]. split; [exact Hy'|]. lia.
      * intros k s _ (Hs & _). exact Hs.
      * split; [apply rle_inv_set_i; [assumption | lia]|].
        simpl. split; lia.
    + intros st' _ Hs'. simpl. apply rle_inv_set_i; [exact Hs'|].
      destruct (_ && _); lia.
Qed.

Lemma rle8_loop_total (st : rle_state (list byte)) :
  rle_inv (W * H * 4) st ->
  exists st',
    rle8_loop (store_px W pal) pix pix_size W H td st = Ok st'
    /\ rle_inv (W * H * 4) st'.
Proof.
  intros Hinv. apply returns_finishes.
  - unfold rle8_loop.
    apply (while_loop_returns (rle_inv (W * H * 4)) (rle_inv (W * H * 4)));
      [ intros s Hc Hs; apply rle8_step_returns; assumption
      | intros s _ Hs; exact Hs
      | exact Hinv ].
  - apply rle8_loop_finishes;
      [intros; apply store_px_finishes | apply Hinv].
Qed.

Lemma rle4_loop_total (st : rle_state (list byte)) :
  rle_inv (W * H * 4) st ->
  exists st',
    rle4_loop (store_px W pal) pix pix_size W H td st = Ok st'
    /\ rle_inv (W * H * 4) st'.
Proof.
  intros Hinv. apply returns_finishes.
  - unfold rle4_loop.
    apply (while_loop_returns (rle_inv (W * H * 4)) (rle_inv (W * H * 4)));
      [ intros s Hc Hs; apply rle4_step_returns; assumption
      | intros s _ Hs; exact Hs
      | exact Hinv ].
  - apply rle4_loop_finishes;
      [intros; apply store_px_finishes | lia | apply Hinv].
Qed.
End RLE_Returns.

Lemma rle_decoders_total (pix : list byte) (pix_size : Z) (img : Image) :
  let m := meta img in
  let W := Z.abs (width m) in
  let H := Z.abs (height m) in
  - 2 ^ 31 < width m < 2 ^ 31 -> - 2 ^ 31 <= height m < 2 ^ 31 ->
  0 <= pix_size <= Z.of_nat (length pix) -> pix_size < 2 ^ 63 ->
  (palette img = [] ->
     decode_rle8 pix pix_size img = ParseError "Missing palette for RLE8"
     /\ decode_rle4 pix pix_size img = ParseError "Missing palette for RLE4")
  /\ (palette img <> [] ->
        (exists px,
           decode_rle8 pix pix_size img = Ok (set_decoded img BGRA8 px)
           /\ Z.of_nat (length px) = W * H * 4)
        /\ (exists px,
              decode_rle4 pix pix_size img = Ok (set_decoded img BGRA8 px)
              /\ Z.of_nat (length px) = W * H * 4)).
Proof.
  intros m W H Hw Hh Hsz H63.
  pose proof (abs_height_range m Hh) as [HH EH]. fold H in EH.
  assert (HW : 0 <= W < 2 ^ 31) by (subst W; lia).
  rewrite decode_rle8_eq, decode_rle4_eq; cbv beta iota zeta. fold m.
  split.
  - intros ->. split; reflexivity.
  - intros Hpal.
    assert (Ee : is_empty (palette img) = false)
      by (destruct (palette img); [contradiction | reflexivity]).
    rewrite Ee, abs_width_Ok by exact Hw. fold W.
    rewrite !bind_unfold. simpl bind. rewrite EH.
    assert (B : 0 <= W * H * 4 < 2 ^ 64) by nia.
    rewrite (size_t_small (W * H * 4)) by exact B.
    assert (I0 : rle_inv (W * H * 4) (mkRle 0 0 0 (zeroed (W * H * 4)))).
    { unfold rle_inv. simpl. rewrite length_zeroed. repeat split; lia. }
    split.
    + destruct (rle8_loop_total pix pix_size W H (top_down m) (palette img)
                  Hpal HW ltac:(lia) Hsz H63 _ I0) as (st & -> & Hst).
      exists (rle_out st). split; [reflexivity | apply Hst].
    + destruct (rle4_loop_total pix pix_size W H (top_down m) (palette img)
                  Hpal HW ltac:(lia) Hsz H63 _ I0) as (st & -> & Hst).
      exists (rle_out st). split; [reflexivity | apply Hst].
Qed.

(** ** The allocator *)

Lemma vector_alloc_spec (avail n : Z) :
  (max_size < n -> vector_alloc avail n = Thrown length_error)
  /\ (n <= max_size -> avail < n -> vector_alloc avail n = Thrown bad_alloc)
  /\ (n <= max_size -> n <= avail -> vector_alloc avail n = Ok (zeroed n)).
Proof.
  unfold vector_alloc.
  destruct (n >? max_size) eqn:E1; destruct (n >? avail) eqn:E2; zb;
    repeat split; intros; try reflexivity; lia.
Qed.

Lemma vector_alloc_Ok (avail n : Z) (v : list byte) :
  vector_alloc avail n = Ok v -> n <= max_size /\ n <= avail.
Proof.
  unfold vector_alloc.
  destruct (n >? max_size) eqn:E1; [discriminate|].
  destruct (n >? avail) eqn:E2; [discriminate|]. zb. lia.
Qed.

Lemma vector_alloc_serves_or_throws (avail : Z) :
  serves_or_throws (vector_alloc avail).
Proof.
  intros n. unfold vector_alloc.
  destruct (n >? max_size); [right; eexists; reflexivity|].
  destruct (n >? avail); [right; eexists; reflexivity|].
  left. reflexivity.
Qed.

Lemma granted_serves : serves_or_throws granted.
Proof. intros n. left. reflexivity. Qed.

(** A decoder on any allocator either ends before it asks for the pixel
    vector, as it does on [granted] and without an image, or it is the
    request followed by the run on [granted]. *)
Lemma decode_rle8_on_cases (alloc : allocator) (pix : list byte)
    (pix_size : Z) (img : Image) :
  serves_or_throws alloc ->
  (decode_rle8_on alloc pix pix_size img = decode_rle8 pix pix_size img
   /\ forall i, decode_rle8 pix pix_size img <> Ok i)
  \/ exists W,
       abs_width (meta img) = Ok W
       /\ decode_rle8_on alloc pix pix_size img
          = (_ ← alloc (size_t (W * abs_height (meta img) * 4));
             decode_rle8 pix pix_size img).
Proof.
  intros Ha. unfold decode_rle8, decode_rle8_on.
  destruct (is_empty (palette img));
    [left; split; [reflexivity | discriminate]|].
  destruct (abs_width (meta img)) as [W| | |] eqn:EW;
    try (left; split; [reflexivity | discriminate]).
  right. exists W. split; [reflexivity|].
  rewrite !bind_unfold. simpl bind.
  destruct (Ha (size_t (W * abs_height (meta img) * 4))) as [E|[e E]];
    rewrite E; reflexivity.
Qed.

Lemma decode_rle4_on_cases (alloc : allocator) (pix : list byte)
    (pix_size : Z) (img : Image) :
  serves_or_throws alloc ->
  (decode_rle4_on alloc pix pix_size img = decode_rle4 pix pix_size img
   /\ forall i, decode_rle4 pix pix_size img <> Ok i)
  \/ exists W,
       abs_width (meta img) = Ok W
       /\ decode_rle4_on alloc pix pix_size img
          = (_ ← alloc (size_t (W * abs_height (meta img) * 4));
             decode_rle4 pix pix_size img).
Proof.
  intros Ha. unfold decode_rle4, decode_rle4_on.
  destruct (is_empty (palette img));
    [left; split; [reflexivity | discriminate]|].
  destruct (abs_width (meta img)) as [W| | |] eqn:EW;
    try (left; split; [reflexivity | discriminate]).
  right. exists W. split; [reflexivity|].
  rewrite !bind_unfold. simpl bind.
  destruct (Ha (size_t (W * abs_height (meta img) * 4))) as [E|[e E]];
    rewrite E; reflexivity.
Qed.

Lemma decode_indexed_on_cases (alloc : allocator) (pix : list byte)
    (pix_size : Z) (img : Image) :
  serves_or_throws alloc ->
  (decode_indexed_uncompressed_on alloc pix pix_size img
   = decode_indexed_uncompressed pix pix_size img
   /\ forall i, decode_indexed_uncompressed pix pix_size img <> Ok i)
  \/ exists W,
       abs_width (meta img) = Ok W
       /\ decode_indexed_uncompressed_on alloc pix pix_size img
          = (_ ← alloc (size_t (W * abs_height (meta img) * 4));
             decode_indexed_uncompressed pix pix_size img).
Proof.
  intros Ha.
  unfold decode_indexed_uncompressed, decode_indexed_uncompressed_on.
  destruct (is_empty (palette img));
    [left; split; [reflexivity | discriminate]|].
  destruct (abs_width (meta img)) as [W| | |] eqn:EW;
    try (left; split; [reflexivity | discriminate]).
  rewrite !bind_unfold. simpl bind.
  destruct (_ >? pix_size);
    [left; split; [reflexivity | discriminate]|].
  right. exists W. split; [reflexivity|].
  destruct (Ha (size_t (W * abs_height (meta img) * 4))) as [E|[e E]];
    rewrite E; reflexivity.
Qed.

Lemma decode_bgr24_on_cases (alloc : allocator) (pix : list byte)
    (pix_size : Z) (img : Image) :
  serves_or_throws alloc ->
  (decode_bgr24_on alloc pix pix_size img = decode_bgr24 pix pix_size img
   /\ forall i, decode_bgr24 pix pix_size img <> Ok i)
  \/ exists W,
       abs_width (meta img) = Ok W
       /\ decode_bgr24_on alloc pix pix_size img
          = (_ ← alloc (size_t (W * abs_height (meta img) * 3));
             decode_bgr24 pix pix_size img).
Proof.
  intros Ha. unfold decode_bgr24, decode_bgr24_on.
  destruct (abs_width (meta img)) as [W| | |] eqn:EW;
    try (left; split; [reflexivity | discriminate]).
  rewrite !bind_unfold. simpl bind.
  destruct (_ >? pix_size);
    [left; split; [reflexivity | discriminate]|].
  right. exists W. split; [reflexivity|].
  destruct (Ha (size_t (W * abs_height (meta img) * 3))) as [E|[e E]];
    rewrite E; reflexivity.
Qed.

Lemma decode_bitfields_on_cases (alloc : allocator) (pix : list byte)
    (pix_size : Z) (img : Image) (b : Z) :
  serves_or_throws alloc ->
  (decode_bitfields_on alloc pix pix_size img b
   = decode_bitfields pix pix_size img b
   /\ forall i, decode_bitfields pix pix_size img b <> Ok i)
  \/ exists W,
       abs_width (meta img) = Ok W
       /\ decode_bitfields_on alloc pix pix_size img b
          = (_ ← alloc (size_t (W * abs_height (meta img)
                                * (if looks8 (effective_masks (meta img))
                                   then 4 else b)));
             decode_bitfields pix pix_size img b).
Proof.
  intros Ha. unfold decode_bitfields, decode_bitfields_on.
  destruct (abs_width (meta img)) as [W| | |] eqn:EW;
    try (left; split; [reflexivity | discriminate]).
  rewrite !bind_unfold. simpl bind.
  destruct (_ >? pix_size);
    [left; split; [reflexivity | discriminate]|].
  right. exists W. split; [reflexivity|].
  fold (effective_masks (meta img)).
  destruct (looks8 (effective_masks (meta img))).
  - destruct (Ha (size_t (W * abs_height (meta img) * 4))) as [E|[e E]];
      rewrite E; reflexivity.
  - destruct (Ha (size_t (W * abs_height (meta img) * b))) as [E|[e E]];
      rewrite E; reflexivity.
Qed.

Lemma expose_embedded_stream_on_cases (alloc : allocator)
    (pix : list byte) (pix_size : Z) (img : Image) :
  serves_or_throws alloc ->
  (expose_embedded_stream_on alloc pix pix_size img
   = expose_embedded_stream pix pix_size img
   /\ forall i, expose_embedded_stream pix pix_size img <> Ok i)
  \/ expose_embedded_stream_on alloc pix pix_size img
     = (_ ← alloc pix_size; expose_embedded_stream pix pix_size img).
Proof.
  intros Ha. unfold expose_embedded_stream, expose_embedded_stream_on.
  destruct (read_range pix pix_size) as [px| | |];
    try (left; split; [reflexivity | discriminate]).
  right. rewrite !bind_unfold. simpl bind.
  destruct (Ha pix_size) as [E|[e E]]; rewrite E; reflexivity.
Qed.

(** ** The RLE decoders and the request for the pixel vector *)

(** X9: the RLE decoders ask the vector for [4 * |width| * |height|]
    bytes straight from the header, whatever the length of the stream.
    Without a palette they throw a [ParseError] before that.  With one, a
    request above [max_size()] ends both with [std::length_error], one
    that the heap does not serve with [std::bad_alloc]; once the request
    is served they return a BGRA8 image of that many bytes on every
    stream: no content and no truncation of the stream makes them throw,
    read outside the pixel data or write outside the image. *)
Theorem rle_decoders_return (avail : Z) (pix : list byte) (pix_size : Z)
    (img : Image) :
  let m := meta img in
  let W := Z.abs (width m) in
  let H := Z.abs (height m) in
  let alloc := vector_alloc avail in
  - 2 ^ 31 < width m < 2 ^ 31 -> - 2 ^ 31 <= height m < 2 ^ 31 ->
  0 <= pix_size <= Z.of_nat (length pix) -> pix_size < 2 ^ 63 ->
  (palette img = [] ->
     decode_rle8_on alloc pix pix_size img
     = ParseError "Missing palette for RLE8"
     /\ decode_rle4_on alloc pix pix_size img
        = ParseError "Missing palette for RLE4")
  /\ (palette img <> [] -> max_size < W * H * 4 ->
        decode_rle8_on alloc pix pix_size img = Thrown length_error
        /\ decode_rle4_on alloc pix pix_size img = Thrown length_error)
  /\ (palette img <> [] -> W * H * 4 <= max_size -> avail < W * H * 4 ->
        decode_rle8_on alloc pix pix_size img = Thrown bad_alloc
        /\ decode_rle4_on alloc pix pix_size img = Thrown bad_alloc)
  /\ (palette img <> [] -> W * H * 4 <= max_size -> W * H * 4 <= avail ->
        (exists px,
           decode_rle8_on alloc pix pix_size img
           = Ok (set_decoded img BGRA8 px)
           /\ Z.of_nat (length px) = W * H * 4)
        /\ (exists px,
              decode_rle4_on alloc pix pix_size img
              = Ok (set_decoded img BGRA8 px)
              /\ Z.of_nat (length px) = W * H * 4)).
Proof.
  intros m W H alloc Hw Hh Hsz H63.
  pose proof (abs_height_range m Hh) as [HH EH]. fold H in EH.
  assert (HW : 0 <= W < 2 ^ 31) by (subst W; lia).
  assert (B : 0 <= W * H * 4 < 2 ^ 64).
  { assert (0 <= W * H <= (2 ^ 31 - 1) * 2 ^ 31) by nia. nia. }
  destruct (vector_alloc_spec avail (W * H * 4)) as (A1 & A2 & A3).
  split.
  { intros E. unfold decode_rle8_on, decode_rle4_on. rewrite E.
    split; reflexivity. }
  assert (Go : forall r, palette img <> [] ->
            vector_alloc avail (W * H * 4) = r ->
            decode_rle8_on alloc pix pix_size img
            = decode_rle8_on (fun _ => r) pix pix_size img
            /\ decode_rle4_on alloc pix pix_size img
               = decode_rle4_on (fun _ => r) pix pix_size img).
  { intros r Hpal Er. unfold decode_rle8_on, decode_rle4_on. fold m.
    assert (Ee : is_empty (palette img) = false)
      by (destruct (palette img); [contradiction | reflexivity]).
    rewrite Ee, abs_width_Ok by exact Hw. fold W.
    rewrite !bind_unfold. simpl bind. rewrite EH.
    rewrite (size_t_small (W * H * 4)) by exact B.
    unfold alloc. rewrite Er. split; reflexivity. }
  assert (Ee : palette img <> [] -> is_empty (palette img) = false)
    by (destruct (palette img); [contradiction | reflexivity]).
  split; [|split].
  - intros Hpal Hmax.
    destruct (Go _ Hpal (A1 Hmax)) as [-> ->].
    unfold decode_rle8_on, decode_rle4_on. fold m.
    rewrite (Ee Hpal), abs_width_Ok by exact Hw. split; reflexivity.
  - intros Hpal Hmax Hav.
    destruct (Go _ Hpal (A2 Hmax Hav)) as [-> ->].
    unfold decode_rle8_on, decode_rle4_on. fold m.
    rewrite (Ee Hpal), abs_width_Ok by exact Hw. split; reflexivity.
  - intros Hpal Hmax Hav.
    destruct (Go _ Hpal (A3 Hmax Hav)) as [-> ->].
    assert (E8 : decode_rle8_on (fun _ => Ok (zeroed (W * H * 4)))
                   pix pix_size img
                 = decode_rle8 pix pix_size img).
    { unfold decode_rle8, decode_rle8_on, granted. fold m.
      rewrite (Ee Hpal), abs_width_Ok by exact Hw. fold W.
      rewrite !bind_unfold. simpl bind. rewrite EH.
      rewrite (size_t_small (W * H * 4)) by exact B. reflexivity. }
    assert (E4 : decode_rle4_on (fun _ => Ok (zeroed (W * H * 4)))
                   pix pix_size img
                 = decode_rle4 pix pix_size img).
    { unfold decode_rle4, decode_rle4_on, granted. fold m.
      rewrite (Ee Hpal), abs_width_Ok by exact Hw. fold W.
      rewrite !bind_unfold. simpl bind. rewrite EH.
      rewrite (size_t_small (W * H * 4)) by exact B. reflexivity. }
    rewrite E8, E4.
    exact (proj2 (rle_decoders_total pix pix_size img Hw Hh Hsz H63) Hpal).
Qed.

Lemma rle_decoders_return_witness :
  decode_rle8_on (vector_alloc (2 ^ 40)) [] 0
    (Image_init (set_dims Metadata_init 0x7FFFFFFF 0x7FFFFFFF 1 8)
       one_entry_palette)
  = Thrown length_error
  /\ exists px,
       decode_rle8_on (vector_alloc 8) (bytes_of [2; 0]) 1
         (Image_init (set_dims Metadata_init 2 1 1 8) one_entry_palette)
       = Ok (set_decoded
               (Image_init (set_dims Metadata_init 2 1 1 8)
                  one_entry_palette)
               BGRA8 px)
       /\ Z.of_nat (length px) = 8.
Proof.
  split.
  - apply (proj1 (proj2 (rle_decoders_return (2 ^ 40) [] 0
              (Image_init (set_dims Metadata_init 0x7FFFFFFF 0x7FFFFFFF 1 8)
                 one_entry_palette)
              ltac:(simpl; lia) ltac:(simpl; lia) ltac:(simpl; lia)
              ltac:(lia)))).
    + discriminate.
    + vm_compute. reflexivity.
  - destruct (proj2 (proj2 (proj2 (rle_decoders_return 8 (bytes_of [2; 0]) 1
                (Image_init (set_dims Metadata_init 2 1 1 8)
                   one_entry_palette)
                ltac:(simpl; lia) ltac:(simpl; lia) ltac:(simpl; lia)
                ltac:(lia))))
              ltac:(discriminate) ltac:(vm_compute; discriminate)
              ltac:(simpl; lia))
      as [(px & E & L) _].
    exists px. split; [exact E | exact L].
Defined.

(** ** Uncompressed indexed rows *)

Lemma pixel_index_nonneg (bits byte x : Z) :
  0 < bits -> 0 <= pixel_index bits byte x.
Proof.
  intros Hb. unfold pixel_index. apply Z.land_nonneg. right.
  assert (0 < 2 ^ bits) by (apply Z.pow_pos_nonneg; lia). lia.
Qed.

Section IndexedRow.
Variables (pix : list byte) (pal : list PaletteEntry).
Variables (W H bits src y : Z) (s0 : list byte).
Hypothesis pal_nonempty : pal <> [].
Hypothesis W_range : 0 <= W < 2 ^ 31.
Hypothesis H_range : 0 <= H <= 2 ^ 31.
Hypothesis bits_pos : 0 < bits <= 8.
Hypothesis y_range : 0 <= y < H.
Hypothesis src_range : 0 <= src.
Hypothesis row_fits : src + (W * bits + 7) / 8 <= Z.of_nat (length pix).
Hypothesis s0_length : Z.of_nat (length s0) = W * H * 4.

Lemma row_done_le (k k' : Z) (s : list byte) :
  k' <= k -> row_done pix pal W bits src y s0 k s ->
  row_done pix pal W bits src y s0 k' s.
Proof.
  intros Hk (Hl & Hd & Ho). split; [exact Hl|]. split; [|exact Ho].
  intros x Hx HxW. apply Hd; lia.
Qed.

Lemma source_byte (x : Z) :
  0 <= x < W ->
  exists b, rd pix (src + x * bits / 8) = Ok (b2z b)
            /\ pix !! Z.to_nat (src + x * bits / 8) = Some b.
Proof.
  intros Hx.
  assert (Hq : 0 <= x * bits / 8 < (W * bits + 7) / 8).
  { assert (0 <= x * bits) by nia. assert (x * bits + bits <= W * bits) by nia.
    Z.div_mod_to_equations. lia. }
  destruct (lookup_lt_is_Some_2 pix (Z.to_nat (src + x * bits / 8))
              ltac:(lia)) as [b Eb].
  exists b. split; [apply rd_lookup; [lia | exact Eb] | exact Eb].
Qed.

Lemma put_pixel_step (k : Z) (b : byte) (idx : Z) (s : list byte) :
  row_done pix pal W bits src y s0 k s -> 0 <= k < W ->
  pix !! Z.to_nat (src + k * bits / 8) = Some b ->
  idx = pixel_index bits (b2z b) k ->
  exists s',
    store_px W pal k y idx s = Ok s'
    /\ row_done pix pal W bits src y s0 (k + 1) s'.
Proof.
  intros (Hl & Hd & Ho) Hk Hb ->.
  destruct (store_px_total W H pal k y (pixel_index bits (b2z b) k) s)
    as (s' & pe & E & Epe & Hl' & Hnew & Hold);
    try assumption; try lia; try nia.
  { apply pixel_index_nonneg. lia. }
  exists s'. split; [exact E|]. split; [lia|]. split.
  - intros x Hx HxW. destruct (Z.eq_dec x k) as [->|Ne].
    + exists b, pe. split; [exact Hb|]. split; [exact Epe | exact Hnew].
    + destruct (Hd x ltac:(lia) HxW) as (b' & pe' & Hb' & Hp' & Hc').
      exists b', pe'. split; [exact Hb'|]. split; [exact Hp'|].
      intros c Hc. rewrite Hold; [apply Hc'; exact Hc | nia |].
      apply pixel_slot_apart; [lia | lia | lia |].
      intros Eq. injection Eq as Eq. lia.
  - intros p Hp Hout. rewrite Hold; [apply Ho; assumption | exact Hp |].
    destruct Hout as [L|G]; [left | right]; nia.
Qed.

(** [if (k < W) put_px(k, y, idx);] *)
Lemma cond_put_step (k : Z) (idx : Z -> Z) (s : list byte) :
  row_done pix pal W bits src y s0 k s -> 0 <= k < 2 ^ 32 ->
  (k < W -> exists b, pix !! Z.to_nat (src + k * bits / 8) = Some b
                      /\ idx k = pixel_index bits (b2z b) k) ->
  exists s',
    (if u32 k <? W then store_px W pal (u32 k) y (idx k) s else Ok s)
    = Ok s'
    /\ row_done pix pal W bits src y s0 (k + 1) s'.
Proof.
  intros Hs Hk Hb. rewrite u32_small by lia.
  destruct (k <? W) eqn:E; zb.
  - destruct (Hb E) as (b & Eb & Ei).
    apply (put_pixel_step k b); [exact Hs | lia | exact Eb | exact Ei].
  - exists s. split; [reflexivity|].
    destruct Hs as (Hl & Hd & Ho). split; [exact Hl|]. split; [|exact Ho].
    intros x Hx HxW. apply Hd; lia.
Qed.

Lemma row_done_start : row_done pix pal W bits src y s0 0 s0.
Proof.
  split; [reflexivity|]. split; [|reflexivity]. intros x Hx. lia.
Qed.

Lemma indexed_row8 :
  bits = 8 ->
  exists s', indexed_row pix pal W bits src y s0 = Ok s'
             /\ row_done pix pal W bits src y s0 W s'.
Proof.
  intros Eb. unfold indexed_row.
  replace (bits =? 8) with true by (symmetry; apply Z.eqb_eq; exact Eb).
  destruct (for_range_total
    (fun k s => 0 <= k /\ row_done pix pal W bits src y s0 k s)
    (fun x px => idx ← rd pix (src + x); Next <$> store_px W pal x y idx px)
    0 W 1 s0) as (r & k' & Er & Hk' & _ & Hr); [lia | | |].
  - intros k s Hk (Hk0 & Hs).
    destruct (source_byte k ltac:(lia)) as (b & Erd & Eb').
    assert (Eq : k * bits / 8 = k) by (subst bits; apply Z.div_mul; lia).
    rewrite Eq in Erd. rewrite Erd. rewrite bind_unfold. simpl bind.
    destruct (put_pixel_step k b (b2z b) s Hs ltac:(lia) Eb')
      as (s' & -> & Hs').
    { unfold pixel_index. subst bits.
      rewrite Z.mod_mul by lia. change (8 - 8 - 0) with 0.
      rewrite Z.shiftr_0_r. change (2 ^ 8 - 1) with (Z.ones 8).
      rewrite Z.land_ones by lia. pose proof (b2z_range b).
      symmetry. apply Z.mod_small. lia. }
    exists s'. split; [reflexivity|]. split; [lia | exact Hs'].
  - split; [lia | apply row_done_start].
  - exists r. split; [exact Er|]. eapply row_done_le; [|exact Hr]. lia.
Qed.

Lemma indexed_row4 :
  bits = 4 ->
  exists s', indexed_row pix pal W bits src y s0 = Ok s'
             /\ row_done pix pal W bits src y s0 W s'.
Proof.
  intros Eb. unfold indexed_row.
  replace (bits =? 8) with false by (subst bits; reflexivity).
  replace (bits =? 4) with true by (subst bits; reflexivity).
  destruct (for_range_total
    (fun k s => 0 <= k /\ k mod 2 = 0
                /\ row_done pix pal W bits src y s0 k s)
    (fun x px =>
       byte ← rd pix (src + x / 2);
       let hi := Z.land (Z.shiftr byte 4) 0xF in
       let lo := Z.land byte 0xF in
       px ← store_px W pal x y hi px;
       Next <$> (if u32 (x + 1) <? W then store_px W pal (u32 (x + 1)) y lo px
                 else Ok px))
    0 W 2 s0) as (r & k' & Er & Hk' & _ & _ & Hr); [lia | | |].
  - intros k s Hk (Hk0 & Hev & Hs).
    destruct (source_byte k ltac:(lia)) as (b & Erd & Eb').
    assert (Eq : k * bits / 8 = k / 2)
      by (subst bits; Z.div_mod_to_equations; lia).
    assert (Eq1 : (k + 1) * bits / 8 = k / 2)
      by (subst bits; Z.div_mod_to_equations; lia).
    assert (M0 : (k * bits) mod 8 = 0)
      by (subst bits; Z.div_mod_to_equations; lia).
    assert (M1 : ((k + 1) * bits) mod 8 = 4)
      by (subst bits; Z.div_mod_to_equations; lia).
    rewrite <- Eq. rewrite Erd. rewrite bind_unfold. simpl bind.
    destruct (put_pixel_step k b (Z.land (Z.shiftr (b2z b) 4) 15) s Hs
                ltac:(lia) Eb') as (s1 & -> & Hs1).
    { unfold pixel_index. rewrite M0. subst bits. reflexivity. }
    rewrite bind_unfold. simpl bind.
    destruct (cond_put_step (k + 1) (fun _ => Z.land (b2z b) 15) s1 Hs1
                ltac:(lia)) as (s2 & E2 & Hs2).
    { intros _. exists b. rewrite Eq1, <- Eq. split; [exact Eb'|].
      unfold pixel_index. rewrite M1. subst bits.
      change (8 - 4 - 4) with 0. rewrite Z.shiftr_0_r. reflexivity. }
    cbv beta in E2. rewrite E2.
    exists s2. split; [reflexivity|]. split; [lia|].
    split; [Z.div_mod_to_equations; lia|].
    replace (k + 2) with (k + 1 + 1) by lia. exact Hs2.
  - split; [lia|]. split; [reflexivity | apply row_done_start].
  - exists r. split; [exact Er|]. eapply row_done_le; [|exact Hr]. lia.
Qed.

Lemma indexed_row2 :
  bits = 2 ->
  exists s', indexed_row pix pal W bits src y s0 = Ok s'
             /\ row_done pix pal W bits src y s0 W s'.
Proof.
  intros Eb. unfold indexed_row.
  replace (bits =? 8) with false by (subst bits; reflexivity).
  replace (bits =? 4) with false by (subst bits; reflexivity).
  replace (bits =? 2) with true by (subst bits; reflexivity).
  destruct (for_range_total
    (fun k s => 0 <= k /\ k mod 4 = 0
                /\ row_done pix pal W bits src y s0 k s)
    (fun x px =>
       byte ← rd pix (src + x / 4);
       let i0 := Z.land (Z.shiftr byte 6) 3 in
       let i1 := Z.land (Z.shiftr byte 4) 3 in
       let i2 := Z.land (Z.shiftr byte 2) 3 in
       let i3 := Z.land byte 3 in
       px ← store_px W pal x y i0 px;
       px ← (if u32 (x + 1) <? W then store_px W pal (u32 (x + 1)) y i1 px
             else Ok px);
       px ← (if u32 (x + 2) <? W then store_px W pal (u32 (x + 2)) y i2 px
             else Ok px);
       Next <$> (if u32 (x + 3) <? W then store_px W pal (u32 (x + 3)) y i3 px
                 else Ok px))
    0 W 4 s0) as (r & k' & Er & Hk' & _ & _ & Hr); [lia | | |].
  - intros k s Hk (Hk0 & Hev & Hs).
    destruct (source_byte k ltac:(lia)) as (b & Erd & Eb').
    assert (Eq : forall j, 0 <= j < 4 -> (k + j) * bits / 8 = k / 4)
      by (intros j Hj; subst bits; Z.div_mod_to_equations; lia).
    assert (M : forall j, 0 <= j < 4 -> ((k + j) * bits) mod 8 = 2 * j)
      by (intros j Hj; subst bits; Z.div_mod_to_equations; lia).
    pose proof (Eq 0 ltac:(lia)) as Eq0. rewrite Z.add_0_r in Eq0.
    pose proof (M 0 ltac:(lia)) as M0. rewrite Z.add_0_r in M0.
    rewrite <- Eq0. rewrite Erd. rewrite bind_unfold. simpl bind.
    destruct (put_pixel_step k b (Z.land (Z.shiftr (b2z b) 6) 3) s Hs
                ltac:(lia) Eb') as (s1 & -> & Hs1).
    { unfold pixel_index. rewrite M0. subst bits. reflexivity. }
    rewrite bind_unfold. simpl bind.
    destruct (cond_put_step (k + 1)
                (fun _ => Z.land (Z.shiftr (b2z b) 4) 3) s1 Hs1 ltac:(lia))
      as (s2 & E2 & Hs2).
    { intros _. exists b. rewrite (Eq 1), <- Eq0 by lia. split; [exact Eb'|].
      unfold pixel_index. rewrite (M 1) by lia. subst bits. reflexivity. }
    cbv beta in E2. rewrite E2. rewrite bind_unfold. simpl bind.
    replace (k + 1 + 1) with (k + 2) in Hs2 by lia.
    destruct (cond_put_step (k + 2)
                (fun _ => Z.land (Z.shiftr (b2z b) 2) 3) s2 Hs2 ltac:(lia))
      as (s3 & E3 & Hs3).
    { intros _. exists b. rewrite (Eq 2), <- Eq0 by lia. split; [exact Eb'|].
      unfold pixel_index. rewrite (M 2) by lia. subst bits. reflexivity. }
    cbv beta in E3. rewrite E3. rewrite bind_unfold. simpl bind.
    replace (k + 2 + 1) with (k + 3) in Hs3 by lia.
    destruct (cond_put_step (k + 3) (fun _ => Z.land (b2z b) 3) s3 Hs3
                ltac:(lia)) as (s4 & E4 & Hs4).
    { intros _. exists b. rewrite (Eq 3), <- Eq0 by lia. split; [exact Eb'|].
      unfold pixel_index. rewrite (M 3) by lia. subst bits.
      change (8 - 2 - 2 * 3) with 0. rewrite Z.shiftr_0_r. reflexivity. }
    cbv beta in E4. rewrite E4.
    exists s4. split; [reflexivity|]. split; [lia|].
    split; [Z.div_mod_to_equations; lia|].
    replace (k + 4) with (k + 3 + 1) by lia. exact Hs4.
  - split; [lia|]. split; [reflexivity | apply row_done_start].
  - exists r. split; [exact Er|]. eapply row_done_le; [|exact Hr]. lia.
Qed.

Lemma indexed_row1 :
  bits = 1 ->
  exists s', indexed_row pix pal W bits src y s0 = Ok s'
             /\ row_done pix pal W bits src y s0 W s'.
Proof.
  intros Eb. unfold indexed_row.
  replace (bits =? 8) with false by (subst bits; reflexivity).
  replace (bits =? 4) with false by (subst bits; reflexivity).
  replace (bits =? 2) with false by (subst bits; reflexivity).
  replace (bits =? 1) with true by (subst bits; reflexivity).
  destruct (for_range_total
    (fun k s => 0 <= k /\ k mod 8 = 0
                /\ row_done pix pal W bits src y s0 k s)
    (fun x px =>
       byte ← rd pix (src + x / 8);
       Next <$> for_range 0 8 1 (fun j px =>
         let b := 7 - j in
         let xx := u32 (x + (7 - b)) in
         Next <$> (if xx <? W
                   then store_px W pal xx y (Z.land (Z.shiftr byte b) 1) px
                   else Ok px)) px)
    0 W 8 s0) as (r & k' & Er & Hk' & _ & _ & Hr); [lia | | |].
  - intros k s Hk (Hk0 & Hev & Hs).
    destruct (source_byte k ltac:(lia)) as (b & Erd & Eb').
    assert (Eq : forall j, 0 <= j < 8 -> (k + j) * bits / 8 = k / 8)
      by (intros j Hj; subst bits; Z.div_mod_to_equations; lia).
    assert (M : forall j, 0 <= j < 8 -> ((k + j) * bits) mod 8 = j)
      by (intros j Hj; subst bits; Z.div_mod_to_equations; lia).
    pose proof (Eq 0 ltac:(lia)) as Eq0. rewrite Z.add_0_r in Eq0.
    rewrite <- Eq0. rewrite Erd. rewrite bind_unfold. simpl bind.
    destruct (for_range_total
      (fun j t => 0 <= j <= 8
                  /\ row_done pix pal W bits src y s0 (k + j) t)
      (fun j px =>
         let b0 := 7 - j in
         let xx := u32 (k + (7 - b0)) in
         Next <$> (if xx <? W
                   then store_px W pal xx y
                          (Z.land (Z.shiftr (b2z b) b0) 1) px
                   else Ok px))
      0 8 1 s) as (t & j' & Et & Hj' & Hj & Ht); [lia | | |].
    + intros j t Hj8 (Hj & Ht). cbv zeta.
      replace (k + (7 - (7 - j))) with (k + j) by lia.
      destruct (cond_put_step (k + j)
                  (fun _ => Z.land (Z.shiftr (b2z b) (7 - j)) 1) t Ht
                  ltac:(lia)) as (t' & E' & Ht').
      { intros _. exists b. rewrite (Eq j), <- Eq0 by lia.
        split; [exact Eb'|].
        unfold pixel_index. rewrite (M j) by lia. subst bits.
        replace (8 - 1 - j) with (7 - j) by lia. reflexivity. }
      cbv beta in E'. rewrite E'.
      exists t'. split; [reflexivity|]. split; [lia|].
      replace (k + (j + 1)) with (k + j + 1) by lia. exact Ht'.
    + split; [lia|]. rewrite Z.add_0_r. exact Hs.
    + cbv zeta in Et. rewrite Et.
      exists t. split; [reflexivity|]. split; [lia|].
      split; [Z.div_mod_to_equations; lia|].
      replace j' with 8 in Ht by lia. exact Ht.
  - split; [lia|]. split; [reflexivity | apply row_done_start].
  - exists r. split; [exact Er|]. eapply row_done_le; [|exact Hr]. lia.
Qed.

Lemma indexed_row_total :
  bits = 1 \/ bits = 2 \/ bits = 4 \/ bits = 8 ->
  exists s', indexed_row pix pal W bits src y s0 = Ok s'
             /\ row_done pix pal W bits src y s0 W s'.
Proof.
  intros [E | [E | [E | E]]];
    [apply indexed_row1 | apply indexed_row2 | apply indexed_row4
    | apply indexed_row8]; exact E.
Qed.
End IndexedRow.

Lemma decode_indexed_total (pix : list byte) (pix_size : Z) (img : Image) :
  let m := meta img in
  let W := Z.abs (width m) in
  let H := Z.abs (height m) in
  let bits := bpp m in
  let stride := 4 * (((W * bits + 7) / 8 + 3) / 4) in
  bits = 1 \/ bits = 2 \/ bits = 4 \/ bits = 8 ->
  - 2 ^ 31 < width m < 2 ^ 31 -> - 2 ^ 31 <= height m < 2 ^ 31 ->
  0 <= pix_size <= Z.of_nat (length pix) ->
  (palette img = [] ->
     decode_indexed_uncompressed pix pix_size img
     = ParseError "Missing palette for indexed BMP")
  /\ (palette img <> [] -> pix_size < stride * H ->
        decode_indexed_uncompressed pix pix_size img
        = ParseError "Pixel data truncated")
  /\ (palette img <> [] -> stride * H <= pix_size ->
        exists px,
          decode_indexed_uncompressed pix pix_size img
          = Ok (set_decoded img BGRA8 px)
          /\ Z.of_nat (length px) = W * H * 4
          /\ forall row x,
               0 <= row < H -> 0 <= x < W ->
               indexed_pixel_ok pix (palette img) W bits (row * stride)
                 (dest_row (top_down m) H row) x px).
Proof.
  intros m W H bits stride Hbits Hw Hh Hsz.
  pose proof (abs_height_range m Hh) as [HH EH]. fold H in EH.
  assert (HW : 0 <= W < 2 ^ 31) by (subst W; lia).
  assert (Hb8 : 0 < bits <= 8) by lia.
  assert (Hbytes : 0 <= (W * bits + 7) / 8 < 2 ^ 31 + 1).
  { assert (0 <= W * bits <= W * 8) by nia. Z.div_mod_to_equations. lia. }
  assert (Es : row_stride_aligned W bits = stride).
  { apply row_stride_aligned_no_wrap; try lia; nia. }
  assert (Hstride : (W * bits + 7) / 8 <= stride < 2 ^ 32).
  { subst stride. Z.div_mod_to_equations. lia. }
  granted_eq decode_indexed_uncompressed_eq. fold m. fold bits.
  split; [intros ->; reflexivity|].
  assert (Pre : palette img <> [] ->
            is_empty (palette img) = false).
  { intros Hp. destruct (palette img); [contradiction | reflexivity]. }
  assert (B : 0 <= stride * H < 2 ^ 64) by nia.
  split; intros Hpal Hc; rewrite (Pre Hpal), abs_width_Ok by exact Hw;
    fold W; rewrite bind_unfold; simpl bind; rewrite EH, Es;
    rewrite (size_t_small (stride * H)) by exact B.
  - destruct (stride * H >? pix_size) eqn:E; zb; [reflexivity | lia].
  - destruct (stride * H >? pix_size) eqn:E; zb; [lia|].
    assert (B2 : 0 <= W * H * 4 < 2 ^ 64) by nia.
    rewrite (size_t_small (W * H * 4)) by exact B2.
    set (td := top_down m).
    destruct (for_range_total
      (fun k s => 0 <= k <= H /\ Z.of_nat (length s) = W * H * 4
         /\ forall row x, 0 <= row < k -> 0 <= x < W ->
              indexed_pixel_ok pix (palette img) W bits (row * stride)
                (dest_row td H row) x s)
      (fun row px =>
         Next <$> indexed_row pix (palette img) W bits
                    (size_t (row * stride))
                    (if td then row else u32 (H - 1 - row)) px)
      0 H 1 (zeroed (W * H * 4)))
      as (r & k' & Er & Hk' & Hk & Hl & Hr); [lia | | |].
    + intros k s Hlt (Hk & Hl & Hd).
      rewrite dest_row_model by lia.
      pose proof (dest_row_range td H k ltac:(lia)) as Hy.
      assert (Bk : 0 <= k * stride /\ k * stride + stride <= stride * H)
        by nia.
      rewrite (size_t_small (k * stride)) by lia.
      destruct (indexed_row_total pix (palette img) W H bits (k * stride)
                  (dest_row td H k) s Hpal HW ltac:(lia) Hb8 Hy
                  ltac:(lia) ltac:(lia) Hl Hbits)
        as (s' & -> & Hl' & Hnew & Hold).
      exists s'. split; [reflexivity|]. split; [lia|]. split; [lia|].
      intros row x Hrow Hx. destruct (Z.eq_dec row k) as [->|Ne].
      * apply Hnew; lia.
      * destruct (Hd row x ltac:(lia) Hx) as (b & pe & Hb & Hp & Hc').
        exists b, pe. split; [exact Hb|]. split; [exact Hp|].
        intros c Hcc.
        pose proof (dest_row_range td H row ltac:(lia)) as Hy'.
        rewrite Hold; [apply Hc'; exact Hcc | nia |].
        assert (Hne : dest_row td H row <> dest_row td H k)
          by (intros Eq; apply dest_row_inj in Eq; lia).
        destruct (rows_disjoint (W * 4) (dest_row td H row)
                    (dest_row td H k) (4 * x + c)
                    ltac:(lia) ltac:(lia) Hne) as [L|G]; [left|right]; lia.
    + split; [lia|]. split; [rewrite length_zeroed; lia|].
      intros row x Hrow. lia.
    + rewrite Er. exists r. split; [reflexivity|]. split; [exact Hl|].
      intros row x Hrow Hx. apply Hr; lia.
Qed.

(** X10: an uncompressed image of 1, 2, 4 or 8 bits per pixel with a
    palette is decoded without a fault: short pixel data are a parse
    error; otherwise pixel [x] of file row [r] is the palette entry whose
    index is taken from byte [x * bits / 8] of the row, the pixels of a
    byte ordered from its high bits down, an index past the end of the
    palette standing for entry 0; the entry's b, g, r, a are stored in
    output row [r] for a negative height and [|height| - 1 - r] for a
    positive one. *)
Theorem decode_indexed_spec (pix : list byte) (pix_size : Z) (img : Image) :
  let m := meta img in
  let W := Z.abs (width m) in
  let H := Z.abs (height m) in
  let bits := bpp m in
  let stride := 4 * (((W * bits + 7) / 8 + 3) / 4) in
  bits = 1 \/ bits = 2 \/ bits = 4 \/ bits = 8 ->
  - 2 ^ 31 < width m < 2 ^ 31 -> - 2 ^ 31 <= height m < 2 ^ 31 ->
  0 <= pix_size <= Z.of_nat (length pix) ->
  (palette img = [] ->
     decode_indexed_uncompressed pix pix_size img
     = ParseError "Missing palette for indexed BMP")
  /\ (palette img <> [] -> pix_size < stride * H ->
        decode_indexed_uncompressed pix pix_size img
        = ParseError "Pixel data truncated")
  /\ (palette img <> [] -> stride * H <= pix_size ->
        exists px,
          decode_indexed_uncompressed pix pix_size img
          = Ok (set_decoded img BGRA8 px)
          /\ Z.of_nat (length px) = W * H * 4
          /\ forall row x,
               0 <= row < H -> 0 <= x < W ->
               indexed_pixel_ok pix (palette img) W bits (row * stride)
                 (dest_row (top_down m) H row) x px).
Proof. exact (decode_indexed_total pix pix_size img). Qed.

Lemma decode_indexed_spec_witness :
  decode_indexed_uncompressed (bytes_of [0; 0; 0]) 3
    (Image_init (set_dims Metadata_init 1 1 1 8) one_entry_palette)
  = ParseError "Pixel data truncated".
Proof.
  apply (proj1 (proj2 (decode_indexed_spec (bytes_of [0; 0; 0]) 3
                  (Image_init (set_dims Metadata_init 1 1 1 8)
                     one_entry_palette)
                  ltac:(right; right; right; reflexivity)
                  ltac:(simpl; lia) ltac:(simpl; lia) ltac:(simpl; lia)))).
  - discriminate.
  - vm_compute. reflexivity.
Defined.

(** ** Every decoder ends with an image or a parse error *)

Lemma outcome_weaken {A : Type} (P Q : A -> Prop) (r : result A) :
  outcome P r -> (forall a, r = Ok a -> P a -> Q a) -> outcome Q r.
Proof.
  destruct r; simpl; intros H HPQ; [apply HPQ; [reflexivity|]| | |]; exact H.
Qed.

Lemma outcome_safe {A : Type} (P : A -> Prop) (r : result A) :
  outcome P r -> safe r.
Proof.
  destruct r; simpl; intros H; [exact I | exact I | exact H | exact H].
Qed.

Lemma pixel_word_read (pix : list byte) (b off : Z) :
  b = 2 \/ b = 4 -> 0 <= off -> off + b <= Z.of_nat (length pix) ->
  (if b =? 2 then le16 pix off else le32 pix off)
  = Ok (pixel_word pix b off).
Proof.
  intros Hb Ho Hl. unfold pixel_word. destruct Hb as [-> | ->]; simpl Z.eqb;
    cbv iota.
  - destruct (le16_in_range pix off Ho Hl) as [v ->]. reflexivity.
  - destruct (le32_in_range pix off Ho Hl) as [v ->]. reflexivity.
Qed.

Lemma decode_bitfields_bgra8_total (pix : list byte) (pix_size : Z)
    (img : Image) (b : Z) :
  let m := meta img in
  let W := Z.abs (width m) in
  let H := Z.abs (height m) in
  let stride := 4 * ((b * W + 3) / 4) in
  let k := effective_masks m in
  b = 2 \/ b = 4 ->
  - 2 ^ 31 < width m < 2 ^ 31 -> - 2 ^ 31 <= height m < 2 ^ 31 ->
  b * W + 3 < 2 ^ 32 ->
  0 <= pix_size <= Z.of_nat (length pix) -> stride * H <= pix_size ->
  looks8 k = true -> masks32 k ->
  exists px,
    decode_bitfields pix pix_size img b = Ok (set_decoded img BGRA8 px)
    /\ Z.of_nat (length px) = W * H * 4.
Proof.
  intros m W H stride k Hb Hw Hh Hno Hsz Hc Hl8 Hk.
  pose proof (abs_height_range m Hh) as [HH EH]. fold H in EH.
  assert (HW : 0 <= W < 2 ^ 31) by (subst W; lia).
  destruct (row_stride_bytes W b ltac:(lia) ltac:(lia) Hno) as [Es Hs].
  fold stride in Es. rewrite Es in Hs.
  assert (Eb : u16 (u32 (b * 8)) = 8 * b)
    by (destruct Hb as [-> | ->]; reflexivity).
  granted_eq decode_bitfields_eq. fold m.
  rewrite abs_width_Ok by exact Hw. fold W.
  rewrite bind_unfold. simpl bind. rewrite EH, Eb, Es.
  assert (B : 0 <= stride * H < 2 ^ 64) by nia.
  rewrite (size_t_small (stride * H)) by exact B.
  destruct (stride * H >? pix_size) eqn:E; zb; [lia|].
  fold (effective_masks m). fold k. rewrite Hl8.
  assert (B2 : 0 <= W * H * 4 < 2 ^ 64) by nia.
  rewrite (size_t_small (W * H * 4)) by exact B2.
  destruct (bitfield_rows_total pix k b W H stride (top_down m)
              (zeroed (W * H * 4))
              (fun row x =>
                 pixel_word pix b (size_t (row * stride) + u32 (x * b))) Hk)
    as (px & -> & Hl & _); try lia.
  { rewrite length_zeroed. lia. }
  { intros row x Hrow Hx.
    assert (Bo : 0 <= row * stride /\ row * stride + stride <= stride * H)
      by nia.
    assert (Bx : 0 <= x * b /\ x * b + b <= b * W) by nia.
    destruct Hb as [-> | ->]; simpl Z.eqb; cbv iota;
      rewrite size_t_small by lia; rewrite u32_small by lia.
    - apply (pixel_word_read pix 2); [left; reflexivity | lia | lia].
    - apply (pixel_word_read pix 4); [right; reflexivity | lia | lia]. }
  exists px. split; [reflexivity|]. rewrite Hl, length_zeroed. lia.
Qed.

Lemma nil_or_not {T : Type} (l : list T) : l = [] \/ l <> [].
Proof. destruct l; [left; reflexivity | right; discriminate]. Qed.

Lemma decode_indexed_outcome (pix : list byte) (pix_size : Z) (img : Image) :
  let m := meta img in
  bpp m = 1 \/ bpp m = 2 \/ bpp m = 4 \/ bpp m = 8 ->
  - 2 ^ 31 < width m < 2 ^ 31 -> - 2 ^ 31 <= height m < 2 ^ 31 ->
  0 <= pix_size <= Z.of_nat (length pix) ->
  outcome (fun i => exists px,
             i = set_decoded img BGRA8 px
             /\ Z.of_nat (length px)
                = Z.abs (width m) * Z.abs (height m) * 4)
    (decode_indexed_uncompressed pix pix_size img).
Proof.
  intros m Hb Hw Hh Hsz.
  destruct (decode_indexed_total pix pix_size img Hb Hw Hh Hsz)
    as (E0 & E1 & E2).
  destruct (nil_or_not (palette img)) as [Hp|Hp]; [rewrite (E0 Hp); exact I|].
  destruct (Z_lt_le_dec pix_size
              (4 * (((Z.abs (width m) * bpp m + 7) / 8 + 3) / 4)
               * Z.abs (height m))) as [L|G].
  - rewrite (E1 Hp L). exact I.
  - destruct (E2 Hp G) as (px & -> & Hl & _). exists px. split;
      [reflexivity | exact Hl].
Qed.

Lemma decode_rle_outcome (pix : list byte) (pix_size : Z) (img : Image) :
  let m := meta img in
  - 2 ^ 31 < width m < 2 ^ 31 -> - 2 ^ 31 <= height m < 2 ^ 31 ->
  0 <= pix_size <= Z.of_nat (length pix) -> pix_size < 2 ^ 63 ->
  let P := fun i => exists px,
             i = set_decoded img BGRA8 px
             /\ Z.of_nat (length px)
                = Z.abs (width m) * Z.abs (height m) * 4 in
  outcome P (decode_rle8 pix pix_size img)
  /\ outcome P (decode_rle4 pix pix_size img).
Proof.
  intros m Hw Hh Hsz H63 P.
  destruct (rle_decoders_total pix pix_size img Hw Hh Hsz H63) as (E0 & E1).
  destruct (nil_or_not (palette img)) as [Hp|Hp].
  - destruct (E0 Hp) as [-> ->]. split; exact I.
  - destruct (E1 Hp) as [(p8 & -> & L8) (p4 & -> & L4)].
    split; [exists p8 | exists p4]; split; reflexivity || assumption.
Qed.

Lemma decode_bgr24_outcome (pix : list byte) (pix_size : Z) (img : Image) :
  let m := meta img in
  - 2 ^ 31 < width m < 2 ^ 31 -> - 2 ^ 31 <= height m < 2 ^ 31 ->
  3 * Z.abs (width m) + 3 < 2 ^ 32 ->
  0 <= pix_size <= Z.of_nat (length pix) ->
  outcome (fun i => exists px,
             i = set_decoded img BGR8 px
             /\ Z.of_nat (length px)
                = Z.abs (width m) * Z.abs (height m) * 3)
    (decode_bgr24 pix pix_size img).
Proof.
  intros m Hw Hh Hno Hsz.
  destruct (decode_bgr24_total pix pix_size img Hw Hh Hno Hsz) as (E1 & E2).
  destruct (Z_lt_le_dec pix_size
              (4 * ((3 * Z.abs (width m) + 3) / 4) * Z.abs (height m)))
    as [L|G].
  - rewrite (E1 L). exact I.
  - destruct (E2 G) as (px & -> & Hl & _). exists px. split;
      [reflexivity | exact Hl].
Qed.

Lemma decode_bitfields_outcome (pix : list byte) (pix_size : Z)
    (img : Image) (b : Z) :
  let m := meta img in
  let k := effective_masks m in
  b = 2 \/ b = 4 ->
  - 2 ^ 31 < width m < 2 ^ 31 -> - 2 ^ 31 <= height m < 2 ^ 31 ->
  b * Z.abs (width m) + 3 < 2 ^ 32 ->
  0 <= pix_size <= Z.of_nat (length pix) -> masks32 k ->
  outcome (fun i => exists px,
             if looks8 k
             then i = set_decoded img BGRA8 px
                  /\ Z.of_nat (length px)
                     = Z.abs (width m) * Z.abs (height m) * 4
             else i = set_raw img px k (8 * b)
                  /\ Z.of_nat (length px)
                     = Z.abs (width m) * Z.abs (height m) * b)
    (decode_bitfields pix pix_size img b).
Proof.
  intros m k Hb Hw Hh Hno Hsz Hk.
  destruct (decode_bitfields_raw_total pix pix_size img b Hb Hw Hh Hno Hsz)
    as (E1 & E2).
  destruct (Z_lt_le_dec pix_size
              (4 * ((b * Z.abs (width m) + 3) / 4) * Z.abs (height m)))
    as [L|G]; [rewrite (E1 L); exact I|].
  fold m in E2. fold k in E2.
  destruct (looks8 k) eqn:E8.
  - destruct (decode_bitfields_bgra8_total pix pix_size img b Hb Hw Hh Hno
                Hsz G E8 Hk) as (px & -> & Hl).
    exists px. split; [reflexivity | exact Hl].
  - destruct (E2 G eq_refl) as (px & -> & Hl & _).
    exists px. split; [reflexivity | exact Hl].
Qed.

Lemma expose_embedded_stream_total (pix : list byte) (pix_size : Z)
    (img : Image) :
  0 <= pix_size <= Z.of_nat (length pix) ->
  exists px,
    expose_embedded_stream pix pix_size img = Ok (set_raw img px zero_masks 0)
    /\ px = take (Z.to_nat pix_size) pix
    /\ Z.of_nat (length px) = pix_size.
Proof.
  intros Hsz. granted_eq expose_embedded_stream_eq. unfold read_range.
  destruct (pix_size >? Z.of_nat (length pix)) eqn:E; zb; [lia|].
  rewrite bind_unfold. simpl bind. eexists. split; [reflexivity|].
  unfold slice. simpl. rewrite drop_0. split; [reflexivity|].
  rewrite length_take. lia.
Qed.

Lemma not_embedded (c : Compression) :
  c = BI_RGB \/ c = BI_RLE8 \/ c = BI_RLE4 \/ c = BI_BITFIELDS
  \/ c = BI_ALPHABITFIELDS ->
  is_embedded c = false.
Proof.
  intros [-> | [-> | [-> | [-> | ->]]]]; reflexivity.
Qed.

Lemma is_bitfields_cases (c : Compression) :
  is_bitfields c = true -> c = BI_BITFIELDS \/ c = BI_ALPHABITFIELDS.
Proof.
  unfold is_bitfields. intros E. apply orb_prop in E as [E|E]; zb;
    [left | right]; exact E.
Qed.

Lemma meta_kept_refl (m : Metadata) : meta_kept m m.
Proof. unfold meta_kept. repeat split. Qed.

Lemma meta_kept_set_masks (m : Metadata) (hm : bool) (k : Bitmasks) :
  meta_kept m (set_masks m hm k).
Proof. unfold meta_kept. repeat split. Qed.

Lemma decode_pixels_outcome (pix : list byte) (pix_size : Z) (img : Image) :
  let m := meta img in
  - 2 ^ 31 <= width m < 2 ^ 31 -> - 2 ^ 31 <= height m < 2 ^ 31 ->
  row_fits_32 m ->
  0 <= pix_size <= Z.of_nat (length pix) -> pix_size < 2 ^ 63 ->
  masks32 (masks m) ->
  outcome (fun i => supported_bpp (bpp m) /\ meta_kept m (meta i)
                    /\ palette i = palette img
                    /\ image_shape m pix_size i)
    (decode_pixels pix pix_size img).
Proof.
  intros m Hw Hh [Hw1 Hfit] Hsz H63 Hm.
  assert (Hw' : - 2 ^ 31 < width m < 2 ^ 31) by lia.
  assert (D16 : masks32 default_masks16) by (unfold masks32; simpl; lia).
  assert (D32 : masks32 default_masks32) by (unfold masks32; simpl; lia).
  granted_eq decode_pixels_eq. fold m.
  destruct ((bpp m =? 1) || (bpp m =? 2) || (bpp m =? 4) || (bpp m =? 8))
    eqn:Ei.
  - assert (Hb : bpp m = 1 \/ bpp m = 2 \/ bpp m = 4 \/ bpp m = 8).
    { repeat (apply orb_prop in Ei as [Ei|Ei]); zb; lia. }
    assert (Hb8 : bpp m <= 8) by lia.
    assert (Hs : supported_bpp (bpp m)) by (unfold supported_bpp; lia).
    destruct (compression m =? BI_RGB) eqn:E0; zb.
    { eapply outcome_weaken;
        [apply decode_indexed_outcome; assumption|].
      intros i _ (px & -> & Hl). split; [exact Hs|].
      split; [apply meta_kept_refl|]. split; [reflexivity|].
      unfold image_shape. rewrite not_embedded by tauto.
      replace (bpp m <=? 8) with true
        by (symmetry; apply Z.leb_le; exact Hb8).
      split; [reflexivity | exact Hl]. }
    destruct ((compression m =? BI_RLE8) && (bpp m =? 8)) eqn:E1; zb.
    { eapply outcome_weaken;
        [apply (decode_rle_outcome pix pix_size img); assumption|].
      intros i _ (px & -> & Hl). split; [exact Hs|].
      split; [apply meta_kept_refl|]. split; [reflexivity|].
      unfold image_shape. rewrite not_embedded by tauto.
      replace (bpp m <=? 8) with true
        by (symmetry; apply Z.leb_le; exact Hb8).
      split; [reflexivity | exact Hl]. }
    destruct ((compression m =? BI_RLE4) && (bpp m =? 4)) eqn:E2; zb.
    { eapply outcome_weaken;
        [apply (decode_rle_outcome pix pix_size img); assumption|].
      intros i _ (px & -> & Hl). split; [exact Hs|].
      split; [apply meta_kept_refl|]. split; [reflexivity|].
      unfold image_shape. rewrite not_embedded by tauto.
      replace (bpp m <=? 8) with true
        by (symmetry; apply Z.leb_le; exact Hb8).
      split; [reflexivity | exact Hl]. }
    destruct (is_embedded (compression m)) eqn:E3; [|exact I].
    destruct (expose_embedded_stream_total pix pix_size img Hsz)
      as (px & -> & _ & Hl).
    split; [exact Hs|]. split; [apply meta_kept_refl|].
    split; [reflexivity|]. unfold image_shape. rewrite E3.
    split; [reflexivity | exact Hl].
  - destruct (bpp m =? 16) eqn:B16; zb.
    { assert (Hs : supported_bpp (bpp m)) by (unfold supported_bpp; lia).
      assert (F : 2 * Z.abs (width m) + 3 < 2 ^ 32)
        by (rewrite B16 in Hfit; exact Hfit).
      destruct (compression m =? BI_RGB) eqn:E0; zb.
      { eapply outcome_weaken;
          [apply (decode_bitfields_outcome pix pix_size
                    (set_meta img (set_masks m true default_masks16)) 2);
             try assumption; left; reflexivity|].
        intros i _ (px & Hi). simpl in Hi. destruct Hi as [-> Hl].
        split; [exact Hs|]. split; [apply meta_kept_set_masks|].
        split; [reflexivity|]. unfold image_shape.
        rewrite not_embedded by tauto. rewrite B16. simpl.
        change (16 / 8) with 2. repeat split; lia. }
      destruct (is_bitfields (compression m)) eqn:E1.
      { apply is_bitfields_cases in E1.
        eapply outcome_weaken;
          [apply (decode_bitfields_outcome pix pix_size img 2);
             try assumption; [left; reflexivity|]|].
        { unfold effective_masks. fold m. destruct (has_masks m);
            assumption. }
        intros i _ (px & Hi). fold m in Hi.
        split; [exact Hs|].
        unfold image_shape. rewrite not_embedded by tauto. rewrite B16.
        change (16 / 8) with 2. simpl Z.leb. simpl Z.eqb. cbv iota.
        destruct (looks8 (effective_masks m)) eqn:E8;
          destruct Hi as [-> Hl]; simpl; fold m; rewrite E8;
          (split; [apply meta_kept_refl|]); (split; [reflexivity|]);
          repeat split; lia. }
      destruct (is_embedded (compression m)) eqn:E3; [|exact I].
      destruct (expose_embedded_stream_total pix pix_size img Hsz)
        as (px & -> & _ & Hl).
      split; [exact Hs|]. split; [apply meta_kept_refl|].
      split; [reflexivity|]. unfold image_shape. rewrite E3.
      split; [reflexivity | exact Hl]. }
    destruct (bpp m =? 24) eqn:B24; zb.
    { assert (Hs : supported_bpp (bpp m)) by (unfold supported_bpp; lia).
      assert (F : 3 * Z.abs (width m) + 3 < 2 ^ 32)
        by (rewrite B24 in Hfit; exact Hfit).
      destruct (compression m =? BI_RGB) eqn:E0; zb.
      { eapply outcome_weaken;
          [apply decode_bgr24_outcome; assumption|].
        intros i _ (px & -> & Hl). split; [exact Hs|].
        split; [apply meta_kept_refl|]. split; [reflexivity|].
        unfold image_shape. rewrite not_embedded by tauto. rewrite B24.
        simpl. split; [reflexivity | exact Hl]. }
      destruct (is_embedded (compression m)) eqn:E3; [|exact I].
      destruct (expose_embedded_stream_total pix pix_size img Hsz)
        as (px & -> & _ & Hl).
      split; [exact Hs|]. split; [apply meta_kept_refl|].
      split; [reflexivity|]. unfold image_shape. rewrite E3.
      split; [reflexivity | exact Hl]. }
    destruct (bpp m =? 32) eqn:B32; zb; [|exact I].
    assert (Hs : supported_bpp (bpp m)) by (unfold supported_bpp; lia).
    assert (F : 4 * Z.abs (width m) + 3 < 2 ^ 32)
      by (rewrite B32 in Hfit; exact Hfit).
    destruct (compression m =? BI_RGB) eqn:E0; zb.
    { eapply outcome_weaken;
        [apply (decode_bitfields_outcome pix pix_size
                  (set_meta img (set_masks m true default_masks32)) 4);
           try assumption; right; reflexivity|].
      intros i _ (px & Hi). simpl in Hi. destruct Hi as [-> Hl].
      split; [exact Hs|]. split; [apply meta_kept_set_masks|].
      split; [reflexivity|]. unfold image_shape.
      rewrite not_embedded by tauto. rewrite B32. simpl.
      change (32 / 8) with 4. repeat split; lia. }
    destruct (is_bitfields (compression m)) eqn:E1.
    { apply is_bitfields_cases in E1.
      eapply outcome_weaken;
        [apply (decode_bitfields_outcome pix pix_size img 4);
           try assumption; [right; reflexivity|]|].
      { unfold effective_masks. fold m. destruct (has_masks m);
          assumption. }
      intros i _ (px & Hi). fold m in Hi.
      split; [exact Hs|].
      unfold image_shape. rewrite not_embedded by tauto. rewrite B32.
      change (32 / 8) with 4. simpl Z.leb. simpl Z.eqb. cbv iota.
      destruct (looks8 (effective_masks m)) eqn:E8;
        destruct Hi as [-> Hl]; simpl; fold m; rewrite E8;
        (split; [apply meta_kept_refl|]); (split; [reflexivity|]);
        repeat split; lia. }
    destruct (is_embedded (compression m)) eqn:E3; [|exact I].
    destruct (expose_embedded_stream_total pix pix_size img Hsz)
      as (px & -> & _ & Hl).
    split; [exact Hs|]. split; [apply meta_kept_refl|].
    split; [reflexivity|]. unfold image_shape. rewrite E3.
    split; [reflexivity | exact Hl].
Qed.

(** [parse] on the allocator that serves every request. *)
Lemma parse_granted_outcome (buf : list byte) :
  let n := Z.of_nat (length buf) in
  n < 2 ^ 63 ->
  (forall m, parse_dib buf = Ok m -> row_fits_32 m) ->
  outcome
    (fun img =>
       exists m,
         parse_dib buf = Ok m
         /\ read_palette buf m = Ok (palette img)
         /\ planes m <> 0 /\ width m <> 0 /\ height m <> 0
         /\ supported_bpp (bpp m)
         /\ meta_kept m (meta img)
         /\ image_shape m (pix_region_size m n) img)
    (parse buf).
Proof.
  intros n Hn Hfit. granted_eq parse_eq. fold n.
  pose proof (parse_dib_no_fault buf) as Sd.
  destruct (parse_dib buf) as [m|msg|e|f] eqn:Ed;
    [|exact I|contradiction|contradiction].
  rewrite bind_unfold. simpl bind.
  destruct (validate m) as [m'|msg|e|f] eqn:Ev;
    [|exact I| |];
    [|unfold validate in Ev;
      repeat match type of Ev with
             | (if ?c then _ else _) = _ => destruct c; try discriminate
             end..].
  apply validate_Ok in Ev as (-> & Hp & Hb & Hw0 & Hh0).
  rewrite bind_unfold. simpl bind.
  destruct (read_palette_total buf m Ed) as (pal & Epal & _).
  rewrite Epal. rewrite bind_unfold. simpl bind.
  destruct (file_offset_pixels m >? n) eqn:Eo; [exact I|]. zb.
  destruct (parse_dib_facts buf m Ed) as [Ho _ Hi Hw Hh _ _]. fold n in Ho.
  destruct (pix_region_size_spec m n Ho ltac:(lia)) as [S1 S2].
  assert (Hps : 0 <= pix_region_size m n <= n - file_offset_pixels m).
  { destruct (Z.eq_dec (image_size m) 0) as [Z0|NZ];
      [rewrite S2 by lia; lia|].
    destruct (Z_le_gt_dec (image_size m) (n - file_offset_pixels m))
      as [L|G]; [rewrite S1 by assumption; lia | rewrite S2 by lia; lia]. }
  eapply outcome_weaken.
  - apply (decode_pixels_outcome
             (drop (Z.to_nat (file_offset_pixels m)) buf)
             (pix_region_size m n) (Image_init m pal)); simpl;
      try assumption.
    + apply Hfit. reflexivity.
    + rewrite length_drop. lia.
    + lia.
    + eapply parse_dib_masks32. exact Ed.
  - simpl. intros img _ (Hs & Hk & Hpal & Hshape).
    exists m. rewrite Hpal. repeat split; try assumption; apply Hk.
Qed.

Lemma request_size (m : Metadata) (W k : Z) :
  - 2 ^ 31 <= width m < 2 ^ 31 -> - 2 ^ 31 <= height m < 2 ^ 31 ->
  0 <= k <= 4 -> abs_width m = Ok W ->
  size_t (W * abs_height m * k) = Z.abs (width m) * Z.abs (height m) * k.
Proof.
  intros Hw Hh Hk EW.
  destruct (abs_width_range m W Hw EW) as [HW ->].
  destruct (abs_height_range m Hh) as [HH ->].
  apply size_t_small.
  assert (B : 0 <= Z.abs (width m) * Z.abs (height m)
              <= (2 ^ 31 - 1) * 2 ^ 31) by nia.
  nia.
Qed.

(** The request of each branch of the dispatch is [pixel_request]. *)
Lemma decode_pixels_on_cases (alloc : allocator) (pix : list byte)
    (pix_size : Z) (img : Image) :
  let m := meta img in
  serves_or_throws alloc ->
  - 2 ^ 31 <= width m < 2 ^ 31 -> - 2 ^ 31 <= height m < 2 ^ 31 ->
  (decode_pixels_on alloc pix pix_size img = decode_pixels pix pix_size img
   /\ forall i, decode_pixels pix pix_size img <> Ok i)
  \/ decode_pixels_on alloc pix pix_size img
     = (_ ← alloc (pixel_request m pix_size);
        decode_pixels pix pix_size img).
Proof.
  intros m Ha Hw Hh. unfold decode_pixels, decode_pixels_on. fold m.
  assert (Emb : is_embedded (compression m) = true ->
            (expose_embedded_stream_on alloc pix pix_size img
             = expose_embedded_stream_on granted pix pix_size img
             /\ forall i, expose_embedded_stream_on granted pix pix_size img
                          <> Ok i)
            \/ expose_embedded_stream_on alloc pix pix_size img
               = (_ ← alloc (pixel_request m pix_size);
                  expose_embedded_stream_on granted pix pix_size img)).
  { intros E3.
    destruct (expose_embedded_stream_on_cases alloc pix pix_size img Ha)
      as [E|E]; [left; exact E|].
    right. unfold pixel_request. fold m. rewrite E3. exact E. }
  assert (Stop : forall msg,
            (@ParseError Image msg = ParseError msg
             /\ forall i : Image, ParseError msg <> Ok i)
            \/ @ParseError Image msg
               = (_ ← alloc (pixel_request m pix_size); ParseError msg))
    by (intros msg; left; split; [reflexivity | discriminate]).
  destruct ((bpp m =? 1) || (bpp m =? 2) || (bpp m =? 4) || (bpp m =? 8))
    eqn:Ei.
  - assert (Hb : bpp m = 1 \/ bpp m = 2 \/ bpp m = 4 \/ bpp m = 8).
    { repeat (apply orb_prop in Ei as [Ei|Ei]); zb; lia. }
    assert (Hb8 : (bpp m <=? 8) = true) by (apply Z.leb_le; lia).
    assert (R4 : forall W, abs_width m = Ok W ->
              compression m = BI_RGB \/ compression m = BI_RLE8
              \/ compression m = BI_RLE4 ->
              size_t (W * abs_height m * 4) = pixel_request m pix_size).
    { intros W EW Hc. rewrite (request_size m W 4 Hw Hh) by (lia || exact EW).
      unfold pixel_request. rewrite not_embedded by tauto.
      rewrite Hb8. reflexivity. }
    destruct (compression m =? BI_RGB) eqn:E0.
    { apply Z.eqb_eq in E0.
      destruct (decode_indexed_on_cases alloc pix pix_size img Ha)
        as [E|(W & EW & E)]; [left; exact E|].
      right. rewrite E. fold m. rewrite (R4 W EW) by tauto. reflexivity. }
    destruct ((compression m =? BI_RLE8) && (bpp m =? 8)) eqn:E1.
    { apply andb_prop in E1 as [E1 _]. apply Z.eqb_eq in E1.
      destruct (decode_rle8_on_cases alloc pix pix_size img Ha)
        as [E|(W & EW & E)]; [left; exact E|].
      right. rewrite E. fold m. rewrite (R4 W EW) by tauto. reflexivity. }
    destruct ((compression m =? BI_RLE4) && (bpp m =? 4)) eqn:E2.
    { apply andb_prop in E2 as [E2 _]. apply Z.eqb_eq in E2.
      destruct (decode_rle4_on_cases alloc pix pix_size img Ha)
        as [E|(W & EW & E)]; [left; exact E|].
      right. rewrite E. fold m. rewrite (R4 W EW) by tauto. reflexivity. }
    destruct (is_embedded (compression m)) eqn:E3; [|apply Stop].
    apply Emb. reflexivity.
  - assert (Hb8 : forall b, bpp m = b -> 8 < b -> (bpp m <=? 8) = false)
      by (intros b -> Hb; apply Z.leb_gt; exact Hb).
    destruct (bpp m =? 16) eqn:B16.
    { apply Z.eqb_eq in B16.
      destruct (compression m =? BI_RGB) eqn:E0.
      { apply Z.eqb_eq in E0.
        destruct (decode_bitfields_on_cases alloc pix pix_size
                    (set_meta img (set_masks m true default_masks16)) 2 Ha)
          as [E|(W & EW & E)]; [left; exact E|].
        right. rewrite E. simpl in EW. simpl meta.
        change (abs_height (set_masks m true default_masks16))
          with (abs_height m).
        change (abs_width (set_masks m true default_masks16))
          with (abs_width m) in EW.
        change (looks8 (effective_masks (set_masks m true default_masks16)))
          with false. cbv iota.
        rewrite (request_size m W 2 Hw Hh) by (lia || exact EW).
        unfold pixel_request, decoder_masks. fold m.
        rewrite not_embedded by tauto.
        rewrite (Hb8 16 B16) by lia. rewrite B16, E0. reflexivity. }
      destruct (is_bitfields (compression m)) eqn:E1.
      { apply is_bitfields_cases in E1.
        destruct (decode_bitfields_on_cases alloc pix pix_size img 2 Ha)
          as [E|(W & EW & E)]; [left; exact E|].
        right. rewrite E. fold m. fold m in EW.
        unfold pixel_request, decoder_masks. fold m.
        rewrite not_embedded by tauto.
        rewrite (Hb8 16 B16) by lia. rewrite B16, E0. simpl Z.eqb.
        cbv iota. change (16 / 8) with 2.
        destruct (looks8 (effective_masks m));
          [rewrite (request_size m W 4 Hw Hh) by (lia || exact EW)
          |rewrite (request_size m W 2 Hw Hh) by (lia || exact EW)];
          reflexivity. }
      destruct (is_embedded (compression m)) eqn:E3; [|apply Stop].
      apply Emb. reflexivity. }
    destruct (bpp m =? 24) eqn:B24.
    { apply Z.eqb_eq in B24.
      destruct (compression m =? BI_RGB) eqn:E0.
      { apply Z.eqb_eq in E0.
        destruct (decode_bgr24_on_cases alloc pix pix_size img Ha)
          as [E|(W & EW & E)]; [left; exact E|].
        right. rewrite E. fold m. fold m in EW.
        rewrite (request_size m W 3 Hw Hh) by (lia || exact EW).
        unfold pixel_request. rewrite not_embedded by tauto.
        rewrite (Hb8 24 B24) by lia. rewrite B24. reflexivity. }
      destruct (is_embedded (compression m)) eqn:E3; [|apply Stop].
      apply Emb. reflexivity. }
    destruct (bpp m =? 32) eqn:B32; [|apply Stop].
    apply Z.eqb_eq in B32.
    destruct (compression m =? BI_RGB) eqn:E0.
    { apply Z.eqb_eq in E0.
      destruct (decode_bitfields_on_cases alloc pix pix_size
                  (set_meta img (set_masks m true default_masks32)) 4 Ha)
        as [E|(W & EW & E)]; [left; exact E|].
      right. rewrite E. simpl in EW. simpl meta.
      change (abs_height (set_masks m true default_masks32))
        with (abs_height m).
      change (abs_width (set_masks m true default_masks32))
        with (abs_width m) in EW.
      change (looks8 (effective_masks (set_masks m true default_masks32)))
        with true. cbv iota.
      rewrite (request_size m W 4 Hw Hh) by (lia || exact EW).
      unfold pixel_request, decoder_masks. fold m.
      rewrite not_embedded by tauto.
      rewrite (Hb8 32 B32) by lia. rewrite B32, E0. reflexivity. }
    destruct (is_bitfields (compression m)) eqn:E1.
    { apply is_bitfields_cases in E1.
      destruct (decode_bitfields_on_cases alloc pix pix_size img 4 Ha)
        as [E|(W & EW & E)]; [left; exact E|].
      right. rewrite E. fold m. fold m in EW.
      unfold pixel_request, decoder_masks. fold m.
      rewrite not_embedded by tauto.
      rewrite (Hb8 32 B32) by lia. rewrite B32, E0. simpl Z.eqb.
      cbv iota. change (32 / 8) with 4.
      destruct (looks8 (effective_masks m));
        rewrite (request_size m W 4 Hw Hh) by (lia || exact EW);
        reflexivity. }
    destruct (is_embedded (compression m)) eqn:E3; [|apply Stop].
    apply Emb. reflexivity.
Qed.

(** [parse_on] ends as [parse] does, before the pixel vector is asked
    for and without an image, or it is the request for [pixel_request]
    bytes followed by the run of [parse]. *)
Lemma parse_on_cases (alloc : allocator) (buf : list byte) :
  serves_or_throws alloc ->
  (parse_on alloc buf = parse buf /\ forall i, parse buf <> Ok i)
  \/ exists m,
       parse_dib buf = Ok m
       /\ parse_on alloc buf
          = (_ ← alloc (pixel_request m
                          (pix_region_size m (Z.of_nat (length buf))));
             parse buf).
Proof.
  intros Ha. unfold parse, parse_on.
  destruct (parse_dib buf) as [m| | |] eqn:Ed;
    try (left; split; [reflexivity | discriminate]).
  rewrite !bind_unfold. simpl bind.
  destruct (validate m) as [m'| | |] eqn:Ev;
    try (left; split; [reflexivity | discriminate]).
  apply validate_Ok in Ev as [-> _].
  rewrite !bind_unfold. simpl bind.
  destruct (read_palette buf m) as [pal| | |] eqn:Ep;
    try (left; split; [reflexivity | discriminate]).
  rewrite !bind_unfold. simpl bind.
  destruct (file_offset_pixels m >? Z.of_nat (length buf));
    [left; split; [reflexivity | discriminate]|].
  destruct (parse_dib_facts buf m Ed) as [_ _ _ Hw Hh _ _].
  destruct (decode_pixels_on_cases alloc
              (drop (Z.to_nat (file_offset_pixels m)) buf)
              (pix_region_size m (Z.of_nat (length buf)))
              (Image_init m pal) Ha Hw Hh) as [E|E].
  - left. exact E.
  - right. exists m. split; [reflexivity|]. exact E.
Qed.

Lemma rle_on_served (avail : Z) (pix : list byte) (pix_size : Z)
    (img : Image) :
  let m := meta img in
  let W := Z.abs (width m) in
  let H := Z.abs (height m) in
  - 2 ^ 31 <= width m < 2 ^ 31 -> - 2 ^ 31 <= height m < 2 ^ 31 ->
  W * H * 4 <= max_size -> W * H * 4 <= avail ->
  decode_rle8_on (vector_alloc avail) pix pix_size img
  = decode_rle8 pix pix_size img
  /\ decode_rle4_on (vector_alloc avail) pix pix_size img
     = decode_rle4 pix pix_size img.
Proof.
  intros m W H Hw Hh Hmax Hav.
  pose proof (vector_alloc_serves_or_throws avail) as Ha.
  destruct (vector_alloc_spec avail (W * H * 4)) as (_ & _ & A3).
  specialize (A3 Hmax Hav).
  split.
  - destruct (decode_rle8_on_cases _ pix pix_size img Ha)
      as [[E _]|(W' & EW & E)]; [exact E|].
    rewrite E. fold m. rewrite (request_size m W' 4 Hw Hh) by (lia || exact EW).
    fold W H. rewrite A3. reflexivity.
  - destruct (decode_rle4_on_cases _ pix pix_size img Ha)
      as [[E _]|(W' & EW & E)]; [exact E|].
    rewrite E. fold m. rewrite (request_size m W' 4 Hw Hh) by (lia || exact EW).
    fold W H. rewrite A3. reflexivity.
Qed.

(** ** The whole parser on the vector's allocator *)

(** X11: on a buffer whose header announces rows that fit the 32-bit
    stride, [parse] never faults: it returns an image, throws a
    [ParseError], or ends with the exception of the vector.  The
    exception is the answer of the vector to the request for the pixel
    bytes of the header's format: [std::length_error] above [max_size()],
    [std::bad_alloc] above what the heap serves; an image is returned
    only when that request is within both.  The returned image comes from
    a header with nonzero planes, width and height and with 1, 2, 4, 8,
    16, 24 or 32 bits per pixel; it carries the palette read from the
    file; a PNG or JPEG payload is exposed as [RawBitfields] bytes of the
    size of the pixel region; up to 8 bits per pixel give BGRA8 with 4
    bytes per pixel, 24 bits give BGR8 with 3, and 16 or 32 bits give
    BGRA8 when the masks are one of the two 8-bit layouts and otherwise
    the undecoded pixels with the masks and the pixel width recorded.  No
    outcome has the format RGBA8 or Gray8. *)
Theorem parse_outcome (avail : Z) (buf : list byte) :
  let n := Z.of_nat (length buf) in
  n < 2 ^ 63 ->
  (forall m, parse_dib buf = Ok m -> row_fits_32 m) ->
  match parse_on (vector_alloc avail) buf with
  | Ok img =>
      exists m,
        parse_dib buf = Ok m
        /\ read_palette buf m = Ok (palette img)
        /\ planes m <> 0 /\ width m <> 0 /\ height m <> 0
        /\ supported_bpp (bpp m)
        /\ meta_kept m (meta img)
        /\ image_shape m (pix_region_size m n) img
        /\ pixel_request m (pix_region_size m n) <= max_size
        /\ pixel_request m (pix_region_size m n) <= avail
  | ParseError _ => True
  | Thrown e =>
      exists m,
        parse_dib buf = Ok m
        /\ vector_alloc avail (pixel_request m (pix_region_size m n))
           = Thrown e
  | Undefined _ => False
  end.
Proof.
  intros n Hn Hfit.
  pose proof (parse_granted_outcome buf Hn Hfit) as G.
  destruct (parse_on_cases (vector_alloc avail) buf
              (vector_alloc_serves_or_throws avail))
    as [[E N]|(m & Ed & E)]; rewrite E.
  - destruct (parse buf) as [i|msg|e|f]; simpl in G;
      [destruct (N i); reflexivity | exact I | contradiction
      | contradiction].
  - fold n.
    destruct (vector_alloc_serves_or_throws avail
                (pixel_request m (pix_region_size m n))) as [EA|[e EA]];
      rewrite EA, bind_unfold; simpl bind.
    + apply vector_alloc_Ok in EA as [A1 A2].
      destruct (parse buf) as [i|msg|e|f]; simpl in G;
        [|exact I | contradiction | contradiction].
      destruct G as (m' & Ed' & G). rewrite Ed in Ed'.
      injection Ed' as <-. exists m. split; [exact Ed|].
      destruct G as (G1 & G2 & G3 & G4 & G5 & G6 & G7).
      exact (conj G1 (conj G2 (conj G3 (conj G4 (conj G5 (conj G6
               (conj G7 (conj A1 A2)))))))).
    + exists m. split; [exact Ed | exact EA].
Qed.

Lemma parse_outcome_witness :
  exists img, parse_on (vector_alloc 3) png_file = Ok img
              /\ format img = RawBitfields
              /\ Z.of_nat (length (pixels img)) = 3.
Proof.
  pose proof (parse_outcome 3 png_file ltac:(vm_compute; reflexivity)
                ltac:(intros m E; vm_compute in E; injection E as <-;
                      vm_compute; split; reflexivity)) as P.
  destruct (parse_on (vector_alloc 3) png_file) as [img|msg|e|f] eqn:E;
    try (vm_compute in E; discriminate).
  exists img. split; [reflexivity|].
  destruct P as (m & Ed & _ & _ & _ & _ & _ & _ & S & _).
  vm_compute in Ed. injection Ed as <-. exact S.
Defined.

(** X18: [parse] on the vector's allocator against [parse] with every
    request granted.  For every buffer and every heap, either the run
    ends before the pixel vector is asked for, with the [ParseError] or
    the fault of [parse] and without an image, or the header is accepted
    and the one request, for the pixel bytes of the header's format,
    decides: above [max_size()] the run ends with [std::length_error],
    above what the heap serves with [std::bad_alloc], and otherwise it
    is the run of [parse]. *)
Theorem parse_on_vector_alloc (avail : Z) (buf : list byte) :
  let n := Z.of_nat (length buf) in
  (parse_on (vector_alloc avail) buf = parse buf
   /\ forall img, parse buf <> Ok img)
  \/ exists m,
       parse_dib buf = Ok m
       /\ let req := pixel_request m (pix_region_size m n) in
          (max_size < req
           /\ parse_on (vector_alloc avail) buf = Thrown length_error)
          \/ (req <= max_size /\ avail < req
              /\ parse_on (vector_alloc avail) buf = Thrown bad_alloc)
          \/ (req <= max_size /\ req <= avail
              /\ parse_on (vector_alloc avail) buf = parse buf).
Proof.
  intros n.
  destruct (parse_on_cases (vector_alloc avail) buf
              (vector_alloc_serves_or_throws avail))
    as [E|(m & Ed & E)]; [left; exact E|].
  right. exists m. split; [exact Ed|]. fold n in E. cbv zeta.
  destruct (vector_alloc_spec avail (pixel_request m (pix_region_size m n)))
    as (A1 & A2 & A3).
  destruct (Z_le_gt_dec (pixel_request m (pix_region_size m n)) max_size)
    as [L|G].
  - destruct (Z_le_gt_dec (pixel_request m (pix_region_size m n)) avail)
      as [L2|G2].
    + right. right. split; [exact L|]. split; [exact L2|].
      rewrite E, A3 by assumption. reflexivity.
    + right. left. split; [exact L|]. split; [lia|].
      rewrite E, A2 by lia. reflexivity.
  - left. split; [lia|]. rewrite E, A1 by lia. reflexivity.
Qed.

(** ** [bit_extract_norm] on a run of adjacent mask bits *)

Lemma zrange_forall (P : Z -> bool) (n : nat) :
  forallb P (zrange n) = true ->
  forall z, 0 <= z < Z.of_nat n -> P z = true.
Proof.
  intros H z Hz. rewrite forallb_forall in H. apply H.
  unfold zrange. apply in_map_iff. exists (Z.to_nat z).
  split; [lia|]. apply in_seq. lia.
Qed.

Lemma run_mask_range (s w : Z) :
  0 <= s -> 1 <= w -> s + w <= 32 -> 0 < run_mask s w < 2 ^ 32.
Proof.
  intros Hs Hw Hsw. unfold run_mask.
  rewrite Z.shiftl_mul_pow2, Z.ones_equiv by lia.
  assert (P1 : 2 <= 2 ^ w).
  { change 2 with (2 ^ 1) at 1. apply Z.pow_le_mono_r; lia. }
  assert (P2 : 0 < 2 ^ s) by (apply Z.pow_pos_nonneg; lia).
  assert (P3 : 2 ^ w * 2 ^ s <= 2 ^ 32).
  { rewrite <- Z.pow_add_r by lia. apply Z.pow_le_mono_r; lia. }
  rewrite <- Z.sub_1_r. nia.
Qed.

Lemma run_mask_scan (s w : Z) :
  0 <= s -> 1 <= w -> s + w <= 32 ->
  norm_shift (run_mask s w) = s /\ norm_width (run_mask s w) = w.
Proof.
  intros Hs Hw Hsw.
  assert (C : run_mask_scans = true) by (vm_compute; reflexivity).
  unfold run_mask_scans in C.
  pose proof (zrange_forall _ 32 C s ltac:(lia)) as Cs. cbv beta in Cs.
  pose proof (zrange_forall _ 33 Cs w ltac:(lia)) as Cw. cbv beta in Cw.
  apply orb_prop in Cw as [Cw|Cw]; [apply orb_prop in Cw as [Cw|Cw]|];
    zb; lia.
Qed.

Lemma run_component (v s w : Z) :
  0 <= s -> 0 <= w ->
  Z.shiftr (Z.land v (run_mask s w)) s = (v / 2 ^ s) mod 2 ^ w.
Proof.
  intros Hs Hw. unfold run_mask. rewrite Z.shiftr_land.
  rewrite Z.shiftr_shiftl_l by lia. rewrite Z.sub_diag, Z.shiftl_0_r.
  rewrite Z.land_ones by lia. rewrite Z.shiftr_div_pow2 by lia. reflexivity.
Qed.

(** X12: on a mask of [w] adjacent bits starting at bit [s] the
    normalised component depends on the component [c] alone.  A run of 8
    bits or more gives the top 8 bits of [c]; a run of 4 bits gives
    [17 * c]; a component 0 gives 0; a component of all ones gives 255
    for every width from 4 up, but 209, 243 and 199 for the widths 1, 2
    and 3. *)
Theorem bit_extract_norm_run (v s w : Z) :
  0 <= s -> 1 <= w -> s + w <= 32 ->
  let M := run_mask s w in
  let c := (v / 2 ^ s) mod 2 ^ w in
  (8 <= w -> bit_extract_norm v M = Ok (c / 2 ^ (w - 8)))
  /\ (w = 4 -> bit_extract_norm v M = Ok (17 * c))
  /\ (c = 0 -> bit_extract_norm v M = Ok 0)
  /\ (c = 2 ^ w - 1 ->
        bit_extract_norm v M
        = Ok (if w =? 1 then 209 else if w =? 2 then 243
              else if w =? 3 then 199 else 255)).
Proof.
  intros Hs Hw Hsw M c.
  pose proof (run_mask_range s w Hs Hw Hsw) as HM. fold M in HM.
  destruct (run_mask_scan s w Hs Hw Hsw) as [Esh Ewd]. fold M in Esh, Ewd.
  assert (Hc : 0 <= c < 2 ^ w)
    by (subst c; apply Z.mod_pos_bound; apply Z.pow_pos_nonneg; lia).
  assert (E : bit_extract_norm v M
              = Ok (if 8 <=? w then Z.land (Z.shiftr c (w - 8)) 0xFF
                    else Z.land (norm_replicate c c w) 0xFF)).
  { rewrite bit_extract_norm_low8 by exact HM. unfold norm_low8.
    rewrite Esh, Ewd. unfold M. rewrite run_component by lia.
    reflexivity. }
  assert (Wide : 8 <= w ->
            Z.land (Z.shiftr c (w - 8)) 0xFF = c / 2 ^ (w - 8)).
  { intros H8. rewrite Z.shiftr_div_pow2 by lia.
    change 0xFF with (Z.ones 8). rewrite Z.land_ones by lia.
    apply Z.mod_small.
    assert (P : 0 < 2 ^ (w - 8)) by (apply Z.pow_pos_nonneg; lia).
    assert (Q : 2 ^ w = 2 ^ 8 * 2 ^ (w - 8))
      by (rewrite <- Z.pow_add_r by lia; f_equal; lia).
    split; [apply Z.div_pos; lia|].
    apply Z.div_lt_upper_bound; [exact P|]. lia. }
  assert (N : narrow_runs_replicate = true) by (vm_compute; reflexivity).
  unfold narrow_runs_replicate in N.
  rewrite E. split; [|split; [|split]].
  - intros H8. replace (8 <=? w) with true by (symmetry; apply Z.leb_le; lia).
    rewrite Wide by exact H8. reflexivity.
  - intros ->. change (8 <=? 4) with false. cbv iota.
    assert (C : nibble_replicates = true) by (vm_compute; reflexivity).
    pose proof (zrange_forall _ 16 C c ltac:(simpl in Hc |- *; lia)) as Cc.
    cbv beta in Cc. zb. rewrite Cc. reflexivity.
  - intros E0. rewrite E0. destruct (8 <=? w) eqn:E8; zb.
    + rewrite Z.shiftr_0_l. reflexivity.
    + pose proof (zrange_forall _ 8 N w ltac:(lia)) as Nw. cbv beta in Nw.
      apply orb_prop in Nw as [Nw|Nw]; zb; [lia|]. f_equal. assumption.
  - intros Ec. rewrite Ec. destruct (8 <=? w) eqn:E8; zb.
    + rewrite <- Ec, Wide by exact E8. rewrite Ec.
      replace (w =? 1) with false by (symmetry; apply Z.eqb_neq; lia).
      replace (w =? 2) with false by (symmetry; apply Z.eqb_neq; lia).
      replace (w =? 3) with false by (symmetry; apply Z.eqb_neq; lia).
      f_equal.
      assert (P : 0 < 2 ^ (w - 8)) by (apply Z.pow_pos_nonneg; lia).
      assert (Q : 2 ^ w = 2 ^ 8 * 2 ^ (w - 8))
        by (rewrite <- Z.pow_add_r by lia; f_equal; lia).
      symmetry. apply (Z.div_unique _ _ 255 (2 ^ (w - 8) - 1)); [lia|].
      rewrite Q. change (2 ^ 8) with 256. lia.
    + pose proof (zrange_forall _ 8 N w ltac:(lia)) as Nw. cbv beta in Nw.
      apply orb_prop in Nw as [Nw|Nw]; zb; [lia|]. f_equal. assumption.
Qed.

Lemma bit_extract_norm_run_witness :
  bit_extract_norm 0x80000000 0x80000000 = Ok 209.
Proof.
  apply (proj2 (proj2 (proj2
           (bit_extract_norm_run 0x80000000 31 1 ltac:(lia) ltac:(lia)
              ltac:(lia))))).
  vm_compute. reflexivity.
Defined.

(** ** The display conversion of [main] *)

Lemma faults_bind_l {A B : Type} (r : result A) (k : A -> result B) :
  faults r -> faults (r ≫= k).
Proof. intros [f ->]. exists f. reflexivity. Qed.

Lemma int_op_cases (z : Z) : int_op z = Ok z \/ faults (int_op z).
Proof.
  unfold int_op. destruct (_ || _); [right; eexists | left]; reflexivity.
Qed.

Lemma rdb_past_end (p : list byte) (i : Z) :
  Z.of_nat (length p) <= i -> faults (rdb p i).
Proof.
  intros Hi. unfold rdb. destruct (i <? 0); [eexists; reflexivity|].
  rewrite lookup_ge_None_2 by lia. eexists. reflexivity.
Qed.

Lemma copy_byte_past_end (img : Image) (s d : Z) (out : list byte) :
  Z.of_nat (length (pixels img)) <= s -> faults (copy_byte img s d out).
Proof.
  intros Hs. unfold copy_byte.
  destruct (int_op_cases s) as [-> | F]; [|apply faults_bind_l; exact F].
  rewrite bind_unfold. simpl bind. apply faults_bind_l.
  apply rdb_past_end. exact Hs.
Qed.

Lemma convert_pixel_first (img : Image) (w h : Z) (out : list byte) :
  0 < w -> 0 < h -> format img <> RawBitfields ->
  Z.of_nat (length (pixels img)) <= channels (format img) * w * h ->
  faults (convert_pixel img (w * h) 0 0 out).
Proof.
  intros Hw Hh Hf Hl. unfold convert_pixel.
  replace (w * h + 0) with (w * h) by lia.
  change (0 + 0) with 0. change (int_op 0) with (Ok 0).
  destruct (int_op_cases (w * h)) as [-> | F]; [|apply faults_bind_l; exact F].
  rewrite !bind_unfold. simpl bind. change (int_op (0 * 4)) with (Ok 0).
  simpl bind.
  destruct (format img); simpl channels in Hl; try contradiction.
  - destruct (int_op_cases (w * h * 4)) as [-> | F];
      [|apply faults_bind_l; exact F].
    rewrite bind_unfold. simpl bind. apply faults_bind_l.
    apply copy_byte_past_end. lia.
  - destruct (int_op_cases (w * h * 4)) as [-> | F];
      [|apply faults_bind_l; exact F].
    rewrite bind_unfold. simpl bind. apply faults_bind_l.
    apply copy_byte_past_end. lia.
  - destruct (int_op_cases (w * h * 3)) as [-> | F];
      [|apply faults_bind_l; exact F].
    rewrite bind_unfold. simpl bind. apply faults_bind_l.
    apply copy_byte_past_end. lia.
  - apply faults_bind_l. apply copy_byte_past_end. lia.
Qed.

(** X13: [main] converts an image of positive width and height whose
    pixel vector is no longer than its format needs by starting at pixel
    index [width * height], one row past the last: for the formats BGRA8,
    BGR8, RGBA8 and Gray8 the very first pixel it converts is read past
    the end of [img.pixels] (or its index overflows [int]), so no such
    image is converted without undefined behaviour. *)
Theorem main_conversion_reads_past_end (img : Image) :
  0 < width (meta img) -> 0 < height (meta img) ->
  format img <> RawBitfields ->
  Z.of_nat (length (pixels img))
  <= channels (format img) * width (meta img) * height (meta img) ->
  faults (convert_image img).
Proof.
  intros Hw Hh Hf Hl. unfold convert_image, for_range.
  set (w := width (meta img)) in *. set (h := height (meta img)) in *.
  rewrite !Z.sub_0_r.
  destruct (Z.to_nat h) as [|fuel] eqn:Ef; [lia|].
  simpl for_loop. replace (0 <? h) with true by (symmetry; apply Z.ltb_lt; lia).
  apply faults_bind_l. rewrite Z.sub_0_r.
  destruct (int_op_cases h) as [-> | F]; [|apply faults_bind_l; exact F].
  rewrite bind_unfold. simpl bind.
  destruct (int_op_cases (w * h)) as [-> | F]; [|apply faults_bind_l; exact F].
  rewrite bind_unfold. simpl bind.
  rewrite Z.mul_0_r. change (int_op 0) with (Ok 0).
  rewrite bind_unfold. simpl bind.
  apply faults_bind_l.
  destruct (Z.to_nat w) as [|fuel'] eqn:Ef'; [lia|].
  simpl for_loop. replace (0 <? w) with true by (symmetry; apply Z.ltb_lt; lia).
  apply faults_bind_l. simpl snd.
  apply convert_pixel_first; assumption.
Qed.

Lemma main_conversion_reads_past_end_witness :
  faults (convert_image
            (set_decoded (Image_init (set_dims Metadata_init 1 1 1 24) [])
               BGR8 (bytes_of [1; 2; 3]))).
Proof.
  apply main_conversion_reads_past_end.
  - simpl. lia.
  - simpl. lia.
  - discriminate.
  - vm_compute. discriminate.
Defined.

(** ** Masks, colour space and profile of an accepted header *)

Lemma read_masks_layout (buf : list byte) (n d : Z) (m m' : Metadata) :
  d = 40 \/ d = 52 \/ d = 56 \/ d = 108 \/ d = 124 ->
  header_size m = d -> has_masks m = false -> masks m = zero_masks ->
  read_masks buf n d m = Ok m' ->
  masks_layout buf n m'
  /\ cstype m' = cstype m /\ endpoints m' = endpoints m
  /\ gamma_red m' = gamma_red m /\ gamma_green m' = gamma_green m
  /\ gamma_blue m' = gamma_blue m
  /\ intent m' = intent m /\ embedded_profile m' = embedded_profile m.
Proof.
  intros Hd Hs Hm Hz H.
  pose proof (read_masks_Ok _ _ _ _ _ H) as [(_ & _ & _ & _ & Cc & _ & _ & _ & Chs) _].
  unfold read_masks in H.
  assert (Ebf : (compression m =? BI_BITFIELDS)
                || (compression m =? BI_ALPHABITFIELDS)
                = is_bitfields (compression m')).
  { unfold is_bitfields. rewrite Cc. reflexivity. }
  rewrite Ebf in H. unfold masks_layout, alpha_read, masks_at.
  rewrite Chs, Hs.
  destruct (is_bitfields (compression m')) eqn:Eb.
  - destruct (d >=? 52) eqn:E52; zb.
    + inv_bind_as H m1 R1. unfold read_rgb_masks, dib in R1.
      simpl Z.add in R1.
      inv_bind_as R1 r Er. inv_bind_as R1 g Eg. inv_bind_as R1 b Ebb.
      injection R1 as <-.
      destruct (d >=? 56) eqn:E56; zb.
      * unfold read_alpha_mask, dib in H. simpl Z.add in H.
        inv_bind_as H a Ea. injection H as <-. simpl.
        rewrite ?Hz. simpl.
        repeat split; try assumption; try reflexivity; try lia;
          try discriminate; try tauto.
      * injection H as <-. simpl. rewrite ?Hz. simpl.
        repeat split; try assumption; try reflexivity; try lia;
          try discriminate; try tauto.
    + assert (E40 : d = 40) by lia. rewrite E40 in H, Hs |- *.
      change (u32 (14 + 40 + 12)) with 66 in H.
      change (u32 (14 + 40 + 16)) with 70 in H.
      destruct (66 <=? n) eqn:E66; zb.
      * inv_bind_as H m1 R1. unfold read_rgb_masks, dib in R1.
        simpl Z.add in R1.
        inv_bind_as R1 r Er. inv_bind_as R1 g Eg. inv_bind_as R1 b Ebb.
        injection R1 as <-. simpl compression in H.
        destruct ((compression m =? BI_ALPHABITFIELDS) && (70 <=? n))
          eqn:Ea70.
        -- unfold read_alpha_mask, dib in H. simpl Z.add in H.
           inv_bind_as H a Ea. injection H as <-. simpl. rewrite ?Hz. simpl.
           zb. simpl in Cc.
           repeat split; try assumption; try reflexivity; try lia;
             try discriminate; try tauto.
        -- injection H as <-. simpl. rewrite ?Hz. simpl. simpl in Cc.
           repeat split; try assumption; try reflexivity; try lia;
             try discriminate; try tauto.
      * injection H as <-. rewrite Hm, Hz.
        repeat split; try reflexivity; try discriminate; try tauto.
        intros [_ HH]. exfalso. lia.
  - injection H as <-. rewrite Hm, Hz.
    repeat split; try reflexivity; try discriminate; try tauto.
Qed.

Lemma read_xyz_at (buf : list byte) (off : Z) (e : CIEXYZ) :
  read_xyz buf off = Ok e -> xyz_at buf off e.
Proof.
  unfold read_xyz. intros H.
  inv_bind_as H x Ex. inv_bind_as H y Ey. inv_bind_as H z Ez.
  injection H as <-. unfold xyz_at. simpl.
  repeat split; eexists; split; try eassumption; reflexivity.
Qed.

Lemma read_v4_layout (buf : list byte) (d : Z) (m m' : Metadata) :
  header_size m = d ->
  cstype m = LCS_sRGB ->
  endpoints m = mkTriple zero_xyz zero_xyz zero_xyz ->
  gamma_red m = 0 -> gamma_green m = 0 -> gamma_blue m = 0 ->
  d = 40 \/ d = 52 \/ d = 56 \/ d = 108 \/ d = 124 ->
  read_v4 buf d m = Ok m' ->
  colorspace_layout buf m'
  /\ header_size m' = d /\ compression m' = compression m
  /\ has_masks m' = has_masks m /\ masks m' = masks m
  /\ intent m' = intent m /\ embedded_profile m' = embedded_profile m.
Proof.
  intros Hs Hc He Hr Hg Hb Hd H. unfold read_v4 in H.
  unfold colorspace_layout.
  destruct (d >=? 108) eqn:E; zb.
  - unfold dib in H. simpl Z.add in H.
    inv_bind_as H cs Ecs. inv_bind_as H er Er. inv_bind_as H eg Eg.
    inv_bind_as H eb Eb. inv_bind_as H gr Egr. inv_bind_as H gg Egg.
    inv_bind_as H gb Egb. injection H as <-. simpl.
    apply read_xyz_at in Er, Eg, Eb.
    repeat split; try assumption; try reflexivity; try lia;
      try apply Er; try apply Eg; try apply Eb;
      exfalso; lia.
  - injection H as <-.
    repeat split; try assumption; try reflexivity; lia.
Qed.

Lemma read_v5_layout (buf : list byte) (n d : Z) (m m' : Metadata) :
  header_size m = d ->
  d = 40 \/ d = 52 \/ d = 56 \/ d = 108 \/ d = 124 ->
  intent m = LCS_GM_IMAGES -> embedded_profile m = [] ->
  read_v5 buf n d m = Ok m' ->
  v5_layout buf n m'
  /\ header_size m' = d /\ compression m' = compression m
  /\ has_masks m' = has_masks m /\ masks m' = masks m
  /\ cstype m' = cstype m /\ endpoints m' = endpoints m
  /\ gamma_red m' = gamma_red m /\ gamma_green m' = gamma_green m
  /\ gamma_blue m' = gamma_blue m.
Proof.
  intros Hs Hd Hi Hp H. unfold read_v5 in H. unfold v5_layout.
  destruct (d >=? 124) eqn:E; zb.
  - unfold dib in H. simpl Z.add in H.
    inv_bind_as H iw Eiw. inv_bind_as H pd Epd. inv_bind_as H ps Eps.
    injection H as <-. simpl.
    pose proof (le32_range _ _ _ Epd) as Rpd.
    pose proof (le32_range _ _ _ Eps) as Rps.
    split; [|repeat split; try assumption; try reflexivity; lia].
    split; [|intros F; lia].
    intros _. exists iw, pd, ps.
    repeat split; try assumption.
    rewrite (size_t_small (14 + pd)) by lia.
    rewrite (size_t_small (14 + pd + ps)) by lia.
    rewrite Z.gtb_ltb, Hp.
    destruct (cstype m =? PROFILE_EMBEDDED); simpl; [|reflexivity].
    destruct (0 <? ps) eqn:E0; zb; simpl; [|reflexivity].
    destruct (14 + pd + ps <=? n) eqn:E1; zb.
    + replace (14 + pd <=? n) with true by (symmetry; apply Z.leb_le; lia).
      replace (14 + pd + ps >=? 14 + pd) with true
        by (symmetry; rewrite Z.geb_leb; apply Z.leb_le; lia).
      simpl. f_equal. f_equal. lia.
    + replace (14 + pd + ps <=? n) with false
        by (symmetry; apply Z.leb_gt; lia).
      rewrite andb_false_r. reflexivity.
  - injection H as <-.
    split; [|repeat split; try assumption; try reflexivity; lia].
    split; [intros F; lia|]. intros _. split; assumption.
Qed.

Lemma masks_layout_ext (buf : list byte) (n : Z) (m m' : Metadata) :
  header_size m' = header_size m -> compression m' = compression m ->
  has_masks m' = has_masks m -> masks m' = masks m ->
  masks_layout buf n m -> masks_layout buf n m'.
Proof.
  unfold masks_layout, alpha_read, masks_at. intros -> -> -> -> H. exact H.
Qed.

Lemma colorspace_layout_ext (buf : list byte) (m m' : Metadata) :
  header_size m' = header_size m -> cstype m' = cstype m ->
  endpoints m' = endpoints m -> gamma_red m' = gamma_red m ->
  gamma_green m' = gamma_green m -> gamma_blue m' = gamma_blue m ->
  colorspace_layout buf m -> colorspace_layout buf m'.
Proof.
  unfold colorspace_layout. intros -> -> -> -> -> -> H. exact H.
Qed.

(** A header without optional parts. *)
Lemma plain_header_layout (buf : list byte) (n : Z) (m : Metadata) :
  header_size m = 12 \/ header_size m = 16 \/ header_size m = 64 ->
  has_masks m = false -> masks m = zero_masks ->
  cstype m = LCS_sRGB ->
  endpoints m = mkTriple zero_xyz zero_xyz zero_xyz ->
  gamma_red m = 0 -> gamma_green m = 0 -> gamma_blue m = 0 ->
  intent m = LCS_GM_IMAGES -> embedded_profile m = [] ->
  masks_layout buf n m /\ colorspace_layout buf m /\ v5_layout buf n m.
Proof.
  intros Hs Hm Hz Hc He Hr Hg Hb Hi Hp.
  unfold masks_layout, colorspace_layout, v5_layout, alpha_read.
  rewrite Hm.
  repeat split; try assumption; try discriminate; try lia;
    try (intros; exfalso; lia); try (intros _; assumption).
Qed.

Lemma parse_dib_optional (buf : list byte) (m : Metadata) :
  parse_dib buf = Ok m ->
  let n := Z.of_nat (length buf) in
  masks_layout buf n m /\ colorspace_layout buf m /\ v5_layout buf n m.
Proof.
  unfold parse_dib. set (n := Z.of_nat (length buf)). intros H.
  case_if H. inv_bind_as H c0 E0. inv_bind_as H c1 E1. case_if H.
  inv_bind_as H fsz Ef. inv_bind_as H rsv Er. inv_bind_as H off Eo.
  case_if H. case_if H. inv_bind_as H d Ed. case_if H.
  case_if H; [|case_if H; [|case_if H]].
  - zb. subst d.
    inv_bind_as H w Ew. inv_bind_as H h Eh. inv_bind_as H pl Ep.
    inv_bind_as H bp Eb. injection H as <-.
    apply plain_header_layout; try reflexivity. simpl. lia.
  - case_if H.
    + zb. subst d. inv_bind_as H m1 R1.
      apply read_dims32_at in R1 as (w & h & pl & bp & _ & _ & _ & _ & ->).
      apply read_info_at in H
        as (c & isz & px & py & cu & ci & _ & _ & _ & _ & _ & _ & ->).
      apply plain_header_layout; try reflexivity. simpl. lia.
    + match goal with
      | F : _ || _ = true |- _ => apply orb_true_iff in F as [F|F]
      end; zb; [|discriminate]. subst d.
      apply read_dims32_at in H as (w & h & pl & bp & _ & _ & _ & _ & ->).
      apply plain_header_layout; try reflexivity. simpl. lia.
  - assert (Hs : d = 40 \/ d = 52 \/ d = 56 \/ d = 108 \/ d = 124).
    { match goal with
      | F : _ || _ = true |- _ =>
          repeat (apply orb_true_iff in F as [F|F]); zb; lia
      end. }
    inv_bind_as H m1 R1.
    apply read_dims32_at in R1 as (w & h & pl & bp & _ & _ & _ & _ & ->).
    inv_bind_as H m2 R2.
    apply read_info_at in R2
      as (c & isz & px & py & cu & ci & _ & _ & _ & _ & _ & _ & ->).
    inv_bind_as H m4 R4. inv_bind_as H m5 R5.
    set (m3 := info_dib_type _ d) in R4.
    assert (F3 : header_size m3 = d /\ has_masks m3 = false
                 /\ masks m3 = zero_masks /\ cstype m3 = LCS_sRGB
                 /\ endpoints m3 = mkTriple zero_xyz zero_xyz zero_xyz
                 /\ gamma_red m3 = 0 /\ gamma_green m3 = 0
                 /\ gamma_blue m3 = 0 /\ intent m3 = LCS_GM_IMAGES
                 /\ embedded_profile m3 = []).
    { subst m3. destruct Hs as [-> | [-> | [-> | [-> | ->]]]];
        repeat split. }
    destruct F3 as (T1 & T2 & T3 & T4 & T5 & T6 & T7 & T8 & T9 & T10).
    destruct (read_masks_layout buf n d m3 m4 Hs T1 T2 T3 R4)
      as (L4 & A1 & A2 & A3 & A4 & A5 & A6 & A7).
    pose proof (read_masks_Ok _ _ _ _ _ R4)
      as [(_ & _ & _ & _ & _ & _ & _ & _ & A8) _].
    destruct (read_v4_layout buf d m4 m5 ltac:(congruence)
                ltac:(congruence) ltac:(congruence) ltac:(congruence)
                ltac:(congruence) ltac:(congruence) Hs R5)
      as (L5 & B1 & B2 & B3 & B4 & B5 & B6).
    destruct (read_v5_layout buf n d m5 m ltac:(congruence) Hs
                ltac:(congruence) ltac:(congruence) H)
      as (L6 & C1 & C2 & C3 & C4 & C5 & C6 & C7 & C8 & C9).
    split; [|split; [|exact L6]].
    + apply (masks_layout_ext buf n m4); try congruence.
    + apply (colorspace_layout_ext buf m5); congruence.
Qed.

(** X14: the optional parts of an accepted header.  The colour masks are
    present exactly for BI_BITFIELDS or BI_ALPHABITFIELDS with a header
    of 52 bytes or more, or with a 40-byte header followed by 12 more
    bytes in the buffer; they are the words at offsets 54, 58 and 62, and
    the alpha mask is the word at 66 for headers of 56 bytes or more (or
    a 40-byte BI_ALPHABITFIELDS header with 16 bytes behind it) and 0
    otherwise.  V4 and V5 headers take the colour-space type from offset
    54, the nine endpoint coordinates from 58..93 and the gammas from 94,
    98 and 102, so that with masks present the colour-space type is the
    red mask.  A V5 header takes the intent from offset 106 and copies
    the embedded profile of [ps] bytes at [14 + pd] when the type is
    PROFILE_EMBEDDED, [ps] is positive and the profile lies inside the
    buffer.  All other headers keep the defaults. *)
Theorem optional_header_fields (buf : list byte) (m : Metadata) :
  parse_dib buf = Ok m ->
  let n := Z.of_nat (length buf) in
  masks_layout buf n m /\ colorspace_layout buf m /\ v5_layout buf n m
  /\ (has_masks m = true -> header_size m = 108 \/ header_size m = 124 ->
        cstype m = mask_r (masks m)).
Proof.
  intros H n.
  destruct (parse_dib_optional buf m H) as (Lm & Lc & Lv). fold n in Lm, Lv.
  split; [exact Lm|]. split; [exact Lc|]. split; [exact Lv|].
  intros Hm Hs.
  destruct Lm as (_ & Hat & _). destruct (Hat Hm) as (Er & _).
  destruct Lc as (Hcs & _). destruct (Hcs Hs) as (Ec & _).
  congruence.
Qed.

Lemma optional_header_fields_witness :
  exists m, parse_dib rgb565_file = Ok m /\ masks_at rgb565_file m.
Proof.
  eexists. split; [vm_compute; reflexivity|].
  refine (proj1 (proj2 (proj1 (optional_header_fields rgb565_file _ _))) _).
  - vm_compute. reflexivity.
  - reflexivity.
Defined.

(** ** Encoded runs through [decode_rle8] *)

Lemma b2z_z2b (z : Z) : 0 <= z < 256 -> b2z (z2b z) = z.
Proof.
  intros Hz. unfold z2b, b2z. rewrite Z.mod_small by lia.
  destruct (Byte.of_N (Z.to_N z)) as [b|] eqn:E.
  - apply Byte.to_of_N in E. rewrite E. lia.
  - apply Byte.of_N_None_iff in E. lia.
Qed.

Lemma length_encode_runs (runs : list (Z * Z)) :
  Z.of_nat (length (encode_runs runs)) = 2 * Z.of_nat (length runs).
Proof.
  induction runs as [|[c v] rest IH]; [reflexivity|].
  simpl encode_runs. rewrite !length_cons. lia.
Qed.

Lemma encode_runs_lookup (runs : list (Z * Z)) (j : nat) (c v : Z) :
  runs !! j = Some (c, v) ->
  encode_runs runs !! (2 * j)%nat = Some (z2b c)
  /\ encode_runs runs !! (2 * j + 1)%nat = Some (z2b v).
Proof.
  revert j. induction runs as [|[c0 v0] rest IH]; intros j Hj;
    [discriminate|].
  destruct j as [|j].
  - injection Hj as -> ->. split; reflexivity.
  - simpl in Hj. destruct (IH j Hj) as [E0 E1].
    replace (2 * S j)%nat with (S (S (2 * j))) by lia.
    replace (S (S (2 * j)) + 1)%nat with (S (S (2 * j + 1))) by lia.
    split; assumption.
Qed.

Lemma expand_runs_app (a b : list (Z * Z)) :
  expand_runs (a ++ b) = expand_runs a ++ expand_runs b.
Proof.
  induction a as [|[c v] rest IH]; [reflexivity|].
  simpl. rewrite IH, app_assoc. reflexivity.
Qed.

Lemma expand_runs_split (runs : list (Z * Z)) (j : nat) (c v : Z) :
  runs !! j = Some (c, v) ->
  expand_runs runs
  = expand_runs (take j runs) ++ replicate (Z.to_nat c) v
      ++ expand_runs (drop (S j) runs).
Proof.
  intros Hj. rewrite <- (take_drop j runs) at 1.
  rewrite expand_runs_app. f_equal.
  rewrite (drop_S _ _ _ Hj). reflexivity.
Qed.

Lemma run_start_next (runs : list (Z * Z)) (j : nat) (c v : Z) :
  runs !! j = Some (c, v) -> 0 <= c ->
  run_start runs (S j) = run_start runs j + c.
Proof.
  intros Hj Hc. unfold run_start.
  rewrite (take_S_r _ _ _ Hj), expand_runs_app, length_app. simpl.
  rewrite app_nil_r, length_replicate. lia.
Qed.

Lemma run_start_le (runs : list (Z * Z)) (j : nat) :
  run_start runs j <= Z.of_nat (length (expand_runs runs)).
Proof.
  unfold run_start. rewrite <- (take_drop j runs) at 2.
  rewrite expand_runs_app, length_app. lia.
Qed.

Lemma run_start_all (runs : list (Z * Z)) (j : nat) :
  (length runs <= j)%nat ->
  run_start runs j = Z.of_nat (length (expand_runs runs)).
Proof. intros Hj. unfold run_start. rewrite take_ge by lia. reflexivity. Qed.

Lemma expand_runs_lookup (runs : list (Z * Z)) (j : nat) (c v t : Z) :
  runs !! j = Some (c, v) -> 0 <= t < c ->
  expand_runs runs !! Z.to_nat (run_start runs j + t) = Some v.
Proof.
  intros Hj Ht. rewrite (expand_runs_split runs j c v Hj). unfold run_start.
  rewrite lookup_app_r by lia. rewrite lookup_app_l
    by (rewrite length_replicate; lia).
  apply lookup_replicate_2. lia.
Qed.

Section Scan.
Variables (W H : Z) (td : bool) (pal : list PaletteEntry) (idxs : list Z).
Hypothesis pal_nonempty : pal <> [].
Hypothesis W_range : 0 < W < 2 ^ 31.
Hypothesis H_range : 0 < H <= 2 ^ 31.

(** One [put(x++, yy, idx)] stores pixel [K] of the scan and moves on to
    pixel [K + 1], leaving the loop on the last one. *)
Lemma emit_scan (v K : Z) (st : rle_state (list byte)) :
  0 <= v -> idxs !! Z.to_nat K = Some v ->
  scan_pos W K st -> rle_y st < H ->
  scan_written W H td pal idxs K (rle_out st) ->
  exists c,
    emit (store_px W pal) W H td v st = Ok c
    /\ rle_i (ctl_state c) = rle_i st
    /\ scan_pos W (K + 1) (ctl_state c)
    /\ scan_written W H td pal idxs (K + 1) (rle_out (ctl_state c))
    /\ match c with
       | Next s => rle_y s < H
       | Break s => rle_y s = H
       end.
Proof.
  intros Hv Hk (EK & Hx & Hy) HyH (Hl & Hpx). unfold emit.
  rewrite dest_row_model by lia.
  pose proof (dest_row_range td H (rle_y st) ltac:(lia)) as Hd.
  unfold put.
  replace (rle_x st >=? W) with false
    by (symmetry; rewrite Z.geb_leb; apply Z.leb_gt; lia).
  replace (dest_row td H (rle_y st) >=? H) with false
    by (symmetry; rewrite Z.geb_leb; apply Z.leb_gt; lia).
  simpl orb. cbv iota.
  destruct (store_px_total W H pal (rle_x st) (dest_row td H (rle_y st)) v
              (rle_out st) pal_nonempty Hv Hx Hd ltac:(nia) Hl)
    as (px & pe & -> & Epe & Hl' & Hnew & Hold).
  rewrite bind_unfold. simpl bind.
  rewrite (u32_small (rle_x st + 1)) by lia.
  rewrite (u32_small (rle_y st + 1)) by lia.
  assert (Wr : scan_written W H td pal idxs (K + 1) px).
  { split; [lia|]. intros x y Hx' Hy'.
    specialize (Hpx x y Hx' Hy').
    pose proof (dest_row_range td H y Hy') as Hd'.
    destruct (Z.eq_dec (y * W + x) K) as [E|N].
    - rewrite EK in E.
      destruct (pixel_index_inj W x y (rle_x st) (rle_y st) Hx' Hx E)
        as [-> ->].
      replace (rle_y st * W + rle_x st <? K + 1) with true
        by (symmetry; apply Z.ltb_lt; lia).
      exists v, pe. rewrite <- EK. split; [exact Hk|].
      split; [exact Epe | exact Hnew].
    - assert (Keep : forall bs,
                pixel_is W (rle_out st) x (dest_row td H y) bs ->
                pixel_is W px x (dest_row td H y) bs).
      { intros bs Hbs c Hc. rewrite Hold; [apply Hbs; exact Hc | nia |].
        apply pixel_slot_apart; [lia | lia | lia |].
        intros Eq. injection Eq as Ex Ey. apply dest_row_inj in Ey.
        subst. lia. }
      destruct (y * W + x <? K) eqn:Elt; zb.
      + replace (y * W + x <? K + 1) with true
          by (symmetry; apply Z.ltb_lt; lia).
        destruct Hpx as (v' & pe' & Hv' & Hp' & Hb').
        exists v', pe'. split; [exact Hv'|]. split; [exact Hp'|].
        apply Keep. exact Hb'.
      + replace (y * W + x <? K + 1) with false
          by (symmetry; apply Z.ltb_ge; lia).
        apply Keep. exact Hpx. }
  destruct (rle_x st + 1 >=? W) eqn:E1; zb.
  - destruct (rle_y st + 1 >=? H) eqn:E2; zb; eexists;
      (split; [reflexivity|]); simpl;
      (split; [reflexivity|]); (split; [unfold scan_pos; simpl; lia|]);
      (split; [exact Wr|]); lia.
  - eexists. split; [reflexivity|]. simpl. split; [reflexivity|].
    split; [unfold scan_pos; simpl; lia|]. split; [exact Wr | lia].
Qed.

(** A run of [c] pixels with the indices [g 0], [g 1], ... from pixel [K]
    on, cut at the end of the image. *)
Lemma run_scan (c K i : Z) (g : Z -> Z) (st : rle_state (list byte)) :
  0 <= c ->
  (forall t, 0 <= t < c ->
     0 <= g t /\ idxs !! Z.to_nat (K + t) = Some (g t)) ->
  scan_pos W K st -> rle_y st < H -> rle_i st = i ->
  scan_written W H td pal idxs K (rle_out st) ->
  returns (fun s =>
             rle_i s = i
             /\ scan_pos W (Z.min (K + c) (W * H)) s
             /\ rle_y s <= H
             /\ scan_written W H td pal idxs (Z.min (K + c) (W * H))
                  (rle_out s))
    (for_range 0 c 1 (fun t s => emit (store_px W pal) W H td (g t) s) st).
Proof.
  intros Hc Hidx Hp Hy Hi Hw.
  apply (for_range_returns
           (fun t s => 0 <= t <= c /\ rle_i s = i /\ scan_pos W (K + t) s
                       /\ rle_y s < H
                       /\ scan_written W H td pal idxs (K + t) (rle_out s))).
  - intros t s Ht (Ht0 & Hi' & Hp' & Hy' & Hw').
    destruct (Hidx t ltac:(lia)) as [Hg Hk].
    destruct (emit_scan (g t) (K + t) s Hg Hk Hp' Hy' Hw')
      as (r & -> & Ei & Hp2 & Hw2 & Hr).
    destruct r as [s'|s']; simpl ctl_state in *; simpl.
    + replace (K + (t + 1)) with (K + t + 1) by lia.
      split; [lia|]. split; [lia|]. split; [exact Hp2|].
      split; [exact Hr | exact Hw2].
    + assert (EKH : K + t + 1 = W * H).
      { destruct Hp2 as (EK2 & Hx2 & Hy2). destruct Hp' as (EK1 & Hx1 & Hy1).
        rewrite Hr in EK2. nia. }
      replace (Z.min (K + c) (W * H)) with (K + t + 1) by lia.
      split; [lia|]. split; [exact Hp2|]. split; [lia | exact Hw2].
  - intros t s Ht (Ht0 & Hi' & Hp' & Hy' & Hw').
    assert (t = c) by lia. subst t.
    assert (K + c < W * H) by (destruct Hp' as (EK' & Hx' & Hy0); nia).
    replace (Z.min (K + c) (W * H)) with (K + c) by lia.
    split; [exact Hi'|]. split; [exact Hp'|]. split; [lia | exact Hw'].
  - rewrite Z.add_0_r. split; [lia|]. split; [exact Hi|].
    split; [exact Hp|]. split; [exact Hy | exact Hw].
Qed.
End Scan.

Section Runs.
Variables (W H : Z) (td : bool) (pal : list PaletteEntry).
Variable runs : list (Z * Z).
Hypothesis pal_nonempty : pal <> [].
Hypothesis W_range : 0 < W < 2 ^ 31.
Hypothesis H_range : 0 < H <= 2 ^ 31.
Hypothesis runs_ok : Forall run_ok runs.
Hypothesis runs_short : Z.of_nat (length runs) < 2 ^ 62.

Lemma rle8_run_step (st : rle_state (list byte)) :
  rle_cond (Z.of_nat (length (encode_runs runs))) H st = true ->
  runs_done W H td pal runs st ->
  returns (ctl_post (runs_done W H td pal runs)
             (fun s => scan_written W H td pal (expand_runs runs)
                         (Z.min (Z.of_nat (length (expand_runs runs)))
                            (W * H)) (rle_out s)))
    (rle8_step (store_px W pal) (encode_runs runs)
       (Z.of_nat (length (encode_runs runs))) W H td st).
Proof.
  intros Hc (j & Hj & Hi & Hp & HyH & Hw).
  unfold rle_cond in Hc. rewrite length_encode_runs in *. zb.
  assert (Hjl : (j < length runs)%nat) by lia.
  destruct (lookup_lt_is_Some_2 runs j Hjl) as [[c v] Ej].
  pose proof (proj1 (Forall_lookup _ _) runs_ok j (c, v) Ej) as [Rc Rv].
  simpl in Rc, Rv.
  destruct (encode_runs_lookup runs j c v Ej) as [L0 L1].
  assert (EK : Z.min (run_start runs j) (W * H) = run_start runs j).
  { destruct Hp as (EK & Hx & Hy). nia. }
  rewrite EK in Hp, Hw.
  unfold rle8_step. rewrite size_t_small by lia.
  replace (rle_i st + 1 >? 2 * Z.of_nat (length runs)) with false
    by (symmetry; rewrite Z.gtb_ltb; apply Z.ltb_ge; lia).
  rewrite (rd_lookup _ (rle_i st) (z2b c))
    by (lia || (replace (Z.to_nat (rle_i st)) with (2 * j)%nat by lia;
                exact L0)).
  rewrite bind_unfold. simpl bind. rewrite b2z_z2b by lia.
  replace (c =? 0) with false by (symmetry; apply Z.eqb_neq; lia).
  simpl negb. cbv iota.
  replace (rle_i st + 1 >=? 2 * Z.of_nat (length runs)) with false
    by (symmetry; rewrite Z.geb_leb; apply Z.leb_gt; lia).
  rewrite (rd_lookup _ (rle_i st + 1) (z2b v))
    by (lia || (replace (Z.to_nat (rle_i st + 1)) with (2 * j + 1)%nat
                  by lia; exact L1)).
  rewrite bind_unfold. simpl bind. rewrite b2z_z2b by lia.
  apply returns_fmap.
  eapply returns_weaken.
  - apply (run_scan W H td pal (expand_runs runs) pal_nonempty W_range
             H_range c (run_start runs j) (rle_i st + 1 + 1) (fun _ => v)
             (set_i st (rle_i st + 1 + 1))); try lia.
    + intros t Ht. split; [lia|].
      apply (expand_runs_lookup runs j c v t Ej Ht).
    + exact Hp.
    + destruct Hp as (EK' & Hx & Hy). simpl. lia.
    + reflexivity.
    + exact Hw.
  - intros s (Hi' & Hp' & Hy' & Hw'). simpl.
    exists (S j). rewrite (run_start_next runs j c v Ej) by lia.
    split; [lia|]. split; [lia|]. split; [exact Hp'|].
    split; [exact Hy' | exact Hw'].
Qed.

Lemma rle8_runs_loop (st : rle_state (list byte)) :
  runs_done W H td pal runs st ->
  exists st',
    rle8_loop (store_px W pal) (encode_runs runs)
      (Z.of_nat (length (encode_runs runs))) W H td st = Ok st'
    /\ scan_written W H td pal (expand_runs runs)
         (Z.min (Z.of_nat (length (expand_runs runs))) (W * H))
         (rle_out st').
Proof.
  intros Hd. apply returns_finishes.
  - unfold rle8_loop.
    apply (while_loop_returns (runs_done W H td pal runs)).
    + intros s Hc Hs. apply rle8_run_step; assumption.
    + intros s Hc (j & Hj & Hi & Hp & HyH & Hw).
      unfold rle_cond in Hc. rewrite length_encode_runs in Hc.
      pose proof (run_start_le runs j) as Hle.
      assert (E : Z.min (run_start runs j) (W * H)
                  = Z.min (Z.of_nat (length (expand_runs runs))) (W * H)).
      { apply andb_false_iff in Hc as [Hc|Hc]; zb.
        - rewrite run_start_all by lia. reflexivity.
        - destruct Hp as (EK & Hx & Hy). nia. }
      rewrite <- E. exact Hw.
    + exact Hd.
  - apply rle8_loop_finishes;
      [intros; apply store_px_finishes | ].
    destruct Hd as (j & _ & Hi & _). lia.
Qed.
End Runs.

Lemma scan_written_start (W H : Z) (td : bool) (pal : list PaletteEntry)
    (idxs : list Z) :
  0 <= W -> 0 <= H ->
  scan_written W H td pal idxs 0 (zeroed (W * H * 4)).
Proof.
  intros HW HH. split; [rewrite length_zeroed; nia|].
  intros x y Hx Hy.
  replace (y * W + x <? 0) with false by (symmetry; apply Z.ltb_ge; nia).
  pose proof (dest_row_range td H y Hy) as Hd.
  intros c Hc. unfold zeroed.
  rewrite lookup_replicate_2 by nia.
  assert (C : c = 0 \/ c = 1 \/ c = 2 \/ c = 3) by lia.
  destruct C as [-> | [-> | [-> | ->]]]; reflexivity.
Qed.

(** The runs on the allocator that serves every request. *)
Lemma rle8_runs_granted (runs : list (Z * Z)) (img : Image) :
  let m := meta img in
  let W := Z.abs (width m) in
  let H := Z.abs (height m) in
  let pix := encode_runs runs in
  Forall run_ok runs -> Z.of_nat (length runs) < 2 ^ 62 ->
  palette img <> [] ->
  - 2 ^ 31 < width m < 2 ^ 31 -> width m <> 0 ->
  - 2 ^ 31 <= height m < 2 ^ 31 -> height m <> 0 ->
  exists px,
    decode_rle8 pix (Z.of_nat (length pix)) img
    = Ok (set_decoded img BGRA8 px)
    /\ scan_written W H (top_down m) (palette img) (expand_runs runs)
         (Z.min (Z.of_nat (length (expand_runs runs))) (W * H)) px.
Proof.
  intros m W H pix Hr Hn Hpal Hw Hw0 Hh Hh0.
  pose proof (abs_height_range m Hh) as [HH EH]. fold H in EH.
  assert (HW : 0 < W < 2 ^ 31) by (subst W; lia).
  assert (HH' : 0 < H <= 2 ^ 31) by (subst H; lia).
  granted_eq decode_rle8_eq. fold m.
  assert (Ee : is_empty (palette img) = false)
    by (destruct (palette img); [contradiction | reflexivity]).
  rewrite Ee, abs_width_Ok by exact Hw. fold W.
  rewrite bind_unfold. simpl bind. rewrite EH.
  assert (B : 0 <= W * H * 4 < 2 ^ 64) by nia.
  rewrite (size_t_small (W * H * 4)) by exact B.
  destruct (rle8_runs_loop W H (top_down m) (palette img) runs Hpal HW HH'
              Hr Hn (mkRle 0 0 0 (zeroed (W * H * 4))))
    as (st & E & Hst).
  { exists 0%nat. change (run_start runs 0) with 0.
    replace (Z.min 0 (W * H)) with 0 by nia. simpl rle_i. simpl rle_out.
    simpl rle_y.
    split; [lia|]. split; [reflexivity|].
    split; [unfold scan_pos; simpl; lia|]. split; [lia|].
    apply scan_written_start; lia. }
  fold pix in E. rewrite E. rewrite bind_unfold. simpl bind.
  exists (rle_out st). split; [reflexivity | exact Hst].
Qed.

(** X15: a stream of encoded runs is decoded to its expansion.  For runs
    [(count, index)] with counts 1..255, and a pixel vector of
    [4 * |width| * |height|] bytes that is within [max_size()] and that
    the heap serves, [decode_rle8] on their stream returns an image in
    which the pixels, taken left to right in each row and in the order
    the rows are stored in the file, hold the palette entries of the
    indices of the expanded runs, as far as the image reaches, and every
    pixel after the last run is zero.  A run goes on in the next row when
    it reaches the right edge. *)
Theorem rle8_encoded_runs (avail : Z) (runs : list (Z * Z)) (img : Image) :
  let m := meta img in
  let W := Z.abs (width m) in
  let H := Z.abs (height m) in
  let pix := encode_runs runs in
  Forall run_ok runs -> Z.of_nat (length runs) < 2 ^ 62 ->
  palette img <> [] ->
  - 2 ^ 31 < width m < 2 ^ 31 -> width m <> 0 ->
  - 2 ^ 31 <= height m < 2 ^ 31 -> height m <> 0 ->
  W * H * 4 <= max_size -> W * H * 4 <= avail ->
  exists px,
    decode_rle8_on (vector_alloc avail) pix (Z.of_nat (length pix)) img
    = Ok (set_decoded img BGRA8 px)
    /\ scan_written W H (top_down m) (palette img) (expand_runs runs)
         (Z.min (Z.of_nat (length (expand_runs runs))) (W * H)) px.
Proof.
  intros m W H pix Hr Hn Hpal Hw Hw0 Hh Hh0 Hmax Hav.
  rewrite (proj1 (rle_on_served avail pix (Z.of_nat (length pix)) img
                    ltac:(fold m; lia) Hh Hmax Hav)).
  exact (rle8_runs_granted runs img Hr Hn Hpal Hw Hw0 Hh Hh0).
Qed.

Lemma rle8_encoded_runs_witness :
  exists px,
    decode_rle8_on (vector_alloc 8) (encode_runs [(2, 0)]) 2
      (Image_init (set_dims Metadata_init 2 1 1 8) one_entry_palette)
    = Ok (set_decoded
            (Image_init (set_dims Metadata_init 2 1 1 8) one_entry_palette)
            BGRA8 px).
Proof.
  destruct (rle8_encoded_runs 8 [(2, 0)]
              (Image_init (set_dims Metadata_init 2 1 1 8) one_entry_palette))
    as (px & E & _).
  - repeat constructor; simpl; lia.
  - simpl. lia.
  - discriminate.
  - simpl. lia.
  - simpl. lia.
  - simpl. lia.
  - simpl. lia.
  - vm_compute. discriminate.
  - simpl. lia.
  - exists px. exact E.
Defined.

(** ** Encoded runs through [decode_rle4] *)

Lemma length_nibble_run (c hi lo : Z) :
  length (nibble_run c hi lo) = Z.to_nat c.
Proof.
  unfold nibble_run, zrange. rewrite !length_map, length_seq. reflexivity.
Qed.

Lemma nibble_run_lookup (c hi lo t : Z) :
  0 <= t < c ->
  nibble_run c hi lo !! Z.to_nat t = Some (if Z.even t then hi else lo).
Proof.
  intros Ht. unfold nibble_run, zrange. rewrite !list_lookup_fmap.
  rewrite lookup_seq_lt by lia. simpl. rewrite Z2Nat.id by lia. reflexivity.
Qed.

Lemma length_encode_runs4 (runs : list (Z * Z * Z)) :
  Z.of_nat (length (encode_runs4 runs)) = 2 * Z.of_nat (length runs).
Proof.
  induction runs as [|[[c hi] lo] rest IH]; [reflexivity|].
  simpl encode_runs4. rewrite !length_cons. lia.
Qed.

Lemma encode_runs4_lookup (runs : list (Z * Z * Z)) (j : nat)
    (c hi lo : Z) :
  runs !! j = Some (c, hi, lo) ->
  encode_runs4 runs !! (2 * j)%nat = Some (z2b c)
  /\ encode_runs4 runs !! (2 * j + 1)%nat = Some (z2b (16 * hi + lo)).
Proof.
  revert j. induction runs as [|[[c0 h0] l0] rest IH]; intros j Hj;
    [discriminate|].
  destruct j as [|j].
  - injection Hj as -> -> ->. split; reflexivity.
  - simpl in Hj. destruct (IH j Hj) as [E0 E1].
    replace (2 * S j)%nat with (S (S (2 * j))) by lia.
    replace (S (S (2 * j)) + 1)%nat with (S (S (2 * j + 1))) by lia.
    split; assumption.
Qed.

Lemma expand_runs4_app (a b : list (Z * Z * Z)) :
  expand_runs4 (a ++ b) = expand_runs4 a ++ expand_runs4 b.
Proof.
  induction a as [|[[c hi] lo] rest IH]; [reflexivity|].
  simpl. rewrite IH, app_assoc. reflexivity.
Qed.

Lemma expand_runs4_split (runs : list (Z * Z * Z)) (j : nat)
    (c hi lo : Z) :
  runs !! j = Some (c, hi, lo) ->
  expand_runs4 runs
  = expand_runs4 (take j runs) ++ nibble_run c hi lo
      ++ expand_runs4 (drop (S j) runs).
Proof.
  intros Hj. rewrite <- (take_drop j runs) at 1.
  rewrite expand_runs4_app. f_equal.
  rewrite (drop_S _ _ _ Hj). reflexivity.
Qed.

Lemma run4_start_next (runs : list (Z * Z * Z)) (j : nat) (c hi lo : Z) :
  runs !! j = Some (c, hi, lo) -> 0 <= c ->
  run4_start runs (S j) = run4_start runs j + c.
Proof.
  intros Hj Hc. unfold run4_start.
  rewrite (take_S_r _ _ _ Hj), expand_runs4_app, length_app. simpl.
  rewrite app_nil_r, length_nibble_run. lia.
Qed.

Lemma run4_start_le (runs : list (Z * Z * Z)) (j : nat) :
  run4_start runs j <= Z.of_nat (length (expand_runs4 runs)).
Proof.
  unfold run4_start. rewrite <- (take_drop j runs) at 2.
  rewrite expand_runs4_app, length_app. lia.
Qed.

Lemma run4_start_all (runs : list (Z * Z * Z)) (j : nat) :
  (length runs <= j)%nat ->
  run4_start runs j = Z.of_nat (length (expand_runs4 runs)).
Proof. intros Hj. unfold run4_start. rewrite take_ge by lia. reflexivity. Qed.

Lemma expand_runs4_lookup (runs : list (Z * Z * Z)) (j : nat)
    (c hi lo t : Z) :
  runs !! j = Some (c, hi, lo) -> 0 <= t < c ->
  expand_runs4 runs !! Z.to_nat (run4_start runs j + t)
  = Some (if Z.even t then hi else lo).
Proof.
  intros Hj Ht. rewrite (expand_runs4_split runs j c hi lo Hj).
  unfold run4_start.
  rewrite lookup_app_r by lia. rewrite lookup_app_l
    by (rewrite length_nibble_run; lia).
  replace (Z.to_nat (Z.of_nat (length (expand_runs4 (take j runs))) + t)
           - length (expand_runs4 (take j runs)))%nat
    with (Z.to_nat t) by lia.
  apply nibble_run_lookup. exact Ht.
Qed.

Lemma nibbles_of_byte (hi lo : Z) :
  0 <= hi < 16 -> 0 <= lo < 16 ->
  Z.land (Z.shiftr (16 * hi + lo) 4) 0xF = hi
  /\ Z.land (16 * hi + lo) 0xF = lo.
Proof.
  intros Hh Hl. change 0xF with (Z.ones 4).
  rewrite !Z.land_ones, Z.shiftr_div_pow2 by lia.
  change (2 ^ 4) with 16. split; Z.div_mod_to_equations; lia.
Qed.

Lemma odd_test_even (k : Z) : negb (Z.land k 1 =? 0) = negb (Z.even k).
Proof.
  f_equal. change 1 with (Z.ones 1). rewrite Z.land_ones by lia.
  change (2 ^ 1) with 2. rewrite Zeven_mod. reflexivity.
Qed.

Section Runs4.
Variables (W H : Z) (td : bool) (pal : list PaletteEntry).
Variable runs : list (Z * Z * Z).
Hypothesis pal_nonempty : pal <> [].
Hypothesis W_range : 0 < W < 2 ^ 31.
Hypothesis H_range : 0 < H <= 2 ^ 31.
Hypothesis runs_ok : Forall run4_ok runs.
Hypothesis runs_short : Z.of_nat (length runs) < 2 ^ 62.

Lemma rle4_run_step (st : rle_state (list byte)) :
  rle_cond (Z.of_nat (length (encode_runs4 runs))) H st = true ->
  runs4_done W H td pal runs st ->
  returns (ctl_post (runs4_done W H td pal runs)
             (fun s => scan_written W H td pal (expand_runs4 runs)
                         (Z.min (Z.of_nat (length (expand_runs4 runs)))
                            (W * H)) (rle_out s)))
    (rle4_step (store_px W pal) (encode_runs4 runs)
       (Z.of_nat (length (encode_runs4 runs))) W H td st).
Proof.
  intros Hc (j & Hj & Hi & Hp & HyH & Hw).
  unfold rle_cond in Hc. rewrite length_encode_runs4 in *. zb.
  assert (Hjl : (j < length runs)%nat) by lia.
  destruct (lookup_lt_is_Some_2 runs j Hjl) as [[[c hi] lo] Ej].
  pose proof (proj1 (Forall_lookup _ _) runs_ok j (c, hi, lo) Ej)
    as (Rc & Rh & Rl).
  simpl in Rc, Rh, Rl.
  destruct (encode_runs4_lookup runs j c hi lo Ej) as [L0 L1].
  destruct (nibbles_of_byte hi lo Rh Rl) as [Nh Nl].
  assert (EK : Z.min (run4_start runs j) (W * H) = run4_start runs j).
  { destruct Hp as (EK & Hx & Hy). nia. }
  rewrite EK in Hp, Hw.
  unfold rle4_step.
  rewrite (rd_lookup _ (rle_i st) (z2b c))
    by (lia || (replace (Z.to_nat (rle_i st)) with (2 * j)%nat by lia;
                exact L0)).
  rewrite bind_unfold. simpl bind. rewrite b2z_z2b by lia.
  replace (c =? 0) with false by (symmetry; apply Z.eqb_neq; lia).
  simpl negb. cbv iota.
  replace (rle_i st + 1 >=? 2 * Z.of_nat (length runs)) with false
    by (symmetry; rewrite Z.geb_leb; apply Z.leb_gt; lia).
  rewrite (rd_lookup _ (rle_i st + 1) (z2b (16 * hi + lo)))
    by (lia || (replace (Z.to_nat (rle_i st + 1)) with (2 * j + 1)%nat
                  by lia; exact L1)).
  rewrite bind_unfold. simpl bind. rewrite b2z_z2b by lia.
  cbv zeta. rewrite Nh, Nl.
  apply returns_fmap.
  eapply returns_weaken.
  - apply (run_scan W H td pal (expand_runs4 runs) pal_nonempty W_range
             H_range c (run4_start runs j) (rle_i st + 1 + 1)
             (fun k => if negb (Z.land k 1 =? 0) then lo else hi)
             (set_i st (rle_i st + 1 + 1))); try lia.
    + intros t Ht. cbv beta. rewrite odd_test_even.
      rewrite (expand_runs4_lookup runs j c hi lo t Ej Ht).
      destruct (Z.even t); simpl; split; reflexivity || lia.
    + exact Hp.
    + destruct Hp as (EK' & Hx & Hy). simpl. lia.
    + reflexivity.
    + exact Hw.
  - intros s (Hi' & Hp' & Hy' & Hw'). simpl.
    exists (S j). rewrite (run4_start_next runs j c hi lo Ej) by lia.
    split; [lia|]. split; [lia|]. split; [exact Hp'|].
    split; [exact Hy' | exact Hw'].
Qed.

Lemma rle4_runs_loop (st : rle_state (list byte)) :
  runs4_done W H td pal runs st ->
  exists st',
    rle4_loop (store_px W pal) (encode_runs4 runs)
      (Z.of_nat (length (encode_runs4 runs))) W H td st = Ok st'
    /\ scan_written W H td pal (expand_runs4 runs)
         (Z.min (Z.of_nat (length (expand_runs4 runs))) (W * H))
         (rle_out st').
Proof.
  intros Hd. apply returns_finishes.
  - unfold rle4_loop.
    apply (while_loop_returns (runs4_done W H td pal runs)).
    + intros s Hc Hs. apply rle4_run_step; assumption.
    + intros s Hc (j & Hj & Hi & Hp & HyH & Hw).
      unfold rle_cond in Hc. rewrite length_encode_runs4 in Hc.
      pose proof (run4_start_le runs j) as Hle.
      assert (E : Z.min (run4_start runs j) (W * H)
                  = Z.min (Z.of_nat (length (expand_runs4 runs))) (W * H)).
      { apply andb_false_iff in Hc as [Hc|Hc]; zb.
        - rewrite run4_start_all by lia. reflexivity.
        - destruct Hp as (EK & Hx & Hy). nia. }
      rewrite <- E. exact Hw.
    + exact Hd.
  - apply rle4_loop_finishes;
      [intros; apply store_px_finishes | rewrite length_encode_runs4; lia |].
    destruct Hd as (j & _ & Hi & _). lia.
Qed.
End Runs4.

(** The runs on the allocator that serves every request. *)
Lemma rle4_runs_granted (runs : list (Z * Z * Z)) (img : Image) :
  let m := meta img in
  let W := Z.abs (width m) in
  let H := Z.abs (height m) in
  let pix := encode_runs4 runs in
  Forall run4_ok runs -> Z.of_nat (length runs) < 2 ^ 62 ->
  palette img <> [] ->
  - 2 ^ 31 < width m < 2 ^ 31 -> width m <> 0 ->
  - 2 ^ 31 <= height m < 2 ^ 31 -> height m <> 0 ->
  exists px,
    decode_rle4 pix (Z.of_nat (length pix)) img
    = Ok (set_decoded img BGRA8 px)
    /\ scan_written W H (top_down m) (palette img) (expand_runs4 runs)
         (Z.min (Z.of_nat (length (expand_runs4 runs))) (W * H)) px.
Proof.
  intros m W H pix Hr Hn Hpal Hw Hw0 Hh Hh0.
  pose proof (abs_height_range m Hh) as [HH EH]. fold H in EH.
  assert (HW : 0 < W < 2 ^ 31) by (subst W; lia).
  assert (HH' : 0 < H <= 2 ^ 31) by (subst H; lia).
  granted_eq decode_rle4_eq. fold m.
  assert (Ee : is_empty (palette img) = false)
    by (destruct (palette img); [contradiction | reflexivity]).
  rewrite Ee, abs_width_Ok by exact Hw. fold W.
  rewrite bind_unfold. simpl bind. rewrite EH.
  assert (B : 0 <= W * H * 4 < 2 ^ 64) by nia.
  rewrite (size_t_small (W * H * 4)) by exact B.
  destruct (rle4_runs_loop W H (top_down m) (palette img) runs Hpal HW HH'
              Hr Hn (mkRle 0 0 0 (zeroed (W * H * 4))))
    as (st & E & Hst).
  { exists 0%nat. change (run4_start runs 0) with 0.
    replace (Z.min 0 (W * H)) with 0 by nia. simpl rle_i. simpl rle_out.
    simpl rle_y.
    split; [lia|]. split; [reflexivity|].
    split; [unfold scan_pos; simpl; lia|]. split; [lia|].
    apply scan_written_start; lia. }
  fold pix in E. rewrite E. rewrite bind_unfold. simpl bind.
  exists (rle_out st). split; [reflexivity | exact Hst].
Qed.

(** X16: encoded RLE4 runs are decoded to their expansion.  For runs
    [(count, hi, lo)] with counts 1..255 and nibbles 0..15, and a pixel
    vector of [4 * |width| * |height|] bytes that is within [max_size()]
    and that the heap serves, [decode_rle4] on their stream returns an
    image whose pixels, in the order of the stream, hold the palette
    entries of hi, lo, hi, ... for each run in turn, as far as the image
    reaches, and every pixel after the last run is zero. *)
Theorem rle4_encoded_runs (avail : Z) (runs : list (Z * Z * Z))
    (img : Image) :
  let m := meta img in
  let W := Z.abs (width m) in
  let H := Z.abs (height m) in
  let pix := encode_runs4 runs in
  Forall run4_ok runs -> Z.of_nat (length runs) < 2 ^ 62 ->
  palette img <> [] ->
  - 2 ^ 31 < width m < 2 ^ 31 -> width m <> 0 ->
  - 2 ^ 31 <= height m < 2 ^ 31 -> height m <> 0 ->
  W * H * 4 <= max_size -> W * H * 4 <= avail ->
  exists px,
    decode_rle4_on (vector_alloc avail) pix (Z.of_nat (length pix)) img
    = Ok (set_decoded img BGRA8 px)
    /\ scan_written W H (top_down m) (palette img) (expand_runs4 runs)
         (Z.min (Z.of_nat (length (expand_runs4 runs))) (W * H)) px.
Proof.
  intros m W H pix Hr Hn Hpal Hw Hw0 Hh Hh0 Hmax Hav.
  rewrite (proj2 (rle_on_served avail pix (Z.of_nat (length pix)) img
                    ltac:(fold m; lia) Hh Hmax Hav)).
  exact (rle4_runs_granted runs img Hr Hn Hpal Hw Hw0 Hh Hh0).
Qed.

Lemma rle4_encoded_runs_witness :
  exists px,
    decode_rle4_on (vector_alloc 8) (encode_runs4 [(2, 0, 0)]) 2
      (Image_init (set_dims Metadata_init 2 1 1 4) one_entry_palette)
    = Ok (set_decoded
            (Image_init (set_dims Metadata_init 2 1 1 4) one_entry_palette)
            BGRA8 px).
Proof.
  destruct (rle4_encoded_runs 8 [(2, 0, 0)]
              (Image_init (set_dims Metadata_init 2 1 1 4) one_entry_palette))
    as (px & E & _).
  - repeat constructor; simpl; lia.
  - simpl. lia.
  - discriminate.
  - simpl. lia.
  - simpl. lia.
  - simpl. lia.
  - simpl. lia.
  - vm_compute. discriminate.
  - simpl. lia.
  - exists px. exact E.
Defined.

(** ** The decoders and the pixel region

    As long as the rows fit the 32-bit stride no decoder looks at a byte
    past the region it is given: two buffers that agree on the region
    are decoded alike. *)

Lemma bind_ext {A B : Type} (r : result A) (k k' : A -> result B) :
  (forall a, r = Ok a -> k a = k' a) -> (r ≫= k) = (r ≫= k').
Proof.
  intros Hk. rewrite !bind_unfold. destruct r; simpl; try reflexivity.
  apply Hk. reflexivity.
Qed.

Lemma for_loop_ext {S : Type} (J : Z -> S -> Prop)
    (body body' : Z -> S -> result (ctl S)) (step stop : Z) :
  (forall k s, k < stop -> J k s -> body k s = body' k s) ->
  (forall k s s', k < stop -> J k s -> body k s = Ok (Next s') ->
                  J (k + step) s') ->
  forall (fuel : nat) (k : Z) (s : S),
    J k s ->
    for_loop fuel k step stop body s = for_loop fuel k step stop body' s.
Proof.
  intros Hb Hj. induction fuel as [|fuel IH]; intros k s Hs; simpl;
    [reflexivity|].
  destruct (k <? stop) eqn:E; [|reflexivity]. apply Z.ltb_lt in E.
  rewrite <- (Hb k s E Hs). apply bind_ext.
  intros [s'|s'] Ec; [|reflexivity].
  apply IH. apply (Hj k s s' E Hs Ec).
Qed.

Lemma for_range_ext {S : Type} (J : Z -> S -> Prop)
    (body body' : Z -> S -> result (ctl S)) (lo stop step : Z) (s : S) :
  (forall k s, k < stop -> J k s -> body k s = body' k s) ->
  (forall k s s', k < stop -> J k s -> body k s = Ok (Next s') ->
                  J (k + step) s') ->
  J lo s ->
  for_range lo stop step body s = for_range lo stop step body' s.
Proof.
  intros Hb Hj Hs. unfold for_range. apply (for_loop_ext J); assumption.
Qed.

Lemma while_loop_ext {S : Type} (J : S -> Prop) (cond : S -> bool)
    (body body' : S -> result (ctl S)) :
  (forall s, cond s = true -> J s -> body s = body' s) ->
  (forall s s', cond s = true -> J s -> body s = Ok (Next s') -> J s') ->
  forall (fuel : nat) (s : S),
    J s -> while_loop fuel cond body s = while_loop fuel cond body' s.
Proof.
  intros Hb Hj. induction fuel as [|fuel IH]; intros s Hs; simpl;
    [reflexivity|].
  destruct (cond s) eqn:E; [|reflexivity].
  rewrite <- (Hb s E Hs). apply bind_ext.
  intros [s'|s'] Ec; [|reflexivity].
  apply IH. apply (Hj s s' E Hs Ec).
Qed.

Section Region.
Variables (pix pix' : list byte) (n : Z).
Hypothesis region : same_region n pix pix'.

Lemma rd_same (i : Z) : i < n -> rd pix i = rd pix' i.
Proof.
  intros Hi. unfold rd, rdb. destruct (i <? 0) eqn:E; [reflexivity|].
  apply Z.ltb_ge in E.
  rewrite (proj2 (proj2 region) i) by lia. reflexivity.
Qed.

Lemma le16_same (off : Z) : off + 2 <= n -> le16 pix off = le16 pix' off.
Proof.
  intros Ho. unfold le16.
  rewrite (rd_same off), (rd_same (off + 1)) by lia. reflexivity.
Qed.

Lemma le32_same (off : Z) : off + 4 <= n -> le32 pix off = le32 pix' off.
Proof.
  intros Ho. unfold le32.
  rewrite (rd_same off), (rd_same (off + 1)), (rd_same (off + 2)),
    (rd_same (off + 3)) by lia.
  reflexivity.
Qed.

Lemma slice_same (s len : Z) :
  0 <= s -> s + len <= n -> slice pix s len = slice pix' s len.
Proof.
  intros Hs Hl. unfold slice. apply list_eq. intros i.
  destruct (decide (i < Z.to_nat len)%nat) as [L|G].
  - rewrite !lookup_take_lt, !lookup_drop by exact L.
    replace (Z.to_nat s + i)%nat with (Z.to_nat (s + Z.of_nat i)) by lia.
    apply (proj2 (proj2 region)). lia.
  - rewrite !lookup_take_ge by lia. reflexivity.
Qed.

Lemma memcpy_same (dst : list byte) (d s len : Z) :
  0 <= s -> s + len <= n ->
  memcpy dst d pix s len = memcpy dst d pix' s len.
Proof.
  intros Hs Hl. destruct region as (L1 & L2 & _). unfold memcpy.
  replace (s + len >? Z.of_nat (length pix)) with false
    by (symmetry; rewrite Z.gtb_ltb; apply Z.ltb_ge; lia).
  replace (s + len >? Z.of_nat (length pix')) with false
    by (symmetry; rewrite Z.gtb_ltb; apply Z.ltb_ge; lia).
  rewrite slice_same by assumption. reflexivity.
Qed.

Lemma copy_rows_same (W H stride b : Z) (td : bool) (px : list byte) :
  0 <= W * b <= stride -> stride * H <= n -> n < 2 ^ 64 ->
  copy_rows pix W H stride b td px = copy_rows pix' W H stride b td px.
Proof.
  intros Hb Hn H64. unfold copy_rows.
  apply (for_range_ext (fun k _ => 0 <= k)); [| intros; lia | lia].
  intros row s Hrow H0.
  assert (B : 0 <= row * stride /\ row * stride + W * b <= n) by nia.
  rewrite (size_t_small (row * stride)) by lia.
  rewrite (size_t_small (W * b)) by lia.
  rewrite memcpy_same by lia. reflexivity.
Qed.

Lemma bitfield_rows_same (k : Bitmasks) (b W H stride : Z) (td : bool)
    (px : list byte) :
  b = 2 \/ b = 4 -> 0 <= W -> W * b <= stride -> stride < 2 ^ 32 ->
  stride * H <= n -> n < 2 ^ 64 ->
  bitfield_rows pix k b W H stride td px
  = bitfield_rows pix' k b W H stride td px.
Proof.
  intros Hb HW Hs H32 Hn H64. unfold bitfield_rows.
  apply (for_range_ext (fun k _ => 0 <= k)); [| intros; lia | lia].
  intros row s Hrow H0. f_equal.
  apply (for_range_ext (fun k _ => 0 <= k)); [| intros; lia | lia].
  intros x s1 Hx Hx0. f_equal. unfold bitfield_pixel.
  assert (B : 0 <= row * stride /\ row * stride + W * b <= n) by nia.
  rewrite (size_t_small (row * stride)) by lia.
  destruct Hb as [-> | ->].
  - change (2 =? 2) with true. cbv iota.
    rewrite (u32_small (x * 2)) by lia.
    rewrite le16_same by lia. reflexivity.
  - change (4 =? 2) with false. cbv iota.
    rewrite (u32_small (x * 4)) by lia.
    rewrite le32_same by lia. reflexivity.
Qed.

Lemma indexed_row_same (pal : list PaletteEntry) (W bits src y : Z)
    (px : list byte) :
  0 <= W -> 0 <= src -> src + (W * bits + 7) / 8 <= n ->
  indexed_row pix pal W bits src y px = indexed_row pix' pal W bits src y px.
Proof.
  intros HW Hsrc Hn. unfold indexed_row.
  destruct (bits =? 8) eqn:E8.
  { apply Z.eqb_eq in E8. subst bits.
    apply (for_range_ext (fun k _ => 0 <= k)); [| intros; lia | lia].
    intros x s Hx Hx0.
    rewrite (rd_same (src + x)) by (Z.div_mod_to_equations; lia).
    reflexivity. }
  destruct (bits =? 4) eqn:E4.
  { apply Z.eqb_eq in E4. subst bits.
    apply (for_range_ext (fun k _ => 0 <= k)); [| intros; lia | lia].
    intros x s Hx Hx0.
    rewrite (rd_same (src + x / 2)) by (Z.div_mod_to_equations; lia).
    reflexivity. }
  destruct (bits =? 2) eqn:E2.
  { apply Z.eqb_eq in E2. subst bits.
    apply (for_range_ext (fun k _ => 0 <= k)); [| intros; lia | lia].
    intros x s Hx Hx0.
    rewrite (rd_same (src + x / 4)) by (Z.div_mod_to_equations; lia).
    reflexivity. }
  destruct (bits =? 1) eqn:E1; [|reflexivity].
  apply Z.eqb_eq in E1. subst bits.
  apply (for_range_ext (fun k _ => 0 <= k)); [| intros; lia | lia].
  intros x s Hx Hx0.
  rewrite (rd_same (src + x / 8)) by (Z.div_mod_to_equations; lia).
  reflexivity.
Qed.
End Region.

Section RegionRLE.
Context {A : Type}.
Variable store : Z -> Z -> Z -> A -> result A.
Variables (pix pix' : list byte) (pix_size W H : Z) (td : bool).
Hypothesis region : same_region pix_size pix pix'.
Hypothesis pix_size_range : 0 <= pix_size < 2 ^ 63.

Lemma rle8_delta_same (st : rle_state A) (i : Z) :
  0 <= i < 2 ^ 64 - 1 ->
  rle8_delta pix pix_size W H st i = rle8_delta pix' pix_size W H st i.
Proof.
  intros Hi. unfold rle8_delta.
  destruct (size_t (i + 1) >=? pix_size) eqn:E; [reflexivity|].
  rewrite size_t_small in E by lia. zb.
  rewrite (rd_same pix pix' pix_size region i),
    (rd_same pix pix' pix_size region (i + 1)) by lia.
  reflexivity.
Qed.

Lemma rle4_delta_same (st : rle_state A) (i : Z) :
  0 <= i < 2 ^ 64 - 1 ->
  rle4_delta pix pix_size st i = rle4_delta pix' pix_size st i.
Proof.
  intros Hi. unfold rle4_delta.
  destruct (size_t (i + 1) >=? pix_size) eqn:E; [reflexivity|].
  rewrite size_t_small in E by lia. zb.
  rewrite (rd_same pix pix' pix_size region i),
    (rd_same pix pix' pix_size region (i + 1)) by lia.
  reflexivity.
Qed.

Lemma rle8_step_same (st : rle_state A) :
  0 <= rle_i st -> rle_i st < pix_size ->
  rle8_step store pix pix_size W H td st
  = rle8_step store pix' pix_size W H td st.
Proof.
  intros Hi Hc. unfold rle8_step.
  destruct (size_t (rle_i st + 1) >? pix_size); [reflexivity|].
  rewrite (rd_same pix pix' pix_size region (rle_i st)) by lia.
  apply bind_ext. intros count Ec. apply rd_range in Ec.
  destruct (negb (count =? 0)).
  - destruct (rle_i st + 1 >=? pix_size) eqn:E1; [reflexivity|]. zb.
    rewrite (rd_same pix pix' pix_size region (rle_i st + 1)) by lia.
    reflexivity.
  - destruct (rle_i st + 1 >=? pix_size) eqn:E1; [reflexivity|]. zb.
    rewrite (rd_same pix pix' pix_size region (rle_i st + 1)) by lia.
    apply bind_ext. intros cmd Ecmd. apply rd_range in Ecmd.
    destruct (cmd =? 0); [reflexivity|].
    destruct (cmd =? 1); [reflexivity|].
    destruct (cmd =? 2); [apply rle8_delta_same; lia|].
    destruct (size_t (rle_i st + 1 + 1 + cmd) >? pix_size) eqn:E2;
      [reflexivity|].
    rewrite size_t_small in E2 by lia. zb.
    rewrite (for_range_ext
               (fun k s => 0 <= k /\ rle_i s = rle_i st + 1 + 1 + k)
               _ (fun _ s =>
                    b ← rd pix' (rle_i s);
                    emit store W H td b (set_i s (rle_i s + 1))));
      [reflexivity | | | simpl; lia].
    + intros k s Hk [Hk0 Hs].
      rewrite (rd_same pix pix' pix_size region (rle_i s)) by lia.
      reflexivity.
    + intros k s s' Hk [Hk0 Hs] Eb.
      apply bind_Ok in Eb as (b & _ & Eb).
      apply emit_keeps_i in Eb. simpl in Eb. lia.
Qed.

Lemma rle4_step_same (st : rle_state A) :
  0 <= rle_i st -> rle_i st < pix_size ->
  rle4_step store pix pix_size W H td st
  = rle4_step store pix' pix_size W H td st.
Proof.
  intros Hi Hc. unfold rle4_step.
  rewrite (rd_same pix pix' pix_size region (rle_i st)) by lia.
  apply bind_ext. intros count Ec. apply rd_range in Ec.
  destruct (negb (count =? 0)).
  - destruct (rle_i st + 1 >=? pix_size) eqn:E1; [reflexivity|]. zb.
    rewrite (rd_same pix pix' pix_size region (rle_i st + 1)) by lia.
    reflexivity.
  - destruct (rle_i st + 1 >=? pix_size) eqn:E1; [reflexivity|]. zb.
    rewrite (rd_same pix pix' pix_size region (rle_i st + 1)) by lia.
    apply bind_ext. intros cmd Ecmd. apply rd_range in Ecmd.
    destruct (cmd =? 0); [reflexivity|].
    destruct (cmd =? 1); [reflexivity|].
    destruct (cmd =? 2); [apply rle4_delta_same; lia|].
    cbv zeta.
    assert (Hbytes : 0 <= (cmd + 1) / 2 <= 128)
      by (Z.div_mod_to_equations; lia).
    destruct (size_t (rle_i st + 1 + 1 + (cmd + 1) / 2) >? pix_size) eqn:E2;
      [reflexivity|].
    rewrite size_t_small in E2 by lia. zb.
    rewrite (for_range_ext (fun k _ => 0 <= k)
               _ (fun k s =>
                    b ← rd pix' (size_t (rle_i st + 1 + 1 + k / 2));
                    emit store W H td
                      (if negb (Z.land k 1 =? 0) then Z.land b 0xF
                       else Z.land (Z.shiftr b 4) 0xF) s));
      [reflexivity | | intros; lia | lia].
    intros k s Hk Hk0.
    assert (Hk2 : 0 <= k / 2 < (cmd + 1) / 2)
      by (Z.div_mod_to_equations; lia).
    rewrite size_t_small by lia.
    rewrite (rd_same pix pix' pix_size region) by lia. reflexivity.
Qed.

Lemma rle8_loop_same (st : rle_state A) :
  0 <= rle_i st ->
  rle8_loop store pix pix_size W H td st
  = rle8_loop store pix' pix_size W H td st.
Proof.
  intros Hi. unfold rle8_loop.
  apply (while_loop_ext (fun s => 0 <= rle_i s)); [| | exact Hi].
  - intros s Hc Hs. unfold rle_cond in Hc.
    apply andb_prop in Hc as [Hc _]. apply Z.ltb_lt in Hc.
    apply rle8_step_same; assumption.
  - intros s s' Hc Hs Eb.
    apply (rle8_step_advances store pix pix_size W H td s s' Hs Hc Eb).
Qed.

Lemma rle4_loop_same (st : rle_state A) :
  0 <= rle_i st ->
  rle4_loop store pix pix_size W H td st
  = rle4_loop store pix' pix_size W H td st.
Proof.
  intros Hi. unfold rle4_loop.
  apply (while_loop_ext (fun s => 0 <= rle_i s)); [| | exact Hi].
  - intros s Hc Hs. unfold rle_cond in Hc.
    apply andb_prop in Hc as [Hc _]. apply Z.ltb_lt in Hc.
    apply rle4_step_same; assumption.
  - intros s s' Hc Hs Eb.
    apply (rle4_step_advances store pix pix_size W H td pix_size_range
             s s' Hs Hc Eb).
Qed.
End RegionRLE.

Section RegionDecoders.
Variables (alloc : allocator) (pix pix' : list byte) (pix_size : Z).
Hypothesis region : same_region pix_size pix pix'.
Hypothesis pix_size_range : 0 <= pix_size < 2 ^ 63.

Lemma decode_rle8_on_same (img : Image) :
  decode_rle8_on alloc pix pix_size img
  = decode_rle8_on alloc pix' pix_size img.
Proof.
  unfold decode_rle8_on. destruct (is_empty (palette img)); [reflexivity|].
  apply bind_ext. intros W _. apply bind_ext. intros out _.
  rewrite (rle8_loop_same _ pix pix' pix_size _ _ _ region pix_size_range)
    by (simpl; lia).
  reflexivity.
Qed.

Lemma decode_rle4_on_same (img : Image) :
  decode_rle4_on alloc pix pix_size img
  = decode_rle4_on alloc pix' pix_size img.
Proof.
  unfold decode_rle4_on. destruct (is_empty (palette img)); [reflexivity|].
  apply bind_ext. intros W _. apply bind_ext. intros out _.
  rewrite (rle4_loop_same _ pix pix' pix_size _ _ _ region pix_size_range)
    by (simpl; lia).
  reflexivity.
Qed.

Lemma expose_embedded_stream_on_same (img : Image) :
  expose_embedded_stream_on alloc pix pix_size img
  = expose_embedded_stream_on alloc pix' pix_size img.
Proof.
  unfold expose_embedded_stream_on, read_range.
  destruct region as (L1 & L2 & _).
  replace (pix_size >? Z.of_nat (length pix)) with false
    by (symmetry; rewrite Z.gtb_ltb; apply Z.ltb_ge; lia).
  replace (pix_size >? Z.of_nat (length pix')) with false
    by (symmetry; rewrite Z.gtb_ltb; apply Z.ltb_ge; lia).
  rewrite (slice_same pix pix' pix_size region) by lia. reflexivity.
Qed.

Lemma decode_indexed_on_same (img : Image) :
  let m := meta img in
  - 2 ^ 31 <= width m < 2 ^ 31 -> - 2 ^ 31 <= height m < 2 ^ 31 ->
  0 <= bpp m <= 8 ->
  decode_indexed_uncompressed_on alloc pix pix_size img
  = decode_indexed_uncompressed_on alloc pix' pix_size img.
Proof.
  intros m Hw Hh Hb. unfold decode_indexed_uncompressed_on. fold m.
  destruct (is_empty (palette img)); [reflexivity|].
  apply bind_ext. intros W EW.
  destruct (abs_width_range m W Hw EW) as [HW _].
  destruct (abs_height_range m Hh) as [HH _].
  set (H := abs_height m) in *. set (bits := bpp m) in *.
  assert (Hrow : 0 <= (W * bits + 7) / 8 <= W)
    by (Z.div_mod_to_equations; nia).
  assert (Es : row_stride_aligned W bits
               = 4 * (((W * bits + 7) / 8 + 3) / 4))
    by (apply row_stride_aligned_no_wrap; nia || lia).
  set (stride := row_stride_aligned W bits) in *.
  assert (Hs : (W * bits + 7) / 8 <= stride < 2 ^ 32)
    by (rewrite Es; Z.div_mod_to_equations; lia).
  assert (B : 0 <= stride * H < 2 ^ 63) by nia.
  rewrite (size_t_small (stride * H)) by lia.
  destruct (stride * H >? pix_size) eqn:E; [reflexivity|]. zb.
  apply bind_ext. intros out _. f_equal.
  apply (for_range_ext (fun k _ => 0 <= k)); [| intros; lia | lia].
  intros row s Hrow0 H0.
  assert (B2 : 0 <= row * stride
               /\ row * stride + (W * bits + 7) / 8 <= pix_size) by nia.
  rewrite (size_t_small (row * stride)) by lia.
  rewrite (indexed_row_same pix pix' pix_size region) by lia.
  reflexivity.
Qed.

Lemma decode_bgr24_on_same (img : Image) :
  let m := meta img in
  - 2 ^ 31 <= width m < 2 ^ 31 -> - 2 ^ 31 <= height m < 2 ^ 31 ->
  3 * Z.abs (width m) + 3 < 2 ^ 32 ->
  decode_bgr24_on alloc pix pix_size img
  = decode_bgr24_on alloc pix' pix_size img.
Proof.
  intros m Hw Hh Hfit. unfold decode_bgr24_on. fold m.
  apply bind_ext. intros W EW.
  destruct (abs_width_range m W Hw EW) as [HW EW'].
  destruct (abs_height_range m Hh) as [HH _].
  set (H := abs_height m) in *.
  destruct (row_stride_bytes W 3 ltac:(lia) ltac:(lia) ltac:(lia))
    as [_ Hs].
  change (8 * 3) with 24 in Hs.
  set (stride := row_stride_aligned W 24) in *.
  assert (B : 0 <= stride * H < 2 ^ 63) by nia.
  rewrite (size_t_small (stride * H)) by lia.
  destruct (stride * H >? pix_size) eqn:E; [reflexivity|]. zb.
  apply bind_ext. intros out _.
  rewrite (copy_rows_same pix pix' pix_size region) by lia.
  reflexivity.
Qed.

Lemma decode_bitfields_on_same (img : Image) (b : Z) :
  let m := meta img in
  b = 2 \/ b = 4 ->
  - 2 ^ 31 <= width m < 2 ^ 31 -> - 2 ^ 31 <= height m < 2 ^ 31 ->
  b * Z.abs (width m) + 3 < 2 ^ 32 ->
  decode_bitfields_on alloc pix pix_size img b
  = decode_bitfields_on alloc pix' pix_size img b.
Proof.
  intros m Hb Hw Hh Hfit. unfold decode_bitfields_on. fold m.
  apply bind_ext. intros W EW.
  destruct (abs_width_range m W Hw EW) as [HW EW'].
  destruct (abs_height_range m Hh) as [HH _].
  set (H := abs_height m) in *.
  assert (Eb : u16 (u32 (b * 8)) = 8 * b)
    by (destruct Hb as [-> | ->]; reflexivity).
  rewrite Eb.
  destruct (row_stride_bytes W b ltac:(lia) ltac:(lia) ltac:(lia))
    as [_ Hs].
  set (stride := row_stride_aligned W (8 * b)) in *.
  assert (B : 0 <= stride * H < 2 ^ 63) by nia.
  rewrite (size_t_small (stride * H)) by lia.
  destruct (stride * H >? pix_size) eqn:E; [reflexivity|]. zb.
  destruct (looks8 _).
  - apply bind_ext. intros out _.
    rewrite (bitfield_rows_same pix pix' pix_size region)
      by (assumption || lia).
    reflexivity.
  - apply bind_ext. intros out _.
    rewrite (copy_rows_same pix pix' pix_size region) by lia.
    reflexivity.
Qed.

Lemma decode_pixels_on_same (img : Image) :
  let m := meta img in
  - 2 ^ 31 <= width m < 2 ^ 31 -> - 2 ^ 31 <= height m < 2 ^ 31 ->
  row_fits_32 m ->
  decode_pixels_on alloc pix pix_size img
  = decode_pixels_on alloc pix' pix_size img.
Proof.
  intros m Hw Hh [_ Hfit]. unfold decode_pixels_on. fold m.
  destruct ((bpp m =? 1) || (bpp m =? 2) || (bpp m =? 4) || (bpp m =? 8))
    eqn:Ei.
  - assert (Hb : bpp m = 1 \/ bpp m = 2 \/ bpp m = 4 \/ bpp m = 8).
    { repeat (apply orb_prop in Ei as [Ei|Ei]); zb; lia. }
    destruct (compression m =? BI_RGB);
      [apply decode_indexed_on_same; (assumption || fold m; lia)|].
    destruct ((compression m =? BI_RLE8) && (bpp m =? 8));
      [apply decode_rle8_on_same|].
    destruct ((compression m =? BI_RLE4) && (bpp m =? 4));
      [apply decode_rle4_on_same|].
    destruct (is_embedded (compression m)); [|reflexivity].
    apply expose_embedded_stream_on_same.
  - destruct (bpp m =? 16) eqn:B16.
    { apply Z.eqb_eq in B16. rewrite B16 in Hfit.
      change (16 / 8) with 2 in Hfit.
      destruct (compression m =? BI_RGB);
        [apply decode_bitfields_on_same; simpl;
           (assumption || (left; reflexivity))|].
      destruct (is_bitfields (compression m));
        [apply decode_bitfields_on_same;
           (assumption || (left; reflexivity))|].
      destruct (is_embedded (compression m)); [|reflexivity].
      apply expose_embedded_stream_on_same. }
    destruct (bpp m =? 24) eqn:B24.
    { apply Z.eqb_eq in B24. rewrite B24 in Hfit.
      change (24 / 8) with 3 in Hfit.
      destruct (compression m =? BI_RGB);
        [apply decode_bgr24_on_same; assumption|].
      destruct (is_embedded (compression m)); [|reflexivity].
      apply expose_embedded_stream_on_same. }
    destruct (bpp m =? 32) eqn:B32; [|reflexivity].
    apply Z.eqb_eq in B32. rewrite B32 in Hfit.
    change (32 / 8) with 4 in Hfit.
    destruct (compression m =? BI_RGB);
      [apply decode_bitfields_on_same; simpl;
         (assumption || (right; reflexivity))|].
    destruct (is_bitfields (compression m));
      [apply decode_bitfields_on_same;
         (assumption || (right; reflexivity))|].
    destruct (is_embedded (compression m)); [|reflexivity].
    apply expose_embedded_stream_on_same.
Qed.
End RegionDecoders.

Lemma same_region_take (n : Z) (p q : list byte) :
  n <= Z.of_nat (length p) -> n <= Z.of_nat (length q) ->
  take (Z.to_nat n) p = take (Z.to_nat n) q ->
  same_region n p q.
Proof.
  intros Lp Lq E. split; [exact Lp|]. split; [exact Lq|].
  intros i Hi.
  rewrite <- (lookup_take_lt p (Z.to_nat n)) by lia.
  rewrite <- (lookup_take_lt q (Z.to_nat n)) by lia.
  rewrite E. reflexivity.
Qed.

(** X19: every decoding path reads the pixel region only.  For a header
    whose rows fit the 32-bit stride, two buffers that hold the same
    [pix_size] bytes at the pixel pointer are decoded alike by the
    dispatch, on every allocator: same image, same [ParseError], same
    exception, same fault; what follows the region has no influence. *)
Theorem decoders_read_region_only (alloc : allocator)
    (pix pix' : list byte) (pix_size : Z) (img : Image) :
  let m := meta img in
  - 2 ^ 31 <= width m < 2 ^ 31 -> - 2 ^ 31 <= height m < 2 ^ 31 ->
  row_fits_32 m ->
  0 <= pix_size < 2 ^ 63 ->
  pix_size <= Z.of_nat (length pix) -> pix_size <= Z.of_nat (length pix') ->
  take (Z.to_nat pix_size) pix = take (Z.to_nat pix_size) pix' ->
  decode_pixels_on alloc pix pix_size img
  = decode_pixels_on alloc pix' pix_size img.
Proof.
  intros m Hw Hh Hfit Hp Lp Lq E.
  apply decode_pixels_on_same; try assumption.
  apply same_region_take; assumption.
Qed.

Lemma decoders_read_region_only_witness :
  decode_pixels_on granted (bytes_of [1; 2; 3; 0; 9; 9]) 4
    (Image_init (set_dims Metadata_init 1 1 1 24) [])
  = decode_pixels_on granted (bytes_of [1; 2; 3; 0; 7; 7; 7]) 4
      (Image_init (set_dims Metadata_init 1 1 1 24) []).
Proof.
  apply (decoders_read_region_only granted
           (bytes_of [1; 2; 3; 0; 9; 9]) (bytes_of [1; 2; 3; 0; 7; 7; 7]) 4
           (Image_init (set_dims Metadata_init 1 1 1 24) [])).
  - simpl. lia.
  - simpl. lia.
  - vm_compute. split; reflexivity.
  - lia.
  - simpl. lia.
  - simpl. lia.
  - reflexivity.
Defined.

(** X20: the bytes after the pixel region have no influence on [parse].
    Two buffers with the same accepted header and palette, whose rows
    fit the 32-bit stride, with a pixel region of the same size and the
    same bytes in it, are parsed alike on every allocator. *)
Theorem parse_reads_region_only (alloc : allocator) (buf buf' : list byte)
    (m : Metadata) :
  let n := Z.of_nat (length buf) in
  let n' := Z.of_nat (length buf') in
  let off := file_offset_pixels m in
  let r := pix_region_size m n in
  n < 2 ^ 63 -> n' < 2 ^ 63 ->
  parse_dib buf = Ok m -> parse_dib buf' = Ok m ->
  read_palette buf m = read_palette buf' m ->
  row_fits_32 m ->
  pix_region_size m n' = r ->
  (forall i, off <= i < off + r ->
     buf !! Z.to_nat i = buf' !! Z.to_nat i) ->
  parse_on alloc buf = parse_on alloc buf'.
Proof.
  intros n n' off r Hn Hn' Ed Ed' Epal Hfit Er Hsame.
  destruct (parse_dib_facts buf m Ed) as [Ho _ _ Hw Hh _ _].
  destruct (parse_dib_facts buf' m Ed') as [Ho' _ _ _ _ _ _].
  fold n off in Ho. fold n' off in Ho'.
  assert (R : forall k, off <= k -> k < 2 ^ 63 ->
            0 <= pix_region_size m k <= k - off).
  { intros k Hk Hk63.
    destruct (pix_region_size_spec m k ltac:(fold off; lia) ltac:(lia))
      as [S1 S2].
    destruct (parse_dib_facts buf m Ed) as [_ _ Hi _ _ _ _].
    destruct (Z.eq_dec (image_size m) 0) as [Z0|NZ];
      [rewrite S2 by lia; fold off; lia|].
    destruct (Z_le_gt_dec (image_size m) (k - file_offset_pixels m))
      as [L|G]; [rewrite S1 by assumption; fold off; lia
                | rewrite S2 by lia; fold off; lia]. }
  pose proof (R n (proj2 Ho) Hn) as Rn. fold r in Rn.
  pose proof (R n' (proj2 Ho') Hn') as Rn'. rewrite Er in Rn'.
  unfold parse_on. fold n n'. rewrite Ed, Ed'.
  rewrite !bind_unfold. simpl bind.
  destruct (validate m) as [m'| | |] eqn:Ev; try reflexivity.
  apply validate_Ok in Ev as [-> _].
  rewrite !bind_unfold. simpl bind. rewrite <- Epal.
  destruct (read_palette buf m) as [pal| | |]; try reflexivity.
  rewrite !bind_unfold. simpl bind. fold off.
  replace (off >? n) with false
    by (symmetry; rewrite Z.gtb_ltb; apply Z.ltb_ge; lia).
  replace (off >? n') with false
    by (symmetry; rewrite Z.gtb_ltb; apply Z.ltb_ge; lia).
  rewrite Er. fold r.
  apply decode_pixels_on_same; simpl; try assumption; [|lia].
  split; [rewrite length_drop; lia|]. split; [rewrite length_drop; lia|].
  intros i Hi. rewrite !lookup_drop.
  replace (Z.to_nat off + Z.to_nat i)%nat with (Z.to_nat (off + i)) by lia.
  apply Hsame. lia.
Qed.

Lemma parse_reads_region_only_witness :
  parse (region_file [9; 9]) = parse (region_file [7; 7]).
Proof.
  unfold parse.
  eapply (parse_reads_region_only granted (region_file [9; 9])
            (region_file [7; 7])).
  - vm_compute. reflexivity.
  - vm_compute. reflexivity.
  - vm_compute. reflexivity.
  - vm_compute. reflexivity.
  - vm_compute. reflexivity.
  - vm_compute. split; reflexivity.
  - vm_compute. reflexivity.
  - cbv zeta. change (file_offset_pixels _) with 54.
    change (pix_region_size _ _) with 4.
    intros i Hi.
    assert (C : i = 54 \/ i = 55 \/ i = 56 \/ i = 57) by lia.
    destruct C as [-> | [-> | [-> | ->]]]; reflexivity.
Defined.

(** ** The pixel region and the wrapped stride (C8) *)

Lemma rd_past_end (p : list byte) (i : Z) :
  Z.of_nat (length p) <= i -> rd p i = Undefined OutOfBoundsRead.
Proof.
  intros Hi. unfold rd, rdb. destruct (i <? 0); [reflexivity|].
  rewrite lookup_ge_None_2 by lia. reflexivity.
Qed.

Lemma le32_past_end (p : list byte) (off : Z) :
  0 <= off -> Z.of_nat (length p) < off + 4 ->
  le32 p off = Undefined OutOfBoundsRead.
Proof.
  intros H0 H1. unfold le32.
  destruct (Z_le_gt_dec (Z.of_nat (length p)) off) as [L|G];
    [rewrite (rd_past_end p off) by lia; reflexivity|].
  destruct (rd_in_range p off) as [b0 ->]; [lia|].
  rewrite bind_unfold. simpl bind.
  destruct (Z_le_gt_dec (Z.of_nat (length p)) (off + 1)) as [L1|G1];
    [rewrite (rd_past_end p (off + 1)) by lia; reflexivity|].
  destruct (rd_in_range p (off + 1)) as [b1 ->]; [lia|].
  rewrite bind_unfold. simpl bind.
  destruct (Z_le_gt_dec (Z.of_nat (length p)) (off + 2)) as [L2|G2];
    [rewrite (rd_past_end p (off + 2)) by lia; reflexivity|].
  destruct (rd_in_range p (off + 2)) as [b2 ->]; [lia|].
  rewrite bind_unfold. simpl bind.
  rewrite (rd_past_end p (off + 3)) by lia. reflexivity.
Qed.

(** A loop whose body faults at [k0], after iterations that go on. *)
Lemma for_range_fault {S : Type} (J : Z -> S -> Prop)
    (body : Z -> S -> result (ctl S)) (lo stop k0 : Z) (f : fault) (s : S) :
  lo <= k0 < stop -> J lo s ->
  (forall k s, lo <= k < k0 -> J k s ->
     exists s', body k s = Ok (Next s') /\ J (k + 1) s') ->
  (forall s, J k0 s -> body k0 s = Undefined f) ->
  for_range lo stop 1 body s = Undefined f.
Proof.
  intros Hk Hs Hgo Hf. unfold for_range.
  assert (G : forall (fuel : nat) (k : Z) (s : S),
            lo <= k <= k0 -> (Z.to_nat (stop - k) <= fuel)%nat -> J k s ->
            for_loop fuel k 1 stop body s = Undefined f).
  { induction fuel as [|fuel IH]; intros k s1 Hkk Hfu Hj; [lia|].
    simpl. replace (k <? stop) with true by (symmetry; apply Z.ltb_lt; lia).
    destruct (Z.eq_dec k k0) as [->|Hne].
    - rewrite (Hf s1 Hj). reflexivity.
    - destruct (Hgo k s1 ltac:(lia) Hj) as (s' & -> & Hj').
      rewrite bind_unfold. simpl bind. apply IH; [lia | lia | exact Hj']. }
  apply G; [lia | lia | exact Hs].
Qed.

(** With a stride of 0 the truncation test passes on any region, and the
    row of [W] pixels is read from a buffer of fewer than [4 * W] bytes. *)
Lemma bitfield_rows_wrapped (pix : list byte) (k : Bitmasks) (W : Z)
    (px : list byte) :
  masks32 k -> Z.of_nat (length pix) < 4 * W -> W <= 2 ^ 30 ->
  Z.of_nat (length px) = W * 4 ->
  bitfield_rows pix k 4 W 1 0 false px = Undefined OutOfBoundsRead.
Proof.
  intros Hk Hn HW Hl. unfold bitfield_rows.
  apply (for_range_fault (fun _ s => s = px) _ 0 1 0); [lia | reflexivity |..].
  - intros r s Hr. lia.
  - intros s ->. change (size_t (0 * 0)) with 0.
    change (u32 (1 - 1 - 0)) with 0. cbv iota.
    set (n := Z.of_nat (length pix)) in *.
    assert (Hq : 0 <= n / 4 /\ 4 * (n / 4) <= n < 4 * (n / 4) + 4)
      by (subst n; Z.div_mod_to_equations; lia).
    rewrite (for_range_fault
               (fun _ s => Z.of_nat (length s) = W * 4)
               _ 0 W (n / 4) OutOfBoundsRead px);
      [reflexivity | lia | exact Hl |..].
    + intros x s Hx Hs.
      destruct (le32_in_range pix (0 + u32 (x * 4))) as [v Ev].
      { rewrite u32_small by lia. lia. }
      { rewrite u32_small by lia. fold n. lia. }
      destruct (bitfield_pixel_total pix k 4 W 0 0 x v s Hk Ev)
        as (s' & -> & Hl' & _); [lia | lia |].
      exists s'. split; [reflexivity|]. lia.
    + intros s Hs. unfold bitfield_pixel. change (4 =? 2) with false.
      cbv iota. rewrite le32_past_end; [reflexivity | |];
        rewrite u32_small by lia; fold n; lia.
Qed.

Lemma decode_pixels_on_rgb32 (alloc : allocator) (pix : list byte)
    (pix_size : Z) (img : Image) :
  bpp (meta img) = 32 -> compression (meta img) = BI_RGB ->
  decode_pixels_on alloc pix pix_size img
  = decode_bitfields_on alloc pix pix_size
      (set_meta img (set_masks (meta img) true default_masks32)) 4.
Proof.
  intros Hb Hc. unfold decode_pixels_on. rewrite Hb, Hc. reflexivity.
Qed.

(** A row of [W] 32-bit pixels whose stride has wrapped to 0, on fewer
    than [4 * W] bytes: whatever the region, the truncation test passes,
    the vector is asked for the row, and the row is read past the end of
    the buffer. *)
Lemma decode_bitfields_on_wrapped (alloc : allocator) (pix : list byte)
    (pix_size : Z) (img : Image) (W : Z) :
  let m := meta img in
  abs_width m = Ok W -> abs_height m = 1 -> top_down m = false ->
  row_stride_aligned W 32 = 0 -> 0 <= pix_size ->
  has_masks m = true -> looks8 (masks m) = true -> masks32 (masks m) ->
  Z.of_nat (length pix) < 4 * W -> 0 <= W <= 2 ^ 30 ->
  serves_or_throws alloc ->
  decode_bitfields_on alloc pix pix_size img 4
  = (_ ← alloc (W * 4); Undefined OutOfBoundsRead).
Proof.
  intros m EW EH Etd Es Hp Hm Hl8 Hk Hn HW Ha.
  unfold decode_bitfields_on. fold m. rewrite EW, EH, Etd, Hm, Hl8.
  rewrite !bind_unfold. simpl bind.
  change (u16 (u32 (4 * 8))) with 32. rewrite Es.
  change (size_t (0 * 1)) with 0.
  replace (0 >? pix_size) with false
    by (symmetry; rewrite Z.gtb_ltb; apply Z.ltb_ge; lia).
  cbv iota. rewrite Z.mul_1_r. rewrite (size_t_small (W * 4)) by lia.
  destruct (Ha (W * 4)) as [E|[e E]]; rewrite E; [|reflexivity].
  rewrite !bind_unfold. simpl bind.
  rewrite bitfield_rows_wrapped; [reflexivity | exact Hk | exact Hn | lia |].
  rewrite length_zeroed. lia.
Qed.

(** C8 fails on [region_wrap_file]: image_size is 4 and 8 bytes follow
    the header, so the pixel region is the first 4 of them.  The row
    stride of 2^30 pixels of 32 bits wraps to 0, the truncation test
    compares 0 with the 4 bytes of the region and passes, and the row
    loop reads a pixel every 4 bytes from the pixel pointer on: it leaves
    the region after the first pixel and the buffer after the second.
    On the vector's allocator the run ends there unless the request for
    the 2^32 bytes of the row is refused. *)
Theorem stride_wrap_reads_past_region :
  exists m,
    parse_dib region_wrap_file = Ok m
    /\ image_size m = 4
    /\ Z.of_nat (length region_wrap_file) - file_offset_pixels m = 8
    /\ pix_region_size m (Z.of_nat (length region_wrap_file)) = 4
    /\ row_stride_aligned (2 ^ 30) 32 = 0
    /\ parse region_wrap_file = Undefined OutOfBoundsRead
    /\ forall avail,
         parse_on (vector_alloc avail) region_wrap_file
         = if avail <? 2 ^ 32 then Thrown bad_alloc
           else Undefined OutOfBoundsRead.
Proof.
  set (n := Z.of_nat (length region_wrap_file)).
  destruct (parse_dib region_wrap_file) as [m| | |] eqn:Ed;
    try (vm_compute in Ed; discriminate).
  assert (F : validate m = Ok m
              /\ image_size m = 4 /\ n - file_offset_pixels m = 8
              /\ pix_region_size m n = 4
              /\ bpp m = 32 /\ compression m = BI_RGB
              /\ abs_width m = Ok (2 ^ 30) /\ abs_height m = 1
              /\ top_down m = false
              /\ (file_offset_pixels m >? n) = false
              /\ Z.of_nat (length (drop (Z.to_nat (file_offset_pixels m))
                                     region_wrap_file)) = 8).
  { vm_compute in Ed. injection Ed as <-. repeat split; reflexivity. }
  destruct F as (Ev & Fi & Fr & Fp & Fb & Fc & FW & FH & Ftd & Fo & Fl).
  destruct (read_palette_total region_wrap_file m Ed) as (pal & Epal & _).
  assert (R : forall alloc, serves_or_throws alloc ->
            parse_on alloc region_wrap_file
            = (_ ← alloc (2 ^ 30 * 4); Undefined OutOfBoundsRead)).
  { intros alloc Ha. unfold parse_on. fold n. rewrite Ed.
    rewrite bind_unfold. simpl bind. rewrite Ev.
    rewrite bind_unfold. simpl bind. rewrite Epal.
    rewrite bind_unfold. simpl bind. rewrite Fo, Fp.
    rewrite decode_pixels_on_rgb32 by assumption.
    apply decode_bitfields_on_wrapped; try assumption; try reflexivity.
    - lia.
    - unfold masks32. simpl. lia.
    - simpl meta. rewrite Fl. lia.
    - lia. }
  exists m. split; [reflexivity|].
  split; [exact Fi|]. split; [exact Fr|]. split; [exact Fp|].
  split; [reflexivity|]. split.
  - unfold parse. rewrite (R granted granted_serves). reflexivity.
  - intros avail.
    rewrite (R _ (vector_alloc_serves_or_throws avail)).
    unfold vector_alloc. change (2 ^ 30 * 4 >? max_size) with false.
    cbv iota. rewrite Z.gtb_ltb. change (2 ^ 30 * 4) with (2 ^ 32).
    destruct (avail <? 2 ^ 32); reflexivity.
Qed.
